(* ===== verification/_CoqProject ===== *)
-Q . S2P
Prelude.v
Buffer.v
GoStd.v
Float64.v
Domain.v
Files.v
Variables.v
MaxFailures.v
Job.v
JobLoad.v
Build.v
Inventory.v
Credentials.v
Classify.v
Exec.v
Dial.v
KnownHosts.v
Bastion.v
Report.v
Duration.v
Runner.v
Flags.v
Shown.v
Keeps.v
TransportSpec.v
StepSpec.v
ConnectSpec.v
Comeback.v
RunnerSpec.v
Script.v
TestServer.v
Network.v
Schedule.v
Progress.v
Prepare.v
Reports.v
Cli.v
Program.v
