(* ===== verification/Prelude.v ===== *)
(** * RCO: a verification development

    RCO (remote-command-orchestrator, [src/cmd/rco] and [src/internal]) runs the
    commands, scripts and uploads of a job on many Linux hosts over SSH.  This
    library translates its Go code into executable definitions and proves what
    the program promises: nothing is contacted without [--execute] and without
    every check having passed, every host gets exactly the requests of its plan,
    no run ends without a result per host, and no secret is shown.

    ** How the program works, and where its parts are modelled

    A command line goes through these parts, in this order.

    - [cli/cli.go]: [Main] reads the flags and calls [run].  [Flags] has the table
      of flags with its aliases, their parsing and the help text; [Cli] has [Main],
      [run], the previews, the result tables and the exit codes.
    - [job/job.go], [job/variables.go], [job/build.go]: a job file is read
      ([Files], [JobLoad]), validated ([Job], with the failure limit in
      [MaxFailures]), its templates are resolved ([Variables]) and its steps
      become shell command lines ([Build]).
    - [inventory/inventory.go]: hosts, groups, defaults and bastions are loaded,
      merged, resolved and selected ([Inventory]).
    - [credentials/credentials.go]: passwords and keys, and the redactor through
      which every text goes that is shown ([Credentials]).
    - [runner/runner.go], [Prepare]: every target is resolved, built and checked
      before any is contacted ([Prepare]).
    - [runner/runner.go], [Run]: all hosts, a bounded number at a time
      ([Schedule]), with its progress log ([Progress]); [runHost]: one host from
      the connection to its last step ([Runner]).
    - [sshx/]: connections and host keys ([Dial], and [KnownHosts] for the one
      known_hosts that all hosts of a run share), shared bastion connections
      ([Bastion]), commands and keepalives ([Exec]), bounded output ([Buffer]),
      classification of errors ([Classify]).
    - [runner/report.go], [cli/reports.go]: results, their durations ([Report],
      [Duration]), streamed reports and [--only-failed] ([Reports]).
    - [sshtest/server.go]: the SSH server of the tests ([TestServer]), which acts
      out what reboots and dead links do to a host.

    This file has what all the others share: results ([res]), lemmas on lists and
    byte strings, the hint database [rco].  [Domain] has the types of
    [domain/domain.go] and Go's error chains.  [GoStd] and [Float64] model what the code uses of Go's standard library; what Go leaves
    open (the order of map iteration, the order [sort.Slice] gives to equal
    elements, Unicode's tables, regular expressions) is the class [GoRuntime], so
    that the theorems hold for every choice.

    ** How Go is translated

    Records have the fields of the structs; a pointer or a slice that may be nil is
    an [option].  A call that returns a value and an error returns a [res].  A
    panic is [None], or [Panic] in the monad of [Runner]; the theorems show under
    which conditions there is none.  Strings are byte strings.  Integers are [Z]; where they can
    overflow the operation is followed by [wrap64].  Floating-point numbers are
    those of [SpecFloat].  Maps are [gmap]s, and iteration goes through the
    permutations of [GoRuntime].  Code that shares state between goroutines
    ([Bastion], [KnownHosts], [Schedule], the counters of [TestServer]) is a step
    relation whose steps are the atomic actions; the code of one goroutine is a
    function.

    ** The interfaces

    - [Transport] (in [Runner]) are the operations of a connection as [runHost]
      uses them, [TransportLaws] (in [TransportSpec]) is what the theorems need of
      them.  [Network] is the transport of a real run, made of [Dial], the pool
      and [Exec]; [net_transport_laws] discharges the laws.  [Script] is one whose
      hosts answer from a script, for the concrete runs; [TestServer] is one whose
      only host is the server of the tests ([rig_laws]).
    - [comes_back] (in [Comeback]) says of a transport that a host comes back after a
      reboot; [rig_comes_back] shows it of the server of the tests.
    - [Keeps] says which predicates on the state a host's run keeps; with it
      [Network] shows to whom the commands of a plan go.
    - [Schedule] is proved for any relation [outcome] of results of a host and
      then applied to [runHost].
    - [cli_env] (in [Cli]) are the files, decoders, encoders and the run itself as
      [run] uses them; [Program] puts [Cli], [Prepare], [Schedule] and [RunnerSpec]
      together.

    ** What the theorems show

    - The whole program ([Cli], [Program]): only a literal [--execute] of [run]
      makes it contact hosts ([contact_typed_out]), after every check
      ([run_contacts]); exit codes ([run_exit_code], [execute_complete]); no secret
      in a report ([execute_silent]), where a secret has at least three bytes, no
      brackets and is not part of the redactor's own markers.
    - Hosts ([StepSpec], [ConnectSpec], [RunnerSpec], [Shown]): termination, the
      requests that are sent, retries, where a host stops, its status, its
      connections, waiting for a reboot, which succeeds when the host comes back in
      time ([reboot_succeeds]); in every interleaving of a run ([Schedule]) the limits
      hold and every plan gets one result, and its progress log is consistent
      ([Progress]).
    - Connections ([Dial], [KnownHosts], [Network], [Bastion], [Exec], [Buffer]): only
      trusted host keys, and commands only to servers that have them
      ([runHost_trusted]); handshakes at the same time agree on the key of a new
      host ([first_use]); callers that share a bastion share its result; a stream is shown and
      searched as the whole of what was written, however it was cut into writes, in
      bounded memory ([writes_bounded]).
    - Checking ([Job], [Variables], [Inventory], [JobLoad], [Prepare]): each
      function succeeds exactly for the inputs of a declarative specification,
      and computes what it says.
    - Texts ([Build], [Credentials], [Duration], [Flags], [Reports]): quoting is
      undone by the shell, exports are read back, durations, settings and reports
      are read back, redacted texts contain no secret, under
      the same conditions.

    ** Fuel

    Structural recursion is used where the code allows it.  [connect] and
    [wait_loop] of [Runner] take fuel: the retries plus one are enough for the
    first; each turn of the second sleeps [reconnectDelay], so that
    [wait_fuel timeout] turns are enough.  [runnable] collects these bounds,
    [runHost_total] shows that they suffice, and [run_fuel] is one that suffices
    for every plan of a valid job.  [strings.Trim] of [GoStd], [ParseDuration] of
    [Duration] and the specification of the shell in [Build] take the length of
    their text as fuel.

    ** Not modelled

    - [cmd/rco/main.go]: one call of [Main].
    - [slog]: the log lines other than those of the progress log.
    - In [TestServer], the copying of bytes over a forwarded connection and the
      signals that kill a command before its time; shell commands are a parameter.
    - The YAML and JSON syntax: decoders and encoders are parameters, and so
      are SHA-256, [text/tabwriter], the regular expressions of a job, the
      operating system, the network and x/crypto/ssh (key parsing, the SSH
      protocol).  What is assumed of them is stated by the theorems that use it.
    - The two writers of a command: the texts it writes are a list, and writing
      them does not fail. *)

From stdpp Require Export base tactics option list gmap strings sorting numbers pretty.
From Stdlib Require Export Ascii Lia.

#[global] Set Default Goal Selector "!".
#[global] Arguments Nat.div : simpl never.
#[global] Arguments Nat.mul : simpl never.

(** ** Results: the (value, error) pairs of Go *)

(** A Go call that returns [(T, error)] returns a [res]: the code never looks
    at the value once the error is not nil. *)
Inductive res (E A : Type) : Type :=
| Ok (a : A)
| Err (e : E).
Arguments Ok {E A} a.
Arguments Err {E A} e.

Definition is_ok {E A} (r : res E A) : bool :=
  match r with Ok _ => true | Err _ => false end.

Definition res_bind {E A B} (r : res E A) (f : A → res E B) : res E B :=
  match r with Ok a => f a | Err e => Err e end.

Declare Scope rco_scope.
Delimit Scope rco_scope with rco.
Notation "'let?' x ':=' r 'in' k" := (res_bind r (fun x => k))
  (at level 10, x name, r at level 100, k at level 200) : rco_scope.
Open Scope rco_scope.

#[global] Instance res_eq_dec {E A} `{!EqDecision E, !EqDecision A} : EqDecision (res E A).
Proof. solve_decision. Defined.

Lemma res_bind_Ok {E A B} (r : res E A) (f : A → res E B) b :
  res_bind r f = Ok b ↔ ∃ a, r = Ok a ∧ f a = Ok b.
Proof. destruct r; simpl; naive_solver. Qed.

(** [mapM] for [res]: the first error stops the loop. *)
Fixpoint res_mapM {E A B} (f : A → res E B) (l : list A) : res E (list B) :=
  match l with
  | [] => Ok []
  | x :: l =>
      let? y := f x in
      let? ys := res_mapM f l in
      Ok (y :: ys)
  end.

Lemma res_mapM_Ok {E A B} (f : A → res E B) l ys :
  res_mapM f l = Ok ys ↔ Forall2 (λ x y, f x = Ok y) l ys.
Proof.
  revert ys. induction l as [|x l IH]; intros ys; simpl.
  - split; [by intros [= <-]|]. by intros ->%Forall2_nil_inv_l.
  - rewrite res_bind_Ok. setoid_rewrite res_bind_Ok. split.
    + intros (y & Hy & ys' & Hys & [= <-]). constructor; [done|]. by apply IH.
    + intros (y & ys' & Hy & Hys & ->)%Forall2_cons_inv_l.
      exists y. split; [done|]. exists ys'. by rewrite IH.
Qed.

Lemma res_mapM_length {E A B} (f : A → res E B) l ys :
  res_mapM f l = Ok ys → length ys = length l.
Proof. intros H%res_mapM_Ok. by apply Forall2_length in H. Qed.

(** ** Lists of issues *)

Lemma bind_nil {A B} (f : A → list B) l : l ≫= f = [] ↔ ∀ x, x ∈ l → f x = [].
Proof.
  induction l as [|x l IH]; simpl; [set_solver|].
  rewrite app_nil, IH. set_solver.
Qed.

Lemma filter_all {A} (P : A → Prop) `{!∀ x, Decision (P x)} l : Forall P l → filter P l = l.
Proof.
  induction 1 as [|x l Hx _ IH]; [done|]. by rewrite filter_cons_True, IH by done.
Qed.

Lemma StronglySorted_impl {A} (R1 R2 : relation A) l :
  (∀ x y, R1 x y → R2 x y) → StronglySorted R1 l → StronglySorted R2 l.
Proof.
  intros HR. induction 1; constructor; [done|]. eapply Forall_impl; [done|]. auto.
Qed.

Lemma Forall_choice {A B} (R : A → B → Prop) l :
  Forall (λ x, ∃ y, R x y) l → ∃ ys, Forall2 R l ys.
Proof.
  induction 1 as [|x l [y Hy] _ [ys Hys]]; [by exists []|]. exists (y :: ys). by constructor.
Qed.

(** A key that never repeats determines the element. *)
Lemma NoDup_map_inj {A B} (f : A → B) l x y :
  NoDup (map f l) → x ∈ l → y ∈ l → f x = f y → x = y.
Proof.
  intros Hnd [i Hi]%list_elem_of_lookup [j Hj]%list_elem_of_lookup Hf.
  assert (i = j) as ->; [|congruence].
  apply (NoDup_lookup (map f l) i j (f x)); [done|..]; rewrite list_lookup_fmap.
  - by rewrite Hi.
  - by rewrite Hj, Hf.
Qed.
Lemma NoDup_map_NoDup {A B} (f : A → B) l : NoDup (map f l) → NoDup l.
Proof. apply NoDup_fmap_1. Qed.

(** A list sorted by a key that never repeats is determined by its elements. *)
Lemma sorted_by_key_unique {A B} (f : A → B) (R : relation B) `{!AntiSymm (=) R} l1 l2 :
  StronglySorted (λ x y, R (f x) (f y)) l1 → StronglySorted (λ x y, R (f x) (f y)) l2 →
  NoDup (map f l1) → NoDup (map f l2) → (∀ x, x ∈ l1 ↔ x ∈ l2) → l1 = l2.
Proof.
  intros H1 H2 Hn1 Hn2 Hel. eapply StronglySorted_unique_strong; [|done..|].
  - intros x y Hx Hy Hxy Hyx. apply Hel in Hx. apply (NoDup_map_inj f l2); [done..|].
    by apply (anti_symm R).
  - apply NoDup_Permutation; [by eapply NoDup_map_NoDup..|done].
Qed.

(** ** Keeping first occurrences *)

(** The loop with a map [seen] that skips what it has already met. *)
Fixpoint dedup (seen : gset string) (l : list string) : list string :=
  match l with
  | [] => []
  | t :: l => if decide (t ∈ seen) then dedup seen l else t :: dedup ({[t]} ∪ seen) l
  end.

(** The first occurrences. *)
Definition firsts (l : list string) : list string := reverse (remove_dups (reverse l)).

Lemma remove_dups_snoc (l : list string) t :
  remove_dups (l ++ [t]) = filter (.≠ t) (remove_dups l) ++ [t].
Proof.
  induction l as [|x l IH]; simpl; [done|].
  repeat case_decide; rewrite ?IH, ?filter_cons; repeat case_decide; try done;
    exfalso; set_solver.
Qed.

Lemma firsts_cons t l : firsts (t :: l) = t :: filter (.≠ t) (firsts l).
Proof.
  unfold firsts. by rewrite reverse_cons, remove_dups_snoc, reverse_snoc, filter_reverse.
Qed.

Lemma dedup_filter seen l : dedup seen l = filter (.∉ seen) (firsts l).
Proof.
  revert seen. induction l as [|t l IH]; intros seen; simpl; [done|].
  rewrite firsts_cons, filter_cons, list_filter_filter. case_decide as Ht; case_decide; try done.
  - rewrite IH. apply list_filter_iff. intros x. naive_solver.
  - f_equal. rewrite IH. apply list_filter_iff. intros x. set_solver.
Qed.

Lemma dedup_firsts l : dedup ∅ l = firsts l.
Proof. rewrite dedup_filter. apply filter_all, Forall_forall. set_solver. Qed.

Lemma firsts_NoDup l : NoDup (firsts l).
Proof. unfold firsts. rewrite reverse_Permutation. apply NoDup_remove_dups. Qed.
Lemma elem_of_firsts l x : x ∈ firsts l ↔ x ∈ l.
Proof. unfold firsts. by rewrite elem_of_reverse, elem_of_remove_dups, elem_of_reverse. Qed.

(** ** Tactics *)

(** Split every boolean test of the goal and the hypotheses that a [match]
    or an [if] inspects, keeping the equation. *)
Ltac case_all :=
  repeat (case_match; simplify_eq/=; try done).

(** Turn boolean facts into propositions. *)
Ltac bool_to_prop :=
  repeat match goal with
  | H : context [ _ && _ = true ] |- _ => rewrite andb_true_iff in H
  | H : context [ _ || _ = true ] |- _ => rewrite orb_true_iff in H
  | H : context [ _ && _ = false ] |- _ => rewrite andb_false_iff in H
  | H : context [ _ || _ = false ] |- _ => rewrite orb_false_iff in H
  | H : context [ negb _ = true ] |- _ => rewrite negb_true_iff in H
  | H : context [ negb _ = false ] |- _ => rewrite negb_false_iff in H
  | H : context [ bool_decide _ = true ] |- _ => rewrite bool_decide_eq_true in H
  | H : context [ bool_decide _ = false ] |- _ => rewrite bool_decide_eq_false in H
  | |- context [ _ && _ = true ] => rewrite andb_true_iff
  | |- context [ _ || _ = true ] => rewrite orb_true_iff
  | |- context [ _ && _ = false ] => rewrite andb_false_iff
  | |- context [ _ || _ = false ] => rewrite orb_false_iff
  | |- context [ negb _ = true ] => rewrite negb_true_iff
  | |- context [ negb _ = false ] => rewrite negb_false_iff
  | |- context [ bool_decide _ = true ] => rewrite bool_decide_eq_true
  | |- context [ bool_decide _ = false ] => rewrite bool_decide_eq_false
  end.

(** ** Strings

    A Go string is a sequence of bytes; a Rocq [string] is a sequence of
    8-bit characters. *)

Create HintDb rco.

Lemma str_app_nil_l s : "" +:+ s = s.
Proof. done. Qed.
Lemma str_app_cons c s1 s2 : String c s1 +:+ s2 = String c (s1 +:+ s2).
Proof. done. Qed.
Lemma str_app_nil_r s : s +:+ "" = s.
Proof. induction s as [|c s IH]; [done|]. by rewrite str_app_cons, IH. Qed.
Lemma str_app_assoc s1 s2 s3 : (s1 +:+ s2) +:+ s3 = s1 +:+ (s2 +:+ s3).
Proof.
  induction s1 as [|c s1 IH]; [done|]. by rewrite !str_app_cons, IH.
Qed.
Lemma str_length_app s1 s2 :
  String.length (s1 +:+ s2) = String.length s1 + String.length s2.
Proof.
  induction s1 as [|c s1 IH]; [done|]. rewrite str_app_cons. simpl. by rewrite IH.
Qed.
Lemma str_app_inv_l s s1 s2 : s +:+ s1 = s +:+ s2 → s1 = s2.
Proof. apply String.app_inj. Qed.
Lemma str_app_eq_nil s1 s2 : s1 +:+ s2 = "" ↔ s1 = "" ∧ s2 = "".
Proof. destruct s1, s2; naive_solver. Qed.
Lemma str_length_zero s : String.length s = 0 ↔ s = "".
Proof. by destruct s. Qed.
#[export] Hint Rewrite str_app_assoc str_app_nil_r str_app_nil_l str_length_app : rco.

(** [strings.CutPrefix]: the rest of [s] after [p]. *)
Fixpoint strip_prefix (p s : string) : option string :=
  match p, s with
  | "", _ => Some s
  | String a p, String b s => if decide (a = b) then strip_prefix p s else None
  | _, _ => None
  end.

(** [strings.HasPrefix] *)
Definition has_prefix (p s : string) : bool :=
  match strip_prefix p s with Some _ => true | None => false end.

Lemma strip_prefix_Some p s r : strip_prefix p s = Some r ↔ s = p +:+ r.
Proof.
  revert s. induction p as [|a p IH]; intros s; [naive_solver|].
  destruct s as [|b s]; simpl; [naive_solver|].
  rewrite str_app_cons. case_decide; [rewrite IH|]; naive_solver.
Qed.
Lemma strip_prefix_app p r : strip_prefix p (p +:+ r) = Some r.
Proof. by apply strip_prefix_Some. Qed.
Lemma strip_prefix_None p s : strip_prefix p s = None ↔ ∀ r, s ≠ p +:+ r.
Proof.
  destruct (strip_prefix p s) as [r|] eqn:E.
  - apply strip_prefix_Some in E. naive_solver.
  - split; [|done]. intros _ r Hr. apply strip_prefix_Some in Hr. congruence.
Qed.
Lemma has_prefix_true p s : has_prefix p s = true ↔ ∃ r, s = p +:+ r.
Proof.
  unfold has_prefix. destruct (strip_prefix p s) as [r|] eqn:E.
  - apply strip_prefix_Some in E. naive_solver.
  - rewrite strip_prefix_None in E. naive_solver.
Qed.
Lemma has_prefix_false p s : has_prefix p s = false ↔ strip_prefix p s = None.
Proof. unfold has_prefix. by destruct (strip_prefix p s). Qed.
Lemma has_prefix_app p r : has_prefix p (p +:+ r) = true.
Proof. apply has_prefix_true. by exists r. Qed.

(** [sub] occurs in [s]. *)
Definition occurs (sub s : string) : Prop := ∃ a b, s = a +:+ sub +:+ b.

(** [strings.Contains] *)
Fixpoint str_contains (s sub : string) : bool :=
  has_prefix sub s || match s with "" => false | String _ s' => str_contains s' sub end.

Lemma str_contains_spec s sub : str_contains s sub = true ↔ occurs sub s.
Proof.
  induction s as [|c s IH]; simpl; rewrite orb_true_iff, has_prefix_true.
  - split.
    + intros [[r Hr]|]; [|done]. by exists "", r.
    + intros (a & b & H). left. exists b.
      destruct a; [done|]. by rewrite str_app_cons in H.
  - rewrite IH. split.
    + intros [[r Hr]|(a & b & ->)]; [by exists "", r|by exists (String c a), b].
    + intros (a & b & H). destruct a as [|c' a]; [left; by exists b|right].
      rewrite str_app_cons in H. simplify_eq. by exists a, b.
Qed.

#[global] Instance occurs_dec sub s : Decision (occurs sub s).
Proof.
  refine (cast_if (decide (str_contains s sub = true))); by rewrite <- str_contains_spec.
Defined.

Lemma occurs_refl s : occurs s s.
Proof. exists "", "". by rewrite str_app_nil_r. Qed.
Lemma occurs_app_l sub s1 s2 : occurs sub s1 → occurs sub (s1 +:+ s2).
Proof. intros (a & b & ->). exists a, (b +:+ s2). by rewrite !str_app_assoc. Qed.
Lemma occurs_app_r sub s1 s2 : occurs sub s2 → occurs sub (s1 +:+ s2).
Proof. intros (a & b & ->). exists (s1 +:+ a), b. by rewrite str_app_assoc. Qed.
Lemma occurs_cons sub c s : occurs sub s → occurs sub (String c s).
Proof. apply (occurs_app_r sub (String c "")). Qed.
Lemma occurs_length sub s : occurs sub s → String.length sub ≤ String.length s.
Proof. intros (a & b & ->). rewrite !str_length_app. lia. Qed.
Lemma occurs_trans s1 s2 s3 : occurs s1 s2 → occurs s2 s3 → occurs s1 s3.
Proof.
  intros (a & b & ->) (c & d & ->). exists (c +:+ a), (b +:+ d).
  by rewrite !str_app_assoc.
Qed.
#[export] Hint Resolve occurs_refl occurs_app_l occurs_app_r occurs_cons : rco.

(** Every character of a string satisfies [P]. *)
Fixpoint str_forallb (P : ascii → bool) (s : string) : bool :=
  match s with "" => true | String c s => P c && str_forallb P s end.

Lemma str_forallb_app P s1 s2 :
  str_forallb P (s1 +:+ s2) = str_forallb P s1 && str_forallb P s2.
Proof.
  induction s1 as [|c s1 IH]; [done|]. rewrite str_app_cons. simpl.
  by rewrite IH, andb_assoc.
Qed.
#[export] Hint Rewrite str_forallb_app : rco.

(** [strings.Join] *)
Fixpoint str_join (sep : string) (l : list string) : string :=
  match l with
  | [] => ""
  | [s] => s
  | s :: l => s +:+ sep +:+ str_join sep l
  end.

Definition byte_val (c : ascii) : N := N_of_ascii c.

(** ** Byte slices

    A Go [[]byte] whose aliasing does not matter is a [list ascii]. *)

Section list_search.
Context {A : Type} `{!EqDecision A}.
Implicit Types (l sub : list A).

(** [sub] is a contiguous part of [l]. *)
Definition infix_of sub l : Prop := ∃ a b, l = a ++ sub ++ b.

(** [bytes.Contains] *)
Fixpoint list_contains l sub : bool :=
  bool_decide (sub `prefix_of` l) ||
  match l with [] => false | _ :: l' => list_contains l' sub end.

Lemma list_contains_spec l sub : list_contains l sub = true ↔ infix_of sub l.
Proof.
  unfold infix_of, prefix. induction l as [|x l IH]; simpl;
    rewrite orb_true_iff, bool_decide_eq_true; unfold prefix.
  - split; [intros [[r Hr]|]; [|done]; by exists [], r|].
    intros (a & b & H). left. exists b. destruct a; [done|discriminate].
  - rewrite IH. split.
    + intros [[r Hr]|(a & b & ->)]; [by exists [], r|by exists (x :: a), b].
    + intros ([|y a] & b & H); simplify_eq/=; [left; by exists b|right; by exists a, b].
Qed.

(** The last [n] elements: [l[max(0, len(l)-n):]]. *)
Definition last_n (n : nat) l : list A := drop (length l - n) l.

Lemma length_last_n n l : length (last_n n l) = n `min` length l.
Proof. unfold last_n. rewrite length_drop. lia. Qed.
Lemma last_n_app_ge n l1 l2 : n ≤ length l2 → last_n n (l1 ++ l2) = last_n n l2.
Proof.
  intros H. unfold last_n. rewrite length_app, drop_app_ge by lia. f_equal. lia.
Qed.
Lemma last_n_all n l : length l ≤ n → last_n n l = l.
Proof. intros H. unfold last_n. by replace (length l - n) with 0 by lia. Qed.
Lemma last_n_last_n n m l : n ≤ m → last_n n (last_n m l) = last_n n l.
Proof.
  intros H. unfold last_n at 1 2. rewrite length_drop, drop_drop.
  unfold last_n. f_equal. lia.
Qed.
Lemma last_n_app_last_n n m l1 l2 :
  n ≤ m → last_n n (last_n m l1 ++ l2) = last_n n (l1 ++ l2).
Proof.
  intros H. unfold last_n. rewrite !length_app, length_drop.
  destruct (decide (length l1 ≤ m)).
  { replace (length l1 - m) with 0 by lia. rewrite drop_0. f_equal. lia. }
  replace (l1 ++ l2) with (take (length l1 - m) l1 ++ drop (length l1 - m) l1 ++ l2)
    by (rewrite app_assoc, take_drop; done).
  rewrite (drop_app_ge (take _ _)) by (rewrite length_take; lia).
  f_equal. rewrite length_take. lia.
Qed.

(** Appending can only create an occurrence that ends in the new part, and
    such an occurrence starts among the last [length sub - 1] old elements. *)
Lemma infix_of_app n l1 l2 sub :
  sub ≠ [] → length sub ≤ S n →
  infix_of sub (l1 ++ l2) ↔ infix_of sub l1 ∨ infix_of sub (last_n n l1 ++ l2).
Proof.
  intros Hne Hn. split.
  - intros (a & b & E).
    destruct (decide (length a + length sub ≤ length l1)) as [Hle|Hgt].
    + left. exists a, (drop (length a + length sub) l1).
      rewrite app_assoc in E |- *.
      apply (f_equal (take (length a + length sub))) in E.
      rewrite take_app_le in E by lia.
      rewrite take_app_length' in E by (rewrite length_app; lia).
      rewrite <- E. by rewrite take_drop.
    + right. exists (drop (length l1 - n) a), b.
      unfold last_n. apply (f_equal (drop (length l1 - n))) in E.
      rewrite drop_app_le in E by lia. rewrite E.
      by rewrite drop_app_le by lia.
  - intros [(a & b & ->)|(a & b & E)].
    + exists a, (b ++ l2). by rewrite <- !app_assoc.
    + exists (take (length l1 - n) l1 ++ a), b.
      rewrite <- app_assoc, <- E, app_assoc. unfold last_n. by rewrite take_drop.
Qed.
End list_search.

(** Go's [len] as an [int]. *)
Notation zlen l := (Z.of_nat (length l)) (only parsing).

Definition bytes_of (s : string) : list ascii := String.list_ascii_of_string s.
Definition string_of (l : list ascii) : string := String.string_of_list_ascii l.
