(* ===== verification/Buffer.v ===== *)
(** * Buffer: bounded command output ([internal/sshx/buffer.go])

    [Buffer] keeps one stream of output in bounded memory and searches the
    patterns of a step over the whole stream.  The record has the fields of
    the Go struct; [Write], [scan], [Found], [Truncated], [Total] and
    [Output] (the method [String]) are its operations.

    The theorems compare a buffer with the stream [S] of all the bytes written
    to it, whatever the sizes of the writes: what [String] prints, whether it
    is truncated, and which patterns were found depend on [S] only. *)

From S2P Require Import Prelude.

Module Buf.

Record Buffer := mkBuffer {
  limit : nat;
  head : list ascii;
  tail : list ascii;
  total : Z;
  truncated : bool;
  pats : list (list ascii);
  found : list bool;
  carry : list ascii;
  keep : nat;
}.

(** [keep] is the longest pattern's length minus one (0 without patterns). *)
Definition NewBuffer (lim : nat) (patterns : list (list ascii)) : Buffer :=
  {| limit := lim; head := []; tail := []; total := 0; truncated := false;
     pats := patterns; found := replicate (length patterns) false; carry := [];
     keep := foldl (λ k p, k `max` (length p - 1)) 0 patterns |}.

Definition scan (b : Buffer) (p : list ascii) : Buffer :=
  if bool_decide (pats b = []) || bool_decide (p = []) then b
  else
    let buf := carry b ++ p in
    {| limit := limit b; head := head b; tail := tail b; total := total b;
       truncated := truncated b; pats := pats b;
       found := zip_with (λ f pat, f || list_contains buf pat) (found b) (pats b);
       carry := last_n (keep b) buf; keep := keep b |}.

(** The retained bytes after a write of [p]: head, tail and the flag. *)
Definition retain (b : Buffer) (p : list ascii) : list ascii * list ascii * bool :=
  let half := limit b / 2 in
  let '(h, t, tr) :=
    if negb (truncated b) && bool_decide (length (head b) + length p ≤ limit b) then
      (head b ++ p, tail b, truncated b)
    else if negb (truncated b) then
      let all := head b ++ p in (take half all, drop half all, true)
    else (head b, tail b ++ p, truncated b) in
  if bool_decide (2 * half < length t) then (h, drop (length t - half) t, tr)
  else (h, t, tr).

Definition Write (b : Buffer) (p : list ascii) : Buffer :=
  let b := scan {| limit := limit b; head := head b; tail := tail b;
                   total := (total b + zlen p)%Z; truncated := truncated b;
                   pats := pats b; found := found b; carry := carry b;
                   keep := keep b |} p in
  let '(h, t, tr) := retain b p in
  {| limit := limit b; head := h; tail := t; total := total b; truncated := tr;
     pats := pats b; found := found b; carry := carry b; keep := keep b |}.

(** Go panics when [i] is out of range: [None]. *)
Definition Found (b : Buffer) (i : nat) : option bool := found b !! i.
Definition Truncated (b : Buffer) : bool := truncated b.
Definition Total (b : Buffer) : Z := total b.

Definition newline : ascii := "010".

Definition marker (dropped : Z) : list ascii :=
  newline :: bytes_of ("...[truncated " +:+ pretty dropped +:+ " bytes]...") ++ [newline].

(** The method [String]. *)
Definition Output (b : Buffer) : list ascii :=
  if negb (truncated b) then head b
  else
    let t := last_n (limit b / 2) (tail b) in
    let dropped := (total b - zlen (head b) - zlen t)%Z in
    head b ++ marker dropped ++ t.

(** A stream arrives as a sequence of writes. *)
Definition writes (b : Buffer) (chunks : list (list ascii)) : Buffer :=
  foldl Write b chunks.

(** ** Specification: what a stream of bytes shows *)

Definition shown (lim : nat) (S : list ascii) : list ascii :=
  let half := lim / 2 in
  if bool_decide (length S ≤ lim) then S
  else take half S ++ marker (zlen S - 2 * Z.of_nat half) ++ last_n half S.

(** ** Invariant: a buffer that received the stream [S] *)

Record retains (b : Buffer) (S : list ascii) : Prop := {
  ret_total : total b = zlen S;
  ret_trunc : truncated b = bool_decide (limit b < length S);
  ret_head : head b = if truncated b then take (limit b / 2) S else S;
  ret_tail : if truncated b
    then ∃ pre, drop (limit b / 2) S = pre ++ tail b ∧
                (pre = [] ∨ limit b / 2 ≤ length (tail b)) ∧
                length (tail b) ≤ 2 * (limit b / 2)
    else tail b = [];
}.

Record searched (b : Buffer) (S : list ascii) : Prop := {
  sea_carry : pats b ≠ [] → carry b = last_n (keep b) S;
  sea_keep : ∀ pat, pat ∈ pats b → length pat ≤ Datatypes.S (keep b);
  sea_found : Forall2 (λ f pat, pat ≠ [] → f = true ↔ infix_of pat S) (found b) (pats b);
}.

Lemma half_le n : 2 * (n / 2) ≤ n.
Proof. pose proof (Nat.div_mod_eq n 2). lia. Qed.

Lemma scan_fields b p :
  limit (scan b p) = limit b ∧ head (scan b p) = head b ∧ tail (scan b p) = tail b ∧
  total (scan b p) = total b ∧ truncated (scan b p) = truncated b ∧
  pats (scan b p) = pats b ∧ keep (scan b p) = keep b.
Proof. unfold scan. by destruct (_ || _). Qed.

Lemma keep_foldl (patterns : list (list ascii)) (k : nat) (pat : list ascii) :
  pat ∈ patterns ∨ length pat ≤ S k →
  length pat ≤ S (foldl (λ k p, k `max` (length p - 1)) k patterns).
Proof.
  revert k. induction patterns as [|p ps IH]; intros k H; simpl.
  - destruct H as [H|]; [by apply not_elem_of_nil in H|done].
  - apply IH. rewrite elem_of_cons in H.
    destruct H as [[->|H]|H]; [right; lia|by left|right; lia].
Qed.

Lemma NewBuffer_retains lim ps : retains (NewBuffer lim ps) [].
Proof. by split. Qed.

Lemma NewBuffer_searched lim ps : searched (NewBuffer lim ps) [].
Proof.
  split; simpl.
  - done.
  - intros pat H. apply keep_foldl. by left.
  - induction ps as [|p ps IH]; simpl; constructor; [|done].
    intros Hne. split; [done|]. intros (a & b & H).
    by destruct a, p.
Qed.

Lemma scan_searched b p S : searched b S → searched (scan b p) (S ++ p).
Proof.
  intros [Hc Hk Hf]. unfold scan.
  destruct (bool_decide _) eqn:E1; bool_to_prop; simpl.
  { split; [by rewrite E1|done|]. rewrite E1 in Hf |- *.
    apply Forall2_nil_inv_r in Hf as ->. constructor. }
  destruct (bool_decide (p = [])) eqn:E2; bool_to_prop; simpl.
  { rewrite E2, app_nil_r. by split. }
  split; simpl; [|done|].
  - intros _. rewrite (Hc E1). by rewrite last_n_app_last_n.
  - rewrite (Hc E1). clear Hc E1.
    assert (∀ pat, pat ∈ pats b → length pat ≤ Datatypes.S (keep b)) as Hk' by done.
    clear Hk. revert Hk'. generalize (keep b) as k. intros k Hk.
    induction Hf as [|f pat fs ps H _ IH]; simpl; constructor.
    + intros Hne. rewrite (infix_of_app k) by (try done; apply Hk; set_solver).
      rewrite orb_true_iff, list_contains_spec, H; done.
    + apply IH. intros pat' Hin. apply Hk. set_solver.
Qed.

Lemma retain_retains b p S :
  retains b S →
  let '(h, t, tr) := retain b p in
  retains {| limit := limit b; head := h; tail := t; total := (total b + zlen p)%Z;
             truncated := tr; pats := pats b; found := found b; carry := carry b;
             keep := keep b |} (S ++ p).
Proof.
  intros [Htot Htr Hh Ht]. unfold retain.
  pose proof (half_le (limit b)) as Hhalf. set (half := limit b / 2) in *.
  assert (Hlen : (total b + zlen p)%Z = zlen (S ++ p)) by (rewrite length_app; lia).
  destruct (truncated b) eqn:Etr; simpl.
  - (* already truncated: the tail grows *)
    symmetry in Htr. bool_to_prop. destruct Ht as (pre & Hpre & Hor & Hle).
    assert (half ≤ length S) by lia.
    assert (Hd : drop half (S ++ p) = pre ++ tail b ++ p).
    { rewrite drop_app_le by lia. by rewrite Hpre, app_assoc. }
    assert (Hhead : head b = take half (S ++ p)) by (rewrite take_app_le by lia; done).
    destruct (bool_decide _) eqn:E; bool_to_prop; split; simpl; fold half;
      try done; try (symmetry; bool_to_prop; rewrite length_app; lia).
    + exists (pre ++ take (length (tail b ++ p) - half) (tail b ++ p)).
      split; [by rewrite <- app_assoc, take_drop, Hd|].
      rewrite length_drop. split; [right|]; lia.
    + exists pre. split; [done|]. split; [|lia].
      rewrite length_app. destruct Hor; [by left|right; lia].
  - symmetry in Htr. bool_to_prop. subst.
    destruct (bool_decide (length (head b) + length p ≤ _)) eqn:E; bool_to_prop; simpl.
    + (* everything still fits *)
      rewrite bool_decide_false by (rewrite Ht; simpl; lia).
      split; simpl; try done. symmetry. bool_to_prop. rewrite length_app. lia.
    + (* first overflow *)
      set (S := head b) in *.
      assert (half ≤ length (S ++ p)) by (rewrite length_app; lia).
      destruct (bool_decide _) eqn:E2; bool_to_prop; split; simpl; fold half;
        try done; try (symmetry; bool_to_prop; rewrite length_app; lia).
      * exists (take (length (drop half (S ++ p)) - half) (drop half (S ++ p))).
        split; [by rewrite take_drop|]. rewrite !length_drop in *. split; [right|]; lia.
      * exists []. split; [done|]. split; [by left|lia].
Qed.

Lemma Write_fields b p :
  limit (Write b p) = limit b ∧ pats (Write b p) = pats b ∧ keep (Write b p) = keep b.
Proof.
  unfold Write. destruct (retain _ p) as [[h t] tr]. simpl.
  by destruct (scan_fields {| limit := limit b; head := head b; tail := tail b;
    total := (total b + zlen p)%Z; truncated := truncated b; pats := pats b;
    found := found b; carry := carry b; keep := keep b |} p) as (-> & _ & _ & _ & _ & -> & ->).
Qed.

Lemma Write_searched b p S : searched b S → searched (Write b p) (S ++ p).
Proof.
  intros [Hc Hk Hf]. unfold Write.
  set (b1 := {| limit := limit b |}).
  assert (searched b1 S) as H1 by (by split).
  apply (scan_searched b1 p) in H1 as [Hc1 Hk1 Hf1].
  destruct (retain _ p) as [[h t] tr]. by split.
Qed.

Lemma Write_retains b p S : retains b S → retains (Write b p) (S ++ p).
Proof.
  intros [Htot Htr Hh Ht]. unfold Write.
  set (b1 := {| limit := limit b |}).
  destruct (scan_fields b1 p) as (El & Eh & Et & Eto & Etr & Ep & Ek).
  set (b2 := {| limit := limit b; head := head b; tail := tail b; total := total b;
     truncated := truncated b; pats := pats (scan b1 p); found := found (scan b1 p);
     carry := carry (scan b1 p); keep := keep (scan b1 p) |}).
  assert (retains b2 S) as H2 by (by split).
  apply (retain_retains b2 p) in H2.
  assert (retain (scan b1 p) p = retain b2 p) as ->.
  { unfold retain. by rewrite El, Eh, Et, Etr. }
  destruct (retain b2 p) as [[h t] tr]. rewrite El, Eto. apply H2.
Qed.

Lemma writes_inv b chunks S :
  retains b S → searched b S →
  retains (writes b chunks) (S ++ concat chunks) ∧
  searched (writes b chunks) (S ++ concat chunks) ∧
  limit (writes b chunks) = limit b ∧ pats (writes b chunks) = pats b.
Proof.
  revert b S. induction chunks as [|p chunks IH]; intros b S Hr Hs; simpl.
  - by rewrite app_nil_r.
  - rewrite app_assoc. destruct (Write_fields b p) as (<- & <- & _).
    apply IH; [by apply Write_retains|by apply Write_searched].
Qed.

Lemma retains_Output b S : retains b S → Output b = shown (limit b) S.
Proof.
  intros [Htot Htr Hh Ht]. unfold Output, shown.
  pose proof (half_le (limit b)) as Hhalf. set (half := limit b / 2) in *.
  destruct (truncated b) eqn:E; simpl.
  - symmetry in Htr. bool_to_prop. rewrite bool_decide_false by lia.
    destruct Ht as (pre & Hpre & Hor & Hle).
    assert (length pre + length (tail b) = length S - half) as Hlen.
    { rewrite <- length_app, <- Hpre, length_drop. done. }
    assert (half ≤ length (tail b)) as Ht.
    { destruct Hor as [->|]; simpl in *; lia. }
    assert (last_n half (tail b) = last_n half S) as ->.
    { rewrite <- (take_drop half S) at 1. rewrite Hpre.
      rewrite !last_n_app_ge; rewrite ?length_app; try lia. done. }
    rewrite Hh, Htot, length_last_n, length_take.
    replace (_ - _ - _)%Z with (zlen S - 2 * Z.of_nat half)%Z by lia. done.
  - symmetry in Htr. bool_to_prop. by rewrite bool_decide_true by lia.
Qed.

(** ** Properties *)

Lemma writes_spec (lim : nat) (ps : list (list ascii)) (chunks : list (list ascii)) :
  let b := writes (NewBuffer lim ps) chunks in
  let S := concat chunks in
  Output b = shown lim S ∧ Total b = zlen S ∧
  Truncated b = bool_decide (lim < length S) ∧
  ∀ i pat, ps !! i = Some pat → pat ≠ [] →
    Found b i = Some (bool_decide (list_contains S pat = true)).
Proof.
  destruct (writes_inv (NewBuffer lim ps) chunks [] (NewBuffer_retains _ _)
    (NewBuffer_searched _ _)) as (Hr & Hs & Hl & Hp); simpl in *.
  split_and!.
  - rewrite (retains_Output _ _ Hr), Hl. done.
  - apply Hr.
  - unfold Truncated. rewrite (ret_trunc _ _ Hr), Hl. done.
  - intros i pat Hi Hne. destruct Hs as [_ _ Hf]. rewrite Hp in Hf.
    destruct (Forall2_lookup_r _ _ _ _ _ Hf Hi) as (f & Hf' & H).
    unfold Found. rewrite Hf'. f_equal. specialize (H Hne).
    rewrite <- list_contains_spec in H.
    destruct f; symmetry; bool_to_prop; [by apply H|]. intros E. by apply H in E.
Qed.

(** C34: after any sequence of writes, the buffer shows exactly what the
    concatenated stream shows (everything up to [limit] bytes; beyond that the
    first and last [limit/2] bytes around a marker with the exact number of
    dropped bytes), counts its bytes, says whether bytes were dropped, and
    [Found i] holds iff the [i]-th (non-empty) pattern occurs anywhere in the
    stream, even in the dropped middle or across two writes. *)
Theorem writes_refine (lim : nat) (ps : list (list ascii)) (chunks : list (list ascii)) :
  let b := writes (NewBuffer lim ps) chunks in
  let S := concat chunks in
  Output b = shown lim S ∧ Total b = zlen S ∧
  Truncated b = bool_decide (lim < length S) ∧
  ∀ i pat, ps !! i = Some pat → pat ≠ [] →
    Found b i = Some (bool_decide (list_contains S pat = true)).
Proof. apply writes_spec. Qed.

Lemma writes_keep b chunks : keep (writes b chunks) = keep b.
Proof.
  revert b. induction chunks as [|p chunks IH]; intros b; [done|]. simpl. rewrite IH.
  unfold Write. destruct (retain _ p) as [[h t] tr]. simpl. unfold scan. by destruct (_ || _).
Qed.
Lemma keep_bound (n : nat) (ps : list (list ascii)) (k : nat) :
  (∀ pat, pat ∈ ps → length pat ≤ S n) → k ≤ n → foldl (λ k p, k `max` (length p - 1)) k ps ≤ n.
Proof.
  revert k. induction ps as [|p ps IH]; intros k Hps Hk; simpl; [done|].
  apply IH; [set_solver|]. specialize (Hps p ltac:(set_solver)). lia.
Qed.

(** A number below [10 ^ k] has at most [k] digits. *)
Lemma digits_bound (x : N) (k : nat) (acc : string) :
  (x < 10 ^ N.of_nat k)%N → String.length (pretty_N_go x acc) ≤ k + String.length acc.
Proof.
  revert x acc. induction k as [|k IH]; intros x acc Hx.
  { assert (x = 0%N) as -> by (simpl in Hx; lia). rewrite pretty_N_go_0. lia. }
  destruct (decide (x = 0%N)) as [->|Hne]; [rewrite pretty_N_go_0; lia|].
  rewrite pretty_N_go_step by lia. etrans; [apply IH|simpl; lia].
  apply N.Div0.div_lt_upper_bound. rewrite Nat2N.inj_succ, N.pow_succ_r' in Hx. lia.
Qed.
Lemma pretty_length (z : Z) (k : nat) :
  1 ≤ k → (0 ≤ z < 10 ^ Z.of_nat k)%Z → String.length (pretty z) ≤ k.
Proof.
  intros Hk [H0 Hz]. destruct z as [|x|x]; [simpl; lia| |lia].
  assert (pretty (Z.pos x) = pretty_N_go (N.pos x) "") as -> by done.
  rewrite <- (Nat.add_0_r k). apply (digits_bound _ _ ""). lia.
Qed.
Lemma marker_length (z : Z) (k : nat) :
  1 ≤ k → (0 ≤ z < 10 ^ Z.of_nat k)%Z → length (marker z) ≤ 26 + k.
Proof.
  intros Hk Hz. pose proof (pretty_length z k Hk Hz) as Hp.
  assert (∀ s1 s2, length (bytes_of (s1 +:+ s2)) = length (bytes_of s1) + length (bytes_of s2)) as Happ.
  { induction s1 as [|c s1 IH]; intros s2; [done|]. simpl. f_equal. apply IH. }
  assert (∀ s, length (bytes_of s) = String.length s) as Hlen.
  { induction s as [|c s IH]; [done|]. simpl. f_equal. exact IH. }
  unfold marker. cbn [length]. rewrite length_app, !Happ, !(Hlen (pretty z)). simpl. lia.
Qed.

Lemma shown_length lim S k :
  1 ≤ k → (zlen S < 10 ^ Z.of_nat k)%Z → length (shown lim S) ≤ lim + 26 + k.
Proof.
  intros Hk HS. pose proof (half_le lim). unfold shown. case_bool_decide; [lia|].
  rewrite !length_app, length_take, length_last_n.
  pose proof (marker_length (zlen S - 2 * Z.of_nat (lim / 2)) k Hk). lia.
Qed.

(** C35: however long the stream is and however it is cut into writes, the
    buffer retains at most one and a half times its limit; what is carried from one
    write to the next is shorter than the longest pattern; and the text shown is at
    most the limit, a marker of 26 bytes and the digits of a count (at most 19, as the
    total is an [int64]). *)
Theorem writes_bounded (lim : nat) (ps : list (list ascii)) (chunks : list (list ascii)) :
  let b := writes (NewBuffer lim ps) chunks in
  2 * (length (head b) + length (tail b)) ≤ 3 * lim ∧
  (∀ n, ps ≠ [] → (∀ pat, pat ∈ ps → length pat ≤ S n) → length (carry b) ≤ n) ∧
  ∀ k, 1 ≤ k → (Total b < 10 ^ Z.of_nat k)%Z → length (Output b) ≤ lim + 26 + k.
Proof.
  destruct (writes_inv (NewBuffer lim ps) chunks [] (NewBuffer_retains _ _)
    (NewBuffer_searched _ _)) as (Hr & Hs & Hl & Hp); simpl in *.
  pose proof (half_le lim). split_and!.
  - destruct Hr as [_ Htr Hh Ht]. rewrite Hl in *.
    destruct (truncated _) eqn:E; symmetry in Htr; bool_to_prop.
    + destruct Ht as (pre & _ & _ & Hle). rewrite Hh, length_take. lia.
    + rewrite Hh, Ht. simpl. lia.
  - intros n Hne Hn. rewrite (sea_carry _ _ Hs) by (by rewrite Hp).
    rewrite length_last_n, writes_keep. pose proof (keep_bound n ps 0 Hn). simpl. lia.
  - intros k Hk Ht. rewrite (retains_Output _ _ Hr), Hl. apply shown_length; [done|].
    unfold Total in Ht. by rewrite (ret_total _ _ Hr) in Ht.
Qed.

(** 30 bytes through a buffer of 10: 20 bytes are left out, and the text has 38. *)
Lemma writes_bounded_witness :
  let b := writes (NewBuffer 10 [bytes_of "needle"]) (replicate 6 (bytes_of "abcde")) in
  length (carry b) ≤ 5 ∧ length (Output b) ≤ 10 + 26 + 2 ∧ length (Output b) = 38.
Proof.
  intros b. destruct (writes_bounded 10 [bytes_of "needle"] (replicate 6 (bytes_of "abcde"))) as (_ & Hc & Ho).
  split_and!; [apply Hc| |by vm_compute].
  - done.
  - intros pat ->%list_elem_of_singleton. by vm_compute.
  - apply Ho; [lia|by vm_compute].
Defined.

End Buf.
