(* ===== verification/GoStd.v ===== *)
(** * GoStd: the parts of Go and of its standard library the program uses

    Executable models of [strings], [strconv], [fmt] verbs, [net.JoinHostPort],
    [time.Duration] and [unicode/utf8], written on byte strings.  What the Go
    specification leaves open (the iteration order of maps, the order
    [sort.Slice] gives to equal elements), Unicode's table of printable
    characters and the engine of [regexp] are the fields of [GoRuntime]; every
    definition that meets one of them is parameterised by that class, so a
    theorem holds whatever the runtime does. *)

From Stdlib Require Export SpecFloat.
From S2P Require Import Prelude.

(** ** Integers *)

(** [int], [int64] and [time.Duration] are 64-bit two's complement. *)
Definition wrap64 (z : Z) : Z := ((z + 2 ^ 63) mod 2 ^ 64 - 2 ^ 63)%Z.

Lemma wrap64_id z : (- 2 ^ 63 ≤ z < 2 ^ 63)%Z → wrap64 z = z.
Proof. intros H. unfold wrap64. rewrite Z.mod_small; lia. Qed.
Lemma wrap64_range z : (- 2 ^ 63 ≤ wrap64 z < 2 ^ 63)%Z.
Proof. unfold wrap64. pose proof (Z.mod_pos_bound (z + 2 ^ 63) (2 ^ 64)). lia. Qed.

(** [strconv.Itoa] and the verb [%d]. *)
Definition itoa (z : Z) : string := pretty z.

#[global] Instance itoa_inj : Inj (=) (=) itoa.
Proof. unfold itoa. apply _. Qed.

Definition hex_digit (n : N) : ascii :=
  ascii_of_N (if (n <? 10)%N then 48 + n else 87 + n)%N.
Fixpoint hex_digits (w : nat) (n : N) : string :=
  match w with
  | O => ""
  | S w => hex_digits w (n / 16) +:+ String (hex_digit (n mod 16)) ""
  end.

(** ** Characters *)

Definition in_range (lo hi : ascii) (c : ascii) : bool :=
  (byte_val lo <=? byte_val c)%N && (byte_val c <=? byte_val hi)%N.
Definition is_alpha (c : ascii) : bool := in_range "a" "z" c || in_range "A" "Z" c.
Definition is_digit (c : ascii) : bool := in_range "0" "9" c.
Definition is_alnum (c : ascii) : bool := is_alpha c || is_digit c.
(** [\s] of a regular expression. *)
Definition is_re_space (c : ascii) : bool :=
  bool_decide (c ∈ ["009"; "010"; "012"; "013"; " "]%char).

(** ** UTF-8 *)

(** [utf8.DecodeRuneInString]: the rune and its width; an invalid encoding is
    [(0xFFFD, 1)]. *)
Definition rune_error : N := 65533.
Definition cont (c : ascii) : bool := in_range "128" "191" c.
Definition low6 (c : ascii) : N := (byte_val c mod 64)%N.

Definition decode_rune (s : string) : N * nat :=
  match s with
  | "" => (rune_error, 0)
  | String a s1 =>
      let va := byte_val a in
      if (va <? 128)%N then (va, 1)
      else
        let bad := (rune_error, 1) in
        if in_range "194" "223" a then
          match s1 with
          | String b _ => if cont b then (((va - 192) * 64 + low6 b)%N, 2) else bad
          | "" => bad
          end
        else if in_range "224" "239" a then
          let lo := if bool_decide (a = "224"%char) then "160"%char else "128"%char in
          let hi := if bool_decide (a = "237"%char) then "159"%char else "191"%char in
          match s1 with
          | String b (String c _) =>
              if in_range lo hi b && cont c
              then ((((va - 224) * 64 + low6 b) * 64 + low6 c)%N, 3) else bad
          | _ => bad
          end
        else if in_range "240" "244" a then
          let lo := if bool_decide (a = "240"%char) then "144"%char else "128"%char in
          let hi := if bool_decide (a = "244"%char) then "143"%char else "191"%char in
          match s1 with
          | String b (String c (String d _)) =>
              if in_range lo hi b && cont c && cont d
              then (((((va - 240) * 64 + low6 b) * 64 + low6 c) * 64 + low6 d)%N, 4) else bad
          | _ => bad
          end
        else bad
  end.

(** [for _, r := range s]: the runes of [s], each with its bytes. *)
Fixpoint str_take (n : nat) (s : string) : string :=
  match n, s with S n, String c s => String c (str_take n s) | _, _ => "" end.

Fixpoint runes_go (skip : nat) (s : string) : list (N * string) :=
  match s with
  | "" => []
  | String _ s' =>
      match skip with
      | S k => runes_go k s'
      | O => let '(r, w) := decode_rune s in (r, str_take w s) :: runes_go (w - 1) s'
      end
  end.
Definition runes (s : string) : list (N * string) := runes_go 0 s.

(** ** Duration *)

Definition nanosecond : Z := 1.
Definition microsecond : Z := 1000.
Definition millisecond : Z := 1000000.
Definition second : Z := 1000000000.
Definition minute : Z := 60 * second.
Definition hour : Z := 60 * minute.

(** [fmtFrac]: the fraction [v / 10^prec] without trailing zeros (nor the point
    when it is zero), and the integer part. *)
Fixpoint fmt_frac (prec : nat) (v : Z) (printing : bool) (acc : string) : string * Z :=
  match prec with
  | O => (if printing then "." +:+ acc else acc, v)
  | S prec =>
      let d := (v mod 10)%Z in
      let printing := printing || negb (d =? 0)%Z in
      fmt_frac prec (v / 10) printing (if printing then itoa d +:+ acc else acc)
  end.

(** [time.Duration.String] *)
Definition duration_string (d : Z) : string :=
  let u := Z.abs d in
  let body :=
    if (u <? second)%Z then
      if (u =? 0)%Z then "0s"
      else
        let '(prec, suffix) :=
          if (u <? microsecond)%Z then (0, "ns")
          else if (u <? millisecond)%Z then (3, "µs") else (6, "ms") in
        let '(frac, n) := fmt_frac prec u false "" in
        itoa n +:+ frac +:+ suffix
    else
      let '(frac, n) := fmt_frac 9 u false "" in
      let secs := itoa (n mod 60) +:+ frac +:+ "s" in
      let m := (n / 60)%Z in
      if (m =? 0)%Z then secs
      else
        let mins := itoa (m mod 60) +:+ "m" +:+ secs in
        let h := (m / 60)%Z in
        if (h =? 0)%Z then mins else itoa h +:+ "h" +:+ mins in
  if (d <? 0)%Z then "-" +:+ body else body.

(** [time.Time.Sub] and [time.Since]: the extreme durations when out of range. *)
Definition time_sub (t u : Z) : Z := Z.max (- 2 ^ 63) (Z.min (2 ^ 63 - 1) (t - u)).

(** [time.Duration.Round] for a positive multiple [m]: to the nearest multiple,
    ties away from zero; a result that would overflow is the extreme value. *)
Definition duration_round (d m : Z) : Z :=
  let r := Z.rem d m in
  if (d <? 0)%Z then
    let r := (- r)%Z in
    if (r + r <? m)%Z then (d + r)%Z
    else if (d - m + r <? - 2 ^ 63)%Z then (- 2 ^ 63)%Z else (d - m + r)%Z
  else
    if (r + r <? m)%Z then (d - r)%Z
    else if (2 ^ 63 - 1 <? d + m - r)%Z then (2 ^ 63 - 1)%Z else (d + m - r)%Z.

(** ** Strings *)

(** [net.JoinHostPort] *)
Definition join_host_port (host port : string) : string :=
  if str_contains host ":" then "[" +:+ host +:+ "]:" +:+ port
  else host +:+ ":" +:+ port.

(** [strings.ReplaceAll s old new] for a non-empty [old]: the leftmost
    occurrences, none overlapping another. *)
Fixpoint replace_go (old new : string) (skip : nat) (s : string) : string :=
  match s with
  | "" => ""
  | String c s' =>
      match skip with
      | S k => replace_go old new k s'
      | O =>
          if has_prefix old s then new +:+ replace_go old new (String.length old - 1) s'
          else String c (replace_go old new 0 s')
      end
  end.
Definition replace_all (s old new : string) : string := replace_go old new 0 s.

(** [strings.Split] by a one-byte separator, and [strings.Cut]. *)
Fixpoint split_char (c : ascii) (s : string) : list string :=
  match s with
  | "" => [""]
  | String a s =>
      let l := split_char c s in
      if decide (a = c) then "" :: l
      else match l with x :: l => String a x :: l | [] => [String a ""] end
  end.
Fixpoint cut_char (c : ascii) (s : string) : option (string * string) :=
  match s with
  | "" => None
  | String a s =>
      if decide (a = c) then Some ("", s)
      else match cut_char c s with Some (k, v) => Some (String a k, v) | None => None end
  end.

(** [strings.TrimSpace]: the encodings of Unicode's white space are stripped
    from both ends. *)
Definition spaces : list string :=
  let c n := String (ascii_of_nat n) "" in
  map c [9; 10; 11; 12; 13; 32] ++
  map (λ l, str_join "" (map c l))
    ([[194; 133]; [194; 160]; [225; 154; 128]; [226; 128; 168]; [226; 128; 169];
      [226; 128; 175]; [226; 129; 159]; [227; 128; 128]] ++
     map (λ n, [226; 128; n]) (seq 128 11)).

Fixpoint str_rev (s acc : string) : string :=
  match s with "" => acc | String c s => str_rev s (String c acc) end.

Fixpoint strip_one (l : list string) (s : string) : option string :=
  match l with
  | [] => None
  | p :: l => match strip_prefix p s with Some r => Some r | None => strip_one l s end
  end.
Fixpoint trim_with (l : list string) (fuel : nat) (s : string) : string :=
  match fuel with
  | O => s
  | S fuel => match strip_one l s with Some r => trim_with l fuel r | None => s end
  end.
Definition trim_left_space (s : string) : string := trim_with spaces (String.length s) s.
Definition trim_right_with (l : list string) (s : string) : string :=
  str_rev (trim_with (map (λ p, str_rev p "") l) (String.length s) (str_rev s "")) "".
Definition trim_space (s : string) : string := trim_right_with spaces (trim_left_space s).

(** [strings.TrimRight s "\n"] *)
Definition newline : string := String "010" "".
Definition trim_right_newlines (s : string) : string := trim_right_with [newline] s.

(** [s[strings.LastIndexByte(s, c)+1:]]: what follows the last [c]. *)
Fixpoint after_last (c : ascii) (s : string) : string :=
  match s with
  | "" => ""
  | String a s' =>
      if str_contains s' (String c "") then after_last c s'
      else if decide (a = c) then s' else s
  end.

(** [net.SplitHostPort]; [None] is an error, for which the code sees two empty
    strings.  [before_last] is what precedes the last [c]. *)
Fixpoint before_last (c : ascii) (s : string) : option string :=
  match s with
  | "" => None
  | String a s' =>
      match before_last c s' with
      | Some r => Some (String a r)
      | None => if decide (a = c) then Some "" else None
      end
  end.
Definition has_char (c : ascii) (s : string) : bool := negb (str_forallb (λ a, negb (bool_decide (a = c))) s).

Definition split_host_port (s : string) : option (string * string) :=
  match before_last ":" s with
  | None => None
  | Some h =>
      let port := after_last ":" s in
      match h with
      | String "["%char h1 =>
          match cut_char "]" (h1 +:+ ":" +:+ port) with
          | Some (host, rest) =>
              (* the bracket has to close right before the last colon *)
              if bool_decide (rest = ":" +:+ port) && negb (has_char "[" host) &&
                 negb (has_char "[" port) && negb (has_char "]" port)
              then Some (host, port) else None
          | None => None
          end
      | _ =>
          if has_char ":" h || has_char "[" s || has_char "]" s then None
          else Some (h, port)
      end
  end.

Lemma has_char_app c s1 s2 : has_char c (s1 +:+ s2) = has_char c s1 || has_char c s2.
Proof. unfold has_char. by rewrite str_forallb_app, negb_andb. Qed.
Lemma has_char_cons c a s : has_char c (String a s) = bool_decide (a = c) || has_char c s.
Proof. unfold has_char. simpl. by rewrite negb_andb, negb_involutive. Qed.

Lemma before_last_absent c s : has_char c s = false → before_last c s = None.
Proof.
  induction s as [|a s IH]; [done|]. rewrite has_char_cons, orb_false_iff, bool_decide_eq_false.
  intros [Ha Hs]. simpl. by rewrite IH, decide_False.
Qed.
Lemma before_last_app c s1 s2 :
  has_char c s2 = false → before_last c (s1 +:+ String c s2) = Some s1.
Proof.
  intros Hs. induction s1 as [|a s1 IH].
  - rewrite str_app_nil_l. simpl. by rewrite before_last_absent, decide_True.
  - rewrite str_app_cons. simpl. by rewrite IH.
Qed.
Lemma occurs_char c s : str_contains s (String c "") = has_char c s.
Proof.
  induction s as [|a s IH]; [done|]. rewrite has_char_cons. simpl. rewrite IH.
  f_equal. unfold has_prefix. simpl.
  destruct (decide (c = a)) as [->|]; [by rewrite bool_decide_true|by rewrite bool_decide_false].
Qed.
Lemma after_last_app c s1 s2 :
  has_char c s2 = false → after_last c (s1 +:+ String c s2) = s2.
Proof.
  intros Hs. induction s1 as [|a s1 IH].
  - rewrite str_app_nil_l. cbn [after_last]. by rewrite occurs_char, Hs, decide_True.
  - rewrite str_app_cons. cbn [after_last]. rewrite occurs_char, has_char_app, has_char_cons.
    rewrite bool_decide_true by done. by rewrite orb_true_r.
Qed.
Lemma cut_char_app c s1 s2 : has_char c s1 = false → cut_char c (s1 +:+ String c s2) = Some (s1, s2).
Proof.
  induction s1 as [|a s1 IH].
  - intros _. rewrite str_app_nil_l. simpl. by rewrite decide_True.
  - rewrite has_char_cons, orb_false_iff, bool_decide_eq_false. intros [Ha Hs].
    rewrite str_app_cons. simpl. by rewrite decide_False, IH.
Qed.

Lemma cut_char_absent c s : has_char c s = false → cut_char c s = None.
Proof.
  induction s as [|a s IH]; [done|].
  rewrite has_char_cons, orb_false_iff, bool_decide_eq_false. intros [Ha Hs].
  simpl. by rewrite decide_False, IH.
Qed.
Lemma cut_char_Some c s s1 s2 : cut_char c s = Some (s1, s2) → s = s1 +:+ String c s2.
Proof.
  revert s1. induction s as [|a s IH]; intros s1; simpl; [done|].
  case_decide as Ha; [by intros [= <- <-]; rewrite Ha|].
  destruct (cut_char c s) as [[k v]|]; [|done]. intros [= <- <-]. by rewrite (IH k).
Qed.

(** [SplitHostPort] reads back what [JoinHostPort] wrote. *)
Lemma split_join_host_port host port :
  has_char "[" host = false → has_char "]" host = false →
  has_char ":" port = false → has_char "[" port = false → has_char "]" port = false →
  split_host_port (join_host_port host port) = Some (host, port).
Proof.
  intros H1 H2 H3 H4 H5. unfold join_host_port, split_host_port.
  rewrite occurs_char. destruct (has_char ":" host) eqn:Ec.
  - change ("]:" +:+ port) with ("]" +:+ String ":" port).
    rewrite <- !str_app_assoc, before_last_app, after_last_app by done.
    rewrite !str_app_assoc. change ("[" +:+ host +:+ "]") with (String "[" (host +:+ "]")).
    cbv beta iota. rewrite str_app_assoc.
    change ("]" +:+ ":" +:+ port) with (String "]" (":" +:+ port)).
    rewrite (cut_char_app "]") by done. by rewrite bool_decide_true, H1, H4, H5.
  - change (":" +:+ port) with (String ":" port). rewrite before_last_app, after_last_app by done.
    rewrite !has_char_app, !has_char_cons, H1, H2, H4, H5. rewrite Ec.
    destruct host as [|a host]; [done|]. rewrite has_char_cons in H1.
    destruct a as [[] [] [] [] [] [] [] []]; done.
Qed.

(** ** Paths: the package filepath on Unix *)

(** [filepath.Clean] on the components of a path. *)
Fixpoint clean_parts (rooted : bool) (stack : list string) (parts : list string) : list string :=
  match parts with
  | [] => reverse stack
  | p :: parts =>
      if bool_decide (p = "" ∨ p = ".") then clean_parts rooted stack parts
      else if bool_decide (p = "..") then
        match stack with
        | [] => clean_parts rooted (if rooted then [] else [".."]) parts
        | q :: stack' =>
            if bool_decide (q = "..") then clean_parts rooted (".." :: stack) parts
            else clean_parts rooted stack' parts
        end
      else clean_parts rooted (p :: stack) parts
  end.
Definition path_clean (p : string) : string :=
  let rooted := has_prefix "/" p in
  let body := str_join "/" (clean_parts rooted [] (split_char "/" p)) in
  if rooted then "/" +:+ body else if bool_decide (body = "") then "." else body.
Definition path_join (a b : string) : string :=
  if bool_decide (a = "") then if bool_decide (b = "") then "" else path_clean b
  else path_clean (a +:+ "/" +:+ b).

(** [filepath.Dir] *)
Definition path_dir (p : string) : string :=
  path_clean (match before_last "/" p with Some d => d +:+ "/" | None => "" end).

(** [filepath.Ext] *)
Definition path_ext (path : string) : string :=
  let base := after_last "/" path in
  match before_last "." base with Some _ => "." +:+ after_last "." base | None => "" end.


(** ** What the language leaves open *)

Class GoRuntime := {
  (** the order of [for k, v := range m] at one place of the program *)
  range : ∀ {V}, nat → gmap string V → list (string * V);
  range_perm : ∀ {V} site (m : gmap string V), range site m ≡ₚ map_to_list m;
  (** [sort.Slice] *)
  sort_slice : ∀ {A}, (A → A → bool) → list A → list A;
  sort_slice_perm : ∀ {A} less (l : list A), sort_slice less l ≡ₚ l;
  sort_slice_sorted : ∀ {A} (less : A → A → bool) (l : list A),
    (∀ x y, less x y = true → less y x = false) →
    (∀ x y z, less x y = false → less y z = false → less x z = false) →
    StronglySorted (λ x y, less y x = false) (sort_slice less l);
  (** [unicode.IsPrint] above ASCII *)
  is_print : N → bool;
  (** [regexp.Compile]'s error, and [MatchString] of a compiled expression *)
  regexp_error : string → option string;
  regexp_match : string → string → bool;
  (** [int(f)] when [f] is NaN, infinite or too large: an [int], which one
      depends on the processor *)
  float_to_int_undefined : spec_float → Z;
  float_to_int_range : ∀ f, (- 2 ^ 63 ≤ float_to_int_undefined f < 2 ^ 63)%Z;
}.

(** Iteration site numbers only tell apart the loops of the program. *)

Section runtime.
Context `{GoRuntime}.

Lemma range_elem {V} site (m : gmap string V) k v : (k, v) ∈ range site m ↔ m !! k = Some v.
Proof. rewrite range_perm. apply elem_of_map_to_list. Qed.
Lemma range_nodup {V} site (m : gmap string V) : NoDup (range site m).*1.
Proof. rewrite range_perm. apply NoDup_fst_map_to_list. Qed.
Lemma range_to_map {V} site (m : gmap string V) : list_to_map (range site m) = m.
Proof.
  rewrite (list_to_map_proper _ (map_to_list m)); [apply list_to_map_to_list| |apply range_perm].
  apply range_nodup.
Qed.

(** [strconv.Quote] and the verb [%q]. *)
Definition dquote : string := String "034" "".
Definition quote_rune (r : N) (bytes : string) : string :=
  if bool_decide (bytes = dquote) || bool_decide (bytes = "\") then "\" +:+ bytes
  else if (r <? 128)%N then
    if (32 <=? r)%N && (r <? 127)%N then bytes
    else if (r =? 7)%N then "\a" else if (r =? 8)%N then "\b"
    else if (r =? 12)%N then "\f" else if (r =? 10)%N then "\n"
    else if (r =? 13)%N then "\r" else if (r =? 9)%N then "\t"
    else if (r =? 11)%N then "\v" else "\x" +:+ hex_digits 2 r
  else if bool_decide (String.length bytes = 1) then
    match bytes with String c _ => "\x" +:+ hex_digits 2 (byte_val c) | "" => "" end
  else if is_print r then bytes
  else if (r <? 65536)%N then "\u" +:+ hex_digits 4 r
  else "\U" +:+ hex_digits 8 r.
Definition quote (s : string) : string :=
  dquote +:+ str_join "" (map (λ '(r, b), quote_rune r b) (runes s)) +:+ dquote.
End runtime.

(** [sort.Strings]: bytewise order. *)
Definition sort_strings (l : list string) : list string := merge_sort String.le l.

Lemma sort_strings_perm l : sort_strings l ≡ₚ l.
Proof. apply merge_sort_Permutation. Qed.
Lemma sort_strings_proper l1 l2 : l1 ≡ₚ l2 → sort_strings l1 = sort_strings l2.
Proof.
  intros E. apply (StronglySorted_unique String.le).
  - apply (StronglySorted_merge_sort _).
  - apply (StronglySorted_merge_sort _).
  - by rewrite !sort_strings_perm.
Qed.
Lemma sort_strings_nil l : sort_strings l = [] ↔ l = [].
Proof.
  split; [|by intros ->]. intros E. apply Permutation_nil.
  by rewrite <- E, sort_strings_perm.
Qed.

(** The text of [%q] depends on the runtime through [is_print] only. *)
Lemma quote_ext (rt1 rt2 : GoRuntime) s :
  (∀ r, @is_print rt1 r = @is_print rt2 r) → @quote rt1 s = @quote rt2 s.
Proof.
  intros E. unfold quote. do 3 f_equal. apply map_ext. intros [r b].
  unfold quote_rune. by rewrite E.
Qed.

(** ** A concrete runtime

    Maps iterate in the order of their representation, slices are sorted by
    insertion (what Go does up to 12 elements), every rune above ASCII prints,
    and a regular expression is a plain substring. *)

Fixpoint insert_by {A} (less : A → A → bool) (x : A) (l : list A) : list A :=
  match l with
  | [] => [x]
  | y :: l => if less x y then x :: y :: l else y :: insert_by less x l
  end.
Fixpoint insertion_sort {A} (less : A → A → bool) (l : list A) : list A :=
  match l with [] => [] | x :: l => insert_by less x (insertion_sort less l) end.

Lemma insert_by_perm {A} less (x : A) l : insert_by less x l ≡ₚ x :: l.
Proof.
  induction l as [|y l IH]; simpl; [done|]. destruct (less x y); [done|].
  rewrite IH. apply Permutation_swap.
Qed.
Lemma insertion_sort_perm {A} less (l : list A) : insertion_sort less l ≡ₚ l.
Proof. induction l as [|x l IH]; simpl; [done|]. by rewrite insert_by_perm, IH. Qed.
Lemma insertion_sort_sorted {A} (less : A → A → bool) (l : list A) :
  (∀ x y, less x y = true → less y x = false) →
  (∀ x y z, less x y = false → less y z = false → less x z = false) →
  StronglySorted (λ x y, less y x = false) (insertion_sort less l).
Proof.
  intros Has Htr. induction l as [|x l IH]; simpl; [constructor|].
  induction IH as [|y l' Hss IH' Hall]; simpl; [by repeat constructor|].
  destruct (less x y) eqn:E.
  - constructor; [by constructor|]. constructor; [by apply Has|].
    eapply Forall_impl; [done|]. intros z Hz. simpl in *.
    eapply Htr; [exact Hz|]. by apply Has.
  - constructor; [done|]. rewrite insert_by_perm. by constructor.
Qed.

Lemma default_int_range : (- 2 ^ 63 ≤ - 2 ^ 63 < 2 ^ 63)%Z.
Proof. lia. Qed.

(** The out-of-range conversion is the one of amd64. *)
Definition default_runtime : GoRuntime := {|
  range V site m := map_to_list m;
  range_perm V site m := reflexivity _;
  sort_slice A less l := insertion_sort less l;
  sort_slice_perm A less l := insertion_sort_perm less l;
  sort_slice_sorted A less l := insertion_sort_sorted less l;
  is_print r := true;
  regexp_error s := None;
  regexp_match re s := str_contains s re;
  float_to_int_undefined f := (- 2 ^ 63)%Z;
  float_to_int_range f := default_int_range;
|}.


(** The same, but maps iterate backwards. *)
Definition reverse_runtime : GoRuntime := {|
  range V site m := reverse (map_to_list m);
  range_perm V site m := reverse_Permutation _;
  sort_slice A less l := insertion_sort less l;
  sort_slice_perm A less l := insertion_sort_perm less l;
  sort_slice_sorted A less l := insertion_sort_sorted less l;
  is_print r := true;
  regexp_error s := None;
  regexp_match re s := str_contains s re;
  float_to_int_undefined f := (- 2 ^ 63)%Z;
  float_to_int_range f := default_int_range;
|}.

Example quote_example :
  @quote default_runtime ("a" +:+ dquote +:+ "b\" +:+ newline) = dquote +:+ "a\" +:+ dquote +:+ "b\\\n" +:+ dquote.
Proof. reflexivity. Qed.
Example duration_example :
  map duration_string [1500000000; 86400000000000; 300000000000; 12345; 0; -90000000000]%Z
  = ["1.5s"; "24h0m0s"; "5m0s"; "12.345µs"; "0s"; "-1m30s"].
Proof. reflexivity. Qed.
Example trim_example : trim_space (" a b" +:+ newline) = "a b".
Proof. reflexivity. Qed.
