(* ===== verification/Float64.v ===== *)
(** * Float64: IEEE 754 double precision

    Go's [float64] with the executable specification of binary floating-point
    numbers of the Standard Library ([SpecFloat]), and the fact that products of
    integers that fit into the mantissa are exact. *)

From S2P Require Import Prelude GoStd.

Definition float64 := spec_float.
Definition f64_of_Z (z : Z) : float64 := binary_normalize 53 1024 z 0 false.
Definition f64_mul : float64 → float64 → float64 := SFmul 53 1024.
Definition f64_div : float64 → float64 → float64 := SFdiv 53 1024.

(** [math.Trunc] and [math.Ceil]: a value without fraction is unchanged. *)
Definition f64_trunc (f : float64) : float64 :=
  match f with
  | S754_finite s m e =>
      if (0 <=? e)%Z then f
      else let q := (Zpos m / 2 ^ (- e))%Z in f64_of_Z (if s then - q else q)
  | _ => f
  end.
Definition f64_ceil (f : float64) : float64 :=
  match f with
  | S754_finite s m e =>
      if (0 <=? e)%Z then f
      else
        let z := if s then Zneg m else Zpos m in
        f64_of_Z (- (- z / 2 ^ (- e)))
  | _ => f
  end.

(** The integer a finite float stands for, when it has no fraction. *)
Definition f64_to_Z (f : float64) : option Z :=
  match f with
  | S754_zero _ => Some 0%Z
  | S754_finite s m e =>
      let z := if s then Zneg m else Zpos m in
      Some (if (0 <=? e)%Z then z * 2 ^ e else Z.quot z (2 ^ (- e)))%Z
  | _ => None
  end.


(** ** Exact integers *)

(** [f] is the positive integer [v], without rounding. *)
Definition exactly (f : float64) (v : Z) : Prop :=
  ∃ m e, f = S754_finite false m e ∧ (e ≤ 0)%Z ∧ Z.pos m = (v * 2 ^ (- e))%Z.

Lemma exactly_to_Z f v : exactly f v → (0 < v)%Z → f64_to_Z f = Some v.
Proof.
  intros (m & e & -> & He & Hm) Hv. simpl. f_equal. destruct (Z.leb_spec 0 e).
  - assert (e = 0%Z) as -> by lia. simpl in *. lia.
  - rewrite Hm. apply Z.quot_mul. pose proof (Z.pow_pos_nonneg 2 (- e)). lia.
Qed.

Lemma iter_pos_nat {A} (f : A → A) p x : iter_pos f p x = Nat.iter (Pos.to_nat p) f x.
Proof.
  revert x. induction p as [p IH|p IH|]; intros x; cbn [iter_pos]; [| |done].
  - rewrite !IH, Pos2Nat.inj_xI, Nat.iter_succ_r, <- Nat.iter_add. f_equal. lia.
  - rewrite !IH, Pos2Nat.inj_xO, <- Nat.iter_add. f_equal. lia.
Qed.

(** Shifting out zeros. *)
Lemma shr_1_even z : (0 < z)%Z → shr_1 (Build_shr_record (2 * z) false false) = Build_shr_record z false false.
Proof. by destruct z. Qed.
Lemma shr_exact z n e : (0 < z)%Z → (0 ≤ n)%Z →
  shr (Build_shr_record (z * 2 ^ n) false false) e n = (Build_shr_record z false false, (e + n)%Z).
Proof.
  intros Hz Hn. destruct n as [|p|]; [by rewrite Z.mul_1_r, Z.add_0_r| |lia].
  unfold shr. f_equal. rewrite iter_pos_nat. rewrite <- (positive_nat_Z p).
  generalize (Pos.to_nat p) as k. clear -Hz. intros k.
  induction k as [|k IH]; [by rewrite Z.mul_1_r|]. rewrite Nat.iter_succ_r, Nat2Z.inj_succ, Z.pow_succ_r by lia.
  replace (z * (2 * 2 ^ Z.of_nat k))%Z with (2 * (z * 2 ^ Z.of_nat k))%Z by ring.
  rewrite shr_1_even; [done|]. pose proof (Z.pow_pos_nonneg 2 (Z.of_nat k)). nia.
Qed.

Lemma digits2_bound p : (2 ^ (Z.pos (digits2_pos p) - 1) ≤ Z.pos p < 2 ^ Z.pos (digits2_pos p))%Z.
Proof.
  induction p as [p IH|p IH|]; simpl digits2_pos; [| |done];
    rewrite Pos2Z.inj_succ, Z.pow_succ_r by lia;
    replace (Z.succ (Z.pos (digits2_pos p)) - 1)%Z with (Z.succ (Z.pos (digits2_pos p) - 1)) by lia;
    rewrite Z.pow_succ_r by lia; lia.
Qed.

(** An integer below [2^53] passes a rounding step unchanged. *)
Lemma shr_fexp_exact v m e : (0 < v < 2 ^ 53)%Z → (e ≤ 0)%Z → m = (v * 2 ^ (- e))%Z →
  ∃ m' e', shr_fexp 53 1024 m e loc_Exact = (Build_shr_record m' false false, e') ∧
    (e' ≤ 0)%Z ∧ m' = (v * 2 ^ (- e'))%Z.
Proof.
  intros Hv He Hm. assert (0 < m)%Z as Hpos by (pose proof (Z.pow_pos_nonneg 2 (- e)); nia).
  unfold shr_fexp. cbn [shr_record_of_loc]. set (n := (fexp 53 1024 (Zdigits2 m + e) - e)%Z).
  destruct (Z.leb_spec n 0) as [Hn|Hn].
  { exists m, e. split; [|done]. unfold shr. by destruct n. }
  assert (n ≤ - e)%Z as Hle.
  { unfold n, fexp, emin. assert (Zdigits2 m + e ≤ 53)%Z; [|lia].
    destruct m as [|p|]; [lia| |lia]. unfold Zdigits2. pose proof (digits2_bound p) as [Hd _].
    assert (Z.pos p < 2 ^ (53 - e))%Z as Hlt.
    { rewrite Hm. replace (53 - e)%Z with (53 + - e)%Z by lia. rewrite Z.pow_add_r by lia.
      apply Z.mul_lt_mono_pos_r; [apply Z.pow_pos_nonneg|]; lia. }
    assert (Z.pos (digits2_pos p) - 1 < 53 - e)%Z; [|lia].
    apply (Z.pow_lt_mono_r_iff 2); lia. }
  exists (v * 2 ^ (- (e + n)))%Z, (e + n)%Z. split; [|split; [lia|done]].
  assert (m = (v * 2 ^ (- (e + n)) * 2 ^ n)%Z) as Hmn.
  { rewrite Hm, <- Z.mul_assoc, <- Z.pow_add_r by lia. do 2 f_equal. lia. }
  rewrite Hmn at 1. apply shr_exact; [|lia].
  pose proof (Z.pow_pos_nonneg 2 (- (e + n))). nia.
Qed.

Lemma round_exact v m e : (0 < v < 2 ^ 53)%Z → (e ≤ 0)%Z → m = (v * 2 ^ (- e))%Z →
  exactly (binary_round_aux 53 1024 false m e loc_Exact) v.
Proof.
  intros Hv He Hm. unfold binary_round_aux.
  destruct (shr_fexp_exact v m e Hv He Hm) as (m1 & e1 & -> & He1 & Hm1). cbn [shr_m loc_of_shr_record round_nearest_even].
  destruct (shr_fexp_exact v m1 e1 Hv He1 Hm1) as (m2 & e2 & -> & He2 & Hm2). cbn [shr_m].
  assert (0 < m2)%Z as Hpos by (pose proof (Z.pow_pos_nonneg 2 (- e2)); nia).
  destruct m2 as [|p|]; [lia| |lia]. destruct (Z.leb_spec e2 (1024 - 53)); [|lia].
  by exists p, e2.
Qed.

Lemma iter_xO p d : Z.pos (Pos.iter xO p d) = (Z.pos p * 2 ^ Z.pos d)%Z.
Proof.
  induction d as [|d IH] using Pos.peano_ind; [simpl; lia|].
  rewrite Pos.iter_succ, Pos2Z.inj_xO, IH, Pos2Z.inj_succ, Z.pow_succ_r by lia. ring.
Qed.

Lemma of_Z_exact v : (0 < v < 2 ^ 53)%Z → exactly (f64_of_Z v) v.
Proof.
  intros Hv. unfold f64_of_Z. destruct v as [|p|]; [lia| |lia]. cbn [binary_normalize].
  unfold binary_round. set (t := fexp 53 1024 (Z.pos (digits2_pos p) + 0)).
  unfold shl_align. rewrite Z.sub_0_r. destruct t as [|d|d]; [by apply round_exact; [|done|rewrite Z.mul_1_r]..|].
  apply round_exact; [done|lia|]. apply iter_xO.
Qed.

Lemma mul_exact f g v w : exactly f v → exactly g w → (0 < v)%Z → (0 < w)%Z → (v * w < 2 ^ 53)%Z →
  exactly (f64_mul f g) (v * w).
Proof.
  intros (m1 & e1 & -> & He1 & Hm1) (m2 & e2 & -> & He2 & Hm2) Hv Hw Hvw. unfold f64_mul, SFmul. cbn [xorb].
  apply round_exact; [nia|lia|]. rewrite Pos2Z.inj_mul, Hm1, Hm2.
  replace (- (e1 + e2))%Z with (- e1 + - e2)%Z by lia. rewrite Z.pow_add_r by lia. ring.
Qed.
