(* ===== verification/Domain.v ===== *)
(** * Domain: the shared types ([internal/domain/domain.go])

    Statuses, failure categories, failures, Go error chains with [errors.Is]
    and [errors.As], credentials, endpoints and targets. *)

From S2P Require Import Prelude GoStd.

(** ** Statuses and categories *)

Inductive Status := StatusSuccess | StatusFailed | StatusSkipped | StatusCancelled.

Definition status_string (s : Status) : string :=
  match s with
  | StatusSuccess => "SUCCESS"
  | StatusFailed => "FAILED"
  | StatusSkipped => "SKIPPED"
  | StatusCancelled => "CANCELLED"
  end.

Inductive Category :=
| CatConnectionTimeout | CatConnectionRefused | CatDNSFailure | CatAuthFailed
| CatHostKeyMismatch | CatHostKeyUnknown | CatHandshakeFailed | CatSessionFailed
| CatCommandTimeout | CatCommandFailed | CatTemplateError | CatCancelled
| CatInternalError.

Definition category_string (c : Category) : string :=
  match c with
  | CatConnectionTimeout => "CONNECTION_TIMEOUT"
  | CatConnectionRefused => "CONNECTION_REFUSED"
  | CatDNSFailure => "DNS_FAILURE"
  | CatAuthFailed => "AUTH_FAILED"
  | CatHostKeyMismatch => "HOST_KEY_MISMATCH"
  | CatHostKeyUnknown => "HOST_KEY_UNKNOWN"
  | CatHandshakeFailed => "SSH_HANDSHAKE_FAILED"
  | CatSessionFailed => "SESSION_FAILED"
  | CatCommandTimeout => "COMMAND_TIMEOUT"
  | CatCommandFailed => "COMMAND_FAILED"
  | CatTemplateError => "TEMPLATE_ERROR"
  | CatCancelled => "CANCELLED"
  | CatInternalError => "INTERNAL_ERROR"
  end.

#[export] Instance status_eq_dec : EqDecision Status.
Proof. solve_decision. Defined.
#[export] Instance category_eq_dec : EqDecision Category.
Proof. solve_decision. Defined.
#[export] Instance status_string_inj : Inj (=) (=) status_string.
Proof. by intros [] []. Qed.
#[export] Instance category_string_inj : Inj (=) (=) category_string.
Proof. by intros [] []. Qed.

Definition Retryable (c : Category) : bool :=
  match c with
  | CatConnectionTimeout | CatConnectionRefused | CatHandshakeFailed | CatSessionFailed => true
  | _ => false
  end.

(** ** Failures and errors *)

Record Failure := Fail { fCategory : Category; fReason : string }.

#[export] Instance failure_eq_dec : EqDecision Failure.
Proof. solve_decision. Defined.

Definition failure_error (f : Failure) : string :=
  category_string (fCategory f) +:+ ": " +:+ fReason f.

Inductive errno := ECONNREFUSED | EHOSTUNREACH | ENETUNREACH | OtherErrno (timeout : bool).

(** What [errors.Is] and [errors.As] look for.  The types of x/crypto/ssh and
    of [net] appear with the fields the program reads. *)
Inductive error_kind :=
| KFailure (f : Failure)            (* *domain.Failure *)
| KPlain                            (* any other error *)
| KCanceled                         (* context.Canceled *)
| KDeadlineExceeded                 (* context.DeadlineExceeded *)
| KEOF                              (* io.EOF *)
| KErrno (n : errno)                (* syscall.Errno *)
| KDNSError (name err : string) (timeout : bool)
| KNetError (timeout : bool)        (* another net.Error *)
| KKeyError (want : list string)    (* knownhosts.KeyError: the types of the wanted keys *)
| KOpenChannelError                 (* ssh.OpenChannelError *)
| KExitError (status : Z)           (* ssh.ExitError *)
| KExitMissingError.                (* ssh.ExitMissingError *)

(** An error is a chain: each link has its kind, its text and what it wraps. *)
Inductive error := MkError (kind : error_kind) (text : string) (inner : option error).

Definition err_kind (e : error) : error_kind := let 'MkError k _ _ := e in k.
Definition err_text (e : error) : string := let 'MkError _ t _ := e in t.
Definition new_error (text : string) : error := MkError KPlain text None.
Definition err_of_failure (f : Failure) : error := MkError (KFailure f) (failure_error f) None.

(** The chain [e], [Unwrap e], ... *)
Fixpoint err_chain (e : error) : list error_kind :=
  let 'MkError k _ i := e in
  k :: match i with Some e' => err_chain e' | None => [] end.

(** The first link that a partial view recognises: [errors.As]. *)
Fixpoint first_some {A B} (f : A → option B) (l : list A) : option B :=
  match l with
  | [] => None
  | x :: l => match f x with Some y => Some y | None => first_some f l end
  end.
Definition err_as {B} (view : error_kind → option B) (e : error) : option B :=
  first_some view (err_chain e).
Definition err_is (test : error_kind → bool) (e : error) : bool :=
  existsb test (err_chain e).

Definition as_failure (k : error_kind) : option Failure :=
  match k with KFailure f => Some f | _ => None end.

(** [AsFailure] of a non-nil error. *)
Definition AsFailure (e : error) : Failure :=
  match err_as as_failure e with
  | Some f => f
  | None => Fail CatInternalError (err_text e)
  end.

Lemma AsFailure_err_of_failure f : AsFailure (err_of_failure f) = f.
Proof. done. Qed.
#[export] Hint Rewrite AsFailure_err_of_failure : rco.

Lemma first_some_Some {A B} (f : A → option B) l y :
  first_some f l = Some y →
  ∃ l1 x l2, l = l1 ++ x :: l2 ∧ f x = Some y ∧ Forall (λ z, f z = None) l1.
Proof.
  induction l as [|x l IH]; simpl; [done|].
  destruct (f x) eqn:E; intros H; simplify_eq.
  - by exists [], x, l.
  - destruct (IH H) as (l1 & x' & l2 & -> & ? & ?).
    exists (x :: l1), x', l2. split_and!; [done..|by constructor].
Qed.
Lemma first_some_None {A B} (f : A → option B) l :
  first_some f l = None ↔ Forall (λ z, f z = None) l.
Proof.
  induction l as [|x l IH]; simpl; [by split|].
  rewrite Forall_cons, <- IH. destruct (f x); naive_solver.
Qed.

(** ** Credentials, endpoints, targets *)

Record Credential := mkCredential {
  cName : string;
  cType : string;
  cUsername : string;
  cPasswordEnv : string;
  cKeyFile : string;
  cPassphraseEnv : string;
  cSudoPasswordEnv : string;
}.

Record Endpoint := mkEndpoint {
  eName : string;
  eAddress : string;
  ePort : Z;
  eUsername : string;
  eCredential : Credential;
}.

Definition Addr (e : Endpoint) : string := join_host_port (eAddress e) (itoa (ePort e)).

(** [Target] embeds [Endpoint]; a Go map that may be nil is a map: the code
    never distinguishes a nil map from an empty one. *)
Record Target := mkTarget {
  tEndpoint : Endpoint;
  tGroup : string;
  tTags : list string;
  tVariables : gmap string string;
  tBastion : option Endpoint;
}.

Definition tName (t : Target) : string := eName (tEndpoint t).

#[export] Instance credential_eq_dec : EqDecision Credential.
Proof. solve_decision. Defined.
#[export] Instance endpoint_eq_dec : EqDecision Endpoint.
Proof. solve_decision. Defined.
#[export] Instance target_eq_dec : EqDecision Target.
Proof. solve_decision. Defined.

Definition SensitiveMask : string := "[SENSITIVE]".
