(* ===== verification/Files.v ===== *)
(** * Files: reading local files ([ReadFile] of [internal/job/job.go])

    What the operating system does when a path is opened is a parameter: an
    [opened] file has a result for [Stat], whether it is regular, the bytes it
    delivers and the error, if any, that ends them (a file may be longer than
    [Stat] said, or never end: [io.LimitReader] cuts it). *)

From S2P Require Import Prelude GoStd.

Definition MaxFileSize : Z := Z.shiftl 1 20.
Definition MaxCopySize : Z := Z.shiftl 10 20.

Record opened := mkOpened {
  opStat : option string;        (* the error of Stat *)
  opRegular : bool;
  opData : string;
  opReadError : option string;   (* what ends the data: an error, or the end of the file *)
}.

(** [os.Open] *)
Abbreviation open_file := (string → res string opened).

(** [io.ReadAll(io.LimitReader(f, n))] *)
Definition read_limited (f : opened) (n : Z) : res string string :=
  if (Z.of_nat (String.length (opData f)) <? n)%Z then
    match opReadError f with Some e => Err e | None => Ok (opData f) end
  else Ok (str_take (Z.to_nat n) (opData f)).

Definition ReadFile (os : open_file) (path : string) (limit : Z) : res string string :=
  let? f := os path in
  match opStat f with
  | Some e => Err e
  | None =>
      if negb (opRegular f) then Err (path +:+ ": not a regular file")
      else
        let? data := read_limited f (limit + 1) in
        if (limit <? Z.of_nat (String.length data))%Z then
          Err (path +:+ ": file exceeds " +:+ itoa limit +:+ " bytes")
        else Ok data
  end.

Lemma str_take_length n s : String.length (str_take n s) = n `min` String.length s.
Proof. revert s. induction n as [|n IH]; intros [|c s]; simpl; [done..|]. by rewrite IH. Qed.

(** A file is read in full or not at all: a result is the whole
    content of a regular file of at most [limit] bytes, and every such file is
    read. *)
Theorem ReadFile_whole (os : open_file) (path : string) (limit : Z) (data : string) :
  (0 ≤ limit)%Z →
  ReadFile os path limit = Ok data ↔
  ∃ f, os path = Ok f ∧ opStat f = None ∧ opRegular f = true ∧ opReadError f = None ∧
    opData f = data ∧ (Z.of_nat (String.length data) ≤ limit)%Z.
Proof.
  intros Hl. unfold ReadFile, read_limited. rewrite res_bind_Ok. split.
  - intros (f & Hf & H). exists f. destruct (opStat f); [done|].
    destruct (opRegular f); [|done]. simpl in H.
    destruct (Z.ltb_spec (Z.of_nat (String.length (opData f))) (limit + 1)) as [Hlt|Hge].
    + destruct (opReadError f); [done|]. simpl in H.
      destruct (Z.ltb_spec limit (Z.of_nat (String.length (opData f)))); [done|].
      by simplify_eq.
    + simpl in H. rewrite str_take_length in H.
      destruct (Z.ltb_spec limit (Z.of_nat (Z.to_nat (limit + 1) `min` String.length (opData f))));
        [done|lia].
  - intros (f & -> & Hs & Hr & He & <- & Hle). exists f. split; [done|].
    rewrite Hs, Hr. simpl. rewrite (proj2 (Z.ltb_lt _ _)) by lia. rewrite He. simpl.
    by rewrite (proj2 (Z.ltb_ge _ _)) by lia.
Qed.

Lemma ReadFile_whole_witness :
  let os p := Ok (mkOpened None true "abc" None) : res string opened in
  ReadFile os "f" 3 = Ok "abc" ∧ ReadFile os "f" 2 ≠ Ok "abc".
Proof.
  intros os. split.
  - apply (ReadFile_whole os "f" 3 "abc"); [done|].
    by exists (mkOpened None true "abc" None).
  - intros (f & [= <-] & _ & _ & _ & _ & H)%(ReadFile_whole os "f" 2 "abc"); [|done].
    by apply H.
Defined.
