(* ===== verification/Variables.v ===== *)
(** * Variables: templates and variable resolution ([internal/job/variables.go])

    [References] and [Render] handle the only template form, [{{ .name }}];
    [CheckValue] rejects control characters; [Resolve] merges the sources of
    the variables of one host.  The regular expressions [refPattern],
    [openPattern] and [varPattern] are fixed and are written out as matchers;
    they only contain ASCII classes, so matching bytes and matching runes agree.

    The theorems give the grammar of templates ([template]): [References]
    accepts exactly the printed templates and [Render] substitutes once. *)

From S2P Require Import Prelude GoStd.

(** ** The matchers *)

(** The longest prefix whose characters satisfy [P], and the rest. *)
Fixpoint span (P : ascii → bool) (s : string) : string * string :=
  match s with
  | "" => ("", "")
  | String c s' =>
      if P c then let '(a, b) := span P s' in (String c a, b) else ("", s)
  end.

Definition ident_start (c : ascii) : bool := is_alpha c || bool_decide (c = "_"%char).
Definition ident_char (c : ascii) : bool := is_alnum c || bool_decide (c = "_"%char).

(** [A-Za-z_][A-Za-z0-9_]* *)
Definition is_ident (s : string) : bool :=
  match s with "" => false | String c s => ident_start c && str_forallb ident_char s end.

(** [varPattern]: an identifier of at most 64 characters. *)
Definition varPattern (s : string) : bool :=
  is_ident s && bool_decide (String.length s ≤ 64).

(** One match of [refPattern]: the two runs of white space and the name. *)
Record ref := mkRef { r_ws1 : string; r_name : string; r_ws2 : string }.

Definition print_ref (r : ref) : string :=
  "{{" +:+ r_ws1 r +:+ "." +:+ r_name r +:+ r_ws2 r +:+ "}}".

(** [refPattern] anchored at the start of [s]: the match and what follows.
    No backtracking is needed: the classes of consecutive parts are disjoint. *)
Definition match_ref (s : string) : option (ref * string) :=
  match strip_prefix "{{" s with
  | None => None
  | Some s1 =>
      let '(w1, s2) := span is_re_space s1 in
      match strip_prefix "." s2 with
      | None => None
      | Some s3 =>
          let '(name, s4) := span ident_char s3 in
          let '(w2, s5) := span is_re_space s4 in
          match strip_prefix "}}" s5 with
          | Some rest => if is_ident name then Some (mkRef w1 name w2, rest) else None
          | None => None
          end
      end
  end.

(** [refPattern.FindAllStringSubmatchIndex]: start and name of the leftmost
    non-overlapping matches; [skip] counts the bytes left of the last one. *)
Fixpoint find_refs (pos skip : nat) (s : string) : list (nat * string) :=
  match s with
  | "" => []
  | String _ s' =>
      match skip with
      | S k => find_refs (S pos) k s'
      | O =>
          match match_ref s with
          | Some (r, _) =>
              (pos, r_name r) :: find_refs (S pos) (String.length (print_ref r) - 1) s'
          | None => find_refs (S pos) 0 s'
          end
      end
  end.

(** [openPattern.FindAllStringIndex]: the starts. *)
Fixpoint find_opens (pos skip : nat) (s : string) : list nat :=
  match s with
  | "" => []
  | String _ s' =>
      match skip with
      | S k => find_opens (S pos) k s'
      | O =>
          if has_prefix "{{" s then pos :: find_opens (S pos) 1 s'
          else find_opens (S pos) 0 s'
      end
  end.

(** ** References and Render *)

Definition syntax_error : string :=
  "template syntax: only {{ .variable }} is supported".

Fixpoint pair_refs (valid : list (nat * string)) (opens : list nat) : res string (list string) :=
  match valid, opens with
  | (m0, name) :: valid, o :: opens =>
      if decide (m0 = o) then let? out := pair_refs valid opens in Ok (name :: out)
      else Err syntax_error
  | _, _ => Ok []
  end.

Definition References (s : string) : res string (list string) :=
  let valid := find_refs 0 0 s in
  let opens := find_opens 0 0 s in
  if decide (length opens = length valid) then pair_refs valid opens
  else Err syntax_error.

(** [refPattern.ReplaceAllStringFunc] with the closure of [Render]: the output
    and the names that have no value. *)
Fixpoint replace_refs (vars : gmap string string) (skip : nat) (s : string)
    : string * list string :=
  match s with
  | "" => ("", [])
  | String c s' =>
      match skip with
      | S k => replace_refs vars k s'
      | O =>
          match match_ref s with
          | Some (r, _) =>
              let '(out, missing) :=
                replace_refs vars (String.length (print_ref r) - 1) s' in
              match vars !! r_name r with
              | Some v => (v +:+ out, missing)
              | None => (out, r_name r :: missing)
              end
          | None => let '(out, missing) := replace_refs vars 0 s' in (String c out, missing)
          end
      end
  end.

Definition missing_error (missing : list string) : string :=
  "missing variable(s): " +:+ str_join ", " missing.

Definition Render (s : string) (vars : gmap string string) : res string string :=
  let? _ := References s in
  let '(out, missing) := replace_refs vars 0 s in
  if bool_decide (missing = []) then Ok out else Err (missing_error missing).

(** ** CheckValue *)

Definition is_control (r : N) : bool :=
  ((r <? 32) && negb (r =? 9) || (r =? 127))%N.

Definition hex_upper (n : N) : ascii := ascii_of_N (if n <? 10 then 48 + n else 55 + n)%N.
(** The verb [%U] for the control characters it is used with. *)
Definition fmt_U (r : N) : string :=
  "U+00" +:+ String (hex_upper (r / 16)) (String (hex_upper (r mod 16)) "").

Fixpoint check_runes (l : list (N * string)) : res string unit :=
  match l with
  | [] => Ok tt
  | (r, _) :: l =>
      if is_control r then Err ("value contains control character " +:+ fmt_U r)
      else check_runes l
  end.
Definition CheckValue (v : string) : res string unit := check_runes (runes v).

(** ** Resolve *)

Record JobVariable := mkJobVariable {
  vRequired : bool;
  vDefault : option string;
  vSensitive : bool;
  vDescription : string;
}.

Record Inputs := mkInputs {
  inHost : gmap string string;
  inJob : gmap string string;
  inJobEnv : gmap string string;
}.

Section resolve.
Context `{GoRuntime}.
Implicit Types vars : gmap string string.

Definition set_all vars (m : list (string * string)) : gmap string string :=
  foldl (λ vs '(k, v), <[k := v]> vs) vars m.

Definition set_defaults vars (l : list (string * JobVariable)) : gmap string string :=
  foldl (λ vs '(name, d),
    match vDefault d with Some v => <[name := v]> vs | None => vs end) vars l.

(** The loop over [--var-env]: values, secrets and issues. *)
Definition env_step (lookup : string → option string)
    (st : gmap string string * list string * list string) (kv : string * string) :=
  let '(vars, secrets, issues) := st in
  let '(k, envName) := kv in
  match lookup envName with
  | None => (vars, secrets, issues ++
      ["variable " +:+ quote k +:+ ": environment variable " +:+ envName +:+ " is not set"])
  | Some v => (<[k := v]> vars, secrets ++ [v], issues)
  end.

Definition value_issue (kv : string * string) : list string :=
  match CheckValue kv.2 with
  | Err e => ["variable " +:+ quote kv.1 +:+ ": " +:+ e]
  | Ok _ => []
  end.

(** Go reads a missing key of [vars] as the empty string. *)
Definition get vars (k : string) : string := default "" (vars !! k).

Definition decl_issues (ins : Inputs) vars (nd : string * JobVariable) : list string :=
  let '(name, d) := nd in
  (if vSensitive d && (bool_decide (is_Some (inJob ins !! name)) ||
                       bool_decide (is_Some (inHost ins !! name)))
   then ["sensitive variable " +:+ quote name +:+
         " must be passed with --var-env, not as a literal"] else []) ++
  (if vRequired d && bool_decide (get vars name = "")
   then ["required variable " +:+ quote name +:+ " is not set"] else []).

Definition decl_secrets vars (nd : string * JobVariable) : list string :=
  let '(name, d) := nd in
  if vSensitive d && negb (bool_decide (get vars name = "")) then [get vars name] else [].

(** [Job.Resolve]; [decls] is [j.Variables]. *)
Definition Resolve (decls : gmap string JobVariable) (ins : Inputs)
    (lookup : string → option string) : res (list string) (gmap string string * list string) :=
  let vars := set_defaults ∅ (range 1 decls) in
  let vars := set_all vars (range 2 (inHost ins)) in
  let vars := set_all vars (range 3 (inJob ins)) in
  let '(vars, secrets, issues) :=
    foldl (env_step lookup) (vars, [], []) (range 4 (inJobEnv ins)) in
  let issues := issues ++ (range 5 vars ≫= value_issue) in
  let issues := issues ++ (range 6 decls ≫= decl_issues ins vars) in
  let secrets := secrets ++ (range 6 decls ≫= decl_secrets vars) in
  match issues with
  | _ :: _ => Err (sort_strings issues)
  | [] => Ok (vars, secrets)
  end.
End resolve.

(** ** The grammar of templates *)

Definition ref_ok (r : ref) : Prop :=
  str_forallb is_re_space (r_ws1 r) = true ∧ is_ident (r_name r) = true ∧
  str_forallb is_re_space (r_ws2 r) = true.

(** Literal text and references in turn, and a last literal. *)
Record template := mkTemplate { t_parts : list (string * ref); t_last : string }.

Definition print_template (t : template) : string :=
  foldr (λ '(lit, r) s, lit +:+ print_ref r +:+ s) (t_last t) (t_parts t).

(** A literal opens no reference, not even with the brace that follows it. *)
Definition lit_ok (l : string) : Prop := ¬ occurs "{{" (l +:+ "{").
Definition template_ok (t : template) : Prop :=
  Forall (λ '(l, r), lit_ok l ∧ ref_ok r) (t_parts t) ∧ ¬ occurs "{{" (t_last t).

Definition template_refs (t : template) : list string :=
  map (λ '(_, r), r_name r) (t_parts t).

(** One pass: the value of a reference is not looked at again. *)
Definition subst_template (vars : gmap string string) (t : template) : string :=
  foldr (λ '(l, r) s, l +:+ default "" (vars !! r_name r) +:+ s) (t_last t) (t_parts t).

Definition missing_refs (vars : gmap string string) (t : template) : list string :=
  filter (λ n, vars !! n = None) (template_refs t).

(** ** Lemmas on the matchers *)

Lemma span_spec P s a b :
  span P s = (a, b) →
  s = a +:+ b ∧ str_forallb P a = true ∧
  match b with "" => True | String c _ => P c = false end.
Proof.
  revert a b. induction s as [|c s IH]; intros a b; simpl; [by intros [= <- <-]|].
  destruct (P c) eqn:E; [|by intros [= <- <-]].
  destruct (span P s) as [a' b'] eqn:E'. intros [= <- <-].
  destruct (IH _ _ eq_refl) as (-> & Ha & Hb). simpl. by rewrite E.
Qed.

Lemma span_app P a c s :
  str_forallb P a = true → P c = false → span P (a +:+ String c s) = (a, String c s).
Proof.
  intros Ha Hc. induction a as [|x a IH]; simpl in *.
  - by rewrite Hc.
  - bool_to_prop. destruct Ha as [-> Ha]. by rewrite IH.
Qed.

Lemma is_ident_chars s : is_ident s = true → str_forallb ident_char s = true.
Proof.
  destruct s as [|c s]; simpl; [done|]. unfold ident_start, ident_char, is_alnum.
  intros [[H|H]%orb_true_iff Hs]%andb_true_iff; rewrite Hs, H; [done|].
  by rewrite orb_true_r.
Qed.

Lemma ident_not_space c : ident_char c = true → is_re_space c = false.
Proof. by destruct c as [[] [] [] [] [] [] [] []]. Qed.
Lemma ident_not_brace c : ident_char c || is_re_space c = true → c ≠ "{"%char.
Proof. by intros H ->. Qed.

Lemma is_ident_cons s : is_ident s = true → ∃ c s', s = String c s' ∧ ident_char c = true.
Proof.
  intros H. pose proof (is_ident_chars _ H) as H'. destruct s as [|c s]; [done|].
  simpl in H'. bool_to_prop. exists c, s. naive_solver.
Qed.

Lemma match_ref_print r rest : ref_ok r → match_ref (print_ref r +:+ rest) = Some (r, rest).
Proof.
  intros (H1 & H2 & H3). unfold match_ref, print_ref.
  rewrite !str_app_assoc, strip_prefix_app.
  replace ("." +:+ r_name r +:+ r_ws2 r +:+ "}}" +:+ rest)
    with (String "." (r_name r +:+ r_ws2 r +:+ "}}" +:+ rest)) by done.
  rewrite span_app by done. simpl.
  destruct (is_ident_cons _ H2) as (c & s' & E & Hc).
  pose proof (is_ident_chars _ H2) as H2'.
  assert (span ident_char (r_name r +:+ r_ws2 r +:+ "}}" +:+ rest)
          = (r_name r, r_ws2 r +:+ "}}" +:+ rest)) as ->.
  { destruct (r_ws2 r) as [|w ws] eqn:Ew.
    - rewrite str_app_nil_l. apply (span_app _ _ "}"%char ("}" +:+ rest)); done.
    - rewrite str_app_cons. apply span_app; [done|]. simpl in H3. bool_to_prop.
      destruct (ident_char w) eqn:E'; [|done].
      apply ident_not_space in E'. naive_solver congruence. }
  change ("}}" +:+ rest) with (String "}" ("}" +:+ rest)).
  rewrite span_app by done. simpl. rewrite H2. by destruct r.
Qed.

Lemma match_ref_Some s r rest : match_ref s = Some (r, rest) → s = print_ref r +:+ rest ∧ ref_ok r.
Proof.
  unfold match_ref. intros H.
  destruct (strip_prefix "{{" s) as [s1|] eqn:E1; [|done]. apply strip_prefix_Some in E1.
  destruct (span is_re_space s1) as [w1 s2] eqn:E2. apply span_spec in E2 as (-> & Hw1 & _).
  destruct (strip_prefix "." s2) as [s3|] eqn:E3; [|done]. apply strip_prefix_Some in E3.
  destruct (span ident_char s3) as [name s4] eqn:E4. apply span_spec in E4 as (-> & _ & _).
  destruct (span is_re_space s4) as [w2 s5] eqn:E5. apply span_spec in E5 as (-> & Hw2 & _).
  destruct (strip_prefix "}}" s5) as [s6|] eqn:E6; [|done]. apply strip_prefix_Some in E6.
  destruct (is_ident name) eqn:E7; [|done]. injection H as [= <- <-]. subst.
  split; [|done]. unfold print_ref. simpl. by rewrite !str_app_assoc.
Qed.

Lemma match_ref_open s r rest : match_ref s = Some (r, rest) → has_prefix "{{" s = true.
Proof.
  intros [-> _]%match_ref_Some. unfold print_ref. rewrite !str_app_assoc. apply has_prefix_app.
Qed.

Lemma print_ref_length r : 4 < String.length (print_ref r).
Proof. unfold print_ref. rewrite !str_length_app. simpl. lia. Qed.

(** ** Scanning: skipped bytes, literals, references *)

Lemma find_refs_skip pos p s :
  find_refs pos (String.length p) (p +:+ s) = find_refs (pos + String.length p) 0 s.
Proof.
  revert pos. induction p as [|c p IH]; intros pos; simpl.
  - by rewrite Nat.add_0_r.
  - rewrite IH. f_equal. lia.
Qed.

Lemma replace_refs_skip vars p s :
  replace_refs vars (String.length p) (p +:+ s) = replace_refs vars 0 s.
Proof. induction p as [|c p IH]; [done|]. rewrite str_app_cons. simpl. apply IH. Qed.

Lemma match_ref_none_skip s : has_prefix "{{" s = false → match_ref s = None.
Proof.
  intros H. destruct (match_ref s) as [[r rest]|] eqn:E; [|done].
  apply match_ref_open in E. congruence.
Qed.

(** In a literal no reference starts. *)
Lemma lit_ok_cons c l s :
  lit_ok (String c l) → has_prefix "{{" (String c (l +:+ "{{" +:+ s)) = false ∧ lit_ok l.
Proof.
  intros H. split; [|intros Ho; apply H; rewrite str_app_cons; auto with rco].
  apply not_true_is_false. intros [r Hr]%has_prefix_true. apply H.
  assert (c = "{"%char ∧ l +:+ "{{" +:+ s = "{" +:+ r) as [-> Hl].
  { rewrite (str_app_cons "{"%char "{" r) in Hr. by injection Hr as -> ->. }
  destruct l as [|c l]; [by exists "", ""|].
  rewrite str_app_cons in Hl. injection Hl as -> _.
  exists "", (l +:+ "{"). done.
Qed.

Lemma find_refs_lit pos l s :
  lit_ok l →
  find_refs pos 0 (l +:+ "{{" +:+ s) = find_refs (pos + String.length l) 0 ("{{" +:+ s).
Proof.
  revert pos. induction l as [|c l IH]; intros pos H.
  - simpl. by rewrite Nat.add_0_r.
  - rewrite str_app_cons. destruct (lit_ok_cons _ _ s H) as [Hp Hl]. cbn [find_refs].
    rewrite match_ref_none_skip by done. rewrite IH by done. f_equal. simpl. lia.
Qed.

Lemma find_opens_lit pos l s :
  lit_ok l →
  find_opens pos 0 (l +:+ "{{" +:+ s) = find_opens (pos + String.length l) 0 ("{{" +:+ s).
Proof.
  revert pos. induction l as [|c l IH]; intros pos H.
  - simpl. by rewrite Nat.add_0_r.
  - rewrite str_app_cons. destruct (lit_ok_cons _ _ s H) as [Hp Hl]. cbn [find_opens].
    rewrite Hp. rewrite IH by done. f_equal. simpl. lia.
Qed.

Lemma replace_refs_lit vars l s :
  lit_ok l →
  replace_refs vars 0 (l +:+ "{{" +:+ s) =
  let '(out, missing) := replace_refs vars 0 ("{{" +:+ s) in (l +:+ out, missing).
Proof.
  induction l as [|c l IH]; intros H.
  - rewrite str_app_nil_l. by destruct (replace_refs _ _ _).
  - rewrite str_app_cons. destruct (lit_ok_cons _ _ s H) as [Hp Hl]. cbn [replace_refs].
    rewrite match_ref_none_skip, IH by done. by destruct (replace_refs vars 0 ("{{" +:+ s)).
Qed.

(** The last literal has no opening braces at all. *)
Lemma no_open_cons c l :
  ¬ occurs "{{" (String c l) → has_prefix "{{" (String c l) = false ∧ ¬ occurs "{{" l.
Proof.
  intros H. split; [|auto with rco].
  apply not_true_is_false. intros [r Hr]%has_prefix_true. apply H. by exists "", r.
Qed.

Lemma find_last pos l : ¬ occurs "{{" l → find_refs pos 0 l = [] ∧ find_opens pos 0 l = [].
Proof.
  revert pos. induction l as [|c l IH]; intros pos H; [done|].
  destruct (no_open_cons _ _ H) as [Hp Hl]. cbn [find_refs find_opens].
  rewrite match_ref_none_skip, Hp by done. by apply IH.
Qed.

Lemma replace_refs_last vars l : ¬ occurs "{{" l → replace_refs vars 0 l = (l, []).
Proof.
  induction l as [|c l IH]; intros H; [done|].
  destruct (no_open_cons _ _ H) as [Hp Hl]. cbn [replace_refs].
  by rewrite match_ref_none_skip, IH by done.
Qed.

(** A reference is one match and one opening. *)
Lemma print_ref_cons r : ∃ p, print_ref r = String "{" p ∧
  String.length p = String.length (print_ref r) - 1.
Proof.
  exists ("{" +:+ r_ws1 r +:+ "." +:+ r_name r +:+ r_ws2 r +:+ "}}"). split; [done|].
  unfold print_ref. rewrite !str_length_app. simpl. lia.
Qed.

Lemma find_refs_ref pos r s :
  ref_ok r →
  find_refs pos 0 (print_ref r +:+ s) =
  (pos, r_name r) :: find_refs (pos + String.length (print_ref r)) 0 s.
Proof.
  intros Hr. pose proof (match_ref_print r s Hr) as Hm. pose proof (print_ref_length r).
  destruct (print_ref_cons r) as (p & Ep & Elen). rewrite Ep in Hm |- *.
  rewrite str_app_cons in Hm |- *. cbn [find_refs]. rewrite Hm. f_equal.
  rewrite <- Elen, find_refs_skip. f_equal. simpl. lia.
Qed.

Lemma replace_refs_ref vars r s :
  ref_ok r →
  replace_refs vars 0 (print_ref r +:+ s) =
  let '(out, missing) := replace_refs vars 0 s in
  match vars !! r_name r with
  | Some v => (v +:+ out, missing)
  | None => (out, r_name r :: missing)
  end.
Proof.
  intros Hr. pose proof (match_ref_print r s Hr) as Hm.
  destruct (print_ref_cons r) as (p & Ep & Elen). rewrite Ep in Hm |- *.
  rewrite str_app_cons in Hm |- *. cbn [replace_refs]. rewrite Hm, <- Elen.
  by rewrite replace_refs_skip.
Qed.

Lemma find_opens_no_brace pos p s :
  str_forallb (λ c, negb (bool_decide (c = "{"%char))) p = true →
  find_opens pos 0 (p +:+ s) = find_opens (pos + String.length p) 0 s.
Proof.
  revert pos. induction p as [|c p IH]; intros pos H.
  - simpl. by rewrite Nat.add_0_r.
  - simpl in H. bool_to_prop. destruct H as [Hc Hp]. rewrite str_app_cons. cbn [find_opens].
    replace (has_prefix "{{" _) with false.
    2: { symmetry. apply not_true_is_false. intros [r Hr]%has_prefix_true.
         rewrite str_app_cons in Hr. by injection Hr as -> _. }
    rewrite IH by done. f_equal. simpl. lia.
Qed.

Lemma str_forallb_impl (P Q : ascii → bool) s :
  (∀ c, P c = true → Q c = true) → str_forallb P s = true → str_forallb Q s = true.
Proof.
  intros HPQ. induction s as [|c s IH]; simpl; [done|]. intros H. bool_to_prop.
  destruct H. split; auto.
Qed.

Lemma find_opens_ref pos r s :
  ref_ok r →
  find_opens pos 0 (print_ref r +:+ s) =
  pos :: find_opens (pos + String.length (print_ref r)) 0 s.
Proof.
  intros (H1 & H2%is_ident_chars & H3). unfold print_ref. rewrite !str_app_assoc.
  set (body := r_ws1 r +:+ "." +:+ r_name r +:+ r_ws2 r +:+ "}}").
  assert (r_ws1 r +:+ "." +:+ r_name r +:+ r_ws2 r +:+ "}}" +:+ s = body +:+ s) as ->.
  { unfold body. by rewrite !str_app_assoc. }
  rewrite !str_app_cons, str_app_nil_l. cbn [find_opens].
  change (String "{" (String "{" (body +:+ s))) with ("{{" +:+ (body +:+ s)).
  rewrite has_prefix_app. f_equal.
  rewrite find_opens_no_brace; [f_equal; cbn [String.length]; rewrite str_app_nil_l; lia|].
  unfold body. rewrite !str_forallb_app. simpl. bool_to_prop. split_and!; try done.
  - eapply str_forallb_impl, H1. intros c Hc. bool_to_prop. apply ident_not_brace.
    by rewrite Hc, orb_true_r.
  - eapply str_forallb_impl, H2. intros c Hc. bool_to_prop. apply ident_not_brace.
    by rewrite Hc.
  - eapply str_forallb_impl, H3. intros c Hc. bool_to_prop. apply ident_not_brace.
    by rewrite Hc, orb_true_r.
Qed.

(** ** Templates: printing, references, substitution *)

#[local] Arguments print_ref : simpl never.
#[local] Arguments print_template : simpl never.

Lemma print_template_parts t l r parts :
  t_parts t = (l, r) :: parts →
  ∃ s, print_template t = l +:+ "{{" +:+ s ∧
       "{{" +:+ s = print_ref r +:+ print_template (mkTemplate parts (t_last t)).
Proof.
  intros E. unfold print_template. rewrite E. simpl.
  exists (r_ws1 r +:+ "." +:+ r_name r +:+ r_ws2 r +:+ "}}" +:+
     foldr (λ '(lit, r0) s, lit +:+ print_ref r0 +:+ s) (t_last t) parts).
  unfold print_ref. by rewrite !str_app_assoc.
Qed.

(** Both scans find the same positions. *)
Lemma find_template pos t :
  template_ok t →
  map fst (find_refs pos 0 (print_template t)) = find_opens pos 0 (print_template t) ∧
  map snd (find_refs pos 0 (print_template t)) = template_refs t.
Proof.
  destruct t as [parts last]. unfold template_ok. simpl. intros [Hp Hl].
  revert pos. induction Hp as [|[l r] parts [Hlit Hr] Hp IH]; intros pos.
  - unfold print_template. simpl. by destruct (find_last pos last Hl) as [-> ->].
  - destruct (print_template_parts (mkTemplate ((l, r) :: parts) last) l r parts eq_refl)
      as (s & -> & E). cbn [t_last] in E.
    rewrite find_refs_lit, find_opens_lit, E by done.
    rewrite find_refs_ref, find_opens_ref by done. cbn [map fst snd].
    destruct (IH (pos + String.length l + String.length (print_ref r))) as [-> ->].
    done.
Qed.

Lemma pair_refs_Ok valid opens names :
  length opens = length valid →
  pair_refs valid opens = Ok names ↔ map fst valid = opens ∧ map snd valid = names.
Proof.
  revert opens names. induction valid as [|[m0 n] valid IH];
    intros [|o opens] names Hlen; simpl in *; try lia; [naive_solver|].
  case_decide as E; [|naive_solver]. rewrite res_bind_Ok.
  setoid_rewrite IH; [|lia]. naive_solver.
Qed.

Lemma References_Ok s names :
  References s = Ok names ↔
  map fst (find_refs 0 0 s) = find_opens 0 0 s ∧ map snd (find_refs 0 0 s) = names.
Proof.
  unfold References. case_decide as E.
  - by apply pair_refs_Ok.
  - split; [done|]. intros [H _]. apply (f_equal length) in H.
    rewrite length_map in H. done.
Qed.

(** Everything before the first opening braces is a literal. *)
Lemma first_open s :
  ¬ occurs "{{" s ∨ ∃ l r, s = l +:+ "{{" +:+ r ∧ lit_ok l.
Proof.
  induction s as [|c s IH].
  - left. intros H%occurs_length. simpl in H. lia.
  - destruct (has_prefix "{{" (String c s)) eqn:E.
    { apply has_prefix_true in E as [r Hr]. right. exists "", r. split; [done|].
      intros H%occurs_length. simpl in H. lia. }
    destruct IH as [H|(l & r & -> & Hl)].
    + left. rewrite <- str_contains_spec in H |- *. cbn [str_contains].
      rewrite E. simpl. done.
    + right. exists (String c l), r. split; [done|].
      unfold lit_ok in *. rewrite <- str_contains_spec in Hl |- *.
      rewrite str_app_cons. cbn [str_contains].
      replace (has_prefix "{{" (String c (l +:+ "{"))) with false; [done|].
      symmetry. apply not_true_is_false. intros [q Hq]%has_prefix_true.
      apply not_true_iff_false in E. apply E. apply has_prefix_true.
      rewrite str_app_cons, str_app_cons in Hq. injection Hq as -> Hq.
      destruct l as [|c' l].
      * by exists ("{" +:+ r).
      * rewrite str_app_cons in Hq. injection Hq as -> _.
        by exists (l +:+ "{{" +:+ r).
Qed.

Lemma find_refs_ge pos k s : Forall (λ x, pos ≤ x.1) (find_refs pos k s).
Proof.
  assert (∀ n s pos k, pos ≤ n + pos → String.length s ≤ n →
    Forall (λ x, pos ≤ x.1) (find_refs pos k s)) as H.
  2: { by apply (H (String.length s)); [lia|]. }
  clear. induction n as [|n IH]; intros s pos k _ Hn; destruct s as [|c s]; simpl in *;
    try constructor; [lia|].
  assert (∀ k, Forall (λ x, pos ≤ x.1) (find_refs (S pos) k s)) as Hs.
  { intros k'. eapply Forall_impl; [apply IH; lia|]. simpl. lia. }
  destruct k as [|k]; [|done]. destruct (match_ref _) as [[r rest]|]; [|done].
  by constructor.
Qed.

(** The scans agree only on printed templates. *)
Lemma find_template_inv s pos :
  map fst (find_refs pos 0 s) = find_opens pos 0 s →
  ∃ t, template_ok t ∧ print_template t = s.
Proof.
  remember (String.length s) as n eqn:Hn. revert s pos Hn.
  induction (lt_wf n) as [n _ IH]. intros s pos -> Heq.
  destruct (first_open s) as [H|(l & r & -> & Hl)].
  { exists (mkTemplate [] s). by split. }
  rewrite find_refs_lit, find_opens_lit in Heq by done.
  destruct (match_ref ("{{" +:+ r)) as [[rf rest]|] eqn:Em.
  - apply match_ref_Some in Em as [E Hr]. rewrite E in Heq |- *.
    rewrite find_refs_ref, find_opens_ref in Heq by done. injection Heq as Heq.
    destruct (IH (String.length rest)) with (s := rest)
      (pos := pos + String.length l + String.length (print_ref rf))
      as (t & [Hp Hlast] & <-); [|done..|].
    { pose proof (print_ref_length rf). rewrite E, !str_length_app. lia. }
    exists (mkTemplate ((l, rf) :: t_parts t) (t_last t)). split; [|done].
    split; [|done]. simpl. by constructor.
  - exfalso. rewrite str_app_cons in Em, Heq. cbn [find_refs find_opens] in Heq.
    rewrite Em in Heq.
    replace (has_prefix _ _) with true in Heq by (symmetry; apply (has_prefix_app "{{" r)).
    pose proof (find_refs_ge (S (pos + String.length l)) 0 ("{" +:+ r)) as Hge.
    destruct (find_refs _ _ _) as [|x xs]; simpl in Heq; [done|].
    injection Heq as Heq _. inversion Hge; subst. lia.
Qed.

Lemma replace_template vars t :
  template_ok t →
  (missing_refs vars t = [] → (replace_refs vars 0 (print_template t)).1 = subst_template vars t) ∧
  (replace_refs vars 0 (print_template t)).2 = missing_refs vars t.
Proof.
  destruct t as [parts last]. unfold template_ok. simpl. intros [Hp Hl].
  induction Hp as [|[l r] parts [Hlit Hr] Hp IH].
  - unfold print_template, subst_template, missing_refs. simpl.
    by rewrite replace_refs_last.
  - destruct (print_template_parts (mkTemplate ((l, r) :: parts) last) l r parts eq_refl)
      as (s & -> & E). cbn [t_last] in E.
    rewrite replace_refs_lit, E, replace_refs_ref by done.
    unfold subst_template, missing_refs, template_refs in *. simpl in *. rewrite filter_cons.
    destruct (replace_refs vars 0 _) as [out missing]. simpl in IH.
    destruct IH as [IH1 IH2].
    case_decide as Hd; [rewrite Hd; split; [done|]; by rewrite <- IH2|].
    destruct (vars !! r_name r) as [v|]; [|done]. simpl.
    split; [|done]. intros Hm. by rewrite IH1.
Qed.

Lemma References_iff (s : string) (names : list string) :
  References s = Ok names ↔
  ∃ t, template_ok t ∧ print_template t = s ∧ template_refs t = names.
Proof.
  rewrite References_Ok. split.
  - intros [Heq Hn]. destruct (find_template_inv s 0 Heq) as (t & Ht & <-).
    exists t. split_and!; [done..|]. destruct (find_template 0 t Ht) as [_ H]. congruence.
  - intros (t & Ht & <- & <-). by apply find_template.
Qed.

(** C23: [References] accepts a text exactly when it is a printed
    template, i.e. literals without opening braces and references
    [{{ .name }}] in turn, and then returns the names of its references in
    order. *)
Theorem References_grammar (s : string) (names : list string) :
  References s = Ok names ↔
  ∃ t, template_ok t ∧ print_template t = s ∧ template_refs t = names.
Proof. apply References_iff. Qed.

Lemma Render_template vars t :
  template_ok t →
  Render (print_template t) vars =
  if bool_decide (missing_refs vars t = []) then Ok (subst_template vars t)
  else Err (missing_error (missing_refs vars t)).
Proof.
  intros Ht. unfold Render.
  assert (References (print_template t) = Ok (template_refs t)) as ->.
  { apply References_Ok. by apply find_template. }
  simpl. destruct (replace_template vars t Ht) as [H1 H2].
  destruct (replace_refs _ _ _) as [out missing]. simpl in *. subst missing.
  case_bool_decide; [|done]. by rewrite H1.
Qed.

Lemma Render_Ok s vars out :
  Render s vars = Ok out ↔
  ∃ t, template_ok t ∧ print_template t = s ∧ missing_refs vars t = [] ∧
       subst_template vars t = out.
Proof.
  split.
  - intros H. assert (∃ names, References s = Ok names) as [names Hn].
    { unfold Render in H. apply res_bind_Ok in H as (names & Hn & _). eauto. }
    apply References_iff in Hn as (t & Ht & <- & _).
    rewrite Render_template in H by done. case_bool_decide; simplify_eq. eauto.
  - intros (t & Ht & <- & Hm & <-). rewrite Render_template by done.
    by rewrite bool_decide_true.
Qed.

(** ** Resolve *)

(** The value of each variable, highest priority first: [--var-env], [--var],
    the inventory, the default of the job. *)
Definition resolved (decls : gmap string JobVariable) (ins : Inputs)
    (lookup : string → option string) : gmap string string :=
  omap lookup (inJobEnv ins) ∪ (inJob ins ∪ (inHost ins ∪ omap vDefault decls)).

Record resolvable (decls : gmap string JobVariable) (ins : Inputs)
    (lookup : string → option string) : Prop := {
  rs_env : ∀ k e, inJobEnv ins !! k = Some e → is_Some (lookup e);
  rs_value : ∀ k v, resolved decls ins lookup !! k = Some v → CheckValue v = Ok tt;
  rs_literal : ∀ n d, decls !! n = Some d → vSensitive d = true →
    inJob ins !! n = None ∧ inHost ins !! n = None;
  rs_required : ∀ n d, decls !! n = Some d → vRequired d = true →
    get (resolved decls ins lookup) n ≠ "";
}.

(** What the redactor must know: values from the environment and non-empty
    values of sensitive variables. *)
Definition is_secret (decls : gmap string JobVariable) (ins : Inputs)
    (lookup : string → option string) (s : string) : Prop :=
  (∃ k e, inJobEnv ins !! k = Some e ∧ lookup e = Some s) ∨
  (∃ n d, decls !! n = Some d ∧ vSensitive d = true ∧ s ≠ "" ∧
          resolved decls ins lookup !! n = Some s).

Lemma set_all_map vars l : NoDup l.*1 → set_all vars l = list_to_map l ∪ vars.
Proof.
  unfold set_all. revert vars.
  induction l as [|[k v] l IH]; intros vars Hnd; simpl.
  - by rewrite (left_id_L ∅ (∪)).
  - apply NoDup_cons in Hnd as [Hk Hnd]. rewrite IH by done.
    apply not_elem_of_list_to_map_1 in Hk.
    rewrite <- insert_union_r by done. by rewrite insert_union_l.
Qed.

Lemma set_defaults_map vars l :
  NoDup l.*1 → set_defaults vars l = omap vDefault (list_to_map l : gmap _ _) ∪ vars.
Proof.
  unfold set_defaults. revert vars.
  induction l as [|[k d] l IH]; intros vars Hnd; simpl.
  - by rewrite omap_empty, (left_id_L ∅ (∪)).
  - apply NoDup_cons in Hnd as [Hk Hnd]. apply not_elem_of_list_to_map_1 in Hk.
    simpl in Hk. rewrite IH, omap_insert by done. simpl.
    destruct (vDefault d); [|by rewrite delete_id by (rewrite lookup_omap, Hk; done)].
    rewrite <- insert_union_r by (rewrite lookup_omap, Hk; done).
    by rewrite insert_union_l.
Qed.

Section resolve_lemmas.
Context `{GoRuntime}.
Implicit Types (decls : gmap string JobVariable) (lookup : string → option string).

Definition env_issues lookup (l : list (string * string)) : list string :=
  l ≫= λ '(k, e), match lookup e with
    | None => ["variable " +:+ quote k +:+ ": environment variable " +:+ e +:+ " is not set"]
    | Some _ => [] end.

Lemma env_fold lookup l vars secrets issues :
  NoDup l.*1 →
  foldl (env_step lookup) (vars, secrets, issues) l =
  (omap lookup (list_to_map l : gmap _ _) ∪ vars, secrets ++ omap (lookup ∘ snd) l,
   issues ++ env_issues lookup l).
Proof.
  revert vars secrets issues.
  induction l as [|[k e] l IH]; intros vars secrets issues Hnd; simpl.
  - by rewrite omap_empty, (left_id_L ∅ (∪)), !app_nil_r.
  - apply NoDup_cons in Hnd as [Hk Hnd]. apply not_elem_of_list_to_map_1 in Hk.
    simpl in Hk. rewrite omap_insert.
    destruct (lookup e) as [v|] eqn:E; simpl; rewrite IH, <- ?app_assoc by done; simpl.
    + rewrite <- insert_union_r by (rewrite lookup_omap, Hk; done).
      by rewrite insert_union_l.
    + by rewrite delete_id by (rewrite lookup_omap, Hk; done).
Qed.

Definition resolve_issues decls ins lookup : list string :=
  env_issues lookup (range 4 (inJobEnv ins)) ++
  (range 5 (resolved decls ins lookup) ≫= value_issue) ++
  (range 6 decls ≫= decl_issues ins (resolved decls ins lookup)).
Definition resolve_secrets decls ins lookup : list string :=
  omap (lookup ∘ snd) (range 4 (inJobEnv ins)) ++
  (range 6 decls ≫= decl_secrets (resolved decls ins lookup)).

(** [Resolve] with its loops summed up. *)
Lemma Resolve_unfold decls ins lookup :
  Resolve decls ins lookup =
  if decide (resolve_issues decls ins lookup = [])
  then Ok (resolved decls ins lookup, resolve_secrets decls ins lookup)
  else Err (sort_strings (resolve_issues decls ins lookup)).
Proof.
  unfold Resolve. rewrite set_defaults_map, !set_all_map by apply range_nodup.
  rewrite env_fold by apply range_nodup. rewrite !range_to_map.
  rewrite <- app_assoc, (right_id_L ∅ (∪)).
  change (match resolve_issues decls ins lookup with
    | [] => Ok (resolved decls ins lookup, resolve_secrets decls ins lookup)
    | _ :: _ => Err (sort_strings (resolve_issues decls ins lookup)) end = 
    if decide (resolve_issues decls ins lookup = [])
    then Ok (resolved decls ins lookup, resolve_secrets decls ins lookup)
    else Err (sort_strings (resolve_issues decls ins lookup))).
  by destruct (resolve_issues decls ins lookup).
Qed.

Lemma no_issues decls ins lookup :
  resolve_issues decls ins lookup = [] ↔ resolvable decls ins lookup.
Proof.
  unfold resolve_issues. rewrite !app_nil. unfold env_issues. rewrite !bind_nil. split.
  - intros (H1 & H2 & H3). split.
    + intros k e Hk%(range_elem 4). specialize (H1 _ Hk). simpl in H1.
      destruct (lookup e); [done|discriminate].
    + intros k v Hk%(range_elem 5). specialize (H2 _ Hk). unfold value_issue in H2.
      simpl in H2. by destruct (CheckValue v) as [[]|].
    + intros n d Hn%(range_elem 6) Hs. specialize (H3 _ Hn). simpl in H3.
      apply app_nil in H3 as [H3 _]. rewrite Hs in H3.
      destruct (_ || _) eqn:E in H3; [discriminate|]. bool_to_prop.
      rewrite !eq_None_not_Some. tauto.
    + intros n d Hn%(range_elem 6) Hr. specialize (H3 _ Hn). simpl in H3.
      apply app_nil in H3 as [_ H3]. rewrite Hr in H3.
      case_bool_decide; [discriminate|done].
  - intros [H1 H2 H3 H4]. split_and!.
    + intros [k e] Hk%range_elem. destruct (H1 _ _ Hk) as [v ->]. done.
    + intros [k v] Hk%range_elem. unfold value_issue. simpl. by rewrite (H2 _ _ Hk).
    + intros [n d] Hn%range_elem. simpl. apply app_nil. split.
      * destruct (vSensitive d) eqn:E; [|done]. destruct (H3 _ _ Hn E) as [-> ->].
        by rewrite !bool_decide_false by apply is_Some_None.
      * destruct (vRequired d) eqn:E; [|done].
        by rewrite bool_decide_false by (by apply (H4 _ _ Hn)).
Qed.
End resolve_lemmas.

Section resolve_theorems.
Context `{GoRuntime}.
Implicit Types (decls : gmap string JobVariable) (lookup : string → option string).

Lemma Resolve_Ok decls ins lookup vars secrets :
  Resolve decls ins lookup = Ok (vars, secrets) →
  resolvable decls ins lookup ∧ vars = resolved decls ins lookup ∧
  secrets = resolve_secrets decls ins lookup.
Proof.
  rewrite Resolve_unfold, <- no_issues. case_decide; naive_solver.
Qed.

Lemma elem_of_secrets decls ins lookup s :
  s ∈ resolve_secrets decls ins lookup ↔ is_secret decls ins lookup s.
Proof.
  unfold is_secret, resolve_secrets. rewrite elem_of_app, list_elem_of_omap, list_elem_of_bind.
  f_equiv.
  - split; [intros ([k e] & Hk%range_elem & Hs); eauto|].
    intros (k & e & Hk & Hs). exists (k, e). by rewrite range_elem.
  - split.
    + intros ([n d] & Hs & Hn%range_elem). simpl in Hs. unfold get in Hs.
      destruct (vSensitive d) eqn:Ed; simpl in Hs; [|set_solver].
      case_bool_decide; [set_solver|]. simpl in Hs. apply list_elem_of_singleton in Hs as ->.
      destruct (resolved _ _ _ !! n) eqn:En; [|done]. eauto 10.
    + intros (n & d & Hn & Hd & Hne & Hs). exists (n, d). rewrite range_elem.
      split; [|done]. simpl. unfold get. rewrite Hd, Hs. simpl.
      rewrite bool_decide_false by done. set_solver.
Qed.

(** C24: [Resolve] succeeds exactly when every [--var-env] variable is
    set, no resolved value has a control character, no sensitive variable is
    given as a literal and every required one has a value; the values then
    follow the precedence [--var-env], [--var], inventory, job default, and the
    returned secrets are exactly the values read from the environment and the
    non-empty values of the sensitive variables. *)
Theorem Resolve_spec decls ins lookup :
  match Resolve decls ins lookup with
  | Ok (vars, secrets) =>
      resolvable decls ins lookup ∧ vars = resolved decls ins lookup ∧
      ∀ s, s ∈ secrets ↔ is_secret decls ins lookup s
  | Err issues => ¬ resolvable decls ins lookup ∧ issues ≠ []
  end.
Proof.
  destruct (Resolve decls ins lookup) as [[vars secrets]|issues] eqn:E.
  - apply Resolve_Ok in E as (Hr & -> & ->). split_and!; [done..|]. intros s.
    apply elem_of_secrets.
  - rewrite Resolve_unfold in E. rewrite <- no_issues. case_decide; [done|].
    injection E as <-. by rewrite sort_strings_nil.
Qed.
End resolve_theorems.

(** The outcome of [Resolve] does not depend on the order in
    which Go iterates over the maps: under any two runtimes the values are
    equal, the secrets are the same up to order, and a failure reports the same
    list of issues. *)
Theorem Resolve_order_independent (rt1 rt2 : GoRuntime) decls ins lookup :
  (∀ r, @is_print rt1 r = @is_print rt2 r) →
  match @Resolve rt1 decls ins lookup, @Resolve rt2 decls ins lookup with
  | Ok (v1, s1), Ok (v2, s2) => v1 = v2 ∧ s1 ≡ₚ s2
  | Err i1, Err i2 => i1 = i2
  | _, _ => False
  end.
Proof.
  intros Hp. rewrite !Resolve_unfold.
  assert (∀ V site (m : gmap string V), @range rt1 V site m ≡ₚ @range rt2 V site m) as Hr.
  { intros V site m. by rewrite !range_perm. }
  assert (∀ kv, @value_issue rt1 kv = @value_issue rt2 kv) as Hv.
  { intros kv. unfold value_issue. by rewrite (quote_ext rt1 rt2). }
  assert (∀ ins vars nd, @decl_issues rt1 ins vars nd = @decl_issues rt2 ins vars nd) as Hd.
  { intros ? ? [n d]. unfold decl_issues. by rewrite (quote_ext rt1 rt2). }
  assert (∀ l, @env_issues rt1 lookup l = @env_issues rt2 lookup l) as He.
  { intros l. unfold env_issues. apply list_bind_ext; [|done]. intros [k e].
    by rewrite (quote_ext rt1 rt2). }
  assert (@resolve_issues rt1 decls ins lookup ≡ₚ @resolve_issues rt2 decls ins lookup) as Hi.
  { unfold resolve_issues. rewrite He. unfold env_issues. rewrite !Hr.
    f_equiv; f_equiv; apply reflexive_eq; apply list_bind_ext; done. }
  case_decide as Hn; case_decide as Hn0.
  - split; [done|]. unfold resolve_secrets. by rewrite !Hr.
  - rewrite Hn in Hi. by apply Permutation_nil_l in Hi.
  - rewrite Hn0 in Hi. by apply Permutation_nil_r in Hi.
  - by apply sort_strings_proper.
Qed.

Lemma Resolve_order_independent_witness :
  let decls := {["a" := mkJobVariable true None true ""; "b" := mkJobVariable true None false ""]}
    : gmap string JobVariable in
  let ins := mkInputs ∅ ∅ ∅ in
  ∃ i, @Resolve default_runtime decls ins (λ _, None) = Err i ∧
    @Resolve reverse_runtime decls ins (λ _, None) = Err i ∧ length i = 2.
Proof.
  intros decls ins.
  pose proof (Resolve_order_independent default_runtime reverse_runtime decls ins (λ _, None)
    (λ _, eq_refl)) as H.
  destruct (@Resolve default_runtime decls ins _) as [[v s]|i] eqn:E; [vm_compute in E; discriminate E|].
  destruct (@Resolve reverse_runtime decls ins _) as [[v s]|i2] eqn:E2; [done|].
  subst i2. exists i. split; [done|]. split; [done|]. vm_compute in E. injection E as <-. done.
Defined.
