(* ===== verification/MaxFailures.v ===== *)
(** * MaxFailures: the failure limit ([ParseMaxFailures] of [internal/job/job.go])

    The limit is written ["N"] or ["N%"] and parsed with [strconv.ParseFloat];
    the percentage is computed in IEEE 754 double precision ([Float64]).  The
    parser covers the syntax of Go's floating-point literals, hexadecimal and
    underscores included. *)

From S2P Require Import Prelude GoStd Float64.

(** ** strconv.ParseFloat *)

Definition lower (c : ascii) : ascii :=
  if in_range "A" "Z" c then ascii_of_N (byte_val c + 32) else c.
Definition digit_value (hex : bool) (c : ascii) : option Z :=
  if is_digit c then Some (Z.of_N (byte_val c) - 48)%Z
  else if hex && in_range "a" "f" (lower c) then Some (Z.of_N (byte_val (lower c)) - 87)%Z
  else None.

(** The mantissa: its digits as an integer, how many of them follow the point,
    whether there was a digit or a point, and what is left of the text. *)
Record mantissa := mkMantissa {
  m_value : Z; m_frac : Z; m_digit : bool; m_dot : bool; m_rest : string }.

Fixpoint scan_mantissa (hex : bool) (acc : mantissa) (s : string) : mantissa :=
  match s with
  | "" => mkMantissa (m_value acc) (m_frac acc) (m_digit acc) (m_dot acc) ""
  | String c s' =>
      if bool_decide (c = "_"%char) then scan_mantissa hex acc s'
      else if bool_decide (c = "."%char) then
        if m_dot acc then mkMantissa (m_value acc) (m_frac acc) (m_digit acc) true s
        else scan_mantissa hex (mkMantissa (m_value acc) (m_frac acc) (m_digit acc) true "") s'
      else match digit_value hex c with
      | Some d =>
          scan_mantissa hex
            (mkMantissa (m_value acc * (if hex then 16 else 10) + d)
               (if m_dot acc then m_frac acc + 1 else m_frac acc)%Z true (m_dot acc) "") s'
      | None => mkMantissa (m_value acc) (m_frac acc) (m_digit acc) (m_dot acc) s
      end
  end.

(** The digits of the exponent, capped as in Go; underscores are skipped. *)
Fixpoint scan_exponent (e : Z) (s : string) : Z * string :=
  match s with
  | String c s' =>
      if is_digit c then
        scan_exponent (if (e <? 10000)%Z then e * 10 + (Z.of_N (byte_val c) - 48) else e)%Z s'
      else if bool_decide (c = "_"%char) then scan_exponent e s'
      else (e, s)
  | "" => (e, s)
  end.

(** [underscoreOK] on the text after the sign; [saw] is the class of the last
    character: [0] a digit or the base prefix, [_], or [!] anything else. *)
Fixpoint underscores_ok (hex : bool) (saw : ascii) (s : string) : bool :=
  match s with
  | "" => negb (bool_decide (saw = "_"%char))
  | String c s =>
      if is_digit c || hex && in_range "a" "f" (lower c) then underscores_ok hex "0" s
      else if bool_decide (c = "_"%char) then
        bool_decide (saw = "0"%char) && underscores_ok hex "_" s
      else negb (bool_decide (saw = "_"%char)) && underscores_ok hex "!" s
  end.

(** [m * base^...] rounded once to the nearest float64, ties to even. *)
Definition round_decimal (m e10 : Z) : float64 :=
  if (m =? 0)%Z then S754_zero false
  else if (0 <=? e10)%Z then f64_of_Z (m * 10 ^ e10)
  else f64_div (S754_finite false (Z.to_pos m) 0) (S754_finite false (Z.to_pos (10 ^ (- e10))) 0).
Definition round_binary (m e2 : Z) : float64 :=
  binary_normalize 53 1024 m e2 false.

Definition negate (neg : bool) (f : float64) : float64 := if neg then SFopp f else f.

(** Infinity is a range error ([None]), as is any syntax error. *)
Definition in_f64_range (f : float64) : option float64 :=
  match f with S754_infinity _ | S754_nan => None | _ => Some f end.

Definition parse_exponent (expchar : ascii) (s : string) : option (option Z) :=
  match s with
  | "" => Some None
  | String c s =>
      if bool_decide (lower c = expchar) then
        let '(sign, s) :=
          match s with
          | String "+" s => (1%Z, s) | String "-" s => ((-1)%Z, s) | _ => (1%Z, s) end in
        match s with
        | String d _ =>
            if is_digit d then
              let '(e, rest) := scan_exponent 0 s in
              if bool_decide (rest = "") then Some (Some (sign * e)%Z) else None
            else None
        | "" => None
        end
      else None
  end.

Definition parse_number (neg : bool) (s : string) : option float64 :=
  let '(hex, body) :=
    match s with
    | String "0" (String x (String y s')) =>
        if bool_decide (lower x = "x"%char) then (true, String y s') else (false, s)
    | _ => (false, s)
    end in
  let m := scan_mantissa hex (mkMantissa 0 0 false false "") body in
  if negb (m_digit m) || negb (underscores_ok hex (if hex then "0" else "^") body) then None
  else
    match parse_exponent (if hex then "p" else "e") (m_rest m) with
    | Some (Some e) =>
        in_f64_range (negate neg
          (if hex then round_binary (m_value m) (e - 4 * m_frac m)
           else round_decimal (m_value m) (e - m_frac m)))
    | Some None =>
        if hex then None (* a hexadecimal mantissa needs an exponent *)
        else in_f64_range (negate neg (round_decimal (m_value m) (- m_frac m)))
    | None => None
    end.

Fixpoint lower_all (s : string) : string :=
  match s with "" => "" | String c s => String (lower c) (lower_all s) end.

(** [strconv.ParseFloat s 64]; [None] is any error. *)
Definition ParseFloat (s : string) : option float64 :=
  let '(neg, signed, body) :=
    match s with
    | String "+" s => (false, true, s) | String "-" s => (true, true, s)
    | _ => (false, false, s) end in
  let low := lower_all body in
  if bool_decide (low = "inf") || bool_decide (low = "infinity") then Some (S754_infinity neg)
  else if bool_decide (low = "nan") && negb signed then Some S754_nan
  else parse_number neg body.

(** ** ParseMaxFailures *)

(** [strings.CutSuffix s "%"] *)
Fixpoint cut_percent (s : string) : string * bool :=
  match s with
  | "" => ("", false)
  | "%" => ("", true)
  | String c s => let '(b, p) := cut_percent s in (String c b, p)
  end.

Section max_failures.
Context `{GoRuntime}.

(** [int(f)]: truncation, and whatever the processor does out of range. *)
Definition f64_int (f : float64) : Z :=
  match f64_to_Z f with
  | Some z => if ((- 2 ^ 63 <=? z) && (z <? 2 ^ 63))%Z then z else float_to_int_undefined f
  | None => float_to_int_undefined f
  end.

Definition ParseMaxFailures (v : string) (total : Z) : res string Z :=
  let '(number, pct) := cut_percent v in
  let want := Err (quote v +:+ ": want a positive number of hosts or a percentage like 5%") in
  match ParseFloat number with
  | None => want
  | Some n =>
      if SFleb n (S754_zero false) || pct && SFltb (f64_of_Z 100) n then want
      else if pct then
        Ok (Z.max 1 (f64_int (f64_ceil (f64_div (f64_mul n (f64_of_Z total)) (f64_of_Z 100)))))
      else if negb (SFeqb n (f64_trunc n)) then
        Err (quote v +:+ ": want a whole number of hosts")
      else Ok (f64_int n)
  end.
End max_failures.

(** ** Lemmas *)

Lemma f64_of_Z_0 : f64_of_Z 0 = S754_zero false.
Proof. done. Qed.

(** A positive float equal to its truncation is a positive integer. *)
Lemma integral_positive n z :
  SFleb n (S754_zero false) = false → SFeqb n (f64_trunc n) = true →
  f64_to_Z n = Some z → (1 ≤ z)%Z.
Proof.
  destruct n as [s|s| |s m e]; simpl; try done.
  intros Hpos Heq [= <-]. destruct s; [done|].
  destruct (0 <=? e)%Z eqn:E; [apply Z.leb_le in E; nia|].
  apply Z.leb_gt in E.
  assert (0 < 2 ^ (- e))%Z as Hp by (apply Z.pow_pos_nonneg; lia).
  rewrite Z.quot_div_nonneg by lia.
  destruct (decide (Zpos m / 2 ^ (- e) = 0)%Z) as [H0|H0].
  - by rewrite H0, f64_of_Z_0 in Heq.
  - pose proof (Z.div_pos (Zpos m) (2 ^ (- e))). lia.
Qed.

Section theorems.
Context `{GoRuntime}.

Lemma f64_int_range f : (f64_int f < 2 ^ 63)%Z.
Proof.
  unfold f64_int. repeat case_match; try apply float_to_int_range. bool_to_prop. lia.
Qed.

(** An accepted limit is at least one host, so a job never
    starts with the value 0 that [Run] reads as "never stop", except for a
    plain number that no [int] can hold (infinity included), whose conversion
    Go leaves to the processor. *)
Theorem ParseMaxFailures_positive (v : string) (total m : Z) :
  ParseMaxFailures v total = Ok m →
  (1 ≤ m < 2 ^ 63)%Z ∨
  (m = f64_int (default S754_nan (ParseFloat v)) ∧ (cut_percent v).2 = false ∧
   match f64_to_Z (default S754_nan (ParseFloat v)) with
   | Some z => (2 ^ 63 ≤ z)%Z | None => True end).
Proof.
  unfold ParseMaxFailures. destruct (cut_percent v) as [number pct] eqn:Ec.
  destruct (ParseFloat number) as [n|] eqn:En; [|done].
  destruct (_ || _) eqn:E1; [done|]. apply orb_false_iff in E1 as [Hle _].
  destruct pct.
  - intros [= <-]. left. split; [lia|]. apply Z.max_lub_lt; [done|]. apply f64_int_range.
  - destruct (SFeqb n _) eqn:Eq; [|done]. intros [= <-]. simpl.
    assert (number = v) as ->.
    { clear -Ec. revert number Ec. induction v as [|c v IH]; intros number Ec; simpl in *.
      - by simplify_eq.
      - destruct (cut_percent v) as [b p]. destruct c as [[] [] [] [] [] [] [] []];
          destruct v; simplify_eq; by rewrite (IH b eq_refl). }
    rewrite En. simpl. destruct (f64_to_Z n) as [z|] eqn:Ez; [|by right].
    pose proof (integral_positive _ _ Hle Eq Ez).
    unfold f64_int. rewrite Ez.
    destruct (z <? 2 ^ 63)%Z eqn:Ez63.
    + apply Z.ltb_lt in Ez63. rewrite (proj2 (Z.leb_le (- 2 ^ 63) z)) by lia. left. simpl. lia.
    + apply Z.ltb_ge in Ez63. by right.
Qed.
End theorems.

Lemma ParseMaxFailures_positive_witness :
  @ParseMaxFailures default_runtime "5%" 3000 = Ok 150%Z ∧ (1 ≤ 150 < 2 ^ 63)%Z.
Proof.
  assert (@ParseMaxFailures default_runtime "5%" 3000 = Ok 150%Z) as E by (by vm_compute).
  split; [exact E|].
  destruct (@ParseMaxFailures_positive default_runtime "5%" 3000 150 E) as [?|(_ & H & _)]; [done|].
  vm_compute in H. discriminate H.
Defined.

(** [ceil(p * total / 100)], at least 1. *)
Definition percent_of (p total : Z) : Z := Z.max 1 (- (- (p * total) / 100)).

(** The totals and percentages of a bounded check. *)
Definition zrange (lo : Z) (n : nat) : list Z := map (λ i, (lo + Z.of_nat i)%Z) (seq 0 n).

Lemma elem_of_zrange lo n z : (lo ≤ z < lo + Z.of_nat n)%Z → z ∈ zrange lo n.
Proof.
  intros Hz. apply list_elem_of_fmap. exists (Z.to_nat (z - lo)).
  split; [lia|]. apply elem_of_seq. lia.
Qed.

Section percent.
Context `{GoRuntime}.

Definition percent_ok (p total : Z) : bool :=
  match ParseMaxFailures (itoa p +:+ "%") total with
  | Ok m => (m =? percent_of p total)%Z
  | Err _ => false
  end.

Lemma percent_checked :
  forallb (λ p, forallb (percent_ok p) (zrange 0 25)) (zrange 1 100) = true.
Proof. vm_compute. reflexivity. Qed.

(** A whole percentage of up to 24 hosts is the exact one,
    rounded up and at least 1: the double-precision product and quotient lose
    nothing. *)
Theorem ParseMaxFailures_percent (p total : Z) :
  (1 ≤ p ≤ 100)%Z → (0 ≤ total ≤ 24)%Z →
  ParseMaxFailures (itoa p +:+ "%") total = Ok (percent_of p total).
Proof.
  intros Hp Ht. pose proof percent_checked as Hc.
  rewrite forallb_forall in Hc. setoid_rewrite forallb_forall in Hc.
  specialize (Hc p). setoid_rewrite <- list_elem_of_In in Hc.
  specialize (Hc (elem_of_zrange 1 100 p ltac:(lia)) total
    (elem_of_zrange 0 25 total ltac:(lia))).
  unfold percent_ok in Hc. destruct (ParseMaxFailures _ _); [|done].
  apply Z.eqb_eq in Hc. congruence.
Qed.
End percent.

(** A fractional percentage need not be the exact one: 1.1% of 3000 hosts is 33
    hosts, but the product is rounded above 3300. *)
Example fractional_percent :
  @ParseMaxFailures default_runtime "1.1%" 3000 = Ok 34%Z ∧ (11 * 3000 = 33 * 1000)%Z.
Proof. by vm_compute. Qed.

(** "NaN%" is accepted as one host. *)
Example nan_percent : @ParseMaxFailures default_runtime "NaN%" 3000 = Ok 1%Z.
Proof. by vm_compute. Qed.

(** Infinity is accepted; on amd64 it becomes a negative limit: never stop. *)
Example infinite_limit : @ParseMaxFailures default_runtime "Inf" 3000 = Ok (- 2 ^ 63)%Z.
Proof. by vm_compute. Qed.
