(* ===== verification/Job.v ===== *)
(** * Job: job files and their validation ([internal/job/job.go])

    The records have the fields of the Go structs (a pointer or a nil-able
    slice is an [option]); [Validate] returns the list of issues in the order
    the code adds them, [checkRefs] is its helper.

    [valid_step] and [valid_job] say independently what a valid job is, and
    [Validate_spec] shows that [Validate] reports no issue exactly for those. *)

From S2P Require Import Prelude GoStd Variables MaxFailures.

Definition MaxRetries : Z := 10.
Definition MaxTimeout : Z := 24 * hour.
Definition MaxRegexLen : nat := 1024.
Definition DefaultMode : string := "0644".

(** [nil] and the empty list differ for [reflect.DeepEqual]. *)
Abbreviation StringList := (option (list string)).
Definition strs (l : StringList) : list string := default [] l.

Record Expect := mkExpect {
  xExitCode : option Z;
  xContains : StringList;
  xNotContains : StringList;
  xRegex : string;
}.
Definition emptyExpect : Expect := mkExpect None None None "".
#[export] Instance expect_eq_dec : EqDecision Expect.
Proof. solve_decision. Defined.

Record Copy := mkCopy {
  cpSrc : string;
  cpDest : string;
  cpMode : string;
  cpTemplate : bool;
  cpBody : option string;
}.

Record Step := mkStep {
  sName : string;
  sDescription : string;
  sCommand : string;
  sScript : string;
  sCopy : option Copy;
  sSudo : option bool;
  sExpect : Expect;
  sTimeout : Z;
  sRetries : option Z;
  sRetryDelay : Z;
  sContinueOnError : bool;
  sSensitive : bool;
  sReboot : bool;
  sDisconnect : bool;
  sReconnectTimeout : Z;
  sFireAndForget : bool;
  sScriptBody : option string;
}.

Record Defaults := mkDefaults {
  dTimeout : Z;
  dRetries : Z;
  dRetryDelay : Z;
  dSudo : bool;
}.

Record Job := mkJob {
  jName : string;
  jDescription : string;
  jVersion : string;
  jMaxFailures : string;
  jVariables : gmap string JobVariable;
  jDefaults : Defaults;
  jSteps : list Step;
  jHash : string;
  jPath : string;
}.

(** [ValidationError] *)
Definition validation_error (issues : list string) : string :=
  "job invalid: " +:+ str_join "; " issues.

(** ** Patterns *)

Definition name_char (c : ascii) : bool :=
  is_alnum c || bool_decide (c ∈ ["."; "_"; "-"]%char).

(** [namePattern] *)
Definition namePattern (s : string) : bool :=
  match s with
  | "" => false
  | String c s' =>
      is_alnum c && str_forallb name_char s' && bool_decide (String.length s' ≤ 127)
  end.
Definition namePattern_source : string := "^[A-Za-z0-9][A-Za-z0-9._-]{0,127}$".
Definition varPattern_source : string := "^[A-Za-z_][A-Za-z0-9_]{0,63}$".

(** [modePattern]: [^0?[0-7]{3}$] *)
Definition octal (c : ascii) : bool := in_range "0" "7" c.
Definition modePattern (s : string) : bool :=
  match s with
  | String a (String b (String c "")) => octal a && octal b && octal c
  | String z (String a (String b (String c ""))) =>
      bool_decide (z = "0"%char) && octal a && octal b && octal c
  | _ => false
  end.

Section validate.
Context `{GoRuntime}.

(** ** checkRefs *)

Definition ref_issue (vars : gmap string JobVariable) (loc : string) (allowSensitive : bool)
    (r : string) : list string :=
  match vars !! r with
  | None => [loc +:+ ": undeclared variable " +:+ quote r]
  | Some v =>
      if vSensitive v && negb allowSensitive then
        [loc +:+ ": uses sensitive variable " +:+ quote r +:+
         " and must be marked sensitive: true"]
      else []
  end.

Definition checkRefs (j : Job) (text loc : string) (allowSensitive : bool) : list string :=
  match References text with
  | Err e => [loc +:+ ": " +:+ e]
  | Ok refs => refs ≫= ref_issue (jVariables j) loc allowSensitive
  end.

(** ** Validate *)

(** One issue when [b] holds. *)
Definition issue_if (b : bool) (msg : string) : list string := if b then [msg] else [].

Definition bad_duration (d : Z) : bool := (d <? 0)%Z || (MaxTimeout <? d)%Z.

Definition head_issues (j : Job) : list string :=
  issue_if (negb (namePattern (jName j)))
    ("name is required and must match " +:+ namePattern_source) ++
  (if bool_decide (jMaxFailures j = "") then
     ["max_failures is required: e.g. " +:+ dquote +:+ "5" +:+ dquote +:+ " hosts, " +:+
      dquote +:+ "1%" +:+ dquote +:+ " of hosts, or " +:+ dquote +:+ "100%" +:+ dquote +:+
      " to never stop"]
   else match ParseMaxFailures (jMaxFailures j) 1 with
     | Err e => ["max_failures: " +:+ e] | Ok _ => [] end) ++
  issue_if (bad_duration (dTimeout (jDefaults j)) || (dRetryDelay (jDefaults j) <? 0)%Z)
    ("defaults: timeout must be 0-" +:+ duration_string MaxTimeout +:+ " and retry_delay >= 0") ++
  issue_if ((dRetries (jDefaults j) <? 0)%Z || (MaxRetries <? dRetries (jDefaults j))%Z)
    ("defaults.retries must be 0-" +:+ itoa MaxRetries).

Definition variable_issues (nv : string * JobVariable) : list string :=
  let '(name, v) := nv in
  issue_if (negb (varPattern name))
    ("variable " +:+ quote name +:+ ": name must match " +:+ varPattern_source) ++
  issue_if (vSensitive v && bool_decide (is_Some (vDefault v)))
    ("variable " +:+ quote name +:+ ": sensitive variables cannot have a default") ++
  match vDefault v with
  | Some d =>
      match CheckValue d with
      | Err e => ["variable " +:+ quote name +:+ " default: " +:+ e] | Ok _ => [] end
  | None => []
  end.

Definition copy_issues (loc : string) (c : Copy) : list string :=
  issue_if (bool_decide (cpSrc c = "") || negb (has_prefix "/" (cpDest c)))
    (loc +:+ ": copy needs src and an absolute dest") ++
  match CheckValue (cpDest c) with
  | Err e => [loc +:+ ": copy.dest: " +:+ e] | Ok _ => [] end ++
  issue_if (negb (bool_decide (cpMode c = "")) && negb (modePattern (cpMode c)))
    (loc +:+ ": copy.mode " +:+ quote (cpMode c) +:+ " must be octal like 0644").

(** How many of command, script and copy are set. *)
Definition step_kinds (s : Step) : nat :=
  length (filter (λ b : bool, b = true)
    [negb (bool_decide (sCommand s = "")); negb (bool_decide (sScript s = ""));
     bool_decide (is_Some (sCopy s))]).

Definition retries_positive (s : Step) : bool :=
  match sRetries s with Some n => (0 <? n)%Z | None => false end.

Definition reconnect_issues (loc : string) (s : Step) : list string :=
  if sReboot s || sDisconnect s then
    issue_if (bool_decide (is_Some (sCopy s)))
      (loc +:+ ": reboot/disconnect apply to command and script steps") ++
    issue_if (retries_positive s)
      (loc +:+ ": retries cannot be combined with reboot/disconnect (the command must not run twice)")
  else [].

Definition forget_issues (loc : string) (last : bool) (s : Step) : list string :=
  if sFireAndForget s then
    if bool_decide (sCommand s = "") then
      [loc +:+ ": fire_and_forget applies to command steps"]
    else if negb last then
      [loc +:+ ": fire_and_forget must be the last step (the connection may be gone afterwards)"]
    else if sReboot s || sDisconnect s || bool_decide (is_Some (sRetries s)) || sSensitive s ||
            negb (bool_decide (sExpect s = emptyExpect)) then
      [loc +:+ ": fire_and_forget checks nothing, so it cannot be combined with reboot, disconnect, retries, sensitive or expect"]
    else []
  else [].

Definition expect_issues (loc : string) (e : Expect) : list string :=
  match xExitCode e with
  | Some c => issue_if ((c <? 0)%Z || (255 <? c)%Z) (loc +:+ ": expect.exit_code must be 0-255")
  | None => [] end ++
  (if bool_decide (MaxRegexLen < String.length (xRegex e)) then
     [loc +:+ ": expect.regex longer than " +:+ itoa (Z.of_nat MaxRegexLen)]
   else match regexp_error (xRegex e) with
     | Some err => [loc +:+ ": expect.regex: " +:+ err] | None => [] end) ++
  ((strs (xContains e) ++ strs (xNotContains e)) ≫= λ c,
     issue_if (bool_decide (c = ""))
       (loc +:+ ": expect contains/not_contains entries must not be empty")).

(** The texts of a step that may hold references and are shown. *)
Definition step_texts (s : Step) : list string :=
  [sCommand s] ++ strs (xContains (sExpect s)) ++ strs (xNotContains (sExpect s)) ++
  match sCopy s with Some c => [cpDest c] | None => [] end.

Definition step_loc (i : nat) : string := "steps[" +:+ itoa (Z.of_nat i) +:+ "]".

Definition step_issues (j : Job) (i : nat) (seen : gset string) (s : Step) : list string :=
  let loc := step_loc i in
  (if negb (namePattern (sName s)) then
     [loc +:+ ": name is required and must match " +:+ namePattern_source]
   else issue_if (bool_decide (sName s ∈ seen))
     (loc +:+ ": duplicate step name " +:+ quote (sName s))) ++
  issue_if (negb (bool_decide (step_kinds s = 1)))
    (loc +:+ ": exactly one of command, script or copy is required") ++
  match sCopy s with Some c => copy_issues loc c | None => [] end ++
  issue_if (bad_duration (sTimeout s) || (sRetryDelay s <? 0)%Z)
    (loc +:+ ": timeout must be 0-" +:+ duration_string MaxTimeout +:+ " and retry_delay >= 0") ++
  match sRetries s with
  | Some n => issue_if ((n <? 0)%Z || (MaxRetries <? n)%Z)
      (loc +:+ ": retries must be 0-" +:+ itoa MaxRetries)
  | None => [] end ++
  reconnect_issues loc s ++
  forget_issues loc (bool_decide (i = length (jSteps j) - 1)) s ++
  issue_if (bad_duration (sReconnectTimeout s) ||
            (0 <? sReconnectTimeout s)%Z && negb (sReboot s) && negb (sDisconnect s))
    (loc +:+ ": reconnect_timeout needs reboot or disconnect and must be 0-" +:+
     duration_string MaxTimeout) ++
  expect_issues loc (sExpect s) ++
  (step_texts s ≫= λ t, checkRefs j t loc (sSensitive s)) ++
  issue_if (str_contains (xRegex (sExpect s)) "{{")
    (loc +:+ ": expect.regex must not contain template references").

Fixpoint steps_issues (j : Job) (i : nat) (seen : gset string) (l : list Step) : list string :=
  match l with
  | [] => []
  | s :: l => step_issues j i seen s ++ steps_issues j (S i) ({[sName s]} ∪ seen) l
  end.

(** [Job.Validate]: the issues; none means the job is accepted. *)
Definition Validate (j : Job) : list string :=
  head_issues j ++
  (range 10 (jVariables j) ≫= variable_issues) ++
  issue_if (bool_decide (jSteps j = [])) "steps: at least one step is required" ++
  steps_issues j 0 ∅ (jSteps j).

End validate.

(** ** What a valid job is *)

(** Every reference is declared, and a sensitive variable only appears where
    [sens] allows it. *)
Definition text_ok (vars : gmap string JobVariable) (sens : bool) (t : string) : Prop :=
  ∃ refs, References t = Ok refs ∧
    ∀ r, r ∈ refs → ∃ v, vars !! r = Some v ∧ (vSensitive v = true → sens = true).

Definition valid_duration (d : Z) : Prop := (0 ≤ d ≤ MaxTimeout)%Z.

Record valid_copy (c : Copy) : Prop := {
  vc_src : cpSrc c ≠ "";
  vc_dest : has_prefix "/" (cpDest c) = true;
  vc_value : CheckValue (cpDest c) = Ok tt;
  vc_mode : cpMode c = "" ∨ modePattern (cpMode c) = true;
}.

Record valid_variable (name : string) (v : JobVariable) : Prop := {
  vv_name : varPattern name = true;
  vv_sensitive : vSensitive v = true → vDefault v = None;
  vv_default : ∀ d, vDefault v = Some d → CheckValue d = Ok tt;
}.

Record valid_forget (last : bool) (s : Step) : Prop := {
  vf_command : sCommand s ≠ "";
  vf_last : last = true;
  vf_reboot : sReboot s = false;
  vf_disconnect : sDisconnect s = false;
  vf_retries : sRetries s = None;
  vf_sensitive : sSensitive s = false;
  vf_expect : sExpect s = emptyExpect;
}.

Section valid.
Context `{GoRuntime}.

Record valid_expect (e : Expect) : Prop := {
  ve_exit : ∀ c, xExitCode e = Some c → (0 ≤ c ≤ 255)%Z;
  ve_length : String.length (xRegex e) ≤ MaxRegexLen;
  ve_regex : regexp_error (xRegex e) = None;
  ve_plain : ¬ occurs "{{" (xRegex e);
  ve_texts : Forall (λ t, t ≠ "") (strs (xContains e) ++ strs (xNotContains e));
}.

Record valid_step (vars : gmap string JobVariable) (last : bool) (s : Step) : Prop := {
  vs_name : namePattern (sName s) = true;
  vs_kind : step_kinds s = 1;
  vs_copy : ∀ c, sCopy s = Some c → valid_copy c;
  vs_timeout : valid_duration (sTimeout s);
  vs_delay : (0 ≤ sRetryDelay s)%Z;
  vs_retries : ∀ n, sRetries s = Some n → (0 ≤ n ≤ MaxRetries)%Z;
  vs_reconnect : sReboot s || sDisconnect s = true →
    sCopy s = None ∧ ∀ n, sRetries s = Some n → (n ≤ 0)%Z;
  vs_forget : sFireAndForget s = true → valid_forget last s;
  vs_reconnect_timeout : valid_duration (sReconnectTimeout s) ∧
    ((0 < sReconnectTimeout s)%Z → sReboot s || sDisconnect s = true);
  vs_expect : valid_expect (sExpect s);
  vs_texts : Forall (text_ok vars (sSensitive s)) (step_texts s);
}.

Record valid_job (j : Job) : Prop := {
  vj_name : namePattern (jName j) = true;
  vj_max : jMaxFailures j ≠ "" ∧ is_ok (ParseMaxFailures (jMaxFailures j) 1) = true;
  vj_timeout : valid_duration (dTimeout (jDefaults j));
  vj_delay : (0 ≤ dRetryDelay (jDefaults j))%Z;
  vj_retries : (0 ≤ dRetries (jDefaults j) ≤ MaxRetries)%Z;
  vj_variables : ∀ n v, jVariables j !! n = Some v → valid_variable n v;
  vj_steps : jSteps j ≠ [];
  vj_unique : NoDup (map sName (jSteps j));
  vj_step : ∀ i s, jSteps j !! i = Some s →
    valid_step (jVariables j) (bool_decide (i = length (jSteps j) - 1)) s;
}.

(** ** Lemmas: which test of [Validate] checks which condition *)

Lemma issue_if_nil b m : issue_if b m = [] ↔ b = false.
Proof. by destruct b. Qed.

Lemma check_issue_nil v m :
  match CheckValue v with Err e => [m e] | Ok _ => [] end = ([] : list string) ↔
  CheckValue v = Ok tt.
Proof. destruct (CheckValue v) as [[]|]; naive_solver. Qed.

Lemma bad_duration_false d : bad_duration d = false ↔ valid_duration d.
Proof.
  unfold bad_duration, valid_duration. rewrite orb_false_iff, !Z.ltb_ge. tauto.
Qed.

Lemma checkRefs_nil j t loc sens : checkRefs j t loc sens = [] ↔ text_ok (jVariables j) sens t.
Proof.
  unfold checkRefs, text_ok. destruct (References t) as [refs|e].
  - rewrite bind_nil. unfold ref_issue. split.
    + intros Hr. exists refs. split; [done|]. intros r Hin. specialize (Hr r Hin).
      destruct (jVariables j !! r) as [v|]; [|done]. exists v. split; [done|].
      intros Hs. rewrite Hs in Hr. by destruct sens.
    + intros (refs' & [= <-] & Hr) r Hin. destruct (Hr r Hin) as (v & -> & Hs).
      destruct (vSensitive v), sens; naive_solver.
  - naive_solver.
Qed.

Lemma copy_issues_nil loc c : copy_issues loc c = [] ↔ valid_copy c.
Proof.
  unfold copy_issues. rewrite !app_nil, !issue_if_nil, check_issue_nil.
  split.
  - intros (H1 & H2 & H3). bool_to_prop. destruct H1. by split.
  - intros []. bool_to_prop. naive_solver.
Qed.

Lemma variable_issues_nil n v : variable_issues (n, v) = [] ↔ valid_variable n v.
Proof.
  unfold variable_issues. rewrite !app_nil, !issue_if_nil. split.
  - intros (H1 & H2 & H3). bool_to_prop. split; [done| |].
    + intros Hs. destruct H2 as [H2|H2]; [congruence|]. by apply eq_None_not_Some.
    + intros d Hd. rewrite Hd in H3. by apply check_issue_nil in H3.
  - intros [H1 H2 H3]. rewrite H1. split_and!; [done| |].
    + destruct (vSensitive v); [|done]. by rewrite H2.
    + destruct (vDefault v); [|done]. by apply check_issue_nil, H3.
Qed.

Lemma head_issues_nil j :
  head_issues j = [] ↔
  namePattern (jName j) = true ∧
  (jMaxFailures j ≠ "" ∧ is_ok (ParseMaxFailures (jMaxFailures j) 1) = true) ∧
  valid_duration (dTimeout (jDefaults j)) ∧ (0 ≤ dRetryDelay (jDefaults j))%Z ∧
  (0 ≤ dRetries (jDefaults j) ≤ MaxRetries)%Z.
Proof.
  unfold head_issues. rewrite !app_nil, !issue_if_nil, negb_false_iff, !orb_false_iff,
    bad_duration_false, !Z.ltb_ge.
  case_bool_decide; [naive_solver|].
  destruct (ParseMaxFailures _ _); naive_solver.
Qed.

Lemma reconnect_issues_nil loc s :
  reconnect_issues loc s = [] ↔
  (sReboot s || sDisconnect s = true →
   sCopy s = None ∧ ∀ n, sRetries s = Some n → (n ≤ 0)%Z).
Proof.
  unfold reconnect_issues, retries_positive. destruct (_ || _); [|naive_solver].
  rewrite app_nil, !issue_if_nil, bool_decide_eq_false, <- eq_None_not_Some.
  destruct (sRetries s) as [n|]; [rewrite Z.ltb_ge|]; naive_solver.
Qed.

Lemma forget_issues_nil loc last s :
  forget_issues loc last s = [] ↔ (sFireAndForget s = true → valid_forget last s).
Proof.
  unfold forget_issues. destruct (sFireAndForget s); [|naive_solver].
  split.
  - intros H' _. case_bool_decide; [done|]. destruct last; [|done]. simpl in H'.
    destruct (_ || _) eqn:E; [done|]. bool_to_prop.
    destruct E as ((((? & ?) & ?%eq_None_not_Some) & ?) & ?). by split.
  - intros Hf. destruct (Hf eq_refl) as [H1 -> -> -> -> -> ->].
    by rewrite bool_decide_false.
Qed.

Lemma expect_issues_nil loc e :
  expect_issues loc e = [] ∧ str_contains (xRegex e) "{{" = false ↔ valid_expect e.
Proof.
  unfold expect_issues. rewrite !app_nil, bind_nil.
  rewrite <- not_true_iff_false, str_contains_spec. split.
  - intros ((H1 & H2 & H3) & H4). case_bool_decide as Hl; [done|].
    split; [|lia| |done|].
    + intros c Hc. rewrite Hc in H1. apply issue_if_nil in H1.
      rewrite orb_false_iff, !Z.ltb_ge in H1. done.
    + by destruct (regexp_error _).
    + apply Forall_forall. intros t Ht. specialize (H3 t Ht).
      rewrite issue_if_nil in H3. by bool_to_prop.
  - intros [H1 H2 H3 H4 H5]. rewrite bool_decide_false by lia. rewrite H3.
    split_and!; try done.
    + destruct (xExitCode e) as [c|]; [|done]. specialize (H1 c eq_refl).
      rewrite issue_if_nil, orb_false_iff, !Z.ltb_ge. done.
    + intros t Ht. rewrite issue_if_nil. bool_to_prop.
      rewrite Forall_forall in H5. by apply H5.
Qed.

Lemma step_issues_nil j i seen s :
  step_issues j i seen s = [] ↔
  sName s ∉ seen ∧ valid_step (jVariables j) (bool_decide (i = length (jSteps j) - 1)) s.
Proof.
  unfold step_issues. rewrite !app_nil, !issue_if_nil.
  rewrite reconnect_issues_nil, forget_issues_nil, bind_nil.
  setoid_rewrite checkRefs_nil. rewrite !orb_false_iff, !bad_duration_false, Z.ltb_ge.
  split.
  - intros (H1 & H2 & H3 & H4 & H5 & H6 & H7 & H8 & H9 & H10 & H11).
    destruct (namePattern (sName s)) eqn:En; [|done]. simpl in H1.
    rewrite issue_if_nil, bool_decide_eq_false in H1.
    rewrite negb_false_iff, bool_decide_eq_true in H2.
    split; [done|]. split; try done; try tauto.
    + intros c Hc. rewrite Hc in H3. by apply copy_issues_nil in H3.
    + intros n Hn. rewrite Hn, issue_if_nil, orb_false_iff, !Z.ltb_ge in H5. done.
    + split; [tauto|]. intros Hr. destruct H8 as [_ H8].
      apply orb_true_iff. destruct (sReboot s), (sDisconnect s); try tauto.
      rewrite (proj2 (Z.ltb_lt _ _) Hr) in H8. naive_solver.
    + by apply (expect_issues_nil (step_loc i)).
    + by apply Forall_forall.
  - intros (Hseen & [H1 H2 H3 H4 H5 H6 H7 H8 H9 H10 H11]). rewrite H1. simpl.
    rewrite issue_if_nil, H2. apply (expect_issues_nil (step_loc i)) in H10 as [??].
    rewrite Forall_forall in H11. rewrite bool_decide_false by done.
    split_and!; try done; try tauto.
    + destruct (sCopy s) as [c|]; [|done]. by apply copy_issues_nil, H3.
    + destruct (sRetries s) as [n|]; [|done]. specialize (H6 n eq_refl).
      by rewrite issue_if_nil, orb_false_iff, !Z.ltb_ge.
    + destruct H9 as [_ H9]. destruct (Z.ltb_spec 0 (sReconnectTimeout s)) as [Hr|]; [|tauto].
      specialize (H9 Hr). destruct (sReboot s), (sDisconnect s); naive_solver.
Qed.

Lemma steps_issues_nil j i seen l :
  steps_issues j i seen l = [] ↔
  NoDup (map sName l) ∧ (∀ s, s ∈ l → sName s ∉ seen) ∧
  ∀ k s, l !! k = Some s →
    valid_step (jVariables j) (bool_decide (i + k = length (jSteps j) - 1)) s.
Proof.
  revert i seen. induction l as [|s l IH]; intros i seen; simpl.
  { split; [|done]. intros _. split_and!; [constructor|set_solver|done]. }
  rewrite app_nil, step_issues_nil, IH, NoDup_cons. split.
  - intros ([Hs Hv] & Hnd & Hin & Hst). split_and!; try done.
    + intros (s' & Heq & Hs')%list_elem_of_fmap. apply (Hin s' Hs'). set_solver.
    + intros s' [->|Hs']%elem_of_cons; [done|]. specialize (Hin _ Hs'). set_solver.
    + intros [|k] s' Hk; simplify_eq/=; [by rewrite Nat.add_0_r|].
      specialize (Hst k s' Hk). by replace (i + S k) with (S i + k) by lia.
  - intros ((Hn & Hnd) & Hin & Hst). split_and!.
    + set_solver.
    + specialize (Hst 0 s eq_refl). by rewrite Nat.add_0_r in Hst.
    + done.
    + intros s' Hs'. apply not_elem_of_union. split; [|set_solver].
      rewrite elem_of_singleton. intros Heq. apply Hn. apply list_elem_of_fmap. eauto.
    + intros k s' Hk. specialize (Hst (S k) s' Hk).
      by replace (S i + k) with (i + S k) by lia.
Qed.

Lemma Validate_iff (j : Job) : Validate j = [] ↔ valid_job j.
Proof.
  unfold Validate. rewrite !app_nil, head_issues_nil, bind_nil, issue_if_nil,
    steps_issues_nil. bool_to_prop. split.
  - intros ((H1 & H2 & H3 & H4 & H5) & H6 & H7 & H8 & _ & H9). split; try done.
    intros n v Hn. by apply variable_issues_nil, H6, range_elem.
  - intros []. split_and!; try done; try apply vj_max0; try set_solver.
    intros [n v] Hn%range_elem. by apply variable_issues_nil, vj_variables0.
Qed.

(** C17: [Validate] reports no issue exactly for the valid jobs: its
    tests, loops and early cases check the names, limits, durations, retries,
    kinds, copies, references, sensitivity and the rules for reboot, disconnect
    and fire-and-forget steps, and nothing else. *)
Theorem Validate_spec (j : Job) : Validate j = [] ↔ valid_job j.
Proof. apply Validate_iff. Qed.
End valid.
