(* ===== verification/JobLoad.v ===== *)
(** * JobLoad: reading a job and its files ([Load] and [Parse] of
    [internal/job/job.go])

    The YAML decoder, [os.Stat], the files and the digest function are
    parameters.  [Load_job_spec] says what a loaded job is: valid, complete, and
    identified by the digest of its file and of the files it names. *)

From S2P Require Import Prelude GoStd Domain Files Variables MaxFailures Job.

Definition DefaultFile : string := "job.yaml".

(** [hex.EncodeToString] *)
Fixpoint hex_encode (s : string) : string :=
  match s with "" => "" | String c s => hex_digits 2 (byte_val c) +:+ hex_encode s end.

(** What the code writes into a decoded job. *)
Definition with_body (s : Step) (body : option string) : Step :=
  mkStep (sName s) (sDescription s) (sCommand s) (sScript s) (sCopy s) (sSudo s) (sExpect s)
    (sTimeout s) (sRetries s) (sRetryDelay s) (sContinueOnError s) (sSensitive s) (sReboot s)
    (sDisconnect s) (sReconnectTimeout s) (sFireAndForget s) body.
Definition with_copy (s : Step) (c : Copy) : Step :=
  mkStep (sName s) (sDescription s) (sCommand s) (sScript s) (Some c) (sSudo s) (sExpect s)
    (sTimeout s) (sRetries s) (sRetryDelay s) (sContinueOnError s) (sSensitive s) (sReboot s)
    (sDisconnect s) (sReconnectTimeout s) (sFireAndForget s) (sScriptBody s).
Definition copy_body (c : Copy) (body : option string) : Copy :=
  mkCopy (cpSrc c) (cpDest c) (cpMode c) (cpTemplate c) body.
Definition with_files (j : Job) (steps : list Step) (hash path : string) : Job :=
  mkJob (jName j) (jDescription j) (jVersion j) (jMaxFailures j) (jVariables j) (jDefaults j)
    steps hash path.

Section load.
Context `{GoRuntime}.
(** [os.Stat] finds a directory; files; [yaml.Decoder.Decode] with known fields
    only, which leaves a job and an error; the bytes of SHA-256. *)
Context (is_dir : string → bool) (os : open_file) (yaml : string → Job * option error)
  (sha256 : string → string).

Definition Parse (data : string) : res string Job :=
  let '(j, err) := yaml data in
  match err with
  | Some e =>
      if err_is (λ k, match k with KEOF => true | _ => false end) e
      then Err (validation_error ["file is empty"])
      else Err (validation_error ["YAML: " +:+ err_text e])
  | None =>
      let j := with_files j (jSteps j) (hex_encode (sha256 data)) (jPath j) in
      match Validate j with
      | [] => Ok j
      | issues => Err (validation_error issues)
      end
  end.

(** The local variables of [Load]: what the digest has been given, the issues,
    and the steps so far. *)
Record loading := mkLoading { ldHashed : string; ldIssues : list string; ldSteps : list Step }.

(** One turn of the loop over the steps. *)
Definition load_step (j : Job) (dir : string) (st : loading) (s : Step) : loading :=
  if negb (bool_decide (sScript s = "")) then
    match ReadFile os (path_join dir (sScript s)) MaxFileSize with
    | Ok body => mkLoading (ldHashed st +:+ body) (ldIssues st) (ldSteps st ++ [with_body s (Some body)])
    | Err e => mkLoading (ldHashed st)
        (ldIssues st ++ ["step " +:+ quote (sName s) +:+ ": " +:+ e]) (ldSteps st ++ [with_body s None])
    end
  else match sCopy s with
  | None => mkLoading (ldHashed st) (ldIssues st) (ldSteps st ++ [s])
  | Some c =>
      match ReadFile os (path_join dir (cpSrc c)) MaxCopySize with
      | Err e => mkLoading (ldHashed st)
          (ldIssues st ++ ["step " +:+ quote (sName s) +:+ ": " +:+ e])
          (ldSteps st ++ [with_copy s (copy_body c None)])
      | Ok body =>
          mkLoading (ldHashed st +:+ body)
            (ldIssues st ++
             if cpTemplate c
             then checkRefs j body ("step " +:+ quote (sName s) +:+ " copy.src") true else [])
            (ldSteps st ++ [with_copy s (copy_body c (Some body))])
      end
  end.

Definition Load (path : string) : res string Job :=
  let path := if is_dir path then path_join path DefaultFile else path in
  let? data := ReadFile os path MaxFileSize in
  let? j := Parse data in
  let st := foldl (load_step j (path_dir path)) (mkLoading data [] []) (jSteps j) in
  match ldIssues st with
  | [] => Ok (with_files j (ldSteps st) (hex_encode (sha256 (ldHashed st))) path)
  | issues => Err (validation_error issues)
  end.

(** ** What a loaded step is *)

(** The step [s'] is [s] with the contents of its file, which is [body]. *)
Inductive loaded_step (vars : gmap string JobVariable) (dir : string) (s : Step) : Step → string → Prop :=
| loaded_command : sScript s = "" → sCopy s = None → loaded_step vars dir s s ""
| loaded_script body :
    sScript s ≠ "" → ReadFile os (path_join dir (sScript s)) MaxFileSize = Ok body →
    loaded_step vars dir s (with_body s (Some body)) body
| loaded_copy c body :
    sScript s = "" → sCopy s = Some c → ReadFile os (path_join dir (cpSrc c)) MaxCopySize = Ok body →
    (cpTemplate c = true → text_ok vars true body) →
    loaded_step vars dir s (with_copy s (copy_body c (Some body))) body.

(** The steps with their files: each with the content of its file. *)
Definition loaded (j : Job) (dir : string) (files : list (Step * string)) : Prop :=
  Forall2 (λ s p, loaded_step (jVariables j) dir s (fst p) (snd p)) (jSteps j) files.

Lemma loaded_step_inv vars dir s s' b :
  loaded_step vars dir s s' b →
  (sScript s = "" ∧ sCopy s = None) ∨
  (sScript s ≠ "" ∧ ReadFile os (path_join dir (sScript s)) MaxFileSize = Ok b) ∨
  (∃ c, sScript s = "" ∧ sCopy s = Some c ∧
     ReadFile os (path_join dir (cpSrc c)) MaxCopySize = Ok b ∧
     (cpTemplate c = true → text_ok vars true b)).
Proof. destruct 1; [by left|by right; left|right; right; by exists c]. Qed.

Lemma load_step_spec j dir st s :
  (∃ issue issues s', load_step j dir st s =
     mkLoading (ldHashed (load_step j dir st s)) (ldIssues st ++ issue :: issues) (ldSteps st ++ [s']) ∧
     ¬ ∃ s' body, loaded_step (jVariables j) dir s s' body) ∨
  ∃ s' body, loaded_step (jVariables j) dir s s' body ∧
    load_step j dir st s = mkLoading (ldHashed st +:+ body) (ldIssues st) (ldSteps st ++ [s']).
Proof.
  unfold load_step. case_bool_decide as Hs; simpl.
  - destruct (sCopy s) as [c|] eqn:Ec.
    + destruct (ReadFile os (path_join dir (cpSrc c)) MaxCopySize) as [body|e] eqn:Er; simpl.
      * destruct (cpTemplate c) eqn:Et.
        -- destruct (checkRefs j body _ true) as [|i is'] eqn:Ecr.
           ++ right. rewrite app_nil_r. eexists _, body. split; [|done]. apply loaded_copy; try done.
              intros _. by apply checkRefs_nil in Ecr.
           ++ left. eexists _, _, _. split; [done|]. intros (s' & b & Hl).
              apply loaded_step_inv in Hl as [[_ Hn]|[[Hn _]|(c' & _ & Hc & Hb & Ht)]]; [congruence|done|].
              rewrite Ec in Hc. injection Hc as <-. rewrite Er in Hb. injection Hb as <-.
              apply Ht in Et. apply (checkRefs_nil j body ("step " +:+ quote (sName s) +:+ " copy.src")) in Et.
              congruence.
        -- right. rewrite app_nil_r. eexists _, body. split; [|done]. apply loaded_copy; try done. congruence.
      * left. eexists _, [], _. split; [done|]. intros (s' & b & Hl).
        apply loaded_step_inv in Hl as [[_ Hn]|[[Hn _]|(c' & _ & Hc & Hb & _)]]; congruence.
    + right. exists s, "". rewrite str_app_nil_r. split; [by constructor|done].
  - destruct (ReadFile os (path_join dir (sScript s)) MaxFileSize) as [body|e] eqn:Er; simpl.
    + right. eexists _, body. split; [by constructor|done].
    + left. eexists _, [], _. split; [done|]. intros (s' & b & Hl).
      apply loaded_step_inv in Hl as [[Hn _]|[[_ Hb]|(c' & Hn & _)]]; congruence.
Qed.

Lemma load_steps_spec j dir l st :
  let st' := foldl (load_step j dir) st l in
  (∃ issues, ldIssues st' = ldIssues st ++ issues ∧
     (issues = [] ↔ ∀ s, s ∈ l → ∃ s' body, loaded_step (jVariables j) dir s s' body) ∧
     (issues = [] → ∃ files, Forall2 (λ s p, loaded_step (jVariables j) dir s (fst p) (snd p)) l files ∧
        ldSteps st' = ldSteps st ++ files.*1 ∧
        ldHashed st' = ldHashed st +:+ str_join "" files.*2)).
Proof.
  revert st. induction l as [|s l IH]; intros st; simpl.
  { exists []. rewrite !app_nil_r. split; [done|]. split; [split; [by intros _ ? ?%elem_of_nil|done]|].
    intros _. exists []. rewrite app_nil_r, str_app_nil_r. by split; [constructor|]. }
  destruct (IH (load_step j dir st s)) as (issues & Hi & Hiff & Hf).
  destruct (load_step_spec j dir st s) as [(i & is1 & s' & E & Hno)|(s' & body & Hl & E)]; rewrite E in Hi, Hf |- *.
  - exists (i :: is1 ++ issues). simpl in Hi. rewrite Hi. split; [by rewrite <- app_assoc|].
    split; [|done]. split; [done|]. intros Hall. destruct Hno. apply Hall, list_elem_of_here.
  - simpl in Hi, Hf |- *. exists issues. split; [done|]. split.
    + rewrite Hiff. split.
      * intros Hall x [->|Hx]%elem_of_cons; [by exists s', body|by apply Hall].
      * intros Hall x Hx. by apply Hall, list_elem_of_further.
    + intros Hn. destruct (Hf Hn) as (files & Hall & -> & ->). exists ((s', body) :: files).
      split; [by constructor|]. split; [by rewrite <- app_assoc|]. rewrite str_app_assoc. f_equal.
      destruct files as [|[s1 b1] files]; simpl; [by rewrite str_app_nil_r|done].
Qed.

(** The contents of files do not matter to [Validate]. *)
Lemma loaded_step_valid vars dir last s s' body :
  loaded_step vars dir s s' body → valid_step vars last s → valid_step vars last s'.
Proof.
  destruct 1 as [Hs Hc|body Hs Hr|c body Hs Hc Hr Ht]; intros Hv; [done|..].
  - destruct Hv as [H1 H2 H3 H4 H5 H6 H7 H8 H9 H10 H11]. split; try done.
    intros Hf. destruct (H8 Hf). by split.
  - destruct Hv as [H1 H2 H3 H4 H5 H6 H7 H8 H9 H10 H11]. split; try done.
    + unfold step_kinds in *. simpl. rewrite Hc in H2. exact H2.
    + intros c' Hc'. injection Hc' as <-. destruct (H3 c Hc) as [? ? ? ?]. by split.
    + intros Hr'. destruct (H7 Hr') as [Hn _]. congruence.
    + intros Hf. destruct (H8 Hf). by split.
    + unfold step_texts in *. rewrite Hc in H11. exact H11.
Qed.

Lemma loaded_step_name vars dir s s' body : loaded_step vars dir s s' body → sName s' = sName s.
Proof. by destruct 1. Qed.

Lemma loaded_valid j dir files hash path :
  valid_job j → loaded j dir files → valid_job (with_files j files.*1 hash path).
Proof.
  intros [H1 H2 H3 H4 H5 H6 H7 H8 H9] Hl. pose proof (Forall2_length _ _ _ Hl) as Hlen.
  split; simpl; try done.
  - destruct files; [|done]. by destruct (jSteps j).
  - assert (map sName files.*1 = map sName (jSteps j)) as ->; [|done].
    clear -Hl. unfold loaded in Hl. revert Hl. generalize (jSteps j). induction files as [|[s' b] files IH];
      intros l Hl; inversion Hl; subst; [done|]. simpl. f_equal; [by eapply loaded_step_name|by apply IH].
  - intros i s Hi. rewrite length_fmap, <- Hlen.
    apply list_lookup_fmap_Some in Hi as ([s' b] & -> & Hi).
    destruct (Forall2_lookup_r _ _ _ _ _ Hl Hi) as (s0 & Hs0 & Hld).
    eapply loaded_step_valid; [exact Hld|]. by apply H9.
Qed.

Lemma Parse_valid data j : Parse data = Ok j → valid_job j.
Proof.
  unfold Parse. destruct (yaml data) as [j0 [e|]]; [by destruct (err_is _ e)|].
  destruct (Validate _) eqn:E; [|done]. intros [= <-]. by apply Validate_iff.
Qed.

Definition job_path (path : string) : string := if is_dir path then path_join path DefaultFile else path.

Lemma Load_job (path : string) :
  match Load path with
  | Ok j => valid_job j ∧ ∃ data j0 files,
      ReadFile os (job_path path) MaxFileSize = Ok data ∧ Parse data = Ok j0 ∧
      loaded j0 (path_dir (job_path path)) files ∧
      j = with_files j0 files.*1 (hex_encode (sha256 (data +:+ str_join "" files.*2))) (job_path path)
  | Err _ => ¬ ∃ data j0 files,
      ReadFile os (job_path path) MaxFileSize = Ok data ∧ Parse data = Ok j0 ∧
      loaded j0 (path_dir (job_path path)) files
  end.
Proof.
  unfold Load. fold (job_path path).
  destruct (ReadFile os (job_path path) MaxFileSize) as [data|e] eqn:Er; simpl; [|by intros (? & ? & ? & ? & _)].
  destruct (Parse data) as [j0|e] eqn:Ep; simpl; [|intros (? & ? & ? & [= <-] & ? & _); congruence].
  destruct (load_steps_spec j0 (path_dir (job_path path)) (jSteps j0) (mkLoading data [] []))
    as (issues & Hi & Hiff & Hf). simpl in Hi, Hf. rewrite Hi.
  destruct issues as [|i is1]; simpl.
  - destruct (Hf eq_refl) as (files & Hall & -> & ->). split.
    + eapply loaded_valid; [by eapply Parse_valid|exact Hall].
    + by exists data, j0, files.
  - intros (data' & j' & files & [= <-] & Hp & Hl). rewrite Ep in Hp. injection Hp as <-.
    assert (i :: is1 = []) as [=]. apply Hiff. intros s [n Hn]%list_elem_of_lookup.
    destruct (Forall2_lookup_l _ _ _ _ _ Hl Hn) as ([s' b] & _ & ?). by exists s', b.
Qed.

(** C25: a job is loaded exactly when its file can be read and is valid and
    every file that its steps name can be read whole (and, for a template, only
    uses declared variables).  The loaded job is valid, its steps hold the
    contents of these files, and its hash is the digest of the job file followed
    by these contents. *)
Theorem Load_job_spec (path : string) :
  match Load path with
  | Ok j => valid_job j ∧ ∃ data j0 files,
      ReadFile os (job_path path) MaxFileSize = Ok data ∧ Parse data = Ok j0 ∧
      loaded j0 (path_dir (job_path path)) files ∧
      j = with_files j0 files.*1 (hex_encode (sha256 (data +:+ str_join "" files.*2))) (job_path path)
  | Err _ => ¬ ∃ data j0 files,
      ReadFile os (job_path path) MaxFileSize = Ok data ∧ Parse data = Ok j0 ∧
      loaded j0 (path_dir (job_path path)) files
  end.
Proof. apply Load_job. Qed.
End load.

(** ** A concrete job *)

Definition load_step_of (name script : string) : Step :=
  mkStep name "" "" script None None emptyExpect 0 None 0 false false false false 0 false None.
Definition load_yaml (data : string) : Job * option error :=
  (mkJob "deploy" "" "" "1" ∅ (mkDefaults 0 0 0 false)
     [load_step_of "first" "a.sh"; load_step_of "second" "b.sh"] "" "",
   if bool_decide (data = "") then Some (MkError KEOF "EOF" None) else None).
Definition load_os (a b : string) (path : string) : res string opened :=
  if bool_decide (path = "deploy/job.yaml") then Ok (mkOpened None true "name: deploy" None)
  else if bool_decide (path = "deploy/a.sh") then Ok (mkOpened None true a None)
  else if bool_decide (path = "deploy/b.sh") then Ok (mkOpened None true b None)
  else Err ("open " +:+ path +:+ ": no such file or directory").
Definition load_dir (path : string) : bool := bool_decide (path = "deploy").
(** A digest without collisions. *)
Definition load_digest (s : string) : string := s.

Example load_example :
  (λ j, (jPath j, map sScriptBody (jSteps j))) <$>
    match @Load default_runtime load_dir (load_os "echo a" "echo b") load_yaml load_digest "deploy" with
    | Ok j => Some j | Err _ => None end =
  Some ("deploy/job.yaml", [Some "echo a"; Some "echo b"]).
Proof. by vm_compute. Qed.

(** The digest runs over the contents without separators: two jobs that execute
    different scripts can have the same hash, whatever the digest. *)
Example hash_ambiguous (sha256 : string → string) :
  match @Load default_runtime load_dir (load_os "echo a; reboot" "") load_yaml sha256 "deploy",
        @Load default_runtime load_dir (load_os "echo a" "; reboot") load_yaml sha256 "deploy" with
  | Ok j1, Ok j2 => jHash j1 = jHash j2 ∧ map sScriptBody (jSteps j1) ≠ map sScriptBody (jSteps j2)
  | _, _ => False
  end.
Proof. vm_compute. by split. Qed.
