(* ===== verification/Build.v ===== *)
(** * Build: from steps to shell commands ([internal/job/build.go])

    [Build] renders the steps of a job for one host into [Action]s; [Remote]
    gives the command line that runs an action, with [Quote] and [cleanup];
    [exports] is the prologue of scripts.  A step whose regular expression does
    not compile panics ([regexp.MustCompile]): the result is [None].

    [sh_words] is a fragment of the POSIX shell's token recognition, the
    specification against which quoting is proved. *)

From S2P Require Import Prelude GoStd Domain Variables Job.

Definition KindCommand : string := "command".
Definition KindScript : string := "script".
Definition KindCopy : string := "copy".

Record Action := mkAction {
  aName : string;
  aKind : string;
  aDisplay : string;
  aShell : string;
  aContent : option string;
  aDest : string;
  aMode : string;
  aSudo : bool;
  aExitCode : Z;
  aContains : list string;
  aNotContains : list string;
  aRegex : option string;
  aTimeout : Z;
  aRetries : Z;
  aRetryDelay : Z;
  aContinueOnError : bool;
  aSensitive : bool;
  aReboot : bool;
  aDisconnect : bool;
  aReconnectTimeout : Z;
  aFireAndForget : bool;
}.

Definition DefaultRebootTimeout : Z := 10 * minute.
Definition DefaultDisconnectTimeout : Z := 5 * minute.

(** ** Quoting and command lines *)

Definition squote : string := "'".
Definition Quote (s : string) : string := squote +:+ replace_all s squote "'\''" +:+ squote.

Definition UploadCommand : string :=
  "umask 077 && t=$(mktemp) && cat > " +:+ dquote +:+ "$t" +:+ dquote +:+
  " && printf '%s' " +:+ dquote +:+ "$t" +:+ dquote.

Definition cleanup (cmd tmp : string) : string :=
  cmd +:+ "; rc=$?; rm -f " +:+ Quote tmp +:+ "; exit $rc".

(** The closure [wrap] of [Remote]. *)
Definition wrap (a : Action) (sudoPassword : bool) (cmd : string) : string :=
  if negb (aSudo a) then cmd
  else if sudoPassword then "sudo -k -S -p '' -- sh -c " +:+ Quote cmd
  else "sudo -n -- sh -c " +:+ Quote cmd.

Definition forget_line (shell : string) : string :=
  "(trap '' HUP; " +:+ shell +:+ ") </dev/null >/dev/null 2>&1 &".

Definition copy_line (dest tmp mode : string) : string :=
  let p := dquote +:+ "$p" +:+ dquote in
  "p=$(mktemp " +:+ dquote +:+ "$(dirname " +:+ dest +:+ ")/.rco-tmp.XXXXXX" +:+ dquote +:+
  ") && { cp " +:+ tmp +:+ " " +:+ p +:+ " && chmod " +:+ mode +:+ " " +:+ p +:+
  " && mv -f " +:+ p +:+ " " +:+ dest +:+ " || { rm -f " +:+ p +:+ "; false; }; }".

Definition Remote (a : Action) (tmp : string) (sudoPassword : bool) : string :=
  if bool_decide (aKind a = KindScript) then
    cleanup (wrap a sudoPassword ("bash " +:+ Quote tmp)) tmp
  else if bool_decide (aKind a = KindCommand) && bool_decide (is_Some (aContent a)) then
    cleanup (wrap a sudoPassword ("sh " +:+ Quote tmp)) tmp
  else if aFireAndForget a then wrap a sudoPassword (forget_line (aShell a))
  else if bool_decide (aKind a = KindCopy) then
    cleanup (wrap a sudoPassword (copy_line (Quote (aDest a)) (Quote tmp) (aMode a))) tmp
  else wrap a sudoPassword (aShell a).

(** ** Build *)

Record Settings := mkSettings { stTimeout : Z; stRetryDelay : Z }.

(** The first positive duration, or 0. *)
Fixpoint first_duration (ds : list Z) : Z :=
  match ds with [] => 0%Z | d :: ds => if (0 <? d)%Z then d else first_duration ds end.

Definition renderAll (l : list string) (vars : gmap string string) : res string (list string) :=
  res_mapM (λ s, Render s vars) l.

Section build.
Context `{GoRuntime}.

(** [sort.Strings] on the names of [vars]. *)
Definition exports (vars : gmap string string) : string :=
  str_join "" (map (λ k, "export " +:+ k +:+ "=" +:+ Quote (get vars k) +:+ newline)
    (sort_strings (range 20 vars).*1)).

(** What depends on the kind of the step: kind, shell, content, destination,
    mode and display. *)
Record Payload := mkPayload {
  pKind : string; pShell : string; pContent : option string;
  pDest : string; pMode : string; pDisplay : string;
}.

Definition payload (st : Step) (vars : gmap string string) : res string Payload :=
  if negb (bool_decide (sCommand st = "")) then
    let? shell := Render (sCommand st) vars in
    Ok (mkPayload KindCommand shell None "" "" shell)
  else if negb (bool_decide (sScript st = "")) then
    Ok (mkPayload KindScript "" (Some (exports vars +:+ default "" (sScriptBody st))) "" ""
          ("script " +:+ sScript st))
  else match sCopy st with
  | Some c =>
      let? dest := Render (cpDest c) vars in
      let? content :=
        (if cpTemplate c then
           let? r := Render (default "" (cpBody c)) vars in Ok (Some r)
         else Ok (cpBody c)) in
      let mode := if bool_decide (cpMode c = "") then DefaultMode else cpMode c in
      Ok (mkPayload KindCopy "" content dest mode
            ("copy " +:+ cpSrc c +:+ " -> " +:+ dest +:+ " (mode " +:+ mode +:+ ")"))
  | None => Ok (mkPayload "" "" None "" "" "")
  end.

Definition build (j : Job) (st : Step) (vars : gmap string string) (s : Settings)
    : option (res string Action) :=
  let d := jDefaults j in
  let disconnect := sReboot st || sDisconnect st in
  let reconnect :=
    if disconnect then
      if sReboot st then first_duration [sReconnectTimeout st; DefaultRebootTimeout]
      else first_duration [sReconnectTimeout st; DefaultDisconnectTimeout]
    else 0%Z in
  let retries :=
    if disconnect || sFireAndForget st then 0%Z else default (dRetries d) (sRetries st) in
  let re := xRegex (sExpect st) in
  if negb (bool_decide (re = "")) && bool_decide (is_Some (regexp_error re)) then None
  else Some (
    let? contains := renderAll (strs (xContains (sExpect st))) vars in
    let? not_contains := renderAll (strs (xNotContains (sExpect st))) vars in
    let? p := payload st vars in
    Ok {| aName := sName st; aKind := pKind p;
          aDisplay := if sSensitive st then SensitiveMask else pDisplay p;
          aShell := pShell p;
          aContent :=
            if sSensitive st && bool_decide (pKind p = KindCommand)
            then Some (pShell p +:+ newline) else pContent p;
          aDest := pDest p; aMode := pMode p;
          aSudo := default (dSudo d) (sSudo st);
          aExitCode := default 0%Z (xExitCode (sExpect st));
          aContains := contains; aNotContains := not_contains;
          aRegex := if bool_decide (re = "") then None else Some re;
          aTimeout := first_duration [sTimeout st; dTimeout d; stTimeout s];
          aRetries := retries;
          aRetryDelay := first_duration [sRetryDelay st; dRetryDelay d; stRetryDelay s];
          aContinueOnError := sContinueOnError st;
          aSensitive := sSensitive st;
          aReboot := sReboot st; aDisconnect := disconnect;
          aReconnectTimeout := reconnect;
          aFireAndForget := sFireAndForget st |}).

Fixpoint build_steps (j : Job) (l : list Step) (vars : gmap string string) (s : Settings)
    : option (res Failure (list Action)) :=
  match l with
  | [] => Some (Ok [])
  | st :: l =>
      match build j st vars s with
      | None => None
      | Some (Err e) =>
          Some (Err (Fail CatTemplateError ("step " +:+ quote (sName st) +:+ ": " +:+ e)))
      | Some (Ok a) =>
          match build_steps j l vars s with
          | None => None
          | Some r => Some (let? acts := r in Ok (a :: acts))
          end
      end
  end.

(** [Job.Build] *)
Definition Build (j : Job) (vars : gmap string string) (s : Settings)
    : option (res Failure (list Action)) :=
  build_steps j (jSteps j) vars s.
End build.

(** ** Specification: POSIX token recognition (a fragment)

    [sh_words] reads the words of a simple command up to the end, a newline or
    a [;].  Single quotes keep every character, a backslash quotes the next
    one, blanks separate words; any other special character is outside the
    fragment ([None]). *)

Definition sh_blank (c : ascii) : bool := bool_decide (c ∈ [" "; "009"]%char).
Definition sh_end (c : ascii) : bool := bool_decide (c ∈ [";"; "010"]%char).
Definition sh_special (c : ascii) : bool :=
  bool_decide (c ∈ ["|"; "&"; "<"; ">"; "("; ")"; "$"; "`"; "034"; "*"; "?"; "["; "]";
    "#"; "~"; "!"; "{"; "}"]%char).

(** The state of the scan: the word being read, if any. *)
Inductive sh_mode := Plain | Escaped | Single.

Definition flush (word : option string) (words : list string) : list string :=
  match word with Some w => words ++ [w] | None => words end.
Definition push (word : option string) (c : ascii) : option string :=
  Some (default "" word +:+ String c "").

Fixpoint sh_words (m : sh_mode) (word : option string) (words : list string) (s : string)
    : option (list string * string) :=
  match s with
  | "" => match m with Plain => Some (flush word words, "") | _ => None end
  | String c s' =>
      match m with
      | Single =>
          if bool_decide (c = "'"%char) then sh_words Plain word words s'
          else sh_words Single (push word c) words s'
      | Escaped => sh_words Plain (push word c) words s'
      | Plain =>
          if bool_decide (c = "'"%char) then sh_words Single (Some (default "" word)) words s'
          else if bool_decide (c = "\"%char) then sh_words Escaped (Some (default "" word)) words s'
          else if sh_blank c then sh_words Plain None (flush word words) s'
          else if sh_end c then Some (flush word words, s)
          else if sh_special c then None
          else sh_words Plain (push word c) words s'
      end
  end.

(** The argument vector of the first simple command, and what follows it. *)
Definition sh_command (s : string) : option (list string * string) :=
  sh_words Plain None [] s.

(** A script is read command by command. *)
Fixpoint sh_script (fuel : nat) (s : string) : option (list (list string)) :=
  match fuel with
  | O => None
  | S fuel =>
      match sh_command s with
      | Some (argv, "") => Some (if decide (argv = []) then [] else [argv])
      | Some (argv, String _ rest) =>
          match sh_script fuel rest with Some cmds => Some (argv :: cmds) | None => None end
      | None => None
      end
  end.

(** What runs under [wrap], and what follows it. *)
Definition inner_command (a : Action) (tmp : string) : string :=
  if bool_decide (aKind a = KindScript) then "bash " +:+ Quote tmp
  else if bool_decide (aKind a = KindCommand) && bool_decide (is_Some (aContent a)) then
    "sh " +:+ Quote tmp
  else if aFireAndForget a then forget_line (aShell a)
  else if bool_decide (aKind a = KindCopy) then
    copy_line (Quote (aDest a)) (Quote tmp) (aMode a)
  else aShell a.

Definition sudo_argv (sudoPassword : bool) : list string :=
  if sudoPassword then ["sudo"; "-k"; "-S"; "-p"; ""; "--"; "sh"; "-c"]
  else ["sudo"; "-n"; "--"; "sh"; "-c"].

Definition uses_file (a : Action) : bool :=
  bool_decide (aKind a = KindScript) ||
  bool_decide (aKind a = KindCommand) && bool_decide (is_Some (aContent a)) ||
  negb (aFireAndForget a) && bool_decide (aKind a = KindCopy).

(** ** Lemmas on quoting *)

Lemma replace_quote_cons c s :
  replace_all (String c s) squote "'\''" =
  (if bool_decide (c = "'"%char) then "'\''" +:+ replace_all s squote "'\''"
   else String c (replace_all s squote "'\''")).
Proof.
  unfold replace_all. cbn [replace_go].
  assert (has_prefix squote (String c s) = bool_decide (c = "'"%char)) as ->; [|done].
  unfold has_prefix, squote. simpl. destruct (decide ("'"%char = c)) as [<-|Hne].
  - by rewrite bool_decide_true.
  - by rewrite bool_decide_false.
Qed.

Lemma push_some w c : push (Some w) c = Some (w +:+ String c "").
Proof. done. Qed.
Lemma app_push w c s : (w +:+ String c "") +:+ s = w +:+ String c s.
Proof. by rewrite str_app_assoc. Qed.

Lemma scan_quoted s w words rest :
  sh_words Single (Some w) words (replace_all s squote "'\''" +:+ rest) =
  sh_words Single (Some (w +:+ s)) words rest.
Proof.
  revert w. induction s as [|c s IH]; intros w.
  - by rewrite str_app_nil_r.
  - rewrite replace_quote_cons. case_bool_decide as Hc.
    + subst c. rewrite str_app_assoc, !str_app_cons, str_app_nil_l.
      match goal with |- sh_words _ _ _ (String _ (String _ (String _ (String _ ?x)))) = _ =>
        change (sh_words Single (Some (w +:+ "'")) words x = 
                sh_words Single (Some (w +:+ String "'" s)) words rest) end.
      rewrite IH. by rewrite str_app_assoc.
    + rewrite str_app_cons. cbn [sh_words]. rewrite bool_decide_false by done.
      rewrite push_some, IH, app_push. done.
Qed.

Lemma scan_Quote s w words rest :
  sh_words Plain w words (Quote s +:+ rest) =
  sh_words Plain (Some (default "" w +:+ s)) words rest.
Proof.
  unfold Quote. rewrite !str_app_assoc. unfold squote at 1.
  rewrite str_app_cons, str_app_nil_l. cbn [sh_words]. rewrite bool_decide_true by done.
  rewrite scan_quoted. unfold squote. rewrite str_app_cons, str_app_nil_l.
  cbn [sh_words]. by rewrite bool_decide_true.
Qed.

Definition plain_char (c : ascii) : bool :=
  negb (bool_decide (c = "'"%char) || bool_decide (c = "\"%char) || sh_blank c ||
        sh_end c || sh_special c).

Lemma scan_plain p w words rest :
  str_forallb plain_char p = true → p ≠ "" →
  sh_words Plain w words (p +:+ rest) = sh_words Plain (Some (default "" w +:+ p)) words rest.
Proof.
  revert w. induction p as [|c p IH]; intros w Hp Hne; [done|].
  simpl in Hp. apply andb_true_iff in Hp as [Hc Hp]. unfold plain_char in Hc.
  rewrite negb_true_iff, !orb_false_iff in Hc. destruct Hc as ((((H1 & H2) & H3) & H4) & H5).
  rewrite str_app_cons. cbn [sh_words]. rewrite H1, H2, H3, H4, H5.
  destruct p as [|c' p]; [by rewrite str_app_nil_l|].
  rewrite IH by done. unfold push. simpl. by rewrite app_push.
Qed.

Lemma ident_plain c : ident_char c = true → plain_char c = true.
Proof. by destruct c as [[] [] [] [] [] [] [] []]. Qed.

(** ** Properties of the command lines *)

(** C20: [Quote] is the inverse of the shell's reading: whatever bytes [s]
    has and whatever follows, the shell reads [Quote s] as one word with exactly
    those bytes. *)
Theorem Quote_word (s rest : string) (words : list string) :
  rest = "" ∨ (∃ c r, rest = String c r ∧ (sh_blank c || sh_end c = true)) →
  sh_words Plain None words (Quote s +:+ rest) =
  match rest with
  | String c r => if sh_blank c then sh_words Plain None (words ++ [s]) r
                  else Some (words ++ [s], rest)
  | "" => Some (words ++ [s], "")
  end.
Proof.
  intros Hrest. rewrite scan_Quote. simpl. rewrite str_app_nil_l.
  destruct Hrest as [->|(c & r & -> & Hc)]; [done|].
  cbn [sh_words].
  assert (c ≠ "'"%char ∧ c ≠ "\"%char) as [??] by (split; intros ->; done).
  rewrite !bool_decide_false by done.
  destruct (sh_blank c) eqn:E; [done|]. simpl in Hc. by rewrite Hc.
Qed.

Lemma sh_command_sudo (pw : bool) (inner rest : string) :
  rest = "" ∨ (∃ r : string, rest = String ";" r) →
  sh_command ((if pw then "sudo -k -S -p '' -- sh -c " else "sudo -n -- sh -c ") +:+
    Quote inner +:+ rest) = Some (sudo_argv pw ++ [inner], rest).
Proof.
  intros Hrest.
  assert (∀ words, sh_words Plain None words (Quote inner +:+ rest) =
    Some (words ++ [inner], rest)) as Hq.
  { intros words. rewrite scan_Quote. simpl. rewrite str_app_nil_l.
    by destruct Hrest as [->|[r ->]]. }
  unfold sh_command. destruct pw; apply Hq.
Qed.

Lemma sh_command_Remote (a : Action) (tmp : string) (pw : bool) :
  aSudo a = true →
  sh_command (Remote a tmp pw) =
  Some (sudo_argv pw ++ [inner_command a tmp],
        if uses_file a then "; rc=$?; rm -f " +:+ Quote tmp +:+ "; exit $rc" else "").
Proof.
  intros Hs.
  assert (∀ cmd, wrap a pw cmd =
    (if pw then "sudo -k -S -p '' -- sh -c " else "sudo -n -- sh -c ") +:+ Quote cmd +:+ "") as Hw.
  { intros cmd. unfold wrap. rewrite Hs, str_app_nil_r. by destruct pw. }
  unfold Remote, inner_command, uses_file, cleanup. rewrite !Hw.
  destruct (bool_decide (aKind a = KindScript)); simpl;
    [|destruct (bool_decide (aKind a = KindCommand) && _); simpl;
      [|destruct (aFireAndForget a); simpl;
        [|destruct (bool_decide (aKind a = KindCopy)); simpl]]];
    rewrite ?str_app_nil_r, ?str_app_assoc; try (apply sh_command_sudo; right; eauto; fail);
    rewrite <- (str_app_nil_r (Quote _)); apply sh_command_sudo; by left.
Qed.

(** C21: under sudo, the first command of the line is sudo running
    [sh -c] on exactly the command meant for the host, as one argument, with
    [-S] and [-k] iff a password is sent; only the cleanup of the uploaded file
    follows it. *)
Theorem Remote_sudo_argv (a : Action) (tmp : string) (pw : bool) :
  aSudo a = true →
  sh_command (Remote a tmp pw) =
  Some (sudo_argv pw ++ [inner_command a tmp],
        if uses_file a then "; rc=$?; rm -f " +:+ Quote tmp +:+ "; exit $rc" else "").
Proof. apply sh_command_Remote. Qed.

Lemma export_line k v rest :
  is_ident k = true →
  sh_command ("export " +:+ k +:+ "=" +:+ Quote v +:+ newline +:+ rest) =
  Some (["export"; k +:+ "=" +:+ v], newline +:+ rest).
Proof.
  intros Hk. unfold sh_command.
  change (sh_words Plain None [] ("export " +:+ ?x)) with (sh_words Plain None ["export"] x).
  rewrite <- (str_app_assoc k "="). rewrite scan_plain.
  - rewrite scan_Quote. simpl. rewrite str_app_nil_l, !str_app_assoc. done.
  - rewrite str_forallb_app. apply andb_true_iff. split; [|done].
    eapply str_forallb_impl; [apply ident_plain|]. by apply is_ident_chars.
  - by intros [_ ?]%str_app_eq_nil.
Qed.

(** C22: when the names are identifiers (those that a valid job declares are; those of
    an inventory are not checked), the shell reads the prologue of
    a script as one [export] command per variable, in the order of the names,
    each with exactly the value of the variable. *)
Theorem exports_script `{GoRuntime} (vars : gmap string string) :
  (∀ k, k ∈ dom vars → is_ident k = true) →
  sh_script (S (size vars)) (exports vars) =
  Some (map (λ k, ["export"; k +:+ "=" +:+ get vars k]) (sort_strings (elements (dom vars)))).
Proof.
  intros Hid. unfold exports.
  assert ((range 20 vars).*1 ≡ₚ elements (dom vars)) as Hperm.
  { apply NoDup_Permutation; [apply range_nodup|apply NoDup_elements|].
    intros k. rewrite elem_of_elements, elem_of_dom, list_elem_of_fmap. split.
    - intros ([k' v] & -> & Hk%range_elem). eauto.
    - intros [v Hv]. exists (k, v). by rewrite range_elem. }
  rewrite (sort_strings_proper _ _ Hperm).
  assert (size vars = length (sort_strings (elements (dom vars)))) as ->.
  { rewrite sort_strings_perm. change (length (elements (dom vars))) with (size (dom vars)).
    by rewrite size_dom. }
  assert (Forall (λ k, is_ident k = true) (sort_strings (elements (dom vars)))) as Hall.
  { rewrite sort_strings_perm. apply Forall_forall. intros k Hk%elem_of_elements. auto. }
  induction Hall as [|k l Hk Hall IH]; [done|].
  assert (∀ ss, str_join "" (("export " +:+ k +:+ "=" +:+ Quote (get vars k) +:+ newline) :: ss) =
    "export " +:+ k +:+ "=" +:+ Quote (get vars k) +:+ newline +:+ str_join "" ss) as Hj.
  { intros [|s ss]; simpl; by rewrite ?str_app_nil_r, ?str_app_assoc, ?str_app_nil_l. }
  cbn [map length sh_script]. rewrite Hj, export_line by done.
  cbn [length sh_script] in IH. unfold newline at 1. rewrite str_app_cons, str_app_nil_l.
  cbn [sh_script]. rewrite IH. done.
Qed.

(** ** Properties of Build *)

(** What every action of a valid job satisfies; [last] says whether it is the
    last one. *)
Record valid_action (s : Settings) (st : Step) (last : bool) (a : Action) : Prop := {
  va_name : aName a = sName st;
  va_kind : aKind a = KindCommand ∧ sCommand st ≠ "" ∨
            aKind a = KindScript ∧ sScript st ≠ "" ∧ is_Some (aContent a) ∨
            aKind a = KindCopy ∧ is_Some (sCopy st);
  va_retries : (0 ≤ aRetries a ≤ MaxRetries)%Z;
  va_once : aDisconnect a || aFireAndForget a = true → aRetries a = 0%Z;
  va_reboot : aReboot a = true → aDisconnect a = true;
  va_reconnect : aDisconnect a = true → (0 < aReconnectTimeout a ≤ MaxTimeout)%Z;
  va_forget : aFireAndForget a = true →
    last = true ∧ aKind a = KindCommand ∧ aContent a = None ∧ aDisconnect a = false ∧
    aContains a = [] ∧ aNotContains a = [] ∧ aRegex a = None ∧ aExitCode a = 0%Z;
  va_exit : (0 ≤ aExitCode a ≤ 255)%Z;
  va_timeout : (0 < stTimeout s)%Z → (0 < aTimeout a ≤ MaxTimeout ∨ aTimeout a = stTimeout s)%Z;
  va_sensitive : aSensitive a = true →
    aDisplay a = SensitiveMask ∧ (aKind a = KindCommand → is_Some (aContent a));
}.

Section build_theorems.
Context `{GoRuntime}.

Lemma first_duration_valid ds :
  Forall valid_duration ds → (0 ≤ first_duration ds ≤ MaxTimeout)%Z.
Proof.
  induction 1 as [|d ds Hd _ IH]; simpl.
  - unfold MaxTimeout, hour, minute, second. lia.
  - destruct (0 <? d)%Z; [apply Hd|done].
Qed.

Lemma first_duration_pos ds d : d ∈ ds → (0 < d)%Z → (0 < first_duration ds)%Z.
Proof.
  intros Hin Hd. induction ds as [|d' ds IH]; simpl; [set_solver|].
  apply elem_of_cons in Hin as [->|Hin].
  - by rewrite (proj2 (Z.ltb_lt _ _) Hd).
  - destruct (Z.ltb_spec 0 d'); [done|by apply IH].
Qed.

Lemma first_duration_last ds d :
  Forall valid_duration ds → (0 < d)%Z →
  (0 < first_duration (ds ++ [d]) ≤ MaxTimeout ∨ first_duration (ds ++ [d]) = d)%Z.
Proof.
  intros Hds Hd. induction Hds as [|d' ds Hd' _ IH]; simpl.
  - right. by rewrite (proj2 (Z.ltb_lt _ _) Hd).
  - destruct (Z.ltb_spec 0 d'); [left; split; [done|apply Hd']|done].
Qed.

Lemma first_duration_default t d :
  valid_duration t → valid_duration d → (0 < d)%Z →
  (0 < first_duration [t; d] ≤ MaxTimeout)%Z.
Proof.
  intros Ht Hd Hpos. split.
  - apply (first_duration_pos _ d); [set_solver|done].
  - apply first_duration_valid. rewrite !Forall_cons. done.
Qed.

#[local] Arguments first_duration : simpl never.

(** The kind tells which field of the step is set. *)
Lemma payload_kind st vars p :
  step_kinds st = 1 → payload st vars = Ok p →
  pKind p = KindCommand ∧ sCommand st ≠ "" ∧ pContent p = None ∨
  pKind p = KindScript ∧ sScript st ≠ "" ∧ is_Some (pContent p) ∨
  pKind p = KindCopy ∧ is_Some (sCopy st) ∧ sCommand st = "".
Proof.
  intros Hk. unfold payload.
  case_bool_decide as H1; simpl; [case_bool_decide as H2; simpl|].
  - destruct (sCopy st) as [c|] eqn:Ec.
    + intros (dest & _ & (content & _ & [= <-])%res_bind_Ok)%res_bind_Ok.
      right. right. simpl. eauto.
    + exfalso. unfold step_kinds in Hk. by rewrite H1, H2, Ec in Hk.
  - intros [= <-]. right. left. simpl. eauto.
  - intros (shell & _ & [= <-])%res_bind_Ok. left. done.
Qed.

Lemma regexp_compiles e :
  valid_expect e →
  negb (bool_decide (xRegex e = "")) && bool_decide (is_Some (regexp_error (xRegex e))) = false.
Proof.
  intros He. rewrite (ve_regex _ He).
  rewrite (bool_decide_false (is_Some None)) by apply is_Some_None.
  apply andb_false_r.
Qed.

Lemma build_valid j st vars s last :
  valid_job j → valid_step (jVariables j) last st →
  ∃ r, build j st vars s = Some r ∧
    match r with Ok a => valid_action s st last a | Err _ => True end.
Proof.
  intros Hj Hst. unfold build. rewrite regexp_compiles by apply Hst.
  eexists. split; [done|].
  destruct (renderAll (strs (xContains _)) _) as [cs|] eqn:Ecs; [simpl|done].
  destruct (renderAll (strs (xNotContains _)) _) as [ns|] eqn:Ens; [simpl|done].
  destruct (payload st vars) as [p|] eqn:Ep; [simpl|done].
  pose proof (payload_kind st vars p (vs_kind _ _ _ Hst) Ep) as Hkind.
  destruct (vs_reconnect_timeout _ _ _ Hst) as [Hrt _].
  split; simpl; try done.
  - destruct Hkind as [(Hp & ? & ?)|[(Hp & ? & ?)|(Hp & ? & ?)]]; rewrite Hp; [by left|right; left|by right; right].
    split_and!; [done..|]. by rewrite andb_false_r.
  - destruct (_ || _) eqn:E; [unfold MaxRetries; lia|].
    destruct (sRetries st) as [n|] eqn:En; simpl; [by apply (vs_retries _ _ _ Hst)|].
    apply (vj_retries _ Hj).
  - by intros ->.
  - by intros ->.
  - intros ->. destruct (sReboot st); by apply first_duration_default.
  - intros Hf. destruct (vs_forget _ _ _ Hst Hf) as [H1 H2 H3 H4 H5 H6 H7].
    rewrite H3, H4, H6, H7 in *. simpl in *.
    destruct Hkind as [(Hp & ? & ?)|[(Hp & ? & ?)|(Hp & ? & ?)]].
    + unfold renderAll in *. by simplify_eq/=.
    + exfalso. pose proof (vs_kind _ _ _ Hst) as Hk. unfold step_kinds in Hk.
      rewrite (bool_decide_false (sCommand st = "")) in Hk by done.
      rewrite (bool_decide_false (sScript st = "")) in Hk by done. done.
    + done.
  - destruct (xExitCode (sExpect st)) as [c|] eqn:Ec; simpl; [|lia].
    by apply (ve_exit _ (vs_expect _ _ _ Hst)).
  - intros Hpos. apply (first_duration_last [sTimeout st; dTimeout (jDefaults j)]); [|done].
    rewrite !Forall_cons, Forall_nil. split_and!; [|apply (vj_timeout _ Hj)|done].
    apply (vs_timeout _ _ _ Hst).
  - intros ->. simpl. split; [done|]. intros ->. by rewrite bool_decide_true.
Qed.

Lemma build_steps_valid j l vars s n :
  valid_job j →
  (∀ i st, l !! i = Some st →
     valid_step (jVariables j) (bool_decide (n + i = length (jSteps j) - 1)) st) →
  ∃ r, build_steps j l vars s = Some r ∧
    match r with
    | Ok acts => length acts = length l ∧
        ∀ i st a, l !! i = Some st → acts !! i = Some a →
          valid_action s st (bool_decide (n + i = length (jSteps j) - 1)) a
    | Err f => fCategory f = CatTemplateError
    end.
Proof.
  intros Hj. revert n. induction l as [|st l IH]; intros n Hl; simpl.
  { eexists. split; [done|]. by split. }
  destruct (build_valid j st vars s _ Hj (Hl 0 st eq_refl)) as ([a|e] & -> & Ha); [|eexists; by split].
  assert (∀ i st', l !! i = Some st' →
    valid_step (jVariables j) (bool_decide (S n + i = length (jSteps j) - 1)) st') as Hl'.
  { intros i st' Hi. specialize (Hl (S i) st' Hi). by replace (S n + i) with (n + S i) by lia. }
  destruct (IH (S n) Hl') as ([acts|f] & -> & Hr).
  - eexists. split; [done|]. simpl. destruct Hr as [Hlen Hr]. split; [by rewrite Hlen|].
    intros [|i] st' a' Hst Hacts; simplify_eq/=; [done|].
    replace (n + S i) with (S n + i) by lia. by apply Hr.
  - eexists. by split.
Qed.

Lemma Build_actions (j : Job) (vars : gmap string string) (s : Settings) :
  valid_job j →
  ∃ r, Build j vars s = Some r ∧
    match r with
    | Ok acts => length acts = length (jSteps j) ∧
        ∀ i st a, jSteps j !! i = Some st → acts !! i = Some a →
          valid_action s st (bool_decide (i = length (jSteps j) - 1)) a
    | Err f => fCategory f = CatTemplateError
    end.
Proof.
  intros Hj. apply (build_steps_valid j (jSteps j) vars s 0 Hj).
  intros i st Hi. by apply (vj_step _ Hj).
Qed.

(** C18: building a valid job never panics; it yields one valid
    action per step, in order, or a template failure.  In particular an action
    that reboots, disconnects or is not waited for is never retried, a
    fire-and-forget action is the last one and checks nothing, timeouts and exit
    codes stay in range, and a sensitive action shows nothing. *)
Theorem Build_valid_actions (j : Job) (vars : gmap string string) (s : Settings) :
  valid_job j →
  ∃ r, Build j vars s = Some r ∧
    match r with
    | Ok acts => length acts = length (jSteps j) ∧
        ∀ i st a, jSteps j !! i = Some st → acts !! i = Some a →
          valid_action s st (bool_decide (i = length (jSteps j) - 1)) a
    | Err f => fCategory f = CatTemplateError
    end.
Proof. apply Build_actions. Qed.

(** ** Sensitive variables are never displayed *)

(** The two environments agree on the variables that are not sensitive. *)
Definition agree (decls : gmap string JobVariable) (v1 v2 : gmap string string) : Prop :=
  ∀ n d, decls !! n = Some d → vSensitive d = false → v1 !! n = v2 !! n.

Lemma Render_agree t v1 v2 :
  (∀ refs, References t = Ok refs → ∀ r, r ∈ refs → v1 !! r = v2 !! r) →
  Render t v1 = Render t v2.
Proof.
  intros Hag. destruct (References t) as [refs|e] eqn:Er.
  2: { unfold Render. by rewrite Er. }
  specialize (Hag refs eq_refl). apply References_iff in Er as (tm & Hok & <- & <-).
  rewrite !Render_template by done.
  assert (missing_refs v1 tm = missing_refs v2 tm ∧ subst_template v1 tm = subst_template v2 tm)
    as [-> ->]; [|done].
  clear Hok. destruct tm as [parts last]. unfold missing_refs, subst_template, template_refs in *.
  simpl in *. induction parts as [|[l r] parts IH]; simpl in *; [done|].
  destruct IH as [IH1 IH2]; [intros; apply Hag; set_solver|].
  rewrite !filter_cons, (Hag (r_name r)) by set_solver. rewrite IH1, IH2. done.
Qed.

Lemma text_ok_agree decls t v1 v2 :
  agree decls v1 v2 → text_ok decls false t → Render t v1 = Render t v2.
Proof.
  intros Hag (refs & Hr & Hdecl). apply Render_agree. intros refs' Hr' r Hin. simplify_eq.
  rewrite Hr in Hr'. simplify_eq.
  destruct (Hdecl r Hin) as (v & Hv & Hs). eapply Hag; [done|].
  destruct (vSensitive v); [|done]. by specialize (Hs eq_refl).
Qed.

Lemma renderAll_agree decls l v1 v2 :
  agree decls v1 v2 → Forall (text_ok decls false) l → renderAll l v1 = renderAll l v2.
Proof.
  intros Hag. unfold renderAll. induction 1 as [|t l Ht _ IH]; simpl; [done|].
  by rewrite (text_ok_agree _ _ _ _ Hag Ht), IH.
Qed.

(** What a report or a failure message can show of an action. *)
Definition visible (a : Action) : string * string * list string * list string * option string :=
  (aDisplay a, aKind a, aContains a, aNotContains a, aRegex a).

Lemma build_visible j st v1 v2 s last a1 a2 :
  valid_step (jVariables j) last st → agree (jVariables j) v1 v2 →
  build j st v1 s = Some (Ok a1) → build j st v2 s = Some (Ok a2) →
  aDisplay a1 = aDisplay a2 ∧ (sSensitive st = false → visible a1 = visible a2).
Proof.
  intros Hst Hag. unfold build. rewrite regexp_compiles by apply Hst.
  intros H1%(inj Some) H2%(inj Some).
  apply res_bind_Ok in H1 as (c1 & Hc1 & (n1 & Hn1 & (p1 & Hp1 & [= <-])%res_bind_Ok)%res_bind_Ok).
  apply res_bind_Ok in H2 as (c2 & Hc2 & (n2 & Hn2 & (p2 & Hp2 & [= <-])%res_bind_Ok)%res_bind_Ok).
  unfold visible. simpl. destruct (sSensitive st) eqn:Es; [done|].
  pose proof (vs_texts _ _ _ Hst) as Ht. rewrite Es in Ht. unfold step_texts in Ht.
  rewrite !Forall_app in Ht. destruct Ht as (Htc & Htk & Htn & Htd).
  rewrite (renderAll_agree _ _ _ _ Hag Htk) in Hc1.
  rewrite (renderAll_agree _ _ _ _ Hag Htn) in Hn1. simplify_eq.
  rewrite Hc1 in Hc2. rewrite Hn1 in Hn2. simplify_eq.
  enough (pDisplay p1 = pDisplay p2 ∧ pKind p1 = pKind p2) as [-> ->] by done.
  unfold payload in Hp1, Hp2.
  case_bool_decide; simpl in *; [case_bool_decide; simpl in *|].
  - destruct (sCopy st) as [c|]; [|by simplify_eq].
    apply res_bind_Ok in Hp1 as (d1 & Hd1 & (k1 & _ & [= <-])%res_bind_Ok).
    apply res_bind_Ok in Hp2 as (d2 & Hd2 & (k2 & _ & [= <-])%res_bind_Ok).
    rewrite Forall_singleton in Htd. rewrite (text_ok_agree _ _ _ _ Hag Htd) in Hd1.
    rewrite Hd1 in Hd2. by simplify_eq.
  - by simplify_eq.
  - apply res_bind_Ok in Hp1 as (d1 & Hd1 & [= <-]). apply res_bind_Ok in Hp2 as (d2 & Hd2 & [= <-]).
    rewrite Forall_singleton in Htc. rewrite (text_ok_agree _ _ _ _ Hag Htc) in Hd1.
    rewrite Hd1 in Hd2. by simplify_eq.
Qed.

Lemma build_steps_cons j st l vars s acts :
  build_steps j (st :: l) vars s = Some (Ok acts) →
  ∃ a acts', acts = a :: acts' ∧ build j st vars s = Some (Ok a) ∧
    build_steps j l vars s = Some (Ok acts').
Proof.
  simpl. destruct (build j st vars s) as [[a|e]|]; [|done..].
  destruct (build_steps j l vars s) as [r|]; [|done].
  intros [= (acts' & -> & [= <-])%res_bind_Ok]. eauto.
Qed.

(** C19: the reports of a valid job do not depend on the values of its
    sensitive variables: for two environments that agree on the others, every
    action displays the same text, and an action that is not sensitive has the
    same checks. *)
Theorem Build_hides_secrets (j : Job) (v1 v2 : gmap string string) (s : Settings)
    (acts1 acts2 : list Action) :
  valid_job j → agree (jVariables j) v1 v2 →
  Build j v1 s = Some (Ok acts1) → Build j v2 s = Some (Ok acts2) →
  map aDisplay acts1 = map aDisplay acts2 ∧
  ∀ i st, jSteps j !! i = Some st → sSensitive st = false →
    visible <$> acts1 !! i = visible <$> acts2 !! i.
Proof.
  intros Hj Hag. unfold Build.
  assert (Forall (λ st, ∃ last, valid_step (jVariables j) last st) (jSteps j)) as Hall.
  { apply Forall_lookup. intros i st Hi. eexists. by apply (vj_step _ Hj i). }
  revert acts1 acts2. induction Hall as [|st l [last Hst] _ IH]; intros acts1 acts2.
  { intros [= <-] [= <-]. done. }
  intros H1 H2. apply build_steps_cons in H1 as (a1 & r1 & -> & Ha1 & Hr1).
  apply build_steps_cons in H2 as (a2 & r2 & -> & Ha2 & Hr2).
  destruct (build_visible j st v1 v2 s last a1 a2) as [Hd Hv]; [done..|].
  destruct (IH r1 r2 Hr1 Hr2) as [IHd IHv]. split; [simpl; by rewrite Hd, IHd|].
  intros [|i] st' Hi Hs; simplify_eq/=; [by rewrite Hv|by apply (IHv i st')].
Qed.
End build_theorems.

(** ** A concrete job *)

Definition example_step (name : string) : Step :=
  mkStep name "" "" "" None None emptyExpect 0 None 0 false false false false 0 false None.
Definition example_command (name cmd : string) (sensitive : bool) : Step :=
  let s := example_step name in
  mkStep name "" cmd "" None None (mkExpect (Some 0%Z) (Some ["ok"]) None "") 0 (Some 2%Z) 0
    false sensitive false false 0 false None.
Definition example_script : Step :=
  mkStep "script" "" "" "run.sh" None (Some true) emptyExpect (5 * second) None 0 true false
    false false 0 false (Some "exit 0").
Definition example_reboot : Step :=
  mkStep "reboot" "" "reboot" "" None (Some true) emptyExpect 0 None 0 false false
    true false 0 false None.
Definition example_forget : Step :=
  mkStep "last" "" "poweroff" "" None None emptyExpect 0 None 0 false false
    false false 0 true None.
Definition example_job : Job :=
  mkJob "deploy" "" "" "25%"
    {[ "version" := mkJobVariable true None false ""; "token" := mkJobVariable true None true "" ]}
    (mkDefaults 0 1 0 false)
    [example_command "install" "install {{ .version }}" false;
     example_command "login" "login {{ .token }}" true; example_script; example_reboot;
     example_forget] "" "".
Definition example_settings : Settings := mkSettings (10 * minute) second.
Definition example_vars (token : string) : gmap string string :=
  {[ "version" := "1.2"; "token" := token ]}.

Lemma example_job_valid : @valid_job default_runtime example_job.
Proof. apply Validate_iff. by vm_compute. Defined.
Lemma example_agree : agree (jVariables example_job) (example_vars "s3cret") (example_vars "other").
Proof.
  intros n d Hd Hs. unfold example_vars.
  destruct (decide (n = "version")) as [->|Hv]; [by rewrite !lookup_insert_eq|].
  destruct (decide (n = "token")) as [->|Ht].
  - exfalso. by vm_compute in Hd; simplify_eq.
  - rewrite !lookup_insert_ne, !lookup_singleton_ne by done. done.
Qed.

Definition example_actions (token : string) : list Action :=
  match @Build default_runtime example_job (example_vars token) example_settings with
  | Some (Ok acts) => acts
  | _ => []
  end.

Lemma Quote_word_witness :
  sh_words Plain None ["echo"] (Quote "it's $HOME" +:+ " done") =
  sh_words Plain None ["echo"; "it's $HOME"] " done".
Proof.
  rewrite (Quote_word "it's $HOME" " done" ["echo"]); [done|].
  right. exists " "%char, "done". done.
Defined.

Lemma Remote_sudo_argv_witness :
  ∃ a, aSudo a = true ∧ aKind a = KindScript ∧
  sh_command (Remote a "/tmp/x" true) =
  Some (["sudo"; "-k"; "-S"; "-p"; ""; "--"; "sh"; "-c"; "bash '/tmp/x'"],
        "; rc=$?; rm -f '/tmp/x'; exit $rc").
Proof.
  destruct (example_actions "s3cret" !! 2) as [a|] eqn:E; [|by vm_compute in E].
  exists a. vm_compute in E. injection E as <-. split_and!; [done|done|].
  rewrite Remote_sudo_argv; [done|]. done.
Defined.

Lemma exports_script_witness :
  sh_script 3 (@exports default_runtime (example_vars "it's")) =
  Some [["export"; "token=it's"]; ["export"; "version=1.2"]].
Proof.
  change 3 with (S (size (example_vars "it's"))).
  rewrite (@exports_script default_runtime (example_vars "it's")); [by vm_compute|].
  intros k. unfold example_vars.
  rewrite !dom_insert, dom_singleton, elem_of_union, !elem_of_singleton. by intros [->| ->].
Defined.

Lemma Build_valid_actions_witness :
  valid_job example_job (H := default_runtime) ∧ length (example_actions "s3cret") = 5 ∧
  ∃ r, @Build default_runtime example_job (example_vars "s3cret") example_settings = Some (Ok r) ∧
    length r = 5.
Proof.
  split; [apply example_job_valid|].
  destruct (@Build_valid_actions default_runtime example_job (example_vars "s3cret")
    example_settings example_job_valid) as (r & Hr & Hspec).
  unfold example_actions. rewrite Hr. destruct r as [acts|f]; [|by vm_compute in Hr].
  destruct Hspec as [Hlen _]. eauto.
Defined.

Lemma Build_hides_secrets_witness :
  map aDisplay (example_actions "s3cret") = map aDisplay (example_actions "other").
Proof.
  apply (@Build_hides_secrets default_runtime example_job (example_vars "s3cret")
    (example_vars "other") example_settings); [exact example_job_valid|exact example_agree|..];
    by vm_compute.
Defined.
