(* ===== verification/Inventory.v ===== *)
(** * Inventory ([internal/inventory/inventory.go])

    [Load] merges decoded inventory files, [Select] resolves every host and
    filters the result.  Reading and decoding YAML are parameters of [Load].  A
    Go map or slice whose nil-ness [reflect.DeepEqual] observes ([Defaults]) is
    an [option].

    [entry_ok] and [resolved] say what a host resolves to without any loop, and
    [Select_spec] shows that [Select] computes exactly that, in whatever order Go
    visits its maps. *)

From S2P Require Import Prelude GoStd Domain Files Variables.

Record Bastion := mkBastion {
  bAddress : string; bPort : Z; bUsername : string; bCredential : string;
}.

Record Defaults := mkDefaults {
  dfPort : Z;
  dfUsername : string;
  dfCredential : string;
  dfBastion : string;
  dfTags : option (list string);
  dfVariables : option (gmap string string);
}.
Definition emptyDefaults : Defaults := mkDefaults 0 "" "" "" None None.

Record Host := mkHost {
  hName : string;
  hAddress : string;
  hPort : Z;
  hUsername : string;
  hCredential : string;
  hBastion : string;
  hTags : list string;
  hVariables : gmap string string;
}.

Record Group := mkGroup { gDefaults : Defaults; gHosts : list Host }.

Record Inventory := mkInventory {
  iCredentials : gmap string Credential;
  iBastions : gmap string Bastion;
  iDefaults : Defaults;
  iGroups : gmap string Group;
  iHosts : list Host;
}.
Definition emptyInventory : Inventory := mkInventory ∅ ∅ emptyDefaults ∅ [].

Record Selector := mkSelector {
  slGroups : list string; slTags : list string; slHosts : list string;
}.

#[export] Instance defaults_eq_dec : EqDecision Defaults.
Proof. solve_decision. Defined.

(** ** Helpers *)

Definition host_char (c : ascii) : bool :=
  is_alnum c || bool_decide (c ∈ ["."; "_"; ":"; "-"]%char).
(** [hostNamePattern] *)
Definition hostNamePattern (s : string) : bool :=
  match s with
  | "" => false
  | String c s' =>
      is_alnum c && str_forallb host_char s' && bool_decide (String.length s' ≤ 252)
  end.

Definition MaxFileSize : Z := Z.shiftl 64 20.

(** [first]: the first value that is not the zero value. *)
Fixpoint first {A} `{EqDecision A} (zero : A) (vals : list A) : A :=
  match vals with
  | [] => zero
  | v :: vals => if decide (v = zero) then first zero vals else v
  end.

Definition anyOf (want have : list string) : bool :=
  bool_decide (want = []) || existsb (λ w, existsb (λ h, bool_decide (w = h)) have) want.

Definition strs (l : option (list string)) : list string := default [] l.
Definition vars_of (m : option (gmap string string)) : gmap string string := default ∅ m.

(** What the YAML decoder leaves in the document, and its error. *)
Abbreviation yaml_decoder := (string → Inventory * option error).

Section inventory.
Context `{GoRuntime}.

(** ** Resolution of a host *)

Definition credential (inv : Inventory) (name : string) : res string Credential :=
  if bool_decide (name = "") then Err "credential is required"
  else match iCredentials inv !! name with
  | None => Err ("unknown credential " +:+ quote name)
  | Some c =>
      let c := mkCredential name (cType c) (cUsername c) (cPasswordEnv c) (cKeyFile c)
                 (cPassphraseEnv c) (cSudoPasswordEnv c) in
      if bool_decide (cType c = "password") then
        if bool_decide (cPasswordEnv c = "") then
          Err ("credential " +:+ quote name +:+
               ": password_env is required (plaintext passwords are not accepted)")
        else Ok c
      else if bool_decide (cType c = "private_key") then
        if bool_decide (cKeyFile c = "") then
          Err ("credential " +:+ quote name +:+ ": key_file is required")
        else Ok c
      else Err ("credential " +:+ quote name +:+ ": type must be password or private_key")
  end.

(** One map of variables is laid over the previous ones. *)
Fixpoint lay_vars (l : list (string * string)) (acc : gmap string string)
    : res string (gmap string string) :=
  match l with
  | [] => Ok acc
  | (k, v) :: l =>
      match CheckValue v with
      | Err e => Err ("variable " +:+ quote k +:+ ": " +:+ e)
      | Ok _ => lay_vars l (<[k := v]> acc)
      end
  end.
Fixpoint resolve_vars (ms : list (gmap string string)) (acc : gmap string string)
    : res string (gmap string string) :=
  match ms with
  | [] => Ok acc
  | m :: ms => let? acc := lay_vars (range 11 m) acc in resolve_vars ms acc
  end.

Definition resolve_bastion (inv : Inventory) (name : string) : res string (option Endpoint) :=
  if bool_decide (name = "") then Ok None
  else match iBastions inv !! name with
  | None => Err ("unknown bastion " +:+ quote name)
  | Some b =>
      match credential inv (bCredential b) with
      | Err e => Err ("bastion " +:+ quote name +:+ ": " +:+ e)
      | Ok bc =>
          let e := mkEndpoint name (bAddress b) (first 0%Z [bPort b; 22%Z])
                     (first "" [bUsername b; cUsername bc]) bc in
          if bool_decide (eAddress e = "") || bool_decide (eUsername e = "") then
            Err ("bastion " +:+ quote name +:+ ": address and username are required")
          else Ok (Some e)
      end
  end.

Definition resolve (inv : Inventory) (group : string) (gd : Defaults) (h : Host)
    : res string Target :=
  let d := iDefaults inv in
  let port := first 0%Z [hPort h; dfPort gd; dfPort d; 22%Z] in
  if bool_decide (hAddress h = "") then Err "address is required"
  else if (port <? 1)%Z || (65535 <? port)%Z then
    Err ("port " +:+ itoa port +:+ " out of range")
  else
    let? vars := resolve_vars [vars_of (dfVariables d); vars_of (dfVariables gd);
                               hVariables h] ∅ in
    let tags := dedup ∅ (strs (dfTags d) ++ strs (dfTags gd) ++ hTags h) in
    let? cred := credential inv
      (first "" [hCredential h; dfCredential gd; dfCredential d]) in
    let user := first "" [hUsername h; dfUsername gd; dfUsername d; cUsername cred] in
    if bool_decide (user = "") then
      Err "username is required (host, defaults or credential)"
    else
      let? bastion := resolve_bastion inv
        (first "" [hBastion h; dfBastion gd; dfBastion d]) in
      Ok (mkTarget (mkEndpoint (hName h) (hAddress h) port user cred) group tags vars bastion).

(** ** Select *)

(** [errs], [seen] and [all]. *)
Record select_state := mkSelect {
  ssErrs : list string; ssSeen : gset string; ssAll : list Target;
}.

(** The closure [add]. *)
Definition add (inv : Inventory) (st : select_state) (e : string * Defaults * Host)
    : select_state :=
  let '(group, gd, h) := e in
  let fail msg seen :=
    mkSelect (ssErrs st ++ ["host " +:+ quote (hName h) +:+ ": " +:+ msg]) seen (ssAll st) in
  if negb (hostNamePattern (hName h)) then fail "invalid or missing name" (ssSeen st)
  else if bool_decide (hName h ∈ ssSeen st) then fail "defined more than once" (ssSeen st)
  else
    let seen := {[hName h]} ∪ ssSeen st in
    match resolve inv group gd h with
    | Err e => fail e seen
    | Ok t => mkSelect (ssErrs st) seen (ssAll st ++ [t])
    end.

(** The calls of [add], in order: the hosts of the groups, then the others. *)
Definition entries (inv : Inventory) : list (string * Defaults * Host) :=
  (range 10 (iGroups inv) ≫= λ '(g, grp), map (λ h, (g, gDefaults grp, h)) (gHosts grp)) ++
  map (λ h, ("", emptyDefaults, h)) (iHosts inv).

Definition matches (sel : Selector) (t : Target) : bool :=
  anyOf (slGroups sel) [tGroup t] && anyOf (slTags sel) (tTags t) &&
  anyOf (slHosts sel) [tName t].

(** [t.Name < u.Name] *)
Definition less_name (t u : Target) : bool := negb (bool_decide (String.le (tName u) (tName t))).

Definition Select (inv : Inventory) (sel : Selector) : res string (list Target) :=
  let st := foldl (add inv) (mkSelect [] ∅ []) (entries inv) in
  let errs := ssErrs st ++
    (slGroups sel ≫= λ g,
       if bool_decide (is_Some (iGroups inv !! g)) then [] else ["unknown group " +:+ quote g]) ++
    (slHosts sel ≫= λ h,
       if bool_decide (h ∈ ssSeen st) then [] else ["unknown host " +:+ quote h]) in
  match errs with
  | _ :: _ => Err ("inventory invalid: " +:+ str_join "; " (sort_strings errs))
  | [] => Ok (sort_slice less_name (filter (λ t, matches sel t = true) (ssAll st)))
  end.

(** ** Load *)

(** [mergeInto]: the first name that is already there is an error. *)
Fixpoint merge_list {V} (dst : gmap string V) (src : list (string * V)) (kind file : string)
    : res string (gmap string V) :=
  match src with
  | [] => Ok dst
  | (k, v) :: src =>
      if bool_decide (is_Some (dst !! k)) then
        Err (file +:+ ": " +:+ kind +:+ " " +:+ quote k +:+
             " is already defined in another inventory file")
      else merge_list (<[k := v]> dst) src kind file
  end.
Definition mergeInto {V} (dst src : gmap string V) (kind file : string)
    : res string (gmap string V) := merge_list dst (range 12 src) kind file.

Definition decode (yaml : yaml_decoder) (data : string) : res string Inventory :=
  let '(inv, err) := yaml data in
  match err with
  | Some e =>
      if err_is (λ k, match k with KEOF => true | _ => false end) e then Ok inv
      else Err ("inventory YAML: " +:+ err_text e)
  | None => Ok inv
  end.

(** One turn of the loop of [Load]: the state is [merged] and [defaultsFrom]. *)
Definition load_one (os : open_file) (yaml : yaml_decoder) (st : Inventory * string) (p : string)
    : res string (Inventory * string) :=
  let '(merged, defaultsFrom) := st in
  let? data := ReadFile os p MaxFileSize in
  match decode yaml data with
  | Err e => Err (p +:+ ": " +:+ e)
  | Ok inv =>
      let set := negb (bool_decide (iDefaults inv = emptyDefaults)) in
      if set && negb (bool_decide (defaultsFrom = "")) then
        Err ("defaults are set in both " +:+ defaultsFrom +:+ " and " +:+ p +:+
             "; keep them in one file")
      else
        let defaultsFrom := if set then p else defaultsFrom in
        let defaults := if set then iDefaults inv else iDefaults merged in
        let? creds := mergeInto (iCredentials merged) (iCredentials inv) "credential" p in
        let? bastions := mergeInto (iBastions merged) (iBastions inv) "bastion" p in
        let? groups := mergeInto (iGroups merged) (iGroups inv) "group" p in
        Ok (mkInventory creds bastions defaults groups (iHosts merged ++ iHosts inv),
            defaultsFrom)
  end.

Fixpoint load_all (os : open_file) (yaml : yaml_decoder) (st : Inventory * string)
    (paths : list string) : res string (Inventory * string) :=
  match paths with
  | [] => Ok st
  | p :: paths => let? st := load_one os yaml st p in load_all os yaml st paths
  end.

Definition emptySelector : Selector := mkSelector [] [] [].

Definition Load (os : open_file) (yaml : yaml_decoder) (paths : list string)
    : res string Inventory :=
  let? st := load_all os yaml (emptyInventory, "") paths in
  let? u := Select (fst st) emptySelector in
  Ok (fst st).

Definition Parse (yaml : yaml_decoder) (data : string) : res string Inventory :=
  let? inv := decode yaml data in
  let? u := Select inv emptySelector in
  Ok inv.
End inventory.

(** ** What a host resolves to *)

(** The credential [name] of the inventory is usable and is [c]. *)
Record has_credential (inv : Inventory) (name : string) (c : Credential) : Prop := {
  hc_name : cName c = name ∧ name ≠ "";
  hc_entry : ∃ c0, iCredentials inv !! name = Some c0 ∧
    cType c = cType c0 ∧ cUsername c = cUsername c0 ∧ cPasswordEnv c = cPasswordEnv c0 ∧
    cKeyFile c = cKeyFile c0 ∧ cPassphraseEnv c = cPassphraseEnv c0 ∧
    cSudoPasswordEnv c = cSudoPasswordEnv c0;
  hc_secret : cType c = "password" ∧ cPasswordEnv c ≠ "" ∨
              cType c = "private_key" ∧ cKeyFile c ≠ "";
}.

(** [v] is the first of [vals] that is set; the zero value when none is. *)
Definition inherits {A} (zero : A) (vals : list A) (v : A) : Prop :=
  (∃ before after, vals = before ++ v :: after ∧ v ≠ zero ∧ Forall (.= zero) before) ∨
  v = zero ∧ Forall (.= zero) vals.

Record has_bastion (inv : Inventory) (name : string) (e : Endpoint) : Prop := {
  hb_name : eName e = name;
  hb_address : eAddress e ≠ "" ∧ eUsername e ≠ "";
  hb_entry : ∃ b, iBastions inv !! name = Some b ∧ eAddress e = bAddress b ∧
    inherits 0%Z [bPort b; 22%Z] (ePort e) ∧
    has_credential inv (bCredential b) (eCredential e) ∧
    inherits "" [bUsername b; cUsername (eCredential e)] (eUsername e);
}.

Record resolved (inv : Inventory) (group : string) (gd : Defaults) (h : Host) (t : Target)
    : Prop := {
  rs_group : tGroup t = group;
  rs_name : tName t = hName h;
  rs_address : eAddress (tEndpoint t) = hAddress h ∧ hAddress h ≠ "";
  rs_port : inherits 0%Z [hPort h; dfPort gd; dfPort (iDefaults inv); 22%Z] (ePort (tEndpoint t)) ∧
    (1 ≤ ePort (tEndpoint t) ≤ 65535)%Z;
  rs_variables : tVariables t =
    hVariables h ∪ vars_of (dfVariables gd) ∪ vars_of (dfVariables (iDefaults inv));
  rs_values : ∀ m k v, m ∈ [hVariables h; vars_of (dfVariables gd);
    vars_of (dfVariables (iDefaults inv))] → m !! k = Some v → CheckValue v = Ok tt;
  rs_tags : tTags t = firsts (strs (dfTags (iDefaults inv)) ++ strs (dfTags gd) ++ hTags h);
  rs_credential : ∃ name,
    inherits "" [hCredential h; dfCredential gd; dfCredential (iDefaults inv)] name ∧
    has_credential inv name (eCredential (tEndpoint t));
  rs_username : inherits "" [hUsername h; dfUsername gd; dfUsername (iDefaults inv);
      cUsername (eCredential (tEndpoint t))] (eUsername (tEndpoint t)) ∧
    eUsername (tEndpoint t) ≠ "";
  rs_bastion : ∃ name, inherits "" [hBastion h; dfBastion gd; dfBastion (iDefaults inv)] name ∧
    match tBastion t with
    | None => name = ""
    | Some e => name ≠ "" ∧ has_bastion inv name e
    end;
}.

(** The hosts of the inventory, each with its group and the group's defaults. *)
Definition host_entries (inv : Inventory) : list (string * Defaults * Host) :=
  (map_to_list (iGroups inv) ≫= λ '(g, grp), map (λ h, (g, gDefaults grp, h)) (gHosts grp)) ++
  map (λ h, ("", emptyDefaults, h)) (iHosts inv).
Definition entry_name (e : string * Defaults * Host) : string := hName (snd e).
Definition entry_resolved (inv : Inventory) (e : string * Defaults * Host) : Target → Prop :=
  resolved inv (fst (fst e)) (snd (fst e)) (snd e).

Record valid_inventory (inv : Inventory) : Prop := {
  vi_names : Forall (λ e, hostNamePattern (entry_name e) = true) (host_entries inv);
  vi_unique : NoDup (map entry_name (host_entries inv));
  vi_resolved : ∀ e, e ∈ host_entries inv → ∃ t, entry_resolved inv e t;
}.

(** The selector's conditions on one target: every kind that is given has to
    match. *)
Definition selected (sel : Selector) (t : Target) : Prop :=
  (slGroups sel = [] ∨ tGroup t ∈ slGroups sel) ∧
  (slTags sel = [] ∨ ∃ tag, tag ∈ slTags sel ∧ tag ∈ tTags t) ∧
  (slHosts sel = [] ∨ tName t ∈ slHosts sel).

(** ** Lemmas *)

Lemma first_inherits {A} `{!EqDecision A} (zero : A) vals v :
  first zero vals = v ↔ inherits zero vals v.
Proof.
  unfold inherits. revert v. induction vals as [|x vals IH]; intros v; simpl.
  - split; [intros <-; by right|]. intros [([|] & ? & [=] & _)|[-> _]]; done.
  - case_decide as Hx.
    + subst x. rewrite IH. rewrite Forall_cons. split.
      * intros [(b & a & -> & ? & ?)|[-> ?]]; [left|by right].
        exists (zero :: b), a. split_and!; [done..|by constructor].
      * intros [([|y b] & a & ? & ? & Hb)|(-> & _ & ?)]; simplify_eq/=; [|by right].
        apply Forall_cons in Hb as [_ Hb]. left. by exists b, a.
    + rewrite Forall_cons. split.
      * intros <-. left. exists [], vals. done.
      * intros [([|y b] & a & ? & ? & Hb)|(-> & ? & ?)]; simplify_eq/=; [done|].
        by apply Forall_cons in Hb as [? _].
Qed.

Lemma anyOf_spec want have : anyOf want have = true ↔ want = [] ∨ ∃ x, x ∈ want ∧ x ∈ have.
Proof.
  unfold anyOf. rewrite orb_true_iff, bool_decide_eq_true, existsb_exists.
  setoid_rewrite existsb_exists. setoid_rewrite bool_decide_eq_true.
  setoid_rewrite <- list_elem_of_In. naive_solver.
Qed.

Section inventory_theorems.
Context `{GoRuntime}.
#[local] Arguments first : simpl never.

Lemma credential_spec inv name c : credential inv name = Ok c ↔ has_credential inv name c.
Proof.
  unfold credential. split.
  - case_bool_decide as Hn; [done|].
    destruct (iCredentials inv !! name) as [c0|] eqn:E; [|done]. cbn [cType cPasswordEnv cKeyFile].
    intros Hc. repeat case_bool_decide; simplify_eq; (split; [done|exists c0; done|simpl; tauto]).
  - intros [[Hn Hne] (c0 & Hc0 & Ht & Hu & Hp & Hk & Hpp & Hs) Hsec].
    rewrite bool_decide_false, Hc0 by done. cbn [cType cPasswordEnv cKeyFile].
    rewrite <- Ht, <- Hp, <- Hk, <- Hu, <- Hpp, <- Hs.
    destruct c as [n t u p k pp s]; simpl in *. subst n.
    destruct Hsec as [[-> ?]|[-> ?]]; [rewrite bool_decide_true by done|
      rewrite (bool_decide_false (_ = "password")) by done; rewrite bool_decide_true by done];
      by rewrite bool_decide_false.
Qed.

Lemma resolve_bastion_spec inv name b :
  resolve_bastion inv name = Ok b ↔
  match b with None => name = "" | Some e => name ≠ "" ∧ has_bastion inv name e end.
Proof.
  unfold resolve_bastion. case_bool_decide as Hn.
  { subst name. destruct b; naive_solver. }
  destruct (iBastions inv !! name) as [b0|] eqn:Eb.
  2: { split; [done|]. destruct b as [e|]; [|done]. intros [_ [_ _ (? & ? & _)]]. congruence. }
  destruct (credential inv (bCredential b0)) as [bc|e] eqn:Ec.
  2: { split; [done|]. destruct b as [e'|]; [|done]. intros [_ [_ _ (? & ? & _ & _ & Hc & _)]].
    simplify_eq. apply credential_spec in Hc. congruence. }
  cbn [eAddress eUsername]. split.
  - intros Hb. apply credential_spec in Ec. repeat case_bool_decide; simplify_eq/=.
    split; [done|]. split; [done|by split|]. exists b0.
    split_and!; [done|done|by apply first_inherits|done|by apply first_inherits].
  - destruct b as [e|]; [|done]. intros [_ [Hname [Ha Hu] (b1 & Hb1 & Haddr & Hp & Hc & Hus)]].
    simplify_eq. apply credential_spec in Hc. simplify_eq. apply first_inherits in Hp, Hus.
    rewrite Ec in Hc. simplify_eq. rewrite Hp, Hus, <- Haddr.
    rewrite !bool_decide_false by done. by destruct e.
Qed.

Lemma lay_vars_spec l acc m :
  NoDup l.*1 →
  lay_vars l acc = Ok m ↔
  (∀ k v, (k, v) ∈ l → CheckValue v = Ok tt) ∧ m = list_to_map l ∪ acc.
Proof.
  intros Hnd. revert acc. induction l as [|[k v] l IH]; intros acc; simpl.
  - rewrite (left_id_L ∅ (∪)). split; [intros [= <-]; split; [set_solver|done]|].
    by intros [_ ->].
  - apply NoDup_cons in Hnd as [Hk Hnd]. apply not_elem_of_list_to_map_1 in Hk.
    destruct (CheckValue v) as [[]|e] eqn:Ev.
    + rewrite IH by done. rewrite <- insert_union_r, insert_union_l by done.
      apply and_iff_compat_r. split; [|set_solver].
      intros Hl k' v' [[= -> ->]|Hin]%elem_of_cons; [done|by eapply Hl].
    + split; [done|]. intros [Hl _]. specialize (Hl k v). rewrite Ev in Hl.
      exfalso. by assert (Err e = Ok tt) by (apply Hl; set_solver).
Qed.

Lemma resolve_vars_spec ms acc m :
  resolve_vars ms acc = Ok m ↔
  (∀ m' k v, m' ∈ ms → m' !! k = Some v → CheckValue v = Ok tt) ∧
  m = foldl (λ acc m', m' ∪ acc) acc ms.
Proof.
  revert acc. induction ms as [|m0 ms IH]; intros acc; simpl.
  - split; [intros [= <-]; split; [set_solver|done]|]. by intros [_ ->].
  - rewrite res_bind_Ok. setoid_rewrite lay_vars_spec; [|apply range_nodup].
    setoid_rewrite IH. setoid_rewrite range_to_map. setoid_rewrite range_elem. split.
    + intros (? & [H1 ->] & H2 & ->). split; [|done].
      intros m' k v [->|?]%elem_of_cons; eauto.
    + intros [H1 ->]. eexists. split_and!; [|done| |done].
      * intros k v. apply H1. set_solver.
      * intros m' k v Hm. apply H1. set_solver.
Qed.

(** [resolve] implements [resolved]. *)
Lemma resolve_spec inv group gd h t :
  resolve inv group gd h = Ok t ↔ resolved inv group gd h t.
Proof.
  unfold resolve. split.
  - case_bool_decide as Ha; [done|]. case_match eqn:Hport; [done|].
    rewrite orb_false_iff, !Z.ltb_ge in Hport.
    intros (vars & Hv & (c & Hc & Hu)%res_bind_Ok)%res_bind_Ok.
    case_bool_decide as Hune; [done|]. apply res_bind_Ok in Hu as (b & Hb & [= <-]).
    apply resolve_vars_spec in Hv as [Hval ->]. apply credential_spec in Hc.
    apply resolve_bastion_spec in Hb. split; simpl; try done.
    + split; [by apply first_inherits|lia].
    + by rewrite (right_id_L ∅ (∪)), (assoc_L (∪)).
    + intros m k v Hm. apply Hval. set_solver.
    + apply dedup_firsts.
    + eexists. split; [|done]. by apply first_inherits.
    + split; [by apply first_inherits|done].
    + eexists. split; [by apply first_inherits|]. by destruct b.
  - intros [Hg Hn [Ha Hane] [Hp Hpr] Hv Hval Ht (cn & Hcn & Hc) [Hu Hune] (bn & Hbn & Hb)].
    apply first_inherits in Hp, Hcn, Hu, Hbn. apply credential_spec in Hc.
    rewrite bool_decide_false, Hp by done. rewrite (proj2 (Z.ltb_ge _ _)) by lia.
    rewrite (proj2 (Z.ltb_ge 65535 _)) by lia. simpl orb.
    rewrite (proj2 (resolve_vars_spec _ _ (tVariables t))); simpl res_bind.
    2: { rewrite Hv. simpl. rewrite (right_id_L ∅ (∪)), (assoc_L (∪)). split; [|done].
      intros m k v Hm. apply Hval. set_solver. }
    rewrite Hcn, Hc. simpl res_bind. rewrite Hu, bool_decide_false by done.
    rewrite Hbn, (proj2 (resolve_bastion_spec _ _ (tBastion t)) Hb).
    simpl res_bind. rewrite dedup_firsts, <- Hn, <- Ha, <- Hg, <- Ht. by destruct t as [[]].
Qed.

(** ** Select *)

Lemma entries_perm inv : entries inv ≡ₚ host_entries inv.
Proof. unfold entries, host_entries. by rewrite range_perm. Qed.

Lemma add_errs inv es st : ∃ l, ssErrs (foldl (add inv) st es) = ssErrs st ++ l.
Proof.
  revert st. induction es as [|e es IH]; intros st; simpl; [exists []; by rewrite app_nil_r|].
  destruct (IH (add inv st e)) as [l ->]. unfold add. destruct e as [[g gd] h].
  repeat case_match; simpl; rewrite <- ?app_assoc; eauto.
Qed.

(** Without an error, every entry has a new valid name and resolves. *)
Definition fresh_entry (inv : Inventory) (st : select_state) (e : string * Defaults * Host)
    (t : Target) : Prop :=
  ssErrs st = [] ∧ hostNamePattern (entry_name e) = true ∧ entry_name e ∉ ssSeen st ∧
  entry_resolved inv e t.

Lemma add_fresh inv st e t :
  fresh_entry inv st e t →
  add inv st e = mkSelect [] ({[entry_name e]} ∪ ssSeen st) (ssAll st ++ [t]).
Proof.
  intros (He & Hp & Hs & Ht%resolve_spec). destruct e as [[g gd] h].
  unfold entry_name in *. simpl in *. unfold add. rewrite Hp. simpl.
  by rewrite bool_decide_false, Ht, He by done.
Qed.

Lemma add_ok inv st e : ssErrs (add inv st e) = [] → ∃ t, fresh_entry inv st e t.
Proof.
  destruct e as [[g gd] h]. unfold add, fresh_entry, entry_resolved, entry_name. simpl.
  destruct (hostNamePattern (hName h)) eqn:Ep; simpl; [|by intros [_ ?]%app_nil].
  case_bool_decide as Hs; [by intros [_ ?]%app_nil|].
  destruct (resolve inv g gd h) as [t|e'] eqn:Er; [|by intros [_ ?]%app_nil].
  intros He. exists t. by apply resolve_spec in Er.
Qed.

Lemma add_all inv es st seen all :
  foldl (add inv) st es = mkSelect [] seen all ↔
  ssErrs st = [] ∧ Forall (λ e, hostNamePattern (entry_name e) = true) es ∧
  NoDup (map entry_name es) ∧ (∀ e, e ∈ es → entry_name e ∉ ssSeen st) ∧
  ∃ ts, Forall2 (entry_resolved inv) es ts ∧
    seen = list_to_set (map entry_name es) ∪ ssSeen st ∧ all = ssAll st ++ ts.
Proof.
  revert st. induction es as [|e es IH]; intros st.
  { simpl. rewrite NoDup_nil, Forall_nil. split.
    - intros ->. split_and!; [done..|set_solver|]. exists [].
      rewrite app_nil_r. split_and!; [by constructor|set_solver|done].
    - intros (He & _ & _ & _ & ts & ->%Forall2_nil_inv_l & -> & ->).
      rewrite app_nil_r. destruct st. simpl in *. f_equal; [done|set_solver]. }
  cbn [foldl map list_to_set]. rewrite IH, Forall_cons, NoDup_cons. split.
  - intros (He & Hp & Hnd & Hin & ts & Hts & -> & ->).
    destruct (add_ok _ _ _ He) as [t Hf]. rewrite (add_fresh _ _ _ _ Hf) in *. simpl in *.
    destruct Hf as (He' & Hp' & Hs & Ht). split_and!; [done..| |done| |].
    + intros (e' & Heq & He'')%list_elem_of_fmap. specialize (Hin e' He''). set_solver.
    + intros e' [->|He'']%elem_of_cons; [done|]. specialize (Hin e' He''). set_solver.
    + exists (t :: ts). rewrite <- app_assoc. split_and!; [by constructor|set_solver|done].
  - intros (He & [Hp Hps] & [Hn Hnd] & Hin & ts' & Hts & -> & ->).
    apply Forall2_cons_inv_l in Hts as (t & ts & Ht & Hts & ->).
    rewrite (add_fresh inv st e t) by (split_and!; [done|done|apply Hin; set_solver|done]).
    simpl. split_and!; [done..| |].
    + intros e' He'. apply not_elem_of_union. split; [|apply Hin; set_solver].
      rewrite elem_of_singleton. intros Heq. apply Hn. apply list_elem_of_fmap. eauto.
    + exists ts. rewrite <- app_assoc. split_and!; [done|set_solver|done].
Qed.

Lemma less_name_total t u : less_name t u = false → String.le (tName u) (tName t).
Proof. unfold less_name. by intros ?%negb_false_iff%bool_decide_eq_true. Qed.

Lemma sort_slice_names l :
  NoDup (map tName l) → sort_slice less_name l ≡ₚ l ∧
  StronglySorted (λ t u, String.le (tName t) (tName u)) (sort_slice less_name l).
Proof.
  intros Hnd. split; [apply sort_slice_perm|].
  eapply StronglySorted_impl; [|apply sort_slice_sorted].
  - intros x y. apply less_name_total.
  - unfold less_name. intros x y ?%negb_true_iff%bool_decide_eq_false.
    apply negb_false_iff, bool_decide_eq_true. by destruct (total String.le (tName y) (tName x)).
  - intros x y z ?%less_name_total ?%less_name_total.
    apply negb_false_iff, bool_decide_eq_true. by etrans.
Qed.

Lemma entries_names inv e ts :
  Forall2 (entry_resolved inv) e ts → map tName ts = map entry_name e.
Proof.
  induction 1 as [|e t es ts Ht _ IH]; simpl; [done|]. rewrite IH. f_equal. apply Ht.
Qed.

Lemma matches_spec sel t : matches sel t = true ↔ selected sel t.
Proof.
  unfold matches, selected. rewrite !andb_true_iff, !anyOf_spec. set_solver.
Qed.

(** The loops record no error exactly for the valid inventories, and then they
    have seen and resolved every host. *)
Lemma select_valid inv seen all :
  foldl (add inv) (mkSelect [] ∅ []) (entries inv) = mkSelect [] seen all →
  valid_inventory inv ∧ seen = list_to_set (map entry_name (host_entries inv)) ∧
  NoDup (map tName all) ∧ ∀ t, t ∈ all ↔ ∃ e, e ∈ host_entries inv ∧ entry_resolved inv e t.
Proof.
  rewrite add_all. intros (_ & Hp & Hnd & _ & ts & Hts & -> & ->). simpl. split_and!.
  - split; [by rewrite <- entries_perm..|].
    intros e. rewrite <- entries_perm. intros [i Hi]%list_elem_of_lookup.
    destruct (Forall2_lookup_l _ _ _ _ _ Hts Hi) as (t & _ & Ht). by exists t.
  - rewrite (right_id_L ∅ (∪)). apply list_to_set_perm_L. by rewrite entries_perm.
  - by rewrite (entries_names _ _ _ Hts).
  - intros t. setoid_rewrite <- entries_perm. split.
    + intros [i Hi]%list_elem_of_lookup.
      destruct (Forall2_lookup_r _ _ _ _ _ Hts Hi) as (e & He & Ht). exists e.
      split; [by eapply list_elem_of_lookup_2|done].
    + intros (e & [i Hi]%list_elem_of_lookup & Ht).
      destruct (Forall2_lookup_l _ _ _ _ _ Hts Hi) as (t' & Ht' & Hr).
      apply resolve_spec in Ht, Hr. assert (t = t') as -> by congruence.
      by eapply list_elem_of_lookup_2.
Qed.

Lemma valid_select inv :
  valid_inventory inv →
  ∃ seen all, foldl (add inv) (mkSelect [] ∅ []) (entries inv) = mkSelect [] seen all.
Proof.
  intros [Hp Hnd Hr]. rewrite <- (entries_perm inv) in Hp, Hnd.
  destruct (Forall_choice (entry_resolved inv) (entries inv)) as [ts Hts].
  { apply Forall_forall. intros e. rewrite entries_perm. apply Hr. }
  eexists _, _. apply add_all. simpl. split_and!; [done..| |exists ts; done]. set_solver.
Qed.

Record select_result (inv : Inventory) (sel : Selector) (ts : list Target) : Prop := {
  sr_valid : valid_inventory inv;
  sr_groups : ∀ g, g ∈ slGroups sel → is_Some (iGroups inv !! g);
  sr_hosts : ∀ h, h ∈ slHosts sel → h ∈ map entry_name (host_entries inv);
  sr_sorted : StronglySorted (λ t u, String.le (tName t) (tName u)) ts;
  sr_unique : NoDup (map tName ts);
  sr_elements : ∀ t, t ∈ ts ↔
    selected sel t ∧ ∃ e, e ∈ host_entries inv ∧ entry_resolved inv e t;
}.

Lemma unknown_nil {A} (P : A → Prop) `{!∀ x, Decision (P x)} (l : list A) (msg : A → string) :
  (l ≫= λ x, if bool_decide (P x) then [] else [msg x]) = [] ↔ ∀ x, x ∈ l → P x.
Proof. rewrite bind_nil. apply forall_proper. intros x. case_bool_decide; naive_solver. Qed.

Lemma Select_sound inv sel ts : Select inv sel = Ok ts → select_result inv sel ts.
Proof.
  unfold Select. destruct (foldl _ _ _) as [errs seen all] eqn:Ef. cbn [ssErrs ssSeen ssAll].
  destruct (errs ++ _) eqn:E; [|done]. intros [= <-].
  rewrite !app_nil, !unknown_nil in E. destruct E as (-> & Hg & Hh).
  apply select_valid in Ef as (Hv & -> & Hnd & Hel).
  assert (NoDup (map tName (filter (λ t, matches sel t = true) all))) as Hnd'.
  { eapply sublist_NoDup; [exact Hnd|]. apply fmap_sublist, sublist_filter. }
  destruct (sort_slice_names _ Hnd') as [Hperm Hss]. split; [done|done|set_solver|done|by rewrite Hperm|].
  intros t. rewrite Hperm, list_elem_of_filter, matches_spec, Hel. done.
Qed.

Lemma Select_iff inv sel ts : Select inv sel = Ok ts ↔ select_result inv sel ts.
Proof.
  split; [apply Select_sound|]. intros Hr.
  assert (∃ ts', Select inv sel = Ok ts') as [ts' Hs].
  { unfold Select. destruct (valid_select inv (sr_valid _ _ _ Hr)) as (seen & all & Hf).
    rewrite Hf. cbn [ssErrs ssSeen ssAll app]. apply select_valid in Hf as (_ & -> & _ & _).
    destruct (_ ++ _) eqn:E; [eauto|]. exfalso. assert (s :: l = []) as [=]. rewrite <- E.
    rewrite app_nil, !unknown_nil. split; [apply Hr|].
    intros h Hh. apply elem_of_list_to_set. by apply (sr_hosts _ _ _ Hr). }
  rewrite Hs. f_equal. apply Select_sound in Hs.
  apply (sorted_by_key_unique tName String.le); [apply Hs|apply Hr|apply Hs|apply Hr|].
  intros t. by rewrite (sr_elements _ _ _ Hs), (sr_elements _ _ _ Hr).
Qed.

(** C31: [Select] succeeds exactly when every host has a valid, unique
    name and resolves, and every group and host of the selector exists; the
    result is then the targets the selector matches, each host resolved as
    [resolved] says, sorted by name, no name twice; nothing else. *)
Theorem Select_spec (inv : Inventory) (sel : Selector) (ts : list Target) :
  Select inv sel = Ok ts ↔ select_result inv sel ts.
Proof. apply Select_iff. Qed.

(** ** Load *)

Lemma merge_list_spec {V} (dst : gmap string V) l kind file m :
  NoDup l.*1 →
  merge_list dst l kind file = Ok m ↔ dst ##ₘ list_to_map l ∧ m = dst ∪ list_to_map l.
Proof.
  intros Hnd. revert dst. induction l as [|[k v] l IH]; intros dst; simpl.
  - rewrite (right_id_L ∅ (∪)). split; [intros [= <-]; split; [solve_map_disjoint|done]|].
    by intros [_ ->].
  - apply NoDup_cons in Hnd as [Hk Hnd]. apply not_elem_of_list_to_map_1 in Hk. simpl in Hk.
    rewrite map_disjoint_insert_r. case_bool_decide as Hd; rewrite <- not_eq_None_Some in Hd.
    + naive_solver.
    + apply dec_stable in Hd. rewrite IH, map_disjoint_insert_l by done.
      rewrite <- insert_union_r, <- insert_union_l by done. naive_solver.
Qed.

Lemma mergeInto_spec {V} (dst src : gmap string V) kind file m :
  mergeInto dst src kind file = Ok m ↔ dst ##ₘ src ∧ m = dst ∪ src.
Proof. unfold mergeInto. rewrite merge_list_spec by apply range_nodup. by rewrite range_to_map. Qed.

(** No name is in two of the maps. *)
Fixpoint disjoint_all {V} (ms : list (gmap string V)) : Prop :=
  match ms with [] => True | m :: ms => Forall (map_disjoint m) ms ∧ disjoint_all ms end.

Lemma disjoint_all_merge {V} (m1 m2 : gmap string V) ms :
  disjoint_all (m1 :: m2 :: ms) ↔ m1 ##ₘ m2 ∧ disjoint_all (m1 ∪ m2 :: ms).
Proof.
  simpl. rewrite !Forall_cons, !Forall_forall. setoid_rewrite map_disjoint_union_l. naive_solver.
Qed.

(** What the files define together. *)
Definition set_defaults_of (ds : list Defaults) : list Defaults := filter (.≠ emptyDefaults) ds.
Definition combined (files : list Inventory) : Inventory :=
  mkInventory (foldl (∪) ∅ (map iCredentials files)) (foldl (∪) ∅ (map iBastions files))
    (default emptyDefaults (head (set_defaults_of (map iDefaults files))))
    (foldl (∪) ∅ (map iGroups files)) (files ≫= iHosts).

(** The files read, one per path. *)
Definition files_of (os : open_file) (yaml : yaml_decoder) (paths : list string)
    (files : list Inventory) : Prop :=
  Forall2 (λ p f, ∃ data, ReadFile os p MaxFileSize = Ok data ∧ decode yaml data = Ok f)
    paths files.

Record compatible (files : list Inventory) : Prop := {
  cp_credentials : disjoint_all (map iCredentials files);
  cp_bastions : disjoint_all (map iBastions files);
  cp_groups : disjoint_all (map iGroups files);
  cp_defaults : length (set_defaults_of (map iDefaults files)) ≤ 1;
}.

(** Merging one more file first. *)
Definition merge2 (a b : Inventory) : Inventory :=
  mkInventory (iCredentials a ∪ iCredentials b) (iBastions a ∪ iBastions b)
    (default emptyDefaults (head (set_defaults_of [iDefaults a; iDefaults b])))
    (iGroups a ∪ iGroups b) (iHosts a ++ iHosts b).
Definition compatible2 (a b : Inventory) : Prop :=
  iCredentials a ##ₘ iCredentials b ∧ iBastions a ##ₘ iBastions b ∧ iGroups a ##ₘ iGroups b ∧
  (iDefaults a = emptyDefaults ∨ iDefaults b = emptyDefaults).

Lemma set_defaults_cons d ds :
  set_defaults_of (d :: ds) =
  if decide (d = emptyDefaults) then set_defaults_of ds else d :: set_defaults_of ds.
Proof. unfold set_defaults_of. rewrite filter_cons. repeat case_decide; naive_solver. Qed.

Lemma merge2_defaults a b :
  iDefaults (merge2 a b) =
  if decide (iDefaults a = emptyDefaults) then iDefaults b else iDefaults a.
Proof.
  simpl. rewrite !set_defaults_cons. repeat case_decide; simpl; congruence.
Qed.

Lemma compatible_merge a b files :
  compatible (a :: b :: files) ↔ compatible2 a b ∧ compatible (merge2 a b :: files).
Proof.
  assert (length (set_defaults_of (map iDefaults (a :: b :: files))) ≤ 1 ↔
    (iDefaults a = emptyDefaults ∨ iDefaults b = emptyDefaults) ∧
    length (set_defaults_of (map iDefaults (merge2 a b :: files))) ≤ 1) as Hd.
  { cbn [map]. rewrite !set_defaults_cons, merge2_defaults.
    repeat case_decide; simpl; naive_solver lia. }
  split.
  - intros [H1 H2 H3 H4]. cbn [map] in H1, H2, H3.
    apply disjoint_all_merge in H1, H2, H3. apply Hd in H4 as [??].
    destruct H1 as [? H1], H2 as [? H2], H3 as [? H3].
    split; [by split_and!|split; [exact H1|exact H2|exact H3|done]].
  - intros [(H1 & H2 & H3 & H4) [H5 H6 H7 H8]].
    split; [..|by apply Hd]; cbn [map]; apply disjoint_all_merge; by split.
Qed.

Lemma combined_merge a b files : combined (a :: b :: files) = combined (merge2 a b :: files).
Proof.
  unfold combined. cbn [map foldl mbind list_bind]. rewrite !(left_id_L ∅ (∪)).
  rewrite (set_defaults_cons (iDefaults (merge2 a b))), merge2_defaults, !set_defaults_cons.
  cbn [merge2 iCredentials iBastions iGroups iHosts]. rewrite <- app_assoc.
  f_equal. repeat case_decide; naive_solver.
Qed.

(** The state of [Load]'s loop: a file has set the defaults iff [defaultsFrom]
    is its path. *)
Lemma load_one_spec os yaml merged from p merged' from' :
  p ≠ "" → (from = "" ↔ iDefaults merged = emptyDefaults) →
  load_one os yaml (merged, from) p = Ok (merged', from') →
  (from' = "" ↔ iDefaults merged' = emptyDefaults) ∧
  ∃ f, files_of os yaml [p] [f] ∧ compatible2 merged f ∧ merged' = merge2 merged f.
Proof.
  intros Hp Hfrom. unfold load_one. intros (data & Hd & Hx)%res_bind_Ok.
  destruct (decode yaml data) as [f|] eqn:Ef; [|done].
  destruct (negb (bool_decide (iDefaults f = _)) && _) eqn:E; [done|].
  apply res_bind_Ok in Hx as (c & [Hc ->]%mergeInto_spec & Hx).
  apply res_bind_Ok in Hx as (b & [Hb ->]%mergeInto_spec & Hx).
  apply res_bind_Ok in Hx as (g & [Hg ->]%mergeInto_spec & [= <- <-]).
  assert (iDefaults merged = emptyDefaults ∨ iDefaults f = emptyDefaults) as Hdef.
  { bool_to_prop. destruct E as [E|E]; [by right|left; by apply Hfrom]. }
  split.
  - simpl. repeat case_bool_decide; simpl; naive_solver.
  - exists f. split_and!; [by repeat econstructor|done|].
    unfold merge2. f_equal. rewrite !set_defaults_cons.
    repeat case_bool_decide; repeat case_decide; naive_solver.
Qed.

Lemma load_one_complete os yaml merged from p f :
  (from = "" ↔ iDefaults merged = emptyDefaults) →
  files_of os yaml [p] [f] → compatible2 merged f →
  ∃ from', load_one os yaml (merged, from) p = Ok (merge2 merged f, from').
Proof.
  intros Hfrom Hf (Hc & Hb & Hg & Hd).
  apply Forall2_cons_1 in Hf as [(data & Hdata & Hf) _].
  unfold load_one. rewrite Hdata. simpl res_bind. rewrite Hf.
  assert (negb (bool_decide (iDefaults f = emptyDefaults)) && negb (bool_decide (from = ""))
    = false) as ->.
  { bool_to_prop. rewrite Hfrom. naive_solver. }
  rewrite !(proj2 (mergeInto_spec _ _ _ _ _)) by done. simpl res_bind.
  eexists. do 2 f_equal. unfold merge2. f_equal. rewrite !set_defaults_cons.
  repeat case_bool_decide; repeat case_decide; naive_solver.
Qed.

Lemma combined_one inv : combined [inv] = inv.
Proof.
  unfold combined. cbn [map foldl mbind list_bind]. rewrite !(left_id_L ∅ (∪)), app_nil_r.
  rewrite set_defaults_cons. destruct inv. simpl. f_equal. by case_decide.
Qed.

Lemma load_all_spec os yaml paths merged from inv :
  Forall (.≠ "") paths → (from = "" ↔ iDefaults merged = emptyDefaults) →
  (∃ from', load_all os yaml (merged, from) paths = Ok (inv, from')) ↔
  ∃ files, files_of os yaml paths files ∧ compatible (merged :: files) ∧
    inv = combined (merged :: files).
Proof.
  intros Hp. revert merged from inv.
  induction Hp as [|p paths Hp _ IH]; intros merged from inv Hfrom.
  - simpl. split.
    + intros [from' [= <- <-]]. exists []. rewrite combined_one.
      split_and!; [by constructor| |done]. split; simpl; try by repeat constructor.
      rewrite set_defaults_cons. case_decide; simpl; lia.
    + intros (files & ->%Forall2_nil_inv_l & _ & ->). rewrite combined_one. eauto.
  - cbn [load_all]. setoid_rewrite res_bind_Ok. split.
    + intros (from' & [m1 from1] & H1 & H2).
      apply load_one_spec in H1 as (Hfrom1 & f & Hf & Hc & ->); [|done..].
      destruct (proj1 (IH _ _ _ Hfrom1) (ex_intro _ _ H2)) as (files & Hfs & Hcs & ->).
      exists (f :: files). rewrite compatible_merge, combined_merge.
      apply Forall2_cons_1 in Hf as [Hf _]. split_and!; [by constructor|done..].
    + intros (files & Hfs & Hc & ->).
      apply Forall2_cons_inv_l in Hfs as (f & fs & Hf & Hfs & ->).
      apply compatible_merge in Hc as [Hc Hcs]. rewrite combined_merge.
      assert (∃ from1, load_one os yaml (merged, from) p = Ok (merge2 merged f, from1)) as [from1 H1]
        by (apply load_one_complete; [done|constructor; [done|constructor]|done]).
      destruct (load_one_spec os yaml merged from p _ from1 Hp Hfrom H1) as [Hfrom1 _].
      assert (∃ from2, load_all os yaml (merge2 merged f, from1) paths =
        Ok (combined (merge2 merged f :: fs), from2)) as [from2 H2] by (apply IH; eauto).
      exists from2, (merge2 merged f, from1). done.
Qed.

Lemma empty_first files :
  (compatible (emptyInventory :: files) ↔ compatible files) ∧
  combined (emptyInventory :: files) = combined files.
Proof.
  split.
  - assert (∀ V (ms : list (gmap string V)), disjoint_all (∅ :: ms) ↔ disjoint_all ms) as Hd.
    { intros V ms. simpl. split; [by intros []|]. split; [|done].
      apply Forall_forall. intros. apply map_disjoint_empty_l. }
    assert (set_defaults_of (map iDefaults (emptyInventory :: files)) =
      set_defaults_of (map iDefaults files)) as He.
    { cbn [map]. by rewrite set_defaults_cons, decide_True. }
    split; intros [H1 H2 H3 H4].
    + rewrite He in H4. apply (proj1 (Hd _ _)) in H1, H2, H3. by split.
    + split; [apply (proj2 (Hd _ _) H1)|apply (proj2 (Hd _ _) H2)|apply (proj2 (Hd _ _) H3)|].
      by rewrite He.
  - unfold combined. cbn [map foldl mbind list_bind emptyInventory iCredentials iBastions iGroups].
    by rewrite !(left_id_L ∅ (∪)).
Qed.

(** [Load] succeeds exactly when every file can be read and decoded,
    no credential, bastion or group is defined in two files, at most one file
    sets the defaults, and the union is a valid inventory; it returns that
    union, with the hosts of the files in order. *)
Theorem Load_spec (os : open_file) (yaml : yaml_decoder) (paths : list string) (inv : Inventory) :
  Forall (.≠ "") paths →
  Load os yaml paths = Ok inv ↔
  ∃ files, files_of os yaml paths files ∧ compatible files ∧ inv = combined files ∧
    valid_inventory inv.
Proof.
  intros Hp.
  assert (("" : string) = "" ↔ iDefaults emptyInventory = emptyDefaults) as Hfrom by done.
  pose proof (load_all_spec os yaml paths emptyInventory "" inv Hp Hfrom) as Hl.
  assert ((∃ ts, Select inv emptySelector = Ok ts) ↔ valid_inventory inv) as Hs.
  { split; [intros [ts []%Select_sound]; done|]. intros Hv.
    unfold Select. destruct (valid_select inv Hv) as (seen & all & ->). simpl. eauto. }
  transitivity ((∃ from', load_all os yaml (emptyInventory, "") paths = Ok (inv, from')) ∧
    valid_inventory inv).
  - rewrite <- Hs. unfold Load. rewrite res_bind_Ok. setoid_rewrite res_bind_Ok. split.
    + intros ([inv' from] & Ha & ts & Ht & [= <-]). eauto.
    + intros ([from Ha] & ts & Ht). exists (inv, from). eauto.
  - rewrite Hl. split.
    + intros [(files & Hf & Hc & ->) Hv]. destruct (empty_first files) as [Hcf He].
      apply Hcf in Hc. rewrite He in Hv |- *. by exists files.
    + intros (files & Hf & Hc & -> & Hv). split; [|done]. exists files.
      destruct (empty_first files) as [Hcf ->]. by rewrite Hcf.
Qed.
End inventory_theorems.

(** The targets do not depend on the order in which Go visits
    the groups or the variables, nor on how it sorts: any two runtimes select
    the same list. *)
Theorem Select_order_independent (rt1 rt2 : GoRuntime) (inv : Inventory) (sel : Selector)
    (ts : list Target) :
  @Select rt1 inv sel = Ok ts ↔ @Select rt2 inv sel = Ok ts.
Proof. by rewrite !Select_iff. Qed.

(** ** A concrete inventory *)

Definition example_credential : Credential := mkCredential "" "password" "admin" "PW" "" "" "".
Definition example_host (name address : string) (port : Z) : Host :=
  mkHost name address port "" "" "" ["linux"; "web"] {[ "version" := "1.2" ]}.
Definition example_inventory : Inventory :=
  mkInventory {[ "main" := example_credential ]} {[ "jump" := mkBastion "10.0.0.1" 0 "" "main" ]}
    (mkDefaults 2222 "" "main" "" (Some ["linux"]) None)
    {[ "db" := mkGroup (mkDefaults 0 "postgres" "" "jump" None None)
         [example_host "db2" "10.0.1.2" 0; example_host "db1" "10.0.1.1" 22] ]}
    [example_host "web1" "10.0.2.1" 0].

Example select_example :
  match @Select default_runtime example_inventory (mkSelector [] [] ["web1"; "db1"]) with
  | Ok ts => map (λ t, (tName t, eUsername (tEndpoint t), ePort (tEndpoint t), tTags t)) ts
  | Err _ => []
  end = [("db1", "postgres", 22%Z, ["linux"; "web"]); ("web1", "admin", 2222%Z, ["linux"; "web"])].
Proof. by vm_compute. Qed.

Lemma Load_spec_witness :
  let os p := Ok (mkOpened None true p None) : res string opened in
  let yaml d := (if bool_decide (d = "a.yaml") then example_inventory else emptyInventory, None) in
  @Load default_runtime os yaml ["a.yaml"; "b.yaml"] = Ok example_inventory.
Proof.
  intros os yaml. apply Load_spec; [by repeat constructor|].
  exists [example_inventory; emptyInventory]. split_and!.
  - constructor; [by exists "a.yaml"|]. constructor; [by exists "b.yaml"|constructor].
  - split; [repeat constructor..|]; try (simpl; apply map_disjoint_empty_r). by vm_compute.
  - by vm_compute.
  - destruct (@Select default_runtime example_inventory emptySelector) as [ts|] eqn:E;
      [|by vm_compute in E]. by apply Select_iff in E as [].
Defined.
