(* ===== verification/Credentials.v ===== *)
(** * Credentials ([internal/credentials/credentials.go])

    [Resolve] turns a credential into authentication methods and secrets;
    [Redactor] replaces secrets in every text that is shown or written.

    Reading a key file, the user's home directory and the parsers of
    x/crypto/ssh are parameters. *)

From S2P Require Import Prelude GoStd Domain.

Abbreviation Env := (string → option string).

(** ** Resolve *)

Section resolve.
Context `{GoRuntime}.
(** [ssh.Signer], and why a private key cannot be parsed. *)
Context {Signer : Type}.
Inductive key_error := PassphraseMissing | OtherKeyError.
Record key_env := mkKeyEnv {
  home : option string;                                       (* os.UserHomeDir *)
  read_key : string → res string string;                      (* os.ReadFile, the wrapped error *)
  ParsePrivateKey : string → res key_error Signer;
  ParsePrivateKeyWithPassphrase : string → string → res key_error Signer;
}.

Inductive AuthMethod :=
| Password (pw : string)
| KeyboardInteractive (pw : string)      (* answers every question with [pw] *)
| PublicKeys (signer : Signer).

Record Auth := mkAuth {
  auMethods : list AuthMethod;
  auSudoPassword : string;
  auSecrets : list string;
}.

Definition ExpandHome (k : key_env) (p : string) : string :=
  match strip_prefix "~/" p, home k with
  | Some rest, Some h => path_join h rest
  | _, _ => p
  end.

Definition auth_failed {A} (c : Credential) (msg : string) : res Failure A :=
  Err (Fail CatAuthFailed ("credential " +:+ quote (cName c) +:+ ": " +:+ msg)).
Definition not_set {A} (c : Credential) (var : string) : res Failure A :=
  auth_failed c ("environment variable " +:+ var +:+ " is not set").

(** A variable that has to be set to something. *)
Definition env_secret (c : Credential) (env : Env) (var : string) : res Failure string :=
  match env var with
  | Some pw => if bool_decide (pw = "") then not_set c var else Ok pw
  | None => not_set c var
  end.

(** The signer and the secrets that were read for it. *)
Definition loadKey (k : key_env) (c : Credential) (env : Env)
    : res Failure (Signer * list string) :=
  let path := ExpandHome k (cKeyFile c) in
  match read_key k path with
  | Err e => auth_failed c ("cannot read key file " +:+ path +:+ ": " +:+ e)
  | Ok data =>
      if negb (bool_decide (cPassphraseEnv c = "")) then
        match env (cPassphraseEnv c) with
        | None => not_set c (cPassphraseEnv c)
        | Some pass =>
            match ParsePrivateKeyWithPassphrase k data pass with
            | Err _ => auth_failed c "cannot decrypt private key"
            | Ok s => Ok (s, [pass])
            end
        end
      else match ParsePrivateKey k data with
      | Err PassphraseMissing =>
          auth_failed c "key is encrypted but passphrase_env is not set"
      | Err OtherKeyError => auth_failed c "cannot parse private key"
      | Ok s => Ok (s, [])
      end
  end.

Definition resolve_methods (k : key_env) (c : Credential) (env : Env) : res Failure Auth :=
  if bool_decide (cType c = "password") then
    let? pw := env_secret c env (cPasswordEnv c) in
    Ok (mkAuth [Password pw; KeyboardInteractive pw] pw [pw])
  else if bool_decide (cType c = "private_key") then
    let? r := loadKey k c env in
    Ok (mkAuth [PublicKeys (fst r)] "" (snd r))
  else auth_failed c ("unsupported type " +:+ quote (cType c)).

Definition Resolve (k : key_env) (c : Credential) (env : Env) : res Failure Auth :=
  let? a := resolve_methods k c env in
  if negb (bool_decide (cSudoPasswordEnv c = "")) then
    let? pw := env_secret c env (cSudoPasswordEnv c) in
    Ok (mkAuth (auMethods a) pw (auSecrets a ++ [pw]))
  else Ok a.

(** ** Properties of Resolve *)

(** The secrets an authentication method carries. *)
Definition method_secrets (m : AuthMethod) : list string :=
  match m with Password pw | KeyboardInteractive pw => [pw] | PublicKeys _ => [] end.

Lemma env_secret_Ok c env var pw : env_secret c env var = Ok pw ↔ env var = Some pw ∧ pw ≠ "".
Proof.
  unfold env_secret, not_set, auth_failed. destruct (env var); [case_bool_decide|]; naive_solver.
Qed.

Lemma env_secret_Err c env var f : env_secret c env var = Err f → fCategory f = CatAuthFailed.
Proof.
  unfold env_secret, not_set, auth_failed. case_all; by intros [= <-].
Qed.

(** Every password [Resolve] returns, for the connection or for sudo, is
    among the secrets given to the redactor; sudo's password comes from its own
    variable if there is one, else from the login password, and a failure is
    always an authentication failure. *)
Theorem Resolve_secrets (k : key_env) (c : Credential) (env : Env) :
  match Resolve k c env with
  | Ok a =>
      (∀ m s, m ∈ auMethods a → s ∈ method_secrets m → s ∈ auSecrets a) ∧
      (auSudoPassword a ≠ "" → auSudoPassword a ∈ auSecrets a) ∧
      (cPassphraseEnv c ≠ "" → cType c = "private_key" →
        ∃ pass, env (cPassphraseEnv c) = Some pass ∧ pass ∈ auSecrets a) ∧
      Some (auSudoPassword a) =
        (if decide (cSudoPasswordEnv c = "") then
           if decide (cType c = "password") then env (cPasswordEnv c) else Some ""
         else env (cSudoPasswordEnv c))
  | Err f => fCategory f = CatAuthFailed
  end.
Proof.
  assert (match resolve_methods k c env with
    | Ok a =>
        (∀ m s, m ∈ auMethods a → s ∈ method_secrets m → s ∈ auSecrets a) ∧
        (auSudoPassword a ≠ "" → auSudoPassword a ∈ auSecrets a) ∧
        (cPassphraseEnv c ≠ "" → cType c = "private_key" →
          ∃ pass, env (cPassphraseEnv c) = Some pass ∧ pass ∈ auSecrets a) ∧
        Some (auSudoPassword a) =
          (if decide (cType c = "password") then env (cPasswordEnv c) else Some "")
    | Err f => fCategory f = CatAuthFailed
    end) as Hm.
  { unfold resolve_methods. case_bool_decide as Hp; [|case_bool_decide as Hk]; [| |done].
    - destruct (env_secret _ _ _) as [pw|f] eqn:E; [|by eapply env_secret_Err].
      apply env_secret_Ok in E as [E Hne]. simpl. rewrite decide_True by done.
      split_and!; [|set_solver|intros _ Hx; by rewrite Hp in Hx|done].
      by intros m s [->|[->|[]%elem_of_nil]%elem_of_cons]%elem_of_cons.
    - unfold loadKey, not_set, auth_failed. rewrite decide_False by done.
      destruct (read_key _ _); [|done].
      case_bool_decide as Hpe; simpl; repeat case_match; simplify_eq/=; try done;
        split_and!; try done; try (by intros m s' ->%list_elem_of_singleton []%elem_of_nil);
        by intros _ _; eexists; split; [|apply list_elem_of_here]. }
  unfold Resolve. destruct (resolve_methods k c env) as [a|f]; [|done]. simpl.
  destruct Hm as (H1 & H2 & H3 & H4). case_bool_decide as Hs; simpl.
  - by rewrite decide_True.
  - destruct (env_secret _ _ _) as [pw|f] eqn:E; [|by eapply env_secret_Err].
    apply env_secret_Ok in E as [E Hne]. simpl. rewrite decide_False by done.
    split_and!; [set_solver|set_solver| |done]. intros Hx Hy.
    destruct (H3 Hx Hy) as (pass & ? & ?). exists pass. set_solver.
Qed.
End resolve.

(** ** Redactor *)

Definition MinSecretLen : nat := 3.
Definition Redacted : string := "[REDACTED]".

Module Redactor.
Section redactor.
Context `{GoRuntime}.

(** The state: the registered secrets.  The two methods hold the lock for their
    whole body, so calls are atomic. *)
Abbreviation t := (list string).

Definition register (r : t) (s : string) : t :=
  if bool_decide (MinSecretLen ≤ String.length s) && negb (bool_decide (s ∈ r))
  then r ++ [s] else r.
Definition longer (a b : string) : bool := (String.length b <? String.length a)%nat.

Definition Add (r : t) (secrets : list string) : t :=
  sort_slice longer (foldl register r secrets).

(** [Redactor.String] *)
Definition redact (r : t) (s : string) : string :=
  foldl (λ s sec, replace_all s sec Redacted) s r.

(** What every redactor satisfies: no short or repeated secret, longest first. *)
Record inv (r : t) : Prop := {
  inv_length : Forall (λ s, MinSecretLen ≤ String.length s) r;
  inv_unique : NoDup r;
  inv_sorted : StronglySorted (λ a b, String.length b ≤ String.length a) r;
}.

Lemma inv_empty : inv [].
Proof. repeat constructor. Qed.

Lemma register_spec r s x :
  x ∈ register r s ↔ x ∈ r ∨ x = s ∧ MinSecretLen ≤ String.length s.
Proof.
  unfold register. repeat case_bool_decide; simpl; set_solver.
Qed.

Lemma register_all r secrets :
  Forall (λ s, MinSecretLen ≤ String.length s) r → NoDup r →
  Forall (λ s, MinSecretLen ≤ String.length s) (foldl register r secrets) ∧
  NoDup (foldl register r secrets) ∧
  ∀ x, x ∈ foldl register r secrets ↔
    x ∈ r ∨ x ∈ secrets ∧ MinSecretLen ≤ String.length x.
Proof.
  revert r. induction secrets as [|s secrets IH]; intros r Hl Hn; simpl.
  { split_and!; [done..|set_solver]. }
  destruct (IH (register r s)) as (H1 & H2 & H3).
  - rewrite Forall_forall in *. intros x. rewrite register_spec. naive_solver.
  - unfold register. repeat case_bool_decide; simpl; try done.
    apply NoDup_app. split_and!; [done|set_solver|apply NoDup_singleton].
  - split_and!; [done..|]. intros x. rewrite H3, register_spec. set_solver.
Qed.

Lemma Add_inv (r : t) (secrets : list string) :
  inv r →
  inv (Add r secrets) ∧
  ∀ x, x ∈ Add r secrets ↔ x ∈ r ∨ x ∈ secrets ∧ MinSecretLen ≤ String.length x.
Proof.
  intros [Hl Hn _]. destruct (register_all r secrets Hl Hn) as (H1 & H2 & H3).
  unfold Add. split; [split|].
  - by rewrite sort_slice_perm.
  - by rewrite sort_slice_perm.
  - eapply StronglySorted_impl; [|apply sort_slice_sorted]; unfold longer; intros x y;
      [rewrite Nat.ltb_ge; lia|rewrite Nat.ltb_lt, Nat.ltb_ge; lia|].
    intros z. rewrite !Nat.ltb_ge. lia.
  - intros x. by rewrite sort_slice_perm.
Qed.

(** [Add] keeps the invariant and registers exactly the secrets of
    at least [MinSecretLen] bytes. *)
Theorem Add_spec (r : t) (secrets : list string) :
  inv r →
  inv (Add r secrets) ∧
  ∀ x, x ∈ Add r secrets ↔ x ∈ r ∨ x ∈ secrets ∧ MinSecretLen ≤ String.length x.
Proof. apply Add_inv. Qed.
End redactor.

(** ** What replacing leaves *)

Lemma replace_skip old new p s :
  replace_go old new (String.length p) (p +:+ s) = replace_all s old new.
Proof. induction p as [|c p IH]; [done|]. by rewrite str_app_cons. Qed.

Lemma replace_cons old new c s :
  old ≠ "" →
  replace_all (String c s) old new =
  match strip_prefix old (String c s) with
  | Some rest => new +:+ replace_all rest old new
  | None => String c (replace_all s old new)
  end.
Proof.
  intros Hne. unfold replace_all at 1. cbn [replace_go]. unfold has_prefix.
  destruct (strip_prefix old (String c s)) as [rest|] eqn:E; [|done].
  apply strip_prefix_Some in E. destruct old as [|c' old]; [done|].
  rewrite str_app_cons in E. simplify_eq. f_equal.
  replace (String.length (String c' old) - 1) with (String.length old) by (simpl; lia).
  apply replace_skip.
Qed.

(** [s] as pieces between the replaced occurrences. *)
Lemma replace_pieces old new s :
  old ≠ "" →
  ∃ pieces, replace_all s old new = str_join new pieces ∧ s = str_join old pieces ∧
    pieces ≠ [] ∧ Forall (λ p, ¬ occurs old p) pieces.
Proof.
  intros Hne. remember (String.length s) as n eqn:Hn. assert (String.length s ≤ n) as Hle by lia.
  clear Hn. revert s Hle. induction n as [|n IH]; intros s Hle.
  - destruct s; [|simpl in *; lia]. exists [""]. split_and!; [done..|].
    apply Forall_singleton. intros (a & b & Hab%symmetry%str_app_eq_nil).
    destruct Hab as [_ [? _]%str_app_eq_nil]. done.
  - destruct s as [|c s].
    { apply (IH ""). simpl. lia. }
    rewrite replace_cons by done. simpl in Hle.
    destruct (strip_prefix old (String c s)) as [rest|] eqn:E.
    + apply strip_prefix_Some in E. rewrite E.
      destruct (IH rest) as (ps & -> & -> & Hps & Hall).
      { apply (f_equal String.length) in E. rewrite str_length_app in E. simpl in E.
        destruct old; [done|]. simpl in E. lia. }
      exists ("" :: ps). split_and!; [by destruct ps|by destruct ps|done|].
      constructor; [|done]. intros (a & b & Hab%symmetry%str_app_eq_nil).
      destruct Hab as [_ [? _]%str_app_eq_nil]. done.
    + destruct (IH s) as (ps & -> & Hs & Hps & Hall); [lia|].
      destruct ps as [|p ps]; [done|]. exists (String c p :: ps).
      split_and!; [by destruct ps|destruct ps; simpl in *; by rewrite Hs, ?str_app_cons|done|].
      apply Forall_cons in Hall as [Hp Hall]. constructor; [|done].
      intros (a & b & Hab). destruct a as [|c' a].
      * rewrite str_app_nil_l in Hab. rewrite strip_prefix_None in E.
        destruct ps as [|q ps]; simpl in Hs; subst s.
        { by eapply (E b). }
        apply (E (b +:+ old +:+ str_join old (q :: ps))).
        by rewrite <- (str_app_assoc old), <- Hab.
      * rewrite str_app_cons in Hab. simplify_eq. apply Hp. by exists a, b.
Qed.

(** A text without the character [b] occurs on one side of [b]. *)
Definition no_char (b : ascii) (s : string) : Prop := str_forallb (λ c, negb (bool_decide (c = b))) s = true.

Lemma no_char_cons b c s : no_char b (String c s) ↔ c ≠ b ∧ no_char b s.
Proof. unfold no_char. simpl. rewrite andb_true_iff, negb_true_iff, bool_decide_eq_false. done. Qed.

Lemma occurs_split b sub s1 s2 :
  no_char b sub → occurs sub (s1 +:+ String b s2) → occurs sub s1 ∨ occurs sub s2.
Proof.
  intros Hb (x & y & E). revert s1 E. induction x as [|c x IH]; intros s1 E.
  - rewrite str_app_nil_l in E.
    enough (∃ r, s1 = sub +:+ r) as [r ->] by (left; by exists "", r).
    revert s1 Hb E. induction sub as [|c sub IH]; intros s1 Hb E; [by exists s1|].
    apply no_char_cons in Hb as [Hc Hb]. destruct s1 as [|c1 s1].
    + rewrite str_app_nil_l, str_app_cons in E. by simplify_eq.
    + rewrite !str_app_cons in E. injection E as -> E.
      destruct (IH s1 Hb E) as [r ->]. by exists r.
  - destruct s1 as [|c1 s1].
    + rewrite str_app_nil_l, str_app_cons in E. injection E as _ ->. right. by exists x, y.
    + rewrite !str_app_cons in E. injection E as <- E.
      destruct (IH s1 E); [left; by apply occurs_cons|by right].
Qed.

(** What a secret has to be for its replacement not to contain it. *)
Definition plain_secret (s : string) : Prop :=
  no_char "[" s ∧ no_char "]" s ∧ ¬ occurs s "REDACTED".

Lemma occurs_join sub pieces :
  plain_secret sub → occurs sub (str_join Redacted pieces) →
  sub = "" ∨ Exists (occurs sub) pieces.
Proof.
  intros (H1 & H2 & H3). induction pieces as [|p pieces IH]; simpl.
  { intros (a & b & E%symmetry%str_app_eq_nil). destruct E as [_ [? _]%str_app_eq_nil]. by left. }
  destruct pieces as [|q pieces]; [by right; left|].
  change (Redacted +:+ ?x) with (String "[" ("REDACTED" +:+ String "]" x)).
  intros [Ho|Ho]%occurs_split; [by right; left| |done].
  apply occurs_split in Ho as [Ho|Ho]; [done| |done].
  destruct (IH Ho); [by left|right; by right].
Qed.

Lemma replace_keeps_out sub old s :
  sub ≠ "" → plain_secret sub → old ≠ "" →
  ¬ occurs sub s ∨ sub = old → ¬ occurs sub (replace_all s old Redacted).
Proof.
  intros Hne Hp Hold Hs Ho. destruct (replace_pieces old Redacted s Hold) as (ps & Hr & E & _ & Hall).
  rewrite Hr in Ho. apply occurs_join in Ho as [?|Ho]; [done| |done].
  apply Exists_exists in Ho as (p & Hin & Ho).
  destruct Hs as [Hs| ->]; [|rewrite Forall_forall in Hall; by apply (Hall p)].
  apply Hs. rewrite E. clear - Hin Ho. induction ps as [|q ps IH]; [set_solver|].
  destruct ps as [|q' ps]; simpl.
  - by apply list_elem_of_singleton in Hin as ->.
  - apply elem_of_cons in Hin as [->|Hin]; [by apply occurs_app_l|].
    apply occurs_app_r, occurs_app_r. by apply IH.
Qed.

Lemma redact_keeps_out sub r s :
  sub ≠ "" → plain_secret sub → Forall (.≠ "") r →
  ¬ occurs sub s ∨ sub ∈ r → ¬ occurs sub (redact r s).
Proof.
  intros Hne Hp Hr. unfold redact. revert s. induction Hr as [|old r Hold _ IH]; intros s Hs; simpl.
  - set_solver.
  - apply IH. destruct (decide (sub = old)) as [->|Hd].
    + left. apply replace_keeps_out; auto.
    + destruct Hs as [Hs|[?|Hs]%elem_of_cons]; [|done|by right].
      left. apply replace_keeps_out; auto.
Qed.

Lemma redact_out (r : list string) (s sec : string) :
  inv r → sec ∈ r → plain_secret sec → ¬ occurs sec (redact r s).
Proof.
  intros [Hl _ _] Hin Hp. rewrite Forall_forall in Hl.
  assert (∀ x, x ∈ r → x ≠ "") as Hne.
  { intros x Hx ->. specialize (Hl _ Hx). unfold MinSecretLen in Hl. simpl in Hl. lia. }
  apply redact_keeps_out; [by apply Hne|done|by apply Forall_forall|by right].
Qed.

(** C16: no text that passes through the redactor contains a registered
    secret, whatever the text is, provided the secret cannot be mistaken for
    part of the marker: it has no square bracket and is no part of the word
    REDACTED. *)
Theorem redact_no_secret (r : list string) (s sec : string) :
  inv r → sec ∈ r → plain_secret sec → ¬ occurs sec (redact r s).
Proof. apply redact_out. Qed.

Lemma replace_absent s old new : old ≠ "" → ¬ occurs old s → replace_all s old new = s.
Proof.
  intros Hne Ho. destruct (replace_pieces old new s Hne) as (ps & -> & -> & Hps & _).
  destruct ps as [|p [|q ps]]; [done|done|]. exfalso. apply Ho. simpl.
  apply occurs_app_r, occurs_app_l, occurs_refl.
Qed.

(** A text that contains no registered secret is not changed. *)
Theorem redact_unchanged (r : list string) (s : string) :
  inv r → (∀ sec, sec ∈ r → ¬ occurs sec s) → redact r s = s.
Proof.
  intros [Hl _ _]. unfold redact. induction Hl as [|sec r Hs _ IH]; intros Ho; simpl; [done|].
  rewrite replace_absent; [apply IH; set_solver| |apply Ho; set_solver].
  intros ->. unfold MinSecretLen in Hs. simpl in Hs. lia.
Qed.

(** The condition on secrets is needed. *)
Example redact_marker : redact ["RED"] "a RED b" = "a [REDACTED] b".
Proof. done. Qed.
Example redact_bracket : redact ["x[RE"; "abc"] "xabc" = "x[REDACTED]".
Proof. done. Qed.

(** Short secrets are not registered. *)
Example redact_short : redact (@Add default_runtime [] ["pw"]) "login pw" = "login pw".
Proof. done. Qed.

Definition example_redactor : list string := @Add default_runtime [] ["hunter2"; "hunter22"; "ab"].

Lemma example_redactor_inv : inv example_redactor.
Proof. apply (@Add_inv default_runtime). apply inv_empty. Qed.

Lemma Add_spec_witness : inv example_redactor ∧ "ab" ∉ example_redactor ∧ "hunter2" ∈ example_redactor.
Proof.
  destruct (@Add_spec default_runtime [] ["hunter2"; "hunter22"; "ab"] inv_empty) as [H1 H2].
  split; [exact H1|]. split.
  - intros [?|[_ Hl]]%H2; [set_solver|]. unfold MinSecretLen in Hl. simpl in Hl. lia.
  - apply H2. right. split; [set_solver|]. unfold MinSecretLen. simpl. lia.
Defined.

Lemma redact_no_secret_witness :
  redact example_redactor "pw=hunter22." = "pw=[REDACTED]." ∧
  ¬ occurs "hunter2" (redact example_redactor "pw=hunter22.").
Proof.
  split; [by vm_compute|].
  apply redact_no_secret; [apply example_redactor_inv|by vm_compute; set_solver|].
  split_and!; [done|done|]. by intros H%str_contains_spec.
Defined.

Lemma redact_unchanged_witness : redact example_redactor "nothing here" = "nothing here".
Proof.
  apply redact_unchanged; [apply example_redactor_inv|].
  intros sec Hs. vm_compute in Hs.
  apply elem_of_cons in Hs as [->|[->|[]%elem_of_nil]%elem_of_cons]; by intros H%str_contains_spec.
Defined.
End Redactor.
