(* ===== verification/Classify.v ===== *)
(** * Classify: error classification ([internal/sshx/classify.go])

    [ClassifyDial] and [ClassifyHandshake] turn an error chain into a failure.
    Which category they choose decides whether the runner tries again. *)

From S2P Require Import Prelude GoStd Domain.

(** ** Views of an error chain *)

Definition is_canceled (k : error_kind) : bool :=
  match k with KCanceled => true | _ => false end.
Definition is_deadline (k : error_kind) : bool :=
  match k with KDeadlineExceeded => true | _ => false end.
Definition is_eof (k : error_kind) : bool := match k with KEOF => true | _ => false end.
Definition is_refused (k : error_kind) : bool :=
  match k with KErrno ECONNREFUSED => true | _ => false end.
Definition is_unreachable (k : error_kind) : bool :=
  match k with KErrno EHOSTUNREACH | KErrno ENETUNREACH => true | _ => false end.
(** [*net.DNSError]: name, text and [IsTimeout]. *)
Definition as_dns (k : error_kind) : option (string * string * bool) :=
  match k with KDNSError n e t => Some (n, e, t) | _ => None end.
(** [net.Error], as its [Timeout]: [syscall.Errno], DNS errors and the deadline
    error of [context] implement it too. *)
Definition as_net (k : error_kind) : option bool :=
  match k with
  | KNetError t => Some t
  | KDNSError _ _ t => Some t
  | KErrno (OtherErrno t) => Some t
  | KErrno _ => Some false
  | KDeadlineExceeded => Some true
  | _ => None
  end.
Definition as_key_error (k : error_kind) : option (list string) :=
  match k with KKeyError want => Some want | _ => None end.

(** ** The classifiers *)

Definition ClassifyDial (err : error) (addr : string) : Failure :=
  if err_is is_canceled err then Fail CatCancelled ("cancelled while connecting to " +:+ addr)
  else match err_as as_dns err with
  | Some (name, _, true) => Fail CatConnectionTimeout ("DNS lookup timeout for " +:+ name)
  | Some (name, e, false) =>
      Fail CatDNSFailure ("DNS lookup failed for " +:+ name +:+ ": " +:+ e)
  | None =>
      if err_is is_refused err then
        Fail CatConnectionRefused ("connection refused by " +:+ addr)
      else if err_is is_deadline err || default false (err_as as_net err) then
        Fail CatConnectionTimeout ("connection to " +:+ addr +:+ " timed out")
      else if err_is is_unreachable err then
        Fail CatConnectionTimeout
          ("network unreachable for " +:+ addr +:+ ": " +:+ err_text err)
      else if str_contains (err_text err) "connect failed" then
        Fail CatConnectionRefused
          ("bastion could not reach " +:+ addr +:+ ": " +:+ err_text err)
      else
        Fail CatConnectionTimeout
          ("connection to " +:+ addr +:+ " failed: " +:+ err_text err)
  end.

Definition ClassifyHandshake (err : error) (addr : string) (timedOut : bool) : Failure :=
  match err_as as_failure err with
  | Some f => f
  | None =>
  match err_as as_key_error err with
  | Some (_ :: _) =>
      Fail CatHostKeyMismatch ("host key for " +:+ addr +:+
        " does not match known_hosts (possible man-in-the-middle)")
  | Some [] =>
      let '(host, port) := default ("", "") (split_host_port addr) in
      Fail CatHostKeyUnknown ("host key for " +:+ addr +:+
        " is not in known_hosts (verify the fingerprint, then: ssh-keyscan -p " +:+ port +:+
        " " +:+ host +:+ " >> ~/.ssh/known_hosts, or run with --accept-new-host-keys)")
  | None =>
      if str_contains (err_text err) "unable to authenticate" ||
         str_contains (err_text err) "no supported methods remain" then
        Fail CatAuthFailed ("authentication failed for " +:+ addr)
      else if timedOut then
        Fail CatHandshakeFailed ("SSH handshake with " +:+ addr +:+ " timed out")
      else if err_is is_canceled err then
        Fail CatCancelled ("cancelled during SSH handshake with " +:+ addr)
      else if err_is is_eof err then
        Fail CatHandshakeFailed ("connection closed during SSH handshake with " +:+ addr)
      else
        Fail CatHandshakeFailed
          ("SSH handshake with " +:+ addr +:+ " failed: " +:+ err_text err)
  end end.

(** ** Properties *)

Lemma err_is_true (test : error_kind → bool) e :
  err_is test e = true ↔ ∃ k, k ∈ err_chain e ∧ test k = true.
Proof.
  unfold err_is. rewrite existsb_exists. setoid_rewrite <- list_elem_of_In. done.
Qed.

(** A failed connection is tried again unless the run was
    cancelled or the name does not resolve (a lookup that timed out may succeed
    later); no other category of the program comes out of a dial. *)
Theorem ClassifyDial_retryable (err : error) (addr : string) :
  fCategory (ClassifyDial err addr) ∈
    [CatCancelled; CatDNSFailure; CatConnectionTimeout; CatConnectionRefused] ∧
  (Retryable (fCategory (ClassifyDial err addr)) = false ↔
   (∃ k, k ∈ err_chain err ∧ is_canceled k = true) ∨
   (∃ name e, err_as as_dns err = Some (name, e, false))).
Proof.
  rewrite <- err_is_true. unfold ClassifyDial.
  destruct (err_is is_canceled err); [simpl; split; [set_solver|naive_solver]|].
  destruct (err_as as_dns err) as [[[name e] []]|]; simpl.
  - split; [set_solver|naive_solver].
  - split; [set_solver|naive_solver].
  - repeat (case_match; simpl; try (split; [set_solver|naive_solver])).
Qed.

(** Whether a link of the chain carries a wanted or missing host key. *)
Definition key_error (e : error) : Prop := ∃ k, k ∈ err_chain e ∧ is_Some (as_key_error k).
Definition auth_error (e : error) : Prop :=
  occurs "unable to authenticate" (err_text e) ∨ occurs "no supported methods remain" (err_text e).

Lemma err_as_None {B} (view : error_kind → option B) e :
  err_as view e = None ↔ ∀ k, k ∈ err_chain e → view k = None.
Proof. unfold err_as. by rewrite first_some_None, Forall_forall. Qed.
Lemma err_as_Some {B} (view : error_kind → option B) e y :
  err_as view e = Some y → ∃ k, k ∈ err_chain e ∧ view k = Some y.
Proof.
  intros (l1 & k & l2 & E & Hk & _)%first_some_Some. exists k. split; [|done].
  rewrite E. set_solver.
Qed.

(** A handshake error that does not already carry a
    failure is tried again exactly when it is neither about the host key nor
    about authentication, nor a cancellation (a handshake that was cut by its
    timeout is tried again even then): a changed key or a wrong password never
    leads to another attempt. *)
Theorem ClassifyHandshake_retryable (err : error) (addr : string) (timedOut : bool) :
  err_as as_failure err = None →
  (Retryable (fCategory (ClassifyHandshake err addr timedOut)) = true ↔
   ¬ key_error err ∧ ¬ auth_error err ∧
   (timedOut = true ∨ ¬ ∃ k, k ∈ err_chain err ∧ is_canceled k = true)).
Proof.
  intros Hf. rewrite <- err_is_true. unfold ClassifyHandshake. rewrite Hf.
  assert (key_error err ↔ err_as as_key_error err ≠ None) as ->.
  { unfold key_error. rewrite err_as_None. split.
    - intros (k & Hk & Hs) Hall. rewrite (Hall k Hk) in Hs. by destruct Hs.
    - intros Hn. destruct (err_as as_key_error err) as [want|] eqn:E.
      + apply err_as_Some in E as (k & Hk & E). exists k. eauto.
      + exfalso. apply Hn. by apply err_as_None. }
  assert (auth_error err ↔ (str_contains (err_text err) "unable to authenticate" ||
    str_contains (err_text err) "no supported methods remain") = true) as ->.
  { unfold auth_error. by rewrite orb_true_iff, !str_contains_spec. }
  destruct (err_as as_key_error err) as [[|w ws]|]; simpl.
  - destruct (default ("", "") (split_host_port addr)) as [host port]. simpl. naive_solver.
  - naive_solver.
  - destruct (_ || _); simpl; [naive_solver|].
    destruct timedOut; simpl; [naive_solver|].
    destruct (err_is is_canceled err); simpl; [naive_solver|].
    destruct (err_is is_eof err); simpl; naive_solver.
Qed.

Lemma ClassifyHandshake_retryable_witness :
  let err := MkError KPlain "ssh: handshake failed: EOF" (Some (MkError KEOF "EOF" None)) in
  Retryable (fCategory (ClassifyHandshake err "h:22" false)) = true.
Proof.
  intros err. apply ClassifyHandshake_retryable; [done|]. split_and!.
  - intros (k & Hk & Hs). simpl in Hk.
    apply elem_of_cons in Hk as [->|[->|[]%elem_of_nil]%elem_of_cons]; by destruct Hs.
  - intros [H|H]; apply str_contains_spec in H; by vm_compute in H.
  - right. intros (k & Hk & Hs). simpl in Hk.
    by apply elem_of_cons in Hk as [->|[->|[]%elem_of_nil]%elem_of_cons].
Defined.
