(* ===== verification/Exec.v ===== *)
(** * Exec: one remote command ([internal/sshx/exec.go])

    [Exec] runs two races against its timer and the context: opening the
    session and starting the command, then waiting for it to end.  An
    [exec_run] says what the remote side and the clock do: the outcome of each
    race, what [NewSession], [Start] and [Wait] return and the chunks written to
    the two streams.  [Exec] computes the result, the failure and what happens to
    the session and the connection, for every such run.

    [keepalive] is the loop of the goroutine of [KeepAlive]. *)

From S2P Require Import Prelude GoStd Domain Buffer.

Record Request := mkRequest {
  rqCommand : string;
  rqStdin : string;
  rqTimeout : Z;
  rqMaxOutput : nat;
  rqPatterns : list string;
}.

Record Result := mkResult {
  rStdout : string;
  rStderr : string;
  rExitCode : option Z;
  rTruncated : bool;
  rBytes : Z;
  rStarted : bool;
  rBuffers : option (Buf.Buffer * Buf.Buffer);   (* stdout, stderr; nil in the zero value *)
}.
Definition emptyResult : Result := mkResult "" "" None false 0 false None.

(** [Result.Found]; [None] is an index out of range. *)
Definition Found (r : Result) (i : nat) : option bool :=
  match rBuffers r with
  | None => Some false
  | Some (out, err) =>
      match Buf.Found out i with
      | Some true => Some true
      | Some false => Buf.Found err i
      | None => None
      end
  end.

(** What a [select] with the timer and the context chooses. *)
Inductive race := Ready | TimerFired | CtxDone.

Record exec_run := mkRun {
  xrSession : option string;         (* the error of NewSession *)
  xrStart : option string;           (* the error of Start *)
  xrOpen : race;
  xrStdout : list string;            (* the writes of the two streams *)
  xrStderr : list string;
  xrWait : race;
  xrWaitErr : option error;
}.

(** What [Exec] did to the session and to the connection. *)
Record exec_trace := mkExecTrace {
  xtOpened : bool; xtSessionClosed : bool; xtKilled : bool; xtConnClosed : bool;
}.

Definition timeout_failure (t : Z) : Failure :=
  Fail CatCommandTimeout ("command did not finish within " +:+ duration_string t).
Definition cancelled_failure : Failure := Fail CatCancelled "cancelled".

(** The failure that a lost race leaves. *)
Definition race_failure (t : Z) (r : race) : option Failure :=
  match r with
  | Ready => None
  | TimerFired => Some (timeout_failure t)
  | CtxDone => Some cancelled_failure
  end.

(** The goroutine that opens the session: a failure, or the session. *)
Definition open_session (x : exec_run) : option Failure :=
  match xrSession x with
  | Some e => Some (Fail CatSessionFailed ("cannot open session: " +:+ e))
  | None =>
      match xrStart x with
      | Some e => Some (Fail CatSessionFailed ("cannot start command: " +:+ e))
      | None => None
      end
  end.

Definition as_exit (k : error_kind) : option Z :=
  match k with KExitError s => Some s | _ => None end.
Definition as_exit_missing (k : error_kind) : option unit :=
  match k with KExitMissingError => Some tt | _ => None end.

(** The exit code, from the error of [Wait]. *)
Definition exit_status (err : option error) : res Failure (option Z) :=
  match err with
  | None => Ok (Some 0%Z)
  | Some e =>
      match err_as as_exit e with
      | Some code => Ok (Some code)
      | None =>
          match err_as as_exit_missing e with
          | Some _ => Ok None
          | None => Err (Fail CatSessionFailed ("session failed: " +:+ err_text e))
          end
      end
  end.

Definition stream (lim : nat) (patterns chunks : list string) : Buf.Buffer :=
  Buf.writes (Buf.NewBuffer lim (map bytes_of patterns)) (map bytes_of chunks).

(** The result without the exit code. *)
Definition collect (req : Request) (x : exec_run) : Result :=
  let out := stream (rqMaxOutput req) (rqPatterns req) (xrStdout x) in
  let err := stream (rqMaxOutput req) (rqPatterns req) (xrStderr x) in
  {| rStdout := trim_right_newlines (string_of (Buf.Output out));
     rStderr := trim_right_newlines (string_of (Buf.Output err));
     rExitCode := None;
     rTruncated := Buf.Truncated out || Buf.Truncated err;
     rBytes := Buf.Total out + Buf.Total err;
     rStarted := true;
     rBuffers := Some (out, err) |}.
Definition with_exit (r : Result) (code : option Z) : Result :=
  mkResult (rStdout r) (rStderr r) code (rTruncated r) (rBytes r) (rStarted r) (rBuffers r).

Definition Exec (req : Request) (x : exec_run) : Result * option Failure * exec_trace :=
  let opened := bool_decide (open_session x = None) in
  (* a session whose command does not start is closed by the goroutine *)
  let half := bool_decide (xrSession x = None) in
  match race_failure (rqTimeout req) (xrOpen x) with
  | Some f => (emptyResult, Some f, mkExecTrace half half false true)
  | None =>
      match open_session x with
      | Some f => (emptyResult, Some f, mkExecTrace half half false false)
      | None =>
          let res := collect req x in
          match race_failure (rqTimeout req) (xrWait x) with
          | Some f => (res, Some f, mkExecTrace true true true false)
          | None =>
              match exit_status (xrWaitErr x) with
              | Ok code => (with_exit res code, None, mkExecTrace true true false false)
              | Err f => (res, Some f, mkExecTrace true true false false)
              end
          end
      end
  end.

(** ** Alive and KeepAlive *)

(** What a keepalive request meets: an answer (any reply proves that the peer
    is there), an error, or silence until the timeout. *)
Inductive probe := Answer | ProbeError | NoAnswer.
Definition Alive (p : probe) : bool := match p with Answer => true | _ => false end.

(** The events of [KeepAlive]'s loop. *)
Inductive tick := Quit | Tick (p : probe).

(** The loop: whether it closes the connection, and how many ticks it consumed. *)
Fixpoint keepalive (misses failed : nat) (ticks : list tick) : bool * nat :=
  match ticks with
  | [] => (false, 0)
  | Quit :: _ => (false, 1)
  | Tick p :: ticks =>
      if Alive p then let '(c, n) := keepalive misses 0 ticks in (c, S n)
      else
        let failed := S failed in
        if bool_decide (misses ≤ failed) then (true, 1)
        else let '(c, n) := keepalive misses failed ticks in (c, S n)
  end.
Definition KeepAlive (misses : nat) (ticks : list tick) : bool :=
  fst (keepalive misses 0 ticks).

(** ** Properties *)

(** What a caller of [Exec] can rely on, whatever happens remotely.  An
    error is a timeout, a cancellation or a broken session; without an error the
    command has started and its status is the one of [Wait], or missing when the
    remote side sent none.  Every session that was opened is closed, and the
    connection is closed only when opening the session did not finish. *)
Theorem Exec_outcome (req : Request) (x : exec_run) :
  let '(res, err, tr) := Exec req x in
  match err with
  | Some f =>
      fCategory f ∈ [CatCommandTimeout; CatCancelled; CatSessionFailed] ∧ rExitCode res = None
  | None =>
      rStarted res = true ∧ xrOpen x = Ready ∧ xrWait x = Ready ∧
      exit_status (xrWaitErr x) = Ok (rExitCode res)
  end ∧
  (rStarted res = true → open_session x = None ∧ xrOpen x = Ready) ∧
  (rStarted res = false → res = emptyResult) ∧
  xtSessionClosed tr = xtOpened tr ∧
  (xtConnClosed tr = true ↔ xrOpen x ≠ Ready).
Proof.
  unfold Exec. destruct (xrOpen x) eqn:Eo; simpl; try (split_and!; [set_solver|done..]).
  destruct (open_session x) as [f|] eqn:Es; simpl.
  { split_and!; try done. unfold open_session in Es. case_all; set_solver. }
  destruct (xrWait x) eqn:Ew; simpl; try (split_and!; [set_solver|done..]).
  destruct (exit_status (xrWaitErr x)) as [code|f] eqn:Ee; simpl; [by split_and!|].
  split_and!; try done. unfold exit_status in Ee. case_all; set_solver.
Qed.

(** The whole of a stream. *)
Definition full (chunks : list string) : list ascii := concat (map bytes_of chunks).

(** C33: when the command has started, [Found i] is whether the
    pattern occurs anywhere in one of the two full streams, however they were
    cut into writes and however little of them was kept; the kept text is what
    [shown] says, without its trailing newlines, and [Bytes] counts every byte. *)
Theorem Exec_output (req : Request) (x : exec_run) :
  let '(res, _, _) := Exec req x in
  rStarted res = true →
  rStdout res = trim_right_newlines (string_of (Buf.shown (rqMaxOutput req) (full (xrStdout x)))) ∧
  rStderr res = trim_right_newlines (string_of (Buf.shown (rqMaxOutput req) (full (xrStderr x)))) ∧
  rBytes res = (zlen (full (xrStdout x)) + zlen (full (xrStderr x)))%Z ∧
  ∀ i pat, rqPatterns req !! i = Some pat → pat ≠ "" →
    Found res i = Some (list_contains (full (xrStdout x)) (bytes_of pat) ||
                        list_contains (full (xrStderr x)) (bytes_of pat)).
Proof.
  destruct (Exec req x) as [[res err] tr] eqn:E. intros Hs.
  assert (∃ code, res = with_exit (collect req x) code) as [code ->].
  { unfold Exec in E. destruct (race_failure _ _); [by simplify_eq|].
    destruct (open_session x); [by simplify_eq|].
    destruct (race_failure _ _); [simplify_eq; by eexists None|].
    destruct (exit_status _); simplify_eq; [by eexists|by eexists None]. }
  unfold collect, stream. simpl.
  destruct (Buf.writes_spec (rqMaxOutput req) (map bytes_of (rqPatterns req))
    (map bytes_of (xrStdout x))) as (Ho & Hot & _ & Hof).
  destruct (Buf.writes_spec (rqMaxOutput req) (map bytes_of (rqPatterns req))
    (map bytes_of (xrStderr x))) as (He & Het & _ & Hef).
  rewrite Ho, He, Hot, Het. split_and!; [done..|].
  intros i pat Hi Hne. unfold Found. simpl.
  assert (map bytes_of (rqPatterns req) !! i = Some (bytes_of pat)) as Hi'
    by by rewrite list_lookup_fmap, Hi.
  assert (bytes_of pat ≠ []) as Hne' by (by destruct pat).
  rewrite (Hof i _ Hi' Hne'), (Hef i _ Hi' Hne'). unfold full.
  repeat case_bool_decide; by destruct (list_contains _ _), (list_contains _ _).
Qed.

(** The keepalives up to the first [Quit]. *)
Fixpoint until_quit (ticks : list tick) : list bool :=
  match ticks with Tick p :: ticks => Alive p :: until_quit ticks | _ => [] end.
(** [n] failures in a row. *)
Definition misses_in_row (n : nat) (l : list bool) : Prop := infix_of (replicate n false) l.

Lemma row_skip misses failed l :
  failed < misses →
  misses_in_row misses (replicate failed false ++ true :: l) ↔ misses_in_row misses l.
Proof.
  intros Hf. split.
  - intros (a & b & E).
    assert (failed < length a) as Ha.
    { destruct (decide (failed < length a)) as [|Hn]; [done|exfalso].
      apply (f_equal (.!! failed)) in E.
      rewrite lookup_app_r, length_replicate, Nat.sub_diag in E
        by (rewrite length_replicate; lia).
      rewrite lookup_app_r, lookup_app_l in E by (rewrite ?length_replicate; lia).
      rewrite lookup_replicate_2 in E by lia. done. }
    exists (drop (S failed) a), b.
    apply (f_equal (drop (S failed))) in E.
    rewrite drop_app_ge, length_replicate in E by (rewrite length_replicate; lia).
    replace (S failed - failed) with 1 in E by lia. simpl in E.
    by rewrite drop_app_le in E by lia.
  - intros (a & b & ->). exists (replicate failed false ++ true :: a), b.
    by rewrite <- app_assoc.
Qed.

Lemma keepalive_spec misses failed ticks :
  failed < misses →
  fst (keepalive misses failed ticks) = true ↔
  misses_in_row misses (replicate failed false ++ until_quit ticks).
Proof.
  revert failed. induction ticks as [|t ticks IH]; intros failed Hf.
  - simpl. rewrite app_nil_r. split; [done|]. intros (a & b & E).
    apply (f_equal length) in E. rewrite !length_app, !length_replicate in E. lia.
  - destruct t as [|p]; simpl.
    { rewrite app_nil_r. split; [done|]. intros (a & b & E).
      apply (f_equal length) in E. rewrite !length_app, !length_replicate in E. lia. }
    destruct (Alive p) eqn:Ea.
    + destruct (keepalive misses 0 ticks) as [c n] eqn:Ek.
      specialize (IH 0). rewrite Ek in IH. simpl in *. rewrite IH, row_skip by lia. done.
    + case_bool_decide; simpl.
      * split; [|done]. intros _. exists [], (until_quit ticks). simpl.
        assert (misses = S failed) as -> by lia.
        rewrite replicate_S_end, <- app_assoc. done.
      * destruct (keepalive misses (S failed) ticks) as [c n] eqn:Ek.
        specialize (IH (S failed)). rewrite Ek in IH. simpl fst in *. rewrite IH by lia.
        rewrite replicate_S_end, <- app_assoc. done.
Qed.

(** The connection is closed exactly when [misses] keepalives in a
    row stay unanswered before the step ends; one answer in between is enough to
    keep it. *)
Theorem KeepAlive_spec (misses : nat) (ticks : list tick) :
  0 < misses → KeepAlive misses ticks = true ↔ misses_in_row misses (until_quit ticks).
Proof. apply keepalive_spec. Qed.

Lemma KeepAlive_spec_witness :
  KeepAlive 3 [Tick NoAnswer; Tick Answer; Tick NoAnswer; Tick ProbeError; Tick NoAnswer] = true.
Proof.
  apply KeepAlive_spec; [lia|]. exists [false; true], []. done.
Defined.

Lemma Exec_output_witness :
  let req := mkRequest "cat log" "" second 4 ["needle"] in
  let x := mkRun None None Ready ["a nee"; "dle in it"] [] Ready None in
  Found (fst (fst (Exec req x))) 0 = Some true ∧ rStdout (fst (fst (Exec req x))) ≠ "a needle in it".
Proof.
  intros req x. pose proof (Exec_output req x) as H. revert H.
  destruct (Exec req x) as [[res err] tr] eqn:E. intros H. vm_compute in E.
  injection E as <- <- <-. destruct (H eq_refl) as (Ho & _ & _ & Hf). split.
  - cbn [fst]. rewrite (Hf 0 "needle"); [by vm_compute|done|done].
  - cbn [fst]. rewrite Ho. by vm_compute.
Defined.
