(* ===== verification/Dial.v ===== *)
(** * Dial: host keys and connections ([internal/sshx/dial.go])

    [HostKeys] loads and extends known_hosts; [handshake], [dialHop] and [Dial]
    open connections, directly or through a bastion.

    The operating system, the network and x/crypto/ssh are the operations of a
    [net_ops] record over a world [W].  What the code relies on of
    [ssh.NewClientConn] is its documented use of the host key callback: the
    server presents at most one key, the handshake goes on only if the callback
    accepts it, and an error of the callback is wrapped in the error returned. *)

From S2P Require Import Prelude GoStd Domain Credentials Classify.

Section dial.
(** The world, network connections, SSH clients, remote addresses, keys and
    authentication methods. *)
Context {W Conn Client Addr Key Method : Type}.

(** [ssh.HostKeyCallback]: it may change the world (known_hosts). *)
Definition strict_callback : Type := string → Addr → Key → option error.
Definition callback : Type := W → string → Addr → Key → option error * W.

Inductive stat_error := NotExist (text : string) | OtherStat (text : string).
Definition stat_text (e : stat_error) : string :=
  match e with NotExist t | OtherStat t => t end.

(** What a server does in a handshake: it fails before it presents a key, or
    presents one; then the rest of the handshake fails or succeeds. *)
Inductive server :=
| FailsEarly (e : error)
| Presents (remote : Addr) (key : Key) (rest : res error Client).

Record client_config := mkCfg {
  cfgUser : string; cfgAuth : list Method; cfgAlgorithms : list string;
}.

(** How a handshake ended for the timers: [timedOut], and the context's error. *)
Inductive ctx_state := CtxAlive | CtxCanceled | CtxDeadline.

Record net_ops := {
  os_stat : W → string → res stat_error Z;                  (* the modification time *)
  mkdir_all : W → string → option string * W;
  write_empty : W → string → option string * W;
  knownhosts_new : W → string → res string strict_callback;
  open_append : W → string → option string;                 (* os.OpenFile's error *)
  append_line : W → string → string → option string * W;    (* Fprintln and Close *)
  known_line : string → Key → string;                       (* knownhosts.Line, Normalize *)
  probe_key : Key;
  parse_ip : string → bool;                                 (* net.ParseIP succeeds *)
  tcp_addr : option string → string → Addr;                 (* IP ([None]: 0.0.0.0) and port *)
  dial_tcp : W → string → res error Conn * W;
  dial_through : W → Client → string → res error Conn * W;
  server_of : W → Conn → string → client_config → server;
  wrap_error : error → error;                               (* ssh: handshake failed: %w *)
  handshake_timers : W → Conn → bool * ctx_state;
  close_conn : Conn → W → W;
  close_client : Client → W → W;
}.

Context (ops : net_ops).

(** ** Host keys *)

Record HostKeys := mkHostKeys { Path : string; Insecure : bool; AcceptNew : bool }.
(** The cache: [cb] and [modTime]. *)
Record cache := mkCache { modTime : Z; cb : option strict_callback }.

Definition unknown {A} (msg : string) : res Failure A := Err (Fail CatHostKeyUnknown msg).

(** [load] *)
Definition load (h : HostKeys) (c : cache) (w : W)
    : res Failure strict_callback * cache * W :=
  let stat :=
    match os_stat ops w (Path h) with
    | Err (NotExist t) =>
        if AcceptNew h then
          match mkdir_all ops w (path_dir (Path h)) with
          | (Some e, w) =>
              (inl ("cannot create " +:+ path_dir (Path h) +:+ ": " +:+ e), w)
          | (None, w) =>
              match write_empty ops w (Path h) with
              | (Some e, w) => (inl ("cannot create known_hosts " +:+ Path h +:+ ": " +:+ e), w)
              | (None, w) => (inr (os_stat ops w (Path h)), w)
              end
          end
        else (inr (Err (NotExist t)), w)
    | r => (inr r, w)
    end in
  match stat with
  | (inl msg, w) => (unknown msg, c, w)
  | (inr (Err e), w) =>
      (unknown ("known_hosts file " +:+ Path h +:+ " is not readable: " +:+ stat_text e), c, w)
  | (inr (Ok mt), w) =>
      match cb c with
      | Some k =>
          if (mt =? modTime c)%Z then (Ok k, c, w)
          else
            match knownhosts_new ops w (Path h) with
            | Err e => (unknown ("cannot load known_hosts " +:+ Path h +:+ ": " +:+ e), c, w)
            | Ok k => (Ok k, mkCache mt (Some k), w)
            end
      | None =>
          match knownhosts_new ops w (Path h) with
          | Err e => (unknown ("cannot load known_hosts " +:+ Path h +:+ ": " +:+ e), c, w)
          | Ok k => (Ok k, mkCache mt (Some k), w)
          end
      end
  end.

(** [Callback]; with [Insecure] everything is accepted. *)
Definition Callback (h : HostKeys) (c : cache) (w : W)
    : res Failure strict_callback * cache * W :=
  if Insecure h then (Ok (λ _ _ _, None), c, w) else load h c w.

(** An unknown host: a [KeyError] that wants nothing. *)
Definition unknown_host (e : option error) : bool :=
  match e with
  | Some e => match err_as as_key_error e with Some [] => true | _ => false end
  | None => false
  end.

(** [add] *)
Definition add (h : HostKeys) (c : cache) (w : W) (host : string) (remote : Addr) (key : Key)
    : option error * cache * W :=
  match load h (mkCache (modTime c) None) w with
  | (Err f, c, w) => (Some (err_of_failure f), c, w)
  | (Ok k, c, w) =>
      let e := k host remote key in
      if negb (unknown_host e) then (e, c, w)
      else match open_append ops w (Path h) with
      | Some e =>
          (Some (err_of_failure (Fail CatHostKeyUnknown
             ("cannot update known_hosts " +:+ Path h +:+ ": " +:+ e))), c, w)
      | None =>
          match append_line ops w (Path h) (known_line ops host key) with
          | (Some e, w) =>
              (Some (err_of_failure (Fail CatHostKeyUnknown
                 ("cannot update known_hosts " +:+ Path h +:+ ": " +:+ e))), c, w)
          | (None, w) => (None, mkCache (modTime c) None, w)
          end
      end
  end.

(** [verifier] applied to a strict check, as the handshake calls it. *)
Definition verify (h : HostKeys) (strict : strict_callback) (c : cache) (w : W)
    (host : string) (remote : Addr) (key : Key) : option error * cache * W :=
  let e := strict host remote key in
  if negb (AcceptNew h) || Insecure h then (e, c, w)
  else if negb (unknown_host e) then (e, c, w)
  else add h c w host remote key.

(** ** Host key algorithms *)

Definition KeyAlgoRSA : string := "ssh-rsa".
Definition signature_types (t : string) : list string :=
  if bool_decide (t = KeyAlgoRSA) then ["rsa-sha2-512"; "rsa-sha2-256"; KeyAlgoRSA] else [t].

Definition knownAlgorithms (strict : strict_callback) (addr : string) : list string :=
  let '(host, port) := default ("", "") (split_host_port addr) in
  let ip := if parse_ip ops host then Some host else None in
  match strict addr (tcp_addr ops ip port) (probe_key ops) with
  | None => []
  | Some e =>
      match err_as as_key_error e with
      | None => []
      | Some want => dedup ∅ (want ≫= signature_types)
      end
  end.

(** ** Connections *)

Definition prefix_failure (e : error) (what : string) : error :=
  let f := AsFailure e in
  err_of_failure (Fail (fCategory f) (what +:+ ": " +:+ fReason f)).

Definition dialTCP (w : W) (addr : string) : res error Conn * W :=
  match dial_tcp ops w addr with
  | (Err e, w) => (Err (err_of_failure (ClassifyDial e addr)), w)
  | r => r
  end.

Record Hop := mkHop { hopAddr : string; hopUser : string; hopMethods : list Method }.

(** [ssh.NewClientConn]: the server's key goes through the callback. *)
Definition new_client_conn (h : HostKeys) (strict : strict_callback) (c : cache) (w : W)
    (conn : Conn) (addr : string) (cfg : client_config) : res error Client * cache * W :=
  match server_of ops w conn addr cfg with
  | FailsEarly e => (Err e, c, w)
  | Presents remote key rest =>
      match verify h strict c w addr remote key with
      | (Some e, c, w) => (Err (wrap_error ops e), c, w)
      | (None, c, w) => (rest, c, w)
      end
  end.

Definition handshake (h : HostKeys) (c : cache) (w : W) (conn : Conn) (hop : Hop)
    : res error Client * cache * W :=
  match Callback h c w with
  | (Err f, c, w) => (Err (err_of_failure f), c, close_conn ops conn w)
  | (Ok strict, c, w) =>
      let cfg := mkCfg (hopUser hop) (hopMethods hop)
        (if Insecure h then [] else knownAlgorithms strict (hopAddr hop)) in
      match new_client_conn h strict c w conn (hopAddr hop) cfg with
      | (Ok client, c, w) => (Ok client, c, w)
      | (Err e, c, w) =>
          let '(timedOut, ctx) := handshake_timers ops w conn in
          let f :=
            match ctx with
            | CtxCanceled => Fail CatCancelled
                ("cancelled during SSH handshake with " +:+ hopAddr hop)
            | CtxDeadline => Fail CatHandshakeFailed
                ("SSH handshake with " +:+ hopAddr hop +:+ " timed out")
            | CtxAlive => ClassifyHandshake e (hopAddr hop) timedOut
            end in
          (Err (err_of_failure f), c, close_conn ops conn w)
      end
  end.

Definition dialHop (h : HostKeys) (c : cache) (w : W) (hop : Hop)
    : res error Client * cache * W :=
  match dialTCP w (hopAddr hop) with
  | (Err e, w) => (Err e, c, w)
  | (Ok conn, w) => handshake h c w conn hop
  end.

(** The pool of bastion connections, as [Dial] uses it: [get] returns the result
    of the given dial, or of a dial of another caller, or the context's error. *)
Record pool_ops := {
  pool_get : string → (cache → W → res error Client * cache * W) →
    cache → W → res error Client * cache * W;
  pool_broken : string → Client → error → W → W;
}.

(** A target connection, with the bastion connection it owns. *)
Record client := mkClient { clConn : Client; clBastion : option Client }.

(** [Client.Close] *)
Definition Close (cl : client) (w : W) : W :=
  let w := close_client ops (clConn cl) w in
  match clBastion cl with Some b => close_client ops b w | None => w end.

(** What remains of [Dial] once there is a connection to the target. *)
Definition dial_target (h : HostKeys) (c : cache) (w : W) (conn : Conn) (target : Hop)
    (owned : option Client) : res error client * cache * W :=
  match handshake h c w conn target with
  | (Err e, c, w) =>
      (Err e, c, match owned with Some b => close_client ops b w | None => w end)
  | (Ok cl, c, w) => (Ok (mkClient cl owned), c, w)
  end.

Definition Dial (pool : option pool_ops) (h : HostKeys) (c : cache) (w : W)
    (target : Hop) (bastion : option Hop) : res error client * cache * W :=
  match bastion with
  | None =>
      match dialTCP w (hopAddr target) with
      | (Err e, w) => (Err e, c, w)
      | (Ok conn, w) => dial_target h c w conn target None
      end
  | Some b =>
      let key := hopUser b +:+ "@" +:+ hopAddr b in
      let '(bc, c, w) :=
        match pool with
        | Some p => pool_get p key (λ c w, dialHop h c w b) c w
        | None => dialHop h c w b
        end in
      match bc with
      | Err e => (Err (prefix_failure e "bastion"), c, w)
      | Ok bc =>
          match dial_through ops w bc (hopAddr target) with
          | (Err e, w) =>
              let w := match pool with
                | Some p => pool_broken p key bc e w
                | None => close_client ops bc w
                end in
              (Err (err_of_failure (ClassifyDial e (hopAddr target))), c, w)
          | (Ok conn, w) =>
              dial_target h c w conn target
                (match pool with Some _ => None | None => Some bc end)
          end
      end
  end.

(** ** Properties *)

(** A server's key is trusted: it is in known_hosts, or its host is not and the
    key was added, or verification is off. *)
Definition trusted (h : HostKeys) (strict : strict_callback) (c : cache) (w : W)
    (host : string) (remote : Addr) (key : Key) : Prop :=
  Insecure h = true ∨ strict host remote key = None ∨
  AcceptNew h = true ∧ unknown_host (strict host remote key) = true ∧
  ∃ fresh c' w', load h (mkCache (modTime c) None) w = (Ok fresh, c', w') ∧
    (fresh host remote key = None ∨
     unknown_host (fresh host remote key) = true ∧ open_append ops w' (Path h) = None ∧
     fst (append_line ops w' (Path h) (known_line ops host key)) = None).

Lemma verify_trusted h strict c w host remote key c' w' :
  verify h strict c w host remote key = (None, c', w') →
  trusted h strict c w host remote key.
Proof.
  unfold verify, trusted. destruct (negb (AcceptNew h) || Insecure h) eqn:Ea.
  { intros [= -> _ _]. by right; left. }
  destruct (unknown_host (strict host remote key)) eqn:Eu; simpl; [|by intros [= -> _ _]; right; left].
  apply orb_false_iff in Ea as [Ea%negb_false_iff Ei].
  intros Hadd. right; right. split_and!; [done|done|]. unfold add in Hadd.
  destruct (load _ _ _) as [[[fresh|f] c1] w1]; [|done].
  exists fresh, c1, w1. split; [done|].
  destruct (unknown_host (fresh host remote key)) eqn:Ef; simpl in Hadd; [right|left; congruence].
  destruct (open_append _ _ _); [done|]. destruct (append_line _ _ _ _) as [[e|] w2]; done.
Qed.

(** What a handshake that succeeds has checked. *)
Lemma handshake_checked (h : HostKeys) (c c' : cache) (w w' : W) (conn : Conn) (hop : Hop)
    (client : Client) :
  handshake h c w conn hop = (Ok client, c', w') →
  ∃ strict c0 w0 cfg remote key,
    Callback h c w = (Ok strict, c0, w0) ∧
    server_of ops w0 conn (hopAddr hop) cfg = Presents remote key (Ok client) ∧
    cfgUser cfg = hopUser hop ∧ cfgAuth cfg = hopMethods hop ∧
    (Insecure h = false → cfgAlgorithms cfg = knownAlgorithms strict (hopAddr hop)) ∧
    trusted h strict c0 w0 (hopAddr hop) remote key.
Proof.
  unfold handshake, new_client_conn. destruct (Callback h c w) as [[[strict|f] c0] w0]; [|done].
  set (cfg := mkCfg _ _ _). destruct (server_of ops w0 conn (hopAddr hop) cfg) as [e|remote key rest] eqn:Es.
  { by destruct (handshake_timers _ _ _). }
  destruct (verify h strict c0 w0 (hopAddr hop) remote key) as [[[e|] c1] w1] eqn:Ev.
  { by destruct (handshake_timers _ _ _). }
  destruct rest as [cl|e]; [|by destruct (handshake_timers _ _ _)].
  intros [= -> _ _]. exists strict, c0, w0, cfg, remote, key.
  split_and!; [done|done|done|done| |by eapply verify_trusted].
  intros Hi. unfold cfg. by rewrite Hi.
Qed.

(** A connection is only ever made to a server whose key is trusted:
    verification is off, or the key is in known_hosts, or new keys are accepted,
    a fresh reading of known_hosts still does not know the host, and the key has
    been appended (or a concurrent connection appended it meanwhile). *)
Theorem handshake_host_key (h : HostKeys) (c c' : cache) (w w' : W) (conn : Conn) (hop : Hop)
    (client : Client) :
  handshake h c w conn hop = (Ok client, c', w') →
  ∃ strict c0 w0 cfg remote key,
    Callback h c w = (Ok strict, c0, w0) ∧
    server_of ops w0 conn (hopAddr hop) cfg = Presents remote key (Ok client) ∧
    cfgUser cfg = hopUser hop ∧ cfgAuth cfg = hopMethods hop ∧
    (Insecure h = false → cfgAlgorithms cfg = knownAlgorithms strict (hopAddr hop)) ∧
    trusted h strict c0 w0 (hopAddr hop) remote key.
Proof. apply handshake_checked. Qed.

(** C15: a server whose key differs from the one in known_hosts is
    refused whatever the options say (short of turning verification off): the
    failure is HOST_KEY_MISMATCH, which is never retried, known_hosts is left as
    it is and the connection is closed. *)
Theorem changed_key_refused (h : HostKeys) (c c0 : cache) (w w0 : W) (conn : Conn) (hop : Hop)
    (strict : strict_callback) (cfg : client_config) (remote : Addr) (key : Key)
    (rest : res error Client) (e : error) (t : string) (ts : list string) :
  Insecure h = false →
  (∀ e, err_chain (wrap_error ops e) = KPlain :: err_chain e) →
  Callback h c w = (Ok strict, c0, w0) →
  cfg = mkCfg (hopUser hop) (hopMethods hop) (knownAlgorithms strict (hopAddr hop)) →
  server_of ops w0 conn (hopAddr hop) cfg = Presents remote key rest →
  strict (hopAddr hop) remote key = Some e →
  err_as as_failure e = None → err_as as_key_error e = Some (t :: ts) →
  snd (handshake_timers ops w0 conn) = CtxAlive →
  ∃ reason, handshake h c w conn hop =
    (Err (err_of_failure (Fail CatHostKeyMismatch reason)), c0, close_conn ops conn w0).
Proof.
  intros Hi Hwrap Hcb -> Hs Hk Hf Hke Htm. unfold handshake. rewrite Hcb, Hi.
  unfold new_client_conn. rewrite Hs. unfold verify. rewrite Hk, Hi. unfold unknown_host.
  rewrite Hke, orb_false_r. simpl.
  assert (∀ view : error_kind → option Failure, view KPlain = None →
    err_as view (wrap_error ops e) = err_as view e) as Hv.
  { intros view Hp. unfold err_as. rewrite Hwrap. simpl. by rewrite Hp. }
  assert (err_as as_key_error (wrap_error ops e) = Some (t :: ts)) as Hke'.
  { unfold err_as. rewrite Hwrap. simpl. exact Hke. }
  destruct (negb (AcceptNew h));
    (destruct (handshake_timers ops w0 conn) as [timedOut []]; try done;
     unfold ClassifyHandshake; rewrite Hv, Hf, Hke' by done; eauto).
Qed.

(** The algorithms of a handshake are the types of the keys that
    known_hosts holds for the host, each once, in their order, an RSA key
    standing for its three signature algorithms; without an entry there is no
    restriction. *)
Theorem knownAlgorithms_spec (strict : strict_callback) (host port : string) :
  let addr := join_host_port host port in
  has_char "[" host = false → has_char "]" host = false →
  has_char ":" port = false → has_char "[" port = false → has_char "]" port = false →
  let ip := if parse_ip ops host then Some host else None in
  NoDup (knownAlgorithms strict addr) ∧
  ∀ a, a ∈ knownAlgorithms strict addr ↔
    ∃ e want t, strict addr (tcp_addr ops ip port) (probe_key ops) = Some e ∧
      err_as as_key_error e = Some want ∧ t ∈ want ∧ a ∈ signature_types t.
Proof.
  intros addr H1 H2 H3 H4 H5 ip. unfold knownAlgorithms, addr.
  rewrite split_join_host_port by done. simpl. fold ip.
  destruct (strict _ _ _) as [e|]; [|split; [constructor|set_solver]].
  destruct (err_as as_key_error e) as [want|] eqn:Ek.
  - rewrite dedup_firsts. split; [apply firsts_NoDup|]. intros a. rewrite elem_of_firsts.
    rewrite list_elem_of_bind. naive_solver.
  - split; [constructor|]. intros a. split; [by intros ?%elem_of_nil|].
    intros (e' & want & t & [= <-] & ? & _). congruence.
Qed.
End dial.

(** Waiting for another caller's bastion dial ends with the bare error of the
    context when the run is cancelled; [Dial] then reports an internal error, not
    a cancellation. *)
Example bastion_wait_cancelled :
  AsFailure (prefix_failure (MkError KCanceled "context canceled" None) "bastion") =
  Fail CatInternalError "bastion: context canceled".
Proof. done. Qed.

(** ** A concrete network

    known_hosts is a list of (host, key); keys are their own types; the world
    also lists the connections that were closed. *)

Definition toy_world : Type := list (string * string) * list string.
Definition toy_check (entries : list (string * string)) : @strict_callback unit string :=
  λ host _ key,
    let keys := map snd (filter (λ e, e.1 = host) entries) in
    if bool_decide (key ∈ keys) then None else Some (MkError (KKeyError keys) "knownhosts: key" None).
(** The server presents its address's key. *)
Definition toy_server (entries : list (string * string)) (addr : string) : @server string unit string :=
  match list_find (λ e, e.1 = addr) entries with
  | Some (_, (_, key)) => Presents tt key (Ok addr)
  | None => FailsEarly (new_error "no route")
  end.

Definition toy_ops (servers : list (string * string)) :
    @net_ops toy_world string string unit string string := {|
  os_stat w p := Ok 0%Z;
  mkdir_all w p := (None, w);
  write_empty w p := (None, w);
  knownhosts_new w p := Ok (toy_check w.1);
  open_append w p := None;
  append_line w p line := (None, ((line, line) :: w.1, w.2));
  known_line host key := host;
  probe_key := "probe";
  parse_ip s := false;
  tcp_addr ip port := tt;
  dial_tcp w addr := (Ok addr, w);
  dial_through w c addr := (Ok addr, w);
  server_of w conn addr cfg := toy_server servers addr;
  wrap_error e := MkError KPlain ("ssh: handshake failed: " +:+ err_text e) (Some e);
  handshake_timers w conn := (false, CtxAlive);
  close_conn conn w := (w.1, conn :: w.2);
  close_client cl w := (w.1, cl :: w.2);
|}.

Definition toy_hosts (accept : bool) : HostKeys := mkHostKeys "/home/u/.ssh/known_hosts" false accept.
Definition toy_cache : @cache unit string := mkCache 0 None.

Lemma handshake_host_key_witness :
  let w : toy_world := ([("h:22", "k1")], []) in
  fst (fst (handshake (toy_ops [("h:22", "k1")]) (toy_hosts false) toy_cache w "h:22"
    (mkHop "h:22" "root" ["pw"]))) = Ok "h:22" ∧
  ∃ strict c0 w0 remote key,
    trusted (toy_ops [("h:22", "k1")]) (toy_hosts false) strict c0 w0 "h:22" remote key.
Proof.
  intros w. destruct (handshake _ _ _ _ _ _) as [[r c'] w'] eqn:E. vm_compute in E.
  injection E as <- <- <-. split; [done|].
  destruct (handshake_host_key (toy_ops [("h:22", "k1")]) (toy_hosts false) toy_cache
    (snd (fst (handshake (toy_ops [("h:22", "k1")]) (toy_hosts false) toy_cache w "h:22"
      (mkHop "h:22" "root" ["pw"])))) w w "h:22" (mkHop "h:22" "root" ["pw"]) "h:22")
    as (strict & c0 & w0 & cfg & remote & key & _ & _ & _ & _ & _ & Ht); [by vm_compute|].
  by exists strict, c0, w0, remote, key.
Defined.

Lemma changed_key_refused_witness :
  let w : toy_world := ([("h:22", "old")], []) in
  ∃ reason, handshake (toy_ops [("h:22", "new")]) (toy_hosts true) toy_cache w "h:22"
    (mkHop "h:22" "root" ["pw"]) =
    (Err (err_of_failure (Fail CatHostKeyMismatch reason)),
     mkCache 0 (Some (toy_check [("h:22", "old")])), ([("h:22", "old")], ["h:22"])).
Proof.
  intros w.
  apply (changed_key_refused (toy_ops [("h:22", "new")]) (toy_hosts true) toy_cache
    (mkCache 0 (Some (toy_check [("h:22", "old")]))) w w "h:22" (mkHop "h:22" "root" ["pw"])
    (toy_check [("h:22", "old")]) (mkCfg "root" ["pw"] ["old"]) tt "new" (Ok "h:22")
    (MkError (KKeyError ["old"]) "knownhosts: key" None) "old" []); by vm_compute.
Defined.

Lemma knownAlgorithms_spec_witness :
  Forall (λ a, a ∈ ["rsa-sha2-512"; "rsa-sha2-256"; "ssh-rsa"; "ssh-ed25519"])
    (knownAlgorithms (toy_ops []) (toy_check [("h:22", "ssh-rsa"); ("h:22", "ssh-ed25519")]) "h:22").
Proof.
  apply Forall_forall. intros a Ha. change "h:22" with (join_host_port "h" "22") in Ha at 3.
  apply (knownAlgorithms_spec (toy_ops [])) in Ha as (e & want & t & He & Hw & Ht & Ha); [|done..].
  vm_compute in He. injection He as <-. vm_compute in Hw. injection Hw as <-.
  apply elem_of_cons in Ht as [->|[->|[]%elem_of_nil]%elem_of_cons]; vm_compute in Ha; set_solver.
Defined.
