(* ===== verification/KnownHosts.v ===== *)
(** * KnownHosts: trust on first use, by many goroutines ([HostKeys] of
    [internal/sshx/dial.go])

    All hosts of a run share one [HostKeys]: its mutex makes [Callback] and [add]
    atomic, but a handshake checks a key against the callback it got earlier, which
    may be out of date by then.  The model is a step relation over the shared cache
    and the world; a goroutine takes its callback, and later verifies a key with it.

    What a known_hosts file says is the parameter [keys]; [file_laws] is the
    documented behaviour of [knownhosts.New] and of appending a line. *)

From stdpp Require Import list relations.
From S2P Require Import Prelude GoStd Domain Dial.

Section known_hosts.
Context {W Conn Client Addr Key Method : Type}.
Context (ops : @net_ops W Conn Client Addr Key Method) (h : HostKeys).

(** [knownhosts.Normalize], and the keys that the file of a world holds for a
    normalized name. *)
Context (norm : string → string) (keys : W → string → list Key).

(** What a world's file says about a host. *)
Definition keys_of (w : W) (host : string) : list Key := keys w (norm host).

(** A callback made of a file: it accepts the keys the file has for a host, and a
    host is unknown if the file has none. *)
Definition reads (file : string → list Key) (k : strict_callback) : Prop :=
  ∀ host (remote : Addr) key,
    (k host remote key = None ↔ key ∈ file (norm host)) ∧
    (unknown_host (k host remote key) = true ↔ file (norm host) = []).

Definition appended (w w' : W) (host : string) (key : Key) : Prop :=
  ∀ n, keys w' n = if decide (n = norm host) then keys w n ++ [key] else keys w n.

Record file_laws : Prop := {
  fl_new w k : knownhosts_new ops w (Path h) = Ok k → reads (keys w) k;
  fl_mkdir w path n : keys (mkdir_all ops w path).2 n = keys w n;
  (** an empty file is written only where there was none *)
  fl_write w t n : os_stat ops w (Path h) = Err (NotExist t) →
    keys (write_empty ops (mkdir_all ops w (path_dir (Path h))).2 (Path h)).2 n = keys w n;
  (** a failed write may have left its line *)
  fl_append w host key :
    match append_line ops w (Path h) (known_line ops host key) with
    | (None, w') => appended w w' host key
    | (Some _, w') => appended w w' host key ∨ ∀ n, keys w' n = keys w n
    end;
}.

(** ** The goroutines *)

Inductive checker :=
| Waiting
| Checking (strict : @strict_callback Addr Key)      (* has its callback *)
| Verified (host : string) (key : Key) (e : option error).

Record shared := mkShared { shCache : @cache Addr Key; shWorld : W; shCheckers : list checker }.

Inductive kh_step : shared → shared → Prop :=
| kh_callback i c w l k c' w' :                     (* Callback, under the mutex *)
    l !! i = Some Waiting → Callback ops h c w = (Ok k, c', w') →
    kh_step (mkShared c w l) (mkShared c' w' (<[i := Checking k]> l))
| kh_no_callback i c w l f c' w' :                  (* it fails: the handshake does too *)
    l !! i = Some Waiting → Callback ops h c w = (Err f, c', w') →
    kh_step (mkShared c w l) (mkShared c' w' l)
| kh_verify i c w l k host remote key e c' w' :     (* the check, and add under the mutex *)
    l !! i = Some (Checking k) → verify ops h k c w host remote key = (e, c', w') →
    kh_step (mkShared c w l) (mkShared c' w' (<[i := Verified host key e]> l))
| kh_world c w l w' :                               (* what does not touch the file *)
    (∀ n, keys w' n = keys w n) → kh_step (mkShared c w l) (mkShared c w' l).

Definition kh_start (w : W) (n : nat) : shared := mkShared (mkCache 0 None) w (replicate n Waiting).
Definition kh_reachable (w : W) (n : nat) : shared → Prop := rtc kh_step (kh_start w n).

(** ** Files grow *)

(** A later file: hosts that had keys have the same, others at most one. *)
Definition grows (f f' : string → list Key) : Prop :=
  ∀ n, f' n = f n ∨ f n = [] ∧ ∃ key, f' n = [key].

#[export] Instance grows_refl : Reflexive grows.
Proof. intros f n. by left. Qed.
#[export] Instance grows_trans : Transitive grows.
Proof.
  intros f1 f2 f3 H12 H23 n. destruct (H12 n) as [E|[E (k & Ek)]], (H23 n) as [E'|[E' (k' & Ek')]].
  - left. congruence.
  - right. split; [congruence|eauto].
  - right. split; [done|]. exists k. congruence.
  - congruence.
Qed.

Lemma grows_eq f f' : (∀ n, f' n = f n) → grows f f'.
Proof. intros E n. by left. Qed.
Lemma grows_elem f f' n key : grows f f' → key ∈ f n → key ∈ f' n.
Proof. intros Hg Hin. destruct (Hg n) as [->|[E _]]; [done|]. rewrite E in Hin. by apply elem_of_nil in Hin. Qed.
Lemma appended_grows w w' host key : keys_of w host = [] → appended w w' host key → grows (keys w) (keys w').
Proof.
  intros He Ha n. rewrite (Ha n). destruct (decide (n = norm host)) as [->|]; [right|by left].
  unfold keys_of in He. rewrite He. split; [done|by exists key].
Qed.

(** ** Callbacks are of this file or of an earlier one *)

Definition snapshot (w : W) (k : strict_callback) : Prop := ∃ f, reads f k ∧ grows f (keys w).
Definition cache_ok (c : @cache Addr Key) (w : W) : Prop := ∀ k, cb c = Some k → snapshot w k.

Lemma snapshot_grows w w' k : grows (keys w) (keys w') → snapshot w k → snapshot w' k.
Proof. intros Hg (f & Hf & Hw). exists f. split; [done|by etrans]. Qed.
Lemma cache_ok_grows c w w' : grows (keys w) (keys w') → cache_ok c w → cache_ok c w'.
Proof. intros Hg Hc k Hk. eapply snapshot_grows; [exact Hg|by apply Hc]. Qed.

Context (Hlaws : file_laws).

Lemma load_file c w r c' w' :
  load ops h c w = (r, c', w') →
  (∀ n, keys w' n = keys w n) ∧ (cache_ok c w → cache_ok c' w') ∧
  (∀ k, r = Ok k → cb c' = Some k ∧ (cb c = None → reads (keys w') k)).
Proof.
  unfold load. set (stat := match os_stat ops w (Path h) with Ok _ => _ | Err _ => _ end).
  assert (∀ n, keys stat.2 n = keys w n) as Hs.
  { intros n. unfold stat. destruct (os_stat ops w (Path h)) as [mt|[t|t]] eqn:Est; try done.
    destruct (AcceptNew h); [|done]. pose proof (fl_mkdir Hlaws w (path_dir (Path h)) n) as H1.
    pose proof (fl_write Hlaws w t n Est) as H2.
    destruct (mkdir_all _ _ _) as [[e|] w1]; [done|]. simpl in H2.
    by destruct (write_empty _ _ _) as [[e|] w2]. }
  clearbody stat. destruct stat as [x w1]. simpl in Hs.
  assert (cache_ok c w → cache_ok c w1) as Hold by (apply cache_ok_grows, grows_eq, Hs).
  destruct x as [msg|[mt|e]]; [by intros [= <- <- <-]; split_and!| |by intros [= <- <- <-]; split_and!].
  assert (∀ r c' w', match knownhosts_new ops w1 (Path h) with
    | Ok k => (Ok k, mkCache mt (Some k), w1)
    | Err e => (unknown ("cannot load known_hosts " +:+ Path h +:+ ": " +:+ e), c, w1)
    end = (r, c', w') → (∀ n, keys w' n = keys w n) ∧ (cache_ok c w → cache_ok c' w') ∧
      (∀ k, r = Ok k → cb c' = Some k ∧ (cb c = None → reads (keys w') k))) as Hload.
  { intros r0 c0 w0. destruct (knownhosts_new ops w1 (Path h)) as [k|e] eqn:Ek; intros [= <- <- <-]; [|done].
    pose proof (fl_new Hlaws w1 k Ek) as Hr. split; [done|split].
    - intros _ k' [= <-]. exists (keys w1). by split.
    - intros k' [= <-]. by split. }
  destruct (cb c) as [k0|] eqn:Ec; [|apply Hload]. destruct (mt =? _)%Z; [|apply Hload].
  intros [= <- <- <-]. split_and!; [done|done|]. by intros k [= <-].
Qed.

Lemma verify_file k c w host remote key e c' w' :
  Insecure h = false → snapshot w k → cache_ok c w → verify ops h k c w host remote key = (e, c', w') →
  grows (keys w) (keys w') ∧ cache_ok c' w' ∧ (e = None → key ∈ keys_of w' host) ∧
  (AcceptNew h = false → ∀ n, keys w' n = keys w n).
Proof.
  intros Hi (f & Hf & Hg) Hc. unfold verify. rewrite Hi, orb_false_r.
  destruct (Hf host remote key) as [Hin _].
  assert (∀ x, k host remote key = x → x = None → key ∈ keys_of w host) as Hok.
  { intros x <- Hx%Hin. exact (grows_elem _ _ _ _ Hg Hx). }
  destruct (AcceptNew h) eqn:Ea; simpl.
  2: { intros [= <- <- <-]. split_and!; [done|done|by apply Hok|done]. }
  destruct (unknown_host (k host remote key)) eqn:Eu; simpl.
  2: { intros [= <- <- <-]. split_and!; [done|done|by apply Hok|done]. }
  clear f Hf Hg Hin Hok Eu. unfold add. destruct (load ops h (mkCache (modTime c) None) w) as [[[k1|f1] c1] w1] eqn:El.
  all: destruct (load_file _ _ _ _ _ El) as (H1 & H2 & H3);
    assert (cache_ok c1 w1) as Hc1 by (by apply H2);
    assert (grows (keys w) (keys w1)) as Hg1 by (by apply grows_eq).
  2: by intros [= <- <- <-].
  destruct (H3 k1 eq_refl) as [_ Hr]. destruct (Hr eq_refl host remote key) as [Hin Hun].
  destruct (unknown_host (k1 host remote key)) eqn:Eu; simpl.
  2: { intros [= <- <- <-]. split_and!; [done|done|by intros Hx%Hin|done]. }
  assert (keys_of w1 host = []) as He by (by apply Hun).
  destruct (open_append _ _ _); [by intros [= <- <- <-]|].
  pose proof (fl_append Hlaws w1 host key) as Ha.
  destruct (append_line _ _ _ _) as [[e1|] w2]; intros [= <- <- <-].
  - assert (grows (keys w1) (keys w2)) as Hg2.
    { destruct Ha as [Ha|Ha]; [by eapply appended_grows|by apply grows_eq]. }
    split_and!; [by etrans|by eapply cache_ok_grows|done|done].
  - assert (grows (keys w1) (keys w2)) as Hg2 by (by eapply appended_grows).
    split_and!; [by etrans|by intros ? [=]| |done].
    intros _. unfold keys_of. rewrite (Ha (norm host)), decide_True by done. set_solver.
Qed.

(** ** The invariant *)

Context (Hsecure : Insecure h = false).

Definition checker_ok (w : W) (x : checker) : Prop :=
  match x with
  | Waiting => True
  | Checking k => snapshot w k
  | Verified host key e => e = None → key ∈ keys_of w host
  end.

Record kh_inv (w0 : W) (s : shared) : Prop := {
  ki_grows : grows (keys w0) (keys (shWorld s));
  ki_cache : cache_ok (shCache s) (shWorld s);
  ki_checkers i x : shCheckers s !! i = Some x → checker_ok (shWorld s) x;
  ki_strict : AcceptNew h = false → ∀ n, keys (shWorld s) n = keys w0 n;
}.

Lemma checker_ok_grows w w' x : grows (keys w) (keys w') → checker_ok w x → checker_ok w' x.
Proof.
  intros Hg. destruct x as [|k|host key e]; simpl; [done|by apply snapshot_grows|].
  intros Hx He. exact (grows_elem _ _ _ _ Hg (Hx He)).
Qed.

(** A goroutine moves on while the file grows. *)
Lemma checkers_insert w w' (l : list checker) i x :
  grows (keys w) (keys w') → checker_ok w' x → (∀ j y, l !! j = Some y → checker_ok w y) →
  ∀ j y, <[i := x]> l !! j = Some y → checker_ok w' y.
Proof.
  intros Hg Hx Hl j y. rewrite list_lookup_insert_Some. intros [(_ & <- & _)|[_ Hj]]; [done|].
  eapply checker_ok_grows; [exact Hg|by eapply Hl].
Qed.

Lemma Callback_file c w r c' w' :
  cache_ok c w → Callback ops h c w = (r, c', w') →
  (∀ n, keys w' n = keys w n) ∧ cache_ok c' w' ∧ ∀ k, r = Ok k → snapshot w' k.
Proof.
  intros Hc. unfold Callback. rewrite Hsecure. intros E. destruct (load_file _ _ _ _ _ E) as (H1 & H2 & H3).
  specialize (H2 Hc). split_and!; [done|done|]. intros k Hk. by apply H2, H3.
Qed.

Lemma kh_step_inv w0 s s' : kh_inv w0 s → kh_step s s' → kh_inv w0 s'.
Proof.
  intros [H1 H2 H3 H4] Hst.
  destruct Hst as [i c w l k c' w' Hi E|i c w l f c' w' Hi E|i c w l k host remote key e c' w' Hi E|c w l w' E];
    simpl in *.
  - destruct (Callback_file _ _ _ _ _ H2 E) as (Hk & Hc & Hs). pose proof (grows_eq _ _ Hk) as Hg.
    split; simpl; [by etrans|done| |intros Ha n; by rewrite Hk, H4].
    eapply checkers_insert; [exact Hg|by apply Hs|exact H3].
  - destruct (Callback_file _ _ _ _ _ H2 E) as (Hk & Hc & _). pose proof (grows_eq _ _ Hk) as Hg.
    split; simpl; [by etrans|done| |intros Ha n; by rewrite Hk, H4].
    intros j y Hj. by eapply checker_ok_grows, H3.
  - pose proof (H3 i _ Hi) as Hs. simpl in Hs.
    destruct (verify_file _ _ _ _ _ _ _ _ _ Hsecure Hs H2 E) as (Hg & Hc & Hin & Ha).
    split; simpl; [by etrans|done| |intros Hn n; by rewrite Ha, H4].
    eapply checkers_insert; [exact Hg|exact Hin|exact H3].
  - pose proof (grows_eq _ _ E) as Hg.
    split; simpl; [by etrans|by eapply cache_ok_grows| |intros Ha n; by rewrite E, H4].
    intros j y Hj. by eapply checker_ok_grows, H3.
Qed.

Lemma kh_reachable_inv w0 n s : kh_reachable w0 n s → kh_inv w0 s.
Proof.
  revert s. apply (rtc_ind_r (kh_inv w0) (kh_start w0 n)).
  - split; simpl; [done|done| |done]. by intros i x [-> _]%lookup_replicate.
  - intros y z _ Hst Hy. by eapply kh_step_inv.
Qed.

(** C14: trust on first use holds for any number of concurrent
    handshakes, in any interleaving: known_hosts never loses or changes the keys
    of a host, and a host it did not know gets at most one key; a key that was
    accepted is in the file; so two connections to a new host never accept
    different keys, even when both got their callback before the first key was
    added.  Without [AcceptNew] the file stays as it is. *)
Theorem first_use (w0 : W) (n : nat) (s : shared) :
  kh_reachable w0 n s →
  grows (keys w0) (keys (shWorld s)) ∧
  (AcceptNew h = false → ∀ name, keys (shWorld s) name = keys w0 name) ∧
  (∀ i host key, shCheckers s !! i = Some (Verified host key None) → key ∈ keys_of (shWorld s) host) ∧
  ∀ i j host host' key key', norm host = norm host' → keys_of w0 host = [] →
    shCheckers s !! i = Some (Verified host key None) →
    shCheckers s !! j = Some (Verified host' key' None) → key = key'.
Proof.
  intros [H1 _ H3 H4]%kh_reachable_inv.
  assert (∀ i host key, shCheckers s !! i = Some (Verified host key None) → key ∈ keys_of (shWorld s) host) as Hin.
  { intros i host key Hi. by apply (H3 i _ Hi). }
  split_and!; [done|done|done|].
  intros i j host host' key key' Hn H0 Hi%Hin Hj%Hin. unfold keys_of in *. rewrite <- Hn in Hj.
  destruct (H1 (norm host)) as [E|[_ [k E]]]; rewrite E in Hi, Hj.
  - rewrite H0 in Hi. by apply elem_of_nil in Hi.
  - apply list_elem_of_singleton in Hi as ->. by apply list_elem_of_singleton in Hj.
Qed.
End known_hosts.

(** ** Two connections to a new host

    The file of a world is a list of lines; a line is a name, a space and a key. *)

Definition tofu_line (line : string) : string * string :=
  default (line, "") (cut_char " " line).
Definition tofu_keys (lines : list string) (n : string) : list string :=
  map snd (filter (λ e, e.1 = n) (map tofu_line lines)).
(** Names have no spaces. *)
Definition tofu_norm (host : string) : string := if has_char " " host then "x" else host.
Definition tofu_check (lines : list string) : @strict_callback unit string :=
  λ host _ key,
    let keys := tofu_keys lines (tofu_norm host) in
    if bool_decide (key ∈ keys) then None else Some (MkError (KKeyError keys) "knownhosts: key" None).
Definition tofu_ops : @net_ops (list string) string string unit string string := {|
  os_stat w p := Ok (zlen w);
  mkdir_all w p := (None, w);
  write_empty w p := (None, w);
  knownhosts_new w p := Ok (tofu_check w);
  open_append w p := None;
  append_line w p line := (None, w ++ [line]);
  known_line host key := tofu_norm host +:+ " " +:+ key;
  probe_key := "probe";
  parse_ip s := false;
  tcp_addr ip port := tt;
  dial_tcp w addr := (Ok addr, w);
  dial_through w c addr := (Ok addr, w);
  server_of w conn addr cfg := FailsEarly (new_error "no route");
  wrap_error e := e;
  handshake_timers w conn := (false, CtxAlive);
  close_conn conn w := w;
  close_client cl w := w;
|}.
Definition tofu_hosts : HostKeys := mkHostKeys "/home/u/.ssh/known_hosts" false true.

Lemma tofu_norm_plain host : has_char " " (tofu_norm host) = false.
Proof. unfold tofu_norm. by destruct (has_char " " host) eqn:E. Qed.

Lemma tofu_laws : file_laws tofu_ops tofu_hosts tofu_norm tofu_keys.
Proof.
  split; simpl; try done.
  - intros w k [= <-] host remote key. unfold tofu_check.
    destruct (tofu_keys w (tofu_norm host)) as [|k0 ks] eqn:E; case_bool_decide as Hin;
      (split; split; intros Hx; try done; try (by apply elem_of_nil in Hin)).
  - intros w host key n. unfold tofu_keys. rewrite map_app, filter_app, map_app. simpl.
    assert (tofu_line (tofu_norm host +:+ " " +:+ key) = (tofu_norm host, key)) as ->.
    { unfold tofu_line. change (" " +:+ key) with (String " " key). by rewrite cut_char_app by apply tofu_norm_plain. }
    rewrite filter_cons. simpl. destruct (decide (n = tofu_norm host)) as [->|Hne].
    + by rewrite decide_True.
    + rewrite decide_False by done. simpl. by rewrite app_nil_r.
Qed.

(** Both get their callback from the empty file, then both see the host. *)
Definition tofu_verify (w : list string) (key : string) : option error * @cache unit string * list string :=
  verify tofu_ops tofu_hosts (tofu_check []) (mkCache 0 None) w "h:22" tt key.
Example tofu_second_refused :
  let '(e1, _, w1) := tofu_verify [] "k1" in
  let '(e2, _, w2) := tofu_verify w1 "k2" in
  let '(e3, _, w3) := tofu_verify w1 "k1" in
  e1 = None ∧ w1 = ["h:22 k1"] ∧ is_Some e2 ∧ w2 = w1 ∧ e3 = None ∧ w3 = w1.
Proof. vm_compute. split_and!; try done. by eexists. Qed.

Lemma tofu_run : ∃ s, kh_reachable tofu_ops tofu_hosts tofu_keys [] 2 s ∧
  shCheckers s = [Verified "h:22" "k1" None; Verified "h:22" "k1" None].
Proof.
  eexists. split.
  - eapply rtc_l; [by apply (kh_callback _ _ _ 0 _ _ _ (tofu_check [])); vm_compute|].
    eapply rtc_l; [by apply (kh_callback _ _ _ 1 _ _ _ (tofu_check [])); vm_compute|].
    eapply rtc_l; [by eapply (kh_verify _ _ _ 0 _ _ _ (tofu_check []) "h:22" tt "k1"); vm_compute|].
    eapply rtc_l; [by eapply (kh_verify _ _ _ 1 _ _ _ (tofu_check []) "h:22" tt "k1"); vm_compute|].
    apply rtc_refl.
  - done.
Qed.

Lemma first_use_witness : ∃ s, kh_reachable tofu_ops tofu_hosts tofu_keys [] 2 s ∧
  "k1" ∈ keys_of tofu_norm tofu_keys (shWorld s) "h:22".
Proof.
  destruct tofu_run as (s & Hs & Hl). exists s. split; [exact Hs|].
  destruct (first_use tofu_ops tofu_hosts tofu_norm tofu_keys tofu_laws eq_refl [] 2 s Hs) as (_ & _ & Hin & _).
  apply (Hin 0). by rewrite Hl.
Defined.
