(* ===== verification/Bastion.v ===== *)
(** * Bastion: the shared bastion connections ([internal/sshx/bastion.go])

    [BastionPool] is used by many goroutines at once; its mutex makes the lookup
    of [get], [evict], [broken] and [Close] atomic.  The model is a step relation:
    a state holds the map [conns] (keys to pointers), the store of the [pooled]
    structs the pointers designate, and where each caller of [get] stands; a step
    is one atomic action of one goroutine.  Every interleaving is a sequence of
    steps.

    Connections are numbered in the order in which they are made. *)

From stdpp Require Import gmap list relations.
From S2P Require Import Prelude.

(** [pooled]: [c] and [err] are set before [ready] is closed. *)
Record pooled := mkPooled {
  pKey : string;
  pClient : option nat;
  pErr : bool;
  pReady : bool;
}.

(** What [get] returns. *)
Inductive got := GotConn (e c : nat) | GotError (e : nat) | GotCtx.

(** Where a call of [get] stands. *)
Inductive phase :=
| Calling                  (* before the lookup *)
| Dialing (e : nat)        (* the owner of entry [e] is in [dial] *)
| Evicting (e : nat)       (* the dial failed: about to [evict] *)
| Publishing (e : nat)     (* about to close [ready] *)
| Waiting (e : nat)        (* in the select *)
| Returned (g : got).

Record pool := mkPool {
  conns : gmap string nat;
  store : list pooled;
  callers : gmap nat (string * phase);
  nextConn : nat;
  closed : gset nat;       (* the connections the pool has closed *)
}.

Definition start : pool := mkPool ∅ [] ∅ 0 ∅.

Definition set_caller (i : nat) (k : string) (p : phase) (s : pool) : pool :=
  mkPool (conns s) (store s) (<[i := (k, p)]> (callers s)) (nextConn s) (closed s).
Definition set_entry (e : nat) (en : pooled) (s : pool) : pool :=
  mkPool (conns s) (<[e := en]> (store s)) (callers s) (nextConn s) (closed s).

(** [evict]: the key is dropped only while it still designates this entry. *)
Definition evict (k : string) (e : nat) (s : pool) : pool :=
  if decide (conns s !! k = Some e)
  then mkPool (delete k (conns s)) (store s) (callers s) (nextConn s) (closed s)
  else s.

(** [broken], unless the error says that the bastion refused the tunnel. *)
Definition broken (k : string) (c : nat) (s : pool) : pool :=
  let drop := match conns s !! k with
    | Some e => bool_decide ((store s !! e) ≫= pClient = Some c)
    | None => false
    end in
  mkPool (if drop then delete k (conns s) else conns s)
    (store s) (callers s) (nextConn s) ({[c]} ∪ closed s).

(** [Close]: the entries that are ready are closed, all are dropped. *)
Definition ready_conn (s : pool) (e : nat) : list nat :=
  match store s !! e with
  | Some en => if pReady en then option_list (pClient en) else []
  | None => []
  end.
Definition Close (s : pool) : pool :=
  mkPool ∅ (store s) (callers s) (nextConn s)
    (list_to_set ((map_to_list (conns s)).*2 ≫= ready_conn s) ∪ closed s).

Inductive step : pool → pool → Prop :=
| step_call i k s :                            (* a goroutine calls [get] *)
    callers s !! i = None →
    step s (set_caller i k Calling s)
| step_hit i k e s :                           (* the lookup finds an entry *)
    callers s !! i = Some (k, Calling) → conns s !! k = Some e →
    step s (set_caller i k (Waiting e) s)
| step_miss i k s :                            (* the lookup makes one *)
    callers s !! i = Some (k, Calling) → conns s !! k = None →
    step s (mkPool (<[k := length (store s)]> (conns s))
      (store s ++ [mkPooled k None false false])
      (<[i := (k, Dialing (length (store s)))]> (callers s)) (nextConn s) (closed s))
| step_dialed i k e s :                        (* [dial] succeeds *)
    callers s !! i = Some (k, Dialing e) →
    step s (set_entry e (mkPooled k (Some (nextConn s)) false false)
      (mkPool (conns s) (store s) (<[i := (k, Publishing e)]> (callers s)) (S (nextConn s)) (closed s)))
| step_failed i k e s :                        (* [dial] fails *)
    callers s !! i = Some (k, Dialing e) →
    step s (set_entry e (mkPooled k None true false) (set_caller i k (Evicting e) s))
| step_evict i k e s :
    callers s !! i = Some (k, Evicting e) →
    step s (evict k e (set_caller i k (Publishing e) s))
| step_publish i k e en s :                    (* close(e.ready) *)
    callers s !! i = Some (k, Publishing e) → store s !! e = Some en →
    step s (set_entry e (mkPooled (pKey en) (pClient en) (pErr en) true) (set_caller i k (Waiting e) s))
| step_return i k e en s :                     (* <-e.ready *)
    callers s !! i = Some (k, Waiting e) → store s !! e = Some en → pReady en = true →
    step s (set_caller i k
      (Returned (match pClient en with Some c => GotConn e c | None => GotError e end)) s)
| step_ctx i k e s :                           (* <-ctx.Done() *)
    callers s !! i = Some (k, Waiting e) →
    step s (set_caller i k (Returned GotCtx) s)
| step_lost e en s :                           (* the goroutine after [Wait] *)
    store s !! e = Some en → is_Some (pClient en) →
    step s (evict (pKey en) e s)
| step_broken i k e c s :                      (* a caller reports its connection *)
    callers s !! i = Some (k, Returned (GotConn e c)) →
    step s (broken k c s)
| step_close s : step s (Close s).

Definition reachable (s : pool) : Prop := rtc step start s.

(** ** Invariant *)

(** The goroutine that has to finish entry [e]. *)
Definition owns (p : phase) (e : nat) : Prop :=
  match p with Dialing e' | Evicting e' | Publishing e' => e = e' | _ => False end.

Definition phase_ok (s : pool) (k : string) (p : phase) : Prop :=
  match p with
  | Calling | Returned GotCtx => True
  | Dialing e => store s !! e = Some (mkPooled k None false false)
  | Evicting e => store s !! e = Some (mkPooled k None true false)
  | Publishing e => ∃ en, store s !! e = Some en ∧ pKey en = k ∧ pReady en = false ∧
      (pErr en = true ∧ pClient en = None ∧ conns s !! k ≠ Some e ∨
       pErr en = false ∧ is_Some (pClient en))
  | Waiting e => ∃ en, store s !! e = Some en ∧ pKey en = k
  | Returned (GotConn e c) => ∃ en, store s !! e = Some en ∧ pKey en = k ∧
      pReady en = true ∧ pClient en = Some c ∧ pErr en = false
  | Returned (GotError e) => ∃ en, store s !! e = Some en ∧ pKey en = k ∧
      pReady en = true ∧ pClient en = None ∧ pErr en = true
  end.

Record inv (s : pool) : Prop := {
  inv_callers : ∀ i k p, callers s !! i = Some (k, p) → phase_ok s k p;
  inv_owner : ∀ i j k k' p p' e, callers s !! i = Some (k, p) → callers s !! j = Some (k', p') →
    owns p e → owns p' e → i = j;
  inv_conns : ∀ k e, conns s !! k = Some e → ∃ en, store s !! e = Some en ∧ pKey en = k ∧
    (pReady en = true → is_Some (pClient en)) ∧ (∀ c, pClient en = Some c → c ∉ closed s);
  inv_result : ∀ e en, store s !! e = Some en →
    (is_Some (pClient en) → pErr en = false) ∧ (pReady en = true → pErr en = false → is_Some (pClient en));
  inv_ready : ∀ e en, store s !! e = Some en → pReady en = false →
    ∃ i k p, callers s !! i = Some (k, p) ∧ owns p e;
  inv_fresh : ∀ e en c, store s !! e = Some en → pClient en = Some c → c < nextConn s;
  inv_closed : ∀ c, c ∈ closed s → c < nextConn s;
  inv_distinct : ∀ e e' en en' c, store s !! e = Some en → store s !! e' = Some en' →
    pClient en = Some c → pClient en' = Some c → e = e';
}.

Lemma pool_inv_start : inv start.
Proof. split; set_solver. Qed.

Ltac pool_simpl :=
  unfold set_caller, set_entry in *; simpl in *.

(** Only one caller moves. *)
Lemma set_caller_inv i k p' s :
  inv s → phase_ok s k p' →
  (∀ e, owns p' e → ∃ p, callers s !! i = Some (k, p) ∧ owns p e) →
  (∀ k0 p e, callers s !! i = Some (k0, p) → owns p e → owns p' e) →
  inv (set_caller i k p' s).
Proof.
  intros [H1 H2 H3 H4 H5 H6 H7 H8] Hok Hin Hout. split; pool_simpl; try done.
  - intros j k0 p. rewrite lookup_insert_Some. intros [[<- [= <- <-]]|[_ Hj]]; [done|].
    by apply H1 in Hj.
  - intros j1 j2 k1 k2 p1 p2 e. rewrite !lookup_insert_Some.
    intros [[<- [= <- <-]]|[Hn1 Hj1]] [[<- [= <- <-]]|[Hn2 Hj2]] Ho1 Ho2; [done|..].
    + apply Hin in Ho1 as (p0 & Hp0 & Ho1). by eapply H2.
    + apply Hin in Ho2 as (p0 & Hp0 & Ho2). by eapply H2.
    + by eapply H2.
  - intros e en He Hr. destruct (H5 e en He Hr) as (j & k0 & p & Hj & Ho).
    destruct (decide (j = i)) as [->|Hne].
    + exists i, k, p'. rewrite lookup_insert_eq. eauto.
    + exists j, k0, p. by rewrite lookup_insert_ne.
Qed.

(** Dropping a key that still designates an entry. *)
Lemma drop_inv k s :
  inv s → inv (mkPool (delete k (conns s)) (store s) (callers s) (nextConn s) (closed s)).
Proof.
  intros [H1 H2 H3 H4 H5 H6 H7 H8]. split; simpl; try done.
  - intros i k0 p Hp. apply H1 in Hp. destruct p; simpl in *; try done.
    destruct Hp as (en & He & Hk & Hr & Hc). exists en. split_and!; [done..|].
    destruct Hc as [(He' & Hc & Hn)|Hc]; [left|by right]. split_and!; [done..|].
    rewrite lookup_delete_Some. naive_solver.
  - intros k0 e. rewrite lookup_delete_Some. intros [_ ?]. by apply H3.
Qed.

Lemma evict_inv k e s : inv s → inv (evict k e s).
Proof. intros Hs. unfold evict. case_decide; [by apply drop_inv|done]. Qed.

(** The owner of entry [e] changes it and moves on. *)
Lemma finish_inv i k p p' e en en' n' s :
  inv s → callers s !! i = Some (k, p) → owns p e → store s !! e = Some en →
  pKey en = k → pReady en = false → pKey en' = k →
  phase_ok (mkPool (conns s) (<[e := en']> (store s)) (callers s) n' (closed s)) k p' →
  (pReady en' = false → owns p' e) → (∀ e', owns p' e' → e' = e) →
  ((is_Some (pClient en') → pErr en' = false) ∧
   (pReady en' = true → pErr en' = false → is_Some (pClient en'))) →
  (conns s !! k = Some e → pReady en' = true → is_Some (pClient en')) →
  (∀ c, pClient en' = Some c → c < n' ∧ (pClient en = Some c ∨ nextConn s ≤ c)) →
  nextConn s ≤ n' →
  inv (mkPool (conns s) (<[e := en']> (store s)) (<[i := (k, p')]> (callers s)) n' (closed s)).
Proof.
  intros [H1 H2 H3 H4 H5 H6 H7 H8] Hi Hown He Hk Hnr Hk' Hok Hkeep Hone Hres Hconn Hfresh Hn.
  split; simpl.
  - intros j k0 q. rewrite lookup_insert_Some. intros [[<- [= <- <-]]|[Hij Hj]]; [done|].
    pose proof (H1 _ _ _ Hj) as Hq.
    assert (¬ owns q e) as Hno by (intros Ho; apply Hij; by eapply (H2 i j)).
    destruct q as [|e'|e'|e'|e'|[e' c|e'|]]; simpl in *; try done;
      try (by rewrite list_lookup_insert_ne by done).
    + destruct Hq as (en0 & He0 & Hrest). destruct (decide (e = e')) as [<-|Hne].
      * exists en'. rewrite list_lookup_insert_eq by by eapply lookup_lt_Some.
        simplify_eq. by destruct Hrest as [<- _] || (split; congruence).
      * exists en0. by rewrite list_lookup_insert_ne.
    + destruct Hq as (en0 & He0 & Hrest). exists en0. rewrite list_lookup_insert_ne; [done|].
      intros <-. simplify_eq. destruct Hrest as (_ & Hr & _). congruence.
    + destruct Hq as (en0 & He0 & Hrest). exists en0. rewrite list_lookup_insert_ne; [done|].
      intros <-. simplify_eq. destruct Hrest as (_ & Hr & _). congruence.
  - intros j1 j2 k1 k2 p1 p2 e0. rewrite !lookup_insert_Some.
    intros [[<- [= <- <-]]|[Hn1 Hj1]] [[<- [= <- <-]]|[Hn2 Hj2]] Ho1 Ho2; [done|..].
    + apply Hone in Ho1 as ->. by eapply H2.
    + apply Hone in Ho2 as ->. by eapply H2.
    + by eapply H2.
  - intros k0 e0 Hk0. destruct (H3 k0 e0 Hk0) as (en0 & He0 & Hk1 & Hr & Hc).
    destruct (decide (e = e0)) as [<-|Hne].
    + simplify_eq. exists en'. rewrite list_lookup_insert_eq by by eapply lookup_lt_Some.
      split_and!; [done|done|by apply Hconn|].
      intros c Hc'. destruct (Hfresh c Hc') as [_ [?|Hle]]; [by apply Hc|].
      intros Hin%H7. lia.
    + exists en0. by rewrite list_lookup_insert_ne.
  - intros e0 en0. rewrite list_lookup_insert_Some. intros [(<- & <- & _)|[_ ?]]; [done|by eapply H4].
  - intros e0 en0. rewrite list_lookup_insert_Some. intros [(<- & <- & _)|[Hne He0]] Hr.
    + exists i, k, p'. rewrite lookup_insert_eq. auto.
    + destruct (H5 e0 en0 He0 Hr) as (j & k0 & q & Hj & Ho). exists j, k0, q.
      rewrite lookup_insert_ne; [done|]. intros <-. simplify_eq.
      destruct p; simpl in *; naive_solver.
  - intros e0 en0 c. rewrite list_lookup_insert_Some. intros [(<- & <- & _)|[Hne He0]] Hc.
    + by apply Hfresh.
    + specialize (H6 e0 en0 c He0 Hc). lia.
  - intros c Hc%H7. lia.
  - intros e1 e2 en1 en2 c. rewrite !list_lookup_insert_Some.
    intros [(<- & <- & _)|[Hne1 He1]] [(<- & <- & _)|[Hne2 He2]] Hc1 Hc2; [done|..].
    + destruct (Hfresh c Hc1) as [_ [?|Hle]]; [by eapply H8|]. specialize (H6 _ _ _ He2 Hc2). lia.
    + destruct (Hfresh c Hc2) as [_ [?|Hle]]; [by eapply H8|]. specialize (H6 _ _ _ He1 Hc1). lia.
    + by eapply H8.
Qed.

(** A new entry, owned by the caller that made it. *)
Lemma miss_inv i k s :
  inv s → callers s !! i = Some (k, Calling) → conns s !! k = None →
  inv (mkPool (<[k := length (store s)]> (conns s)) (store s ++ [mkPooled k None false false])
    (<[i := (k, Dialing (length (store s)))]> (callers s)) (nextConn s) (closed s)).
Proof.
  intros [H1 H2 H3 H4 H5 H6 H7 H8] Hi Hk. set (n := length (store s)).
  assert (∀ e en, store s !! e = Some en → (store s ++ [mkPooled k None false false]) !! e = Some en
    ∧ e ≠ n) as Hold.
  { intros e en He. split; [by apply lookup_app_l_Some|]. apply lookup_lt_Some in He. lia. }
  assert (∀ e en, (store s ++ [mkPooled k None false false]) !! e = Some en →
    store s !! e = Some en ∨ e = n ∧ en = mkPooled k None false false) as Hnew.
  { intros e en. rewrite lookup_app_Some. intros [?|[Hle He]]; [by left|].
    apply list_lookup_singleton_Some in He as [? <-]. right. split; [lia|done]. }
  assert (∀ j k0 p, callers s !! j = Some (k0, p) → ¬ owns p n) as Hno.
  { intros j k0 p Hp Ho. apply H1 in Hp.
    destruct p; simpl in *; try done; subst; [| |destruct Hp as (? & Hp & _)];
      apply lookup_lt_Some in Hp; lia. }
  split; simpl.
  - intros j k0 q. rewrite lookup_insert_Some. intros [[<- [= <- <-]]|[Hij Hj]].
    { simpl. by rewrite lookup_app_r, Nat.sub_diag. }
    apply H1 in Hj. destruct q as [|e'|e'|e'|e'|[e' c|e'|]]; simpl in *; try done;
      try (by apply Hold in Hj as [? _]);
      destruct Hj as (en & He & Hrest); apply Hold in He as [? Hne]; exists en;
      (split; [done|try done]).
    destruct Hrest as (? & ? & Hrest). split_and!; [done..|].
    destruct Hrest as [(? & ? & ?)|?]; [left|by right]. split_and!; [done..|].
    rewrite lookup_insert_Some. naive_solver.
  - intros j1 j2 k1 k2 p1 p2 e0. rewrite !lookup_insert_Some.
    intros [[<- [= <- <-]]|[Hn1 Hj1]] [[<- [= <- <-]]|[Hn2 Hj2]] Ho1 Ho2; [done|..];
      simpl in *; subst; try (by exfalso; eapply Hno). by eapply H2.
  - intros k0 e0. rewrite lookup_insert_Some. intros [[<- <-]|[Hne He0]].
    + exists (mkPooled k None false false). by rewrite lookup_app_r, Nat.sub_diag.
    + destruct (H3 k0 e0 He0) as (en & He & Hrest). exists en. by apply Hold in He as [? _].
  - intros e en [He|[-> ->]]%Hnew; [by eapply H4|]. simpl. split; [by intros []|done].
  - intros e en [He|[-> ->]]%Hnew Hr.
    + destruct (H5 e en He Hr) as (j & k0 & p & Hj & Ho). exists j, k0, p.
      rewrite lookup_insert_ne; [done|]. intros <-. simplify_eq. done.
    + exists i, k, (Dialing n). by rewrite lookup_insert_eq.
  - intros e en c [He|[-> ->]]%Hnew Hc; [by eapply H6|done].
  - done.
  - intros e e' en en' c [He|[-> ->]]%Hnew [He'|[-> ->]]%Hnew Hc Hc'; try done. by eapply H8.
Qed.

Lemma broken_inv i k e c s :
  inv s → callers s !! i = Some (k, Returned (GotConn e c)) → inv (broken k c s).
Proof.
  intros Hs Hi. destruct (inv_callers s Hs _ _ _ Hi) as (en & He & Hk & Hr & Hc & Herr).
  assert (inv (mkPool (if match conns s !! k with
    | Some e => bool_decide ((store s !! e) ≫= pClient = Some c) | None => false end
    then delete k (conns s) else conns s) (store s) (callers s) (nextConn s) (closed s))) as Hd.
  { destruct (match conns s !! k with Some _ => _ | None => false end); [by apply drop_inv|].
    by destruct s. }
  destruct Hd as [H1 H2 H3 H4 H5 H6 H7 H8]. split; try done; simpl in *.
  - intros k0 e0 Hk0. destruct (H3 k0 e0 Hk0) as (en0 & He0 & Hke & Hrd & Hcl).
    exists en0. split_and!; [done..|]. intros c0 Hc0. apply not_elem_of_union.
    split; [|by apply Hcl]. rewrite elem_of_singleton. intros ->.
    assert (e0 = e) as -> by (by eapply H8). simplify_eq.
    destruct (conns s !! pKey en) as [e1|] eqn:Ek; [|congruence].
    case_bool_decide as Hb; [by rewrite lookup_delete_eq in Hk0|].
    simplify_eq. apply Hb. by rewrite He.
  - intros c0 [->%elem_of_singleton|?]%elem_of_union; [by eapply H6|by apply H7].
Qed.

Lemma close_inv s : inv s → inv (Close s).
Proof.
  intros [H1 H2 H3 H4 H5 H6 H7 H8]. split; simpl; try done.
  - intros i k p Hp%H1. destruct p; simpl in *; try done.
    destruct Hp as (en & He & Hk & Hr & Hc). exists en. split_and!; [done..|].
    destruct Hc as [(? & ? & _)|?]; [by left|by right].
  - intros c [(e & Hc & _)%elem_of_list_to_set%list_elem_of_bind|?]%elem_of_union; [|by apply H7].
    unfold ready_conn in Hc. destruct (store s !! e) as [en|] eqn:He; [|by apply elem_of_nil in Hc].
    destruct (pReady en); [|by apply elem_of_nil in Hc].
    destruct (pClient en) as [c'|] eqn:Ec; simpl in Hc; [|by apply elem_of_nil in Hc].
    apply list_elem_of_singleton in Hc as ->. by eapply H6.
Qed.

Lemma evict_caller k e i k' p s :
  evict k e (set_caller i k' p s) = set_caller i k' p (evict k e s).
Proof. unfold evict, set_caller. simpl. by case_decide. Qed.
Lemma evict_gone k e s : conns (evict k e s) !! k ≠ Some e.
Proof. unfold evict. case_decide; simpl; [by rewrite lookup_delete_eq|done]. Qed.
Lemma evict_store k e s : store (evict k e s) = store s ∧ callers (evict k e s) = callers s.
Proof. unfold evict. by case_decide. Qed.

Lemma pool_step_inv s s' : inv s → step s s' → inv s'.
Proof.
  intros Hs Hst. destruct Hst as [i k s Hi|i k e s Hi Hk|i k s Hi Hk|i k e s Hi|i k e s Hi
    |i k e s Hi|i k e en s Hi He|i k e en s Hi He Hr|i k e s Hi|e en s He Hc|i k e c s Hi|s].
  - apply set_caller_inv; [done|done|by intros e []|]. intros k0 p e Hp. congruence.
  - apply set_caller_inv; [done| |by intros e' []|by intros k0 p e' Hp; simplify_eq].
    destruct (inv_conns s Hs k e Hk) as (en & He & Hke & _). by exists en.
  - by apply miss_inv.
  - pose proof (inv_callers s Hs _ _ _ Hi) as He. simpl in He.
    eapply (finish_inv i k (Dialing e) (Publishing e) e _ _ (S (nextConn s)) s); simpl; try done.
    + exists (mkPooled k (Some (nextConn s)) false false).
      rewrite list_lookup_insert_eq by by eapply lookup_lt_Some. split_and!; [done..|]. right. eauto.
    + intros c [= <-]. split; [lia|by right].
    + lia.
  - pose proof (inv_callers s Hs _ _ _ Hi) as He. simpl in He.
    eapply (finish_inv i k (Dialing e) (Evicting e) e _ _ (nextConn s) s); simpl; try done.
    by rewrite list_lookup_insert_eq by by eapply lookup_lt_Some.
  - pose proof (inv_callers s Hs _ _ _ Hi) as He. simpl in He.
    rewrite evict_caller. destruct (evict_store k e s) as [Hst Hca].
    apply set_caller_inv; [by apply evict_inv| | |].
    + simpl. rewrite Hst. exists (mkPooled k None true false). split_and!; [done..|].
      left. split_and!; [done..|apply evict_gone].
    + intros e' ->. rewrite Hca. exists (Evicting e). done.
    + intros k0 p e'. rewrite Hca, Hi. by intros [= <- <-].
  - destruct (inv_callers s Hs _ _ _ Hi) as (en' & He' & Hke & Hnr & Hres).
    rewrite He in He'. injection He' as <-. subst k.
    destruct (inv_result s Hs e en He) as [Hr1 Hr2].
    eapply (finish_inv i (pKey en) (Publishing e) (Waiting e) e _ _ (nextConn s) s); simpl; try done.
    + eexists. split; [by rewrite list_lookup_insert_eq by by eapply lookup_lt_Some|done].
    + split; [done|]. intros _ Hf. destruct Hres as [(? & _)|(_ & ?)]; [congruence|done].
    + intros Hc _. destruct Hres as [(_ & _ & ?)|(_ & ?)]; [congruence|done].
    + intros c Hc. split; [by eapply (inv_fresh s Hs)|by left].
  - destruct (inv_callers s Hs _ _ _ Hi) as (en' & He' & Hke).
    rewrite He in He'. injection He' as <-. subst k.
    destruct (inv_result s Hs e en He) as [Hr1 Hr2].
    apply set_caller_inv; [done| |by intros e'; destruct (pClient en)|by intros k0 p e' Hp; simplify_eq].
    destruct (pClient en) as [c|] eqn:Ec; exists en; split_and!; try done.
    + by apply Hr1.
    + destruct (pErr en) eqn:Ep; [done|]. by destruct (Hr2 Hr eq_refl).
  - apply set_caller_inv; [done|done|by intros e' []|by intros k0 p e' Hp; simplify_eq].
  - by apply evict_inv.
  - by eapply broken_inv.
  - by apply close_inv.
Qed.

Lemma pool_reachable_inv s : reachable s → inv s.
Proof.
  revert s. apply (rtc_ind_r inv start); [apply pool_inv_start|].
  intros y z _ Hst Hy. by eapply pool_step_inv.
Qed.

(** ** Properties *)

(** C40: in every interleaving, callers that wait for the same dial
    get the same result, a caller only ever gets a connection made for its own
    key, at most one goroutine is dialing for an entry, and the pool never holds
    a connection that it has closed. *)
Theorem pool_shared (s : pool) :
  reachable s →
  (∀ i j k k' g g' e, callers s !! i = Some (k, Returned g) → callers s !! j = Some (k', Returned g') →
    (g = GotError e ∨ ∃ c, g = GotConn e c) → (g' = GotError e ∨ ∃ c, g' = GotConn e c) →
    k = k' ∧ g = g') ∧
  (∀ i k e c, callers s !! i = Some (k, Returned (GotConn e c)) →
    ∃ en, store s !! e = Some en ∧ pKey en = k ∧ pClient en = Some c) ∧
  (∀ i j k k' p p' e, callers s !! i = Some (k, p) → callers s !! j = Some (k', p') →
    owns p e → owns p' e → i = j) ∧
  (∀ k e en c, conns s !! k = Some e → store s !! e = Some en → pClient en = Some c → c ∉ closed s).
Proof.
  intros [H1 H2 H3 H4 H5 H6 H7 H8]%pool_reachable_inv. split_and!.
  - intros i j k k' g g' e Hi%H1 Hj%H1 Hg Hg'.
    destruct Hg as [->|[c ->]], Hg' as [->|[c' ->]]; simpl in *; naive_solver.
  - intros i k e c (en & ? & ? & _ & ? & _)%H1. by exists en.
  - done.
  - intros k e en c (en' & He' & _ & _ & Hc)%H3 He Hen. simplify_eq. by apply Hc.
Qed.

(** A failed dial is never reused: an entry that a lookup can
    find, once its dial is over, holds a live connection. *)
Theorem pool_redials (s : pool) (k : string) (e : nat) (en : pooled) :
  reachable s → conns s !! k = Some e → store s !! e = Some en → pReady en = true →
  pKey en = k ∧ pErr en = false ∧ ∃ c, pClient en = Some c ∧ c ∉ closed s.
Proof.
  intros [H1 H2 H3 H4 H5 H6 H7 H8]%pool_reachable_inv (en' & He' & Hk & Hr & Hc)%H3 He Hrd.
  simplify_eq. destruct (Hr Hrd) as [c Hcl]. split_and!; [done| |by eauto].
  by eapply (H4 e); [done|rewrite Hcl].
Qed.

(** Nobody waits for ever: while a caller waits, either its
    result is there, or the goroutine that has to provide it can take a step. *)
Theorem pool_progress (s : pool) (i : nat) (k : string) (e : nat) :
  reachable s → callers s !! i = Some (k, Waiting e) →
  ∃ en, store s !! e = Some en ∧
    (pReady en = true ∨ ∃ j k' p s', callers s !! j = Some (k', p) ∧ owns p e ∧ step s s' ∧
       callers s' !! j ≠ callers s !! j).
Proof.
  intros Hs%pool_reachable_inv Hi. destruct (inv_callers s Hs _ _ _ Hi) as (en & He & Hk).
  exists en. split; [done|]. destruct (pReady en) eqn:Er; [by left|right].
  destruct (inv_ready s Hs e en He Er) as (j & k' & p & Hj & Ho).
  destruct p; simpl in Ho; try done; subst.
  - eexists j, k', _, _. split_and!; [done|done|by eapply step_failed|].
    simpl. rewrite lookup_insert_eq, Hj. congruence.
  - eexists j, k', _, _. split_and!; [done|done|by eapply step_evict|].
    rewrite evict_caller. simpl. rewrite lookup_insert_eq, Hj. congruence.
  - eexists j, k', _, _. split_and!; [done|done|by eapply step_publish|].
    simpl. rewrite lookup_insert_eq, Hj. congruence.
Qed.

(** [Close] forgets every connection and closes each one that was
    ready; whoever asks later dials again. *)
Theorem Close_spec (s : pool) :
  conns (Close s) = ∅ ∧
  ∀ k e en c, conns s !! k = Some e → store s !! e = Some en → pReady en = true →
    pClient en = Some c → c ∈ closed (Close s).
Proof.
  split; [done|]. intros k e en c Hk He Hr Hc. simpl. apply elem_of_union_l.
  apply elem_of_list_to_set, list_elem_of_bind. exists e. split.
  - unfold ready_conn. rewrite He, Hr, Hc. simpl. set_solver.
  - apply list_elem_of_fmap. exists (k, e). by rewrite elem_of_map_to_list.
Qed.

(** ** A run: two callers share a dial that fails, a third one dials again *)

Lemma pool_example_run : ∃ s,
  reachable s ∧
  callers s !! 1 = Some ("b", Returned (GotError 0)) ∧
  callers s !! 2 = Some ("b", Returned (GotError 0)) ∧
  callers s !! 3 = Some ("b", Returned (GotConn 1 0)) ∧
  callers s !! 4 = Some ("b", Waiting 1) ∧
  conns s !! "b" = Some 1 ∧ store s !! 1 = Some (mkPooled "b" (Some 0) false true).
Proof.
  eexists. split.
  { eapply rtc_l; [by apply (step_call 1 "b")|]. eapply rtc_l; [by apply (step_call 2 "b")|].
    eapply rtc_l; [by apply (step_miss 1 "b")|]. eapply rtc_l; [by apply (step_hit 2 "b" 0)|].
    eapply rtc_l; [by apply (step_failed 1 "b" 0)|]. eapply rtc_l; [by apply (step_evict 1 "b" 0)|].
    eapply rtc_l; [by eapply (step_publish 1 "b" 0)|].
    eapply rtc_l; [by eapply (step_return 1 "b" 0)|].
    eapply rtc_l; [by eapply (step_return 2 "b" 0)|].
    eapply rtc_l; [by apply (step_call 3 "b")|]. eapply rtc_l; [by apply (step_miss 3 "b")|].
    eapply rtc_l; [by apply (step_call 4 "b")|]. eapply rtc_l; [by apply (step_hit 4 "b" 1)|].
    eapply rtc_l; [by apply (step_dialed 3 "b" 1)|].
    eapply rtc_l; [by eapply (step_publish 3 "b" 1)|].
    eapply rtc_l; [by eapply (step_return 3 "b" 1)|]. apply rtc_refl. }
  by vm_compute.
Qed.

Lemma pool_shared_witness : ∃ s,
  callers s !! 2 = Some ("b", Returned (GotError 0)) ∧
  ∃ en, store s !! 1 = Some en ∧ pKey en = "b" ∧ pClient en = Some 0.
Proof.
  destruct pool_example_run as (s & Hs & H1 & H2 & H3 & _). exists s.
  destruct (pool_shared s Hs) as (_ & Hconn & _ & _). split; [exact H2|].
  exact (Hconn 3 "b" 1 0 H3).
Defined.

Lemma pool_redials_witness : ∃ s c,
  callers s !! 1 = Some ("b", Returned (GotError 0)) ∧ conns s !! "b" = Some 1 ∧ c ∉ closed s.
Proof.
  destruct pool_example_run as (s & Hs & H1 & _ & _ & _ & Hk & He).
  destruct (pool_redials s "b" 1 _ Hs Hk He eq_refl) as (_ & _ & c & _ & Hc). by exists s, c.
Defined.

Lemma pool_progress_witness : ∃ s en,
  callers s !! 4 = Some ("b", Waiting 1) ∧ store s !! 1 = Some en ∧ pReady en = true.
Proof.
  destruct pool_example_run as (s & Hs & _ & _ & _ & H4 & _ & He). exists s.
  destruct (pool_progress s 4 "b" 1 Hs H4) as (en & Hen & _). exists en.
  rewrite He in Hen. injection Hen as <-. done.
Defined.
