(* ===== verification/Report.v ===== *)
(** * Report: results of a run ([internal/runner/report.go])

    The records have the fields of the Go structs; an empty [Category] is
    [None].  [finish] counts the hosts, [OK] decides the exit code. *)

From S2P Require Import Prelude GoStd Domain.

Record StepResult := mkStepResult {
  srName : string;
  srKind : string;
  srCommand : string;
  srStatus : Status;
  srAttempts : Z;
  srExitCode : option Z;
  srStdout : string;
  srStderr : string;
  srTruncated : bool;
  srNote : string;
  srDuration : Z;
  srCategory : option Category;
  srReason : string;
  srStarted : bool;
}.

Record HostResult := mkHostResult {
  hrHost : string;
  hrAddress : string;
  hrStatus : Status;
  hrFailedStep : string;
  hrCategory : option Category;
  hrReason : string;
  hrConnectAttempts : Z;
  hrDuration : Z;
  hrSteps : list StepResult;
}.

Record Summary := mkSummary {
  smTotal : Z; smSuccess : Z; smFailed : Z; smCancelled : Z; smSkipped : Z;
}.

Record Report := mkReport {
  rpJob : string; rpVersion : string; rpHash : string;
  rpStartedAt : Z; rpFinishedAt : Z; rpDuration : Z;
  rpSummary : Summary;
  rpHosts : list HostResult;
}.

(** One turn of the counting loop of [finish]. *)
Definition count_host (s : Summary) (h : HostResult) : Summary :=
  match hrStatus h with
  | StatusSuccess => mkSummary (smTotal s) (smSuccess s + 1) (smFailed s) (smCancelled s) (smSkipped s)
  | StatusCancelled => mkSummary (smTotal s) (smSuccess s) (smFailed s) (smCancelled s + 1) (smSkipped s)
  | StatusSkipped => mkSummary (smTotal s) (smSuccess s) (smFailed s) (smCancelled s) (smSkipped s + 1)
  | StatusFailed => mkSummary (smTotal s) (smSuccess s) (smFailed s + 1) (smCancelled s) (smSkipped s)
  end.

Definition finish (now : Z) (r : Report) : Report :=
  mkReport (rpJob r) (rpVersion r) (rpHash r) (rpStartedAt r) now (time_sub now (rpStartedAt r))
    (foldl count_host (mkSummary (zlen (rpHosts r)) 0 0 0 0) (rpHosts r)) (rpHosts r).

Definition OK (r : Report) : bool := (smSuccess (rpSummary r) =? smTotal (rpSummary r))%Z.

(** [Summary.String] *)
Definition summary_string (s : Summary) : string :=
  let out := itoa (smTotal s) +:+ " hosts: " +:+ itoa (smSuccess s) +:+ " succeeded, " +:+
    itoa (smFailed s) +:+ " failed, " +:+ itoa (smCancelled s) +:+ " cancelled" in
  if (0 <? smSkipped s)%Z then out +:+ ", " +:+ itoa (smSkipped s) +:+ " skipped" else out.

(** [Duration.String] *)
Definition Duration_string (d : Z) : string := duration_string (duration_round d millisecond).

(** ** Properties *)

Definition count (st : Status) (l : list HostResult) : Z :=
  zlen (filter (λ h, hrStatus h = st) l).

Lemma count_cons st h l :
  count st (h :: l) = ((if decide (hrStatus h = st) then 1 else 0) + count st l)%Z.
Proof. unfold count. rewrite filter_cons. case_decide; simpl; lia. Qed.

Lemma count_hosts s l :
  foldl count_host s l =
  mkSummary (smTotal s) (smSuccess s + count StatusSuccess l) (smFailed s + count StatusFailed l)
    (smCancelled s + count StatusCancelled l) (smSkipped s + count StatusSkipped l).
Proof.
  revert s. induction l as [|h l IH]; intros s; simpl.
  - destruct s. unfold count. simpl. f_equal; lia.
  - rewrite IH, !count_cons. unfold count_host.
    destruct (hrStatus h); simpl; rewrite ?decide_True, ?decide_False by done; f_equal; lia.
Qed.

Lemma count_total l :
  (count StatusSuccess l + count StatusFailed l + count StatusCancelled l + count StatusSkipped l =
   zlen l)%Z.
Proof.
  induction l as [|h l IH]; [done|]. rewrite !count_cons. simpl length.
  destruct (hrStatus h); simpl; repeat case_decide; done || lia.
Qed.

Lemma count_all st l : count st l = zlen l ↔ Forall (λ h, hrStatus h = st) l.
Proof.
  assert (∀ l, count st l ≤ zlen l)%Z as Hle.
  { intros l'. unfold count. pose proof (length_filter (λ h, hrStatus h = st) l'). lia. }
  induction l as [|h l IH]; [split; done|]. rewrite count_cons, Forall_cons, <- IH.
  specialize (Hle l). simpl length. case_decide; split; intros; try split; try lia; naive_solver lia.
Qed.

(** The run is OK exactly when every host succeeded. *)
Lemma finish_OK (now : Z) (r : Report) :
  OK (finish now r) = true ↔ ∀ h, h ∈ rpHosts r → hrStatus h = StatusSuccess.
Proof.
  unfold OK, finish. cbn [rpSummary rpHosts]. rewrite count_hosts. cbn [smTotal smSuccess].
  by rewrite Z.add_0_l, Z.eqb_eq, count_all, Forall_forall.
Qed.

(** The summary counts every host exactly once, under its status, and
    the run is OK exactly when every host succeeded: a failed, skipped or
    cancelled host always shows. *)
Theorem finish_summary (now : Z) (r : Report) :
  let s := rpSummary (finish now r) in
  smTotal s = zlen (rpHosts r) ∧
  smSuccess s = count StatusSuccess (rpHosts r) ∧ smFailed s = count StatusFailed (rpHosts r) ∧
  smCancelled s = count StatusCancelled (rpHosts r) ∧ smSkipped s = count StatusSkipped (rpHosts r) ∧
  (smSuccess s + smFailed s + smCancelled s + smSkipped s = smTotal s)%Z ∧
  rpHosts (finish now r) = rpHosts r ∧
  (OK (finish now r) = true ↔ ∀ h, h ∈ rpHosts r → hrStatus h = StatusSuccess).
Proof.
  pose proof (finish_OK now r) as HO. revert HO. unfold finish. cbn [rpSummary rpHosts].
  rewrite count_hosts. cbn [smTotal smSuccess smFailed smCancelled smSkipped].
  rewrite !Z.add_0_l. pose proof (count_total (rpHosts r)). intros HO. by split_and!.
Qed.
