(* ===== verification/Duration.v ===== *)
(** * Duration: texts of durations ([Duration] of [internal/runner/report.go])

    Reports write a duration rounded to milliseconds, as [time.Duration.String]
    prints it, and read it back with [time.ParseDuration]; the flags and the files
    use the same syntax.  [ParseDuration] is modelled with its overflow checks and
    with the double precision that it uses for fractions.

    What [String] prints is read back as the same duration, for every 64-bit
    value ([ParseDuration_string]): the products of fractions are exact. *)

From S2P Require Import Prelude GoStd Float64 Domain Report.

(** ** time.ParseDuration *)

Definition digit (c : ascii) : Z := (Z.of_N (byte_val c) - 48)%Z.

(** [leadingInt]: an overflow is an error. *)
Fixpoint leading_int (x : Z) (s : string) : option (Z * string) :=
  match s with
  | String c s' =>
      if is_digit c then
        if (2 ^ 63 / 10 <? x)%Z then None
        else let x := (x * 10 + digit c)%Z in
          if (2 ^ 63 <? x)%Z then None else leading_int x s'
      else Some (x, s)
  | "" => Some (x, s)
  end.

(** [leadingFraction]: the digits that fit, and their scale. *)
Fixpoint leading_fraction (x : Z) (scale : float64) (overflow : bool) (s : string)
    : Z * float64 * string :=
  match s with
  | String c s' =>
      if is_digit c then
        if overflow then leading_fraction x scale true s'
        else if ((2 ^ 63 - 1) / 10 <? x)%Z then leading_fraction x scale true s'
        else let y := (x * 10 + digit c)%Z in
          if (2 ^ 63 <? y)%Z then leading_fraction x scale true s'
          else leading_fraction y (f64_mul scale (f64_of_Z 10)) false s'
      else (x, scale, s)
  | "" => (x, scale, s)
  end.

(** The unit: everything up to a digit or a point. *)
Definition in_number (c : ascii) : bool := bool_decide (c = "."%char) || is_digit c.
Fixpoint take_unit (s : string) : string * string :=
  match s with
  | String c s' => if in_number c then ("", s) else let '(u, r) := take_unit s' in (String c u, r)
  | "" => ("", "")
  end.
(** [unitMap]; the second and third spelling of [µs] are U+00B5 and U+03BC. *)
Definition unit_of (u : string) : option Z :=
  if bool_decide (u = "ns") then Some nanosecond
  else if bool_decide (u ∈ ["us"; "µs"; "μs"]) then Some microsecond
  else if bool_decide (u = "ms") then Some millisecond
  else if bool_decide (u = "s") then Some second
  else if bool_decide (u = "m") then Some minute
  else if bool_decide (u = "h") then Some hour
  else None.

(** [uint64(float64(f) * (float64(unit) / scale))] *)
Definition fraction (f unit : Z) (scale : float64) : Z :=
  default 0%Z (f64_to_Z (f64_mul (f64_of_Z f) (f64_div (f64_of_Z unit) scale))).

(** One turn of the loop: a number with its unit. *)
Definition parse_part (s : string) : option (Z * string) :=
  match s with
  | "" => None
  | String c _ =>
      if negb (in_number c) then None
      else
        '(v, s1) ← leading_int 0 s;
        let pre := negb (bool_decide (String.length s1 = String.length s)) in
        let '(f, scale, post, s2) :=
          match s1 with
          | String "." s' =>
              let '(f, scale, r) := leading_fraction 0 (f64_of_Z 1) false s' in
              (f, scale, negb (bool_decide (String.length r = String.length s')), r)
          | _ => (0%Z, f64_of_Z 1, false, s1)
          end in
        if negb pre && negb post then None
        else
          let '(u, r) := take_unit s2 in
          unit ← unit_of u;
          if (2 ^ 63 / unit <? v)%Z then None
          else
            let v := (v * unit)%Z in
            let v := if (0 <? f)%Z then (v + fraction f unit scale)%Z else v in
            if (2 ^ 63 <? v)%Z then None else Some (v, r)
  end.

(** The loop; the sum is an unsigned 64-bit number. *)
Fixpoint parse_parts (fuel : nat) (d : Z) (s : string) : option Z :=
  match fuel with
  | O => None
  | S fuel =>
      if bool_decide (s = "") then Some d
      else
        '(v, r) ← parse_part s;
        let d := ((d + v) mod 2 ^ 64)%Z in
        if (2 ^ 63 <? d)%Z then None else parse_parts fuel d r
  end.

(** Every part takes a character at least, so the length of the text is enough
    fuel.  [None] is an error. *)
Definition ParseDuration (s : string) : option Z :=
  let '(neg, s) :=
    match s with
    | String "-" s' => (true, s') | String "+" s' => (false, s') | _ => (false, s) end in
  if bool_decide (s = "0") then Some 0%Z
  else if bool_decide (s = "") then None
  else
    d ← parse_parts (S (String.length s)) 0 s;
    if neg then Some (wrap64 (- d))
    else if (2 ^ 63 - 1 <? d)%Z then None else Some d.

Example parse_examples :
  map ParseDuration ["1h15m30.918s"; "-1.5h"; "+5s"; ".5us"; "0"; "3"; ""; "1x"; "9223372036854775808ns";
    "-9223372036854775808ns"; "1e3s"; "5 s"; "12.3456789µs"] =
  [Some 4530918000000; Some (-5400000000000); Some 5000000000; Some 500; Some 0; None; None; None; None;
   Some (-9223372036854775808); None; None; Some 12345]%Z.
Proof. by vm_compute. Qed.

(** ** Digits *)

(** A text of [j] decimal digits with value [a]. *)
Inductive digits : string → nat → Z → Prop :=
| digits_nil : digits "" 0 0
| digits_cons c s j a : is_digit c = true → digits s j a →
    digits (String c s) (S j) (digit c * 10 ^ Z.of_nat j + a).

(** The text does not go on with a digit. *)
Definition stops_digits (r : string) : Prop := match r with String c _ => is_digit c = false | "" => True end.

Lemma digit_range c : is_digit c = true → (0 ≤ digit c ≤ 9)%Z.
Proof.
  unfold is_digit, in_range, digit. rewrite andb_true_iff, !N.leb_le.
  change (byte_val "0") with 48%N. change (byte_val "9") with 57%N. lia.
Qed.

Lemma digits_range s j a : digits s j a → (0 ≤ a < 10 ^ Z.of_nat j)%Z.
Proof.
  induction 1 as [|c s j a Hc _ IH]; [simpl; lia|]. apply digit_range in Hc.
  rewrite Nat2Z.inj_succ, Z.pow_succ_r by lia. nia.
Qed.

Lemma digits_length s j a : digits s j a → String.length s = j.
Proof. induction 1; simpl; congruence. Qed.

Lemma pretty_char_digit n : (n < 10)%N → is_digit (pretty_N_char n) = true ∧ digit (pretty_N_char n) = Z.of_N n.
Proof.
  intros Hn. assert (n = 0 ∨ n = 1 ∨ n = 2 ∨ n = 3 ∨ n = 4 ∨ n = 5 ∨ n = 6 ∨ n = 7 ∨ n = 8 ∨ n = 9)%N as Hx by lia.
  destruct_or! Hx; subst; done.
Qed.

Lemma pretty_go_digits x s j a :
  digits s j a → ∃ k, digits (pretty_N_go x s) (k + j) (Z.of_N x * 10 ^ Z.of_nat j + a) ∧ ((0 < x)%N → 0 < k).
Proof.
  revert s j a. induction (N.lt_wf_0 x) as [x _ IH]. intros s j a Hs.
  destruct (decide (x = 0)%N) as [->|Hx].
  { exists 0. rewrite pretty_N_go_0. split; [done|lia]. }
  rewrite pretty_N_go_step by lia.
  pose proof (N.mod_lt x 10 ltac:(lia)) as Hm. destruct (pretty_char_digit (x mod 10) Hm) as [Hd Hv].
  destruct (IH (x / 10)%N ltac:(by apply N.div_lt; lia) _ _ _ (digits_cons _ _ _ _ Hd Hs)) as (k & Hk & _).
  exists (S k). split; [|lia]. rewrite Hv in Hk.
  replace (S k + j) with (k + S j) by lia.
  replace (Z.of_N x * 10 ^ Z.of_nat j + a)%Z with
    (Z.of_N (x / 10) * 10 ^ Z.of_nat (S j) + (Z.of_N (x mod 10) * 10 ^ Z.of_nat j + a))%Z; [done|].
  rewrite Nat2Z.inj_succ, Z.pow_succ_r by lia. rewrite (N.div_mod x 10) at 3 by lia.
  rewrite N2Z.inj_add, N2Z.inj_mul. ring.
Qed.

Lemma itoa_digits z : (0 ≤ z)%Z → ∃ j, digits (itoa z) (S j) z.
Proof.
  intros Hz. unfold itoa. destruct z as [|p|]; [|clear Hz|lia].
  - exists 0. apply (digits_cons "0" "" 0 0); [done|constructor].
  - change (pretty (Z.pos p)) with (pretty (N.pos p)). unfold pretty, pretty_N. rewrite decide_False by done.
    destruct (pretty_go_digits (N.pos p) "" 0 0 digits_nil) as (k & Hk & Hpos).
    rewrite Nat.add_0_r, Z.mul_1_r, Z.add_0_r in Hk. destruct k; [lia|]. by exists k.
Qed.

Lemma itoa_head z : (0 ≤ z)%Z → ∃ c t, itoa z = String c t ∧ is_digit c = true.
Proof.
  intros [j Hj]%itoa_digits. remember (itoa z) as s eqn:E. clear E.
  inversion Hj as [|c t j' a Hc _]. by exists c, t.
Qed.

Lemma leading_int_digits s j a x r :
  digits s j a → stops_digits r → (0 ≤ x)%Z → (x * 10 ^ Z.of_nat j + a ≤ 2 ^ 63)%Z →
  leading_int x (s +:+ r) = Some (x * 10 ^ Z.of_nat j + a, r)%Z.
Proof.
  intros Hs Hr. revert x. induction Hs as [|c s j a Hc Hs IH]; intros x Hx Hb.
  { rewrite str_app_nil_l. replace (x * 10 ^ Z.of_nat 0 + 0)%Z with x by (simpl; lia).
    destruct r as [|c r]; [done|]. simpl. by rewrite Hr. }
  rewrite str_app_cons. cbn [leading_int]. rewrite Hc. apply digit_range in Hc.
  pose proof (digits_range _ _ _ Hs) as Ha. pose proof (Z.pow_pos_nonneg 10 (Z.of_nat j)).
  rewrite Nat2Z.inj_succ, Z.pow_succ_r in Hb |- * by lia.
  destruct (Z.ltb_spec (2 ^ 63 / 10) x) as [Hlt|_].
  { exfalso. assert (2 ^ 63 / 10 + 1 ≤ x)%Z by lia.
    assert (2 ^ 63 < 10 * (2 ^ 63 / 10 + 1))%Z by by vm_compute. nia. }
  destruct (Z.ltb_spec (2 ^ 63) (x * 10 + digit c)); [nia|].
  rewrite IH; [|lia|nia]. do 2 f_equal. ring.
Qed.

Definition scaled (j : nat) (scale : float64) : float64 := Nat.iter j (λ s, f64_mul s (f64_of_Z 10)) scale.

Lemma leading_fraction_digits s j a x scale r :
  digits s j a → stops_digits r → (0 ≤ x)%Z → (x * 10 ^ Z.of_nat j + a ≤ 10 ^ 9)%Z →
  leading_fraction x scale false (s +:+ r) = (x * 10 ^ Z.of_nat j + a, scaled j scale, r)%Z.
Proof.
  intros Hs Hr. revert x scale. induction Hs as [|c s j a Hc Hs IH]; intros x scale Hx Hb.
  { rewrite str_app_nil_l. replace (x * 10 ^ Z.of_nat 0 + 0)%Z with x by (simpl; lia).
    destruct r as [|c r]; [done|]. simpl. by rewrite Hr. }
  rewrite str_app_cons. cbn [leading_fraction]. rewrite Hc. apply digit_range in Hc.
  pose proof (digits_range _ _ _ Hs) as Ha. pose proof (Z.pow_pos_nonneg 10 (Z.of_nat j)).
  rewrite Nat2Z.inj_succ, Z.pow_succ_r in Hb |- * by lia.
  assert (x * 10 + digit c ≤ 10 ^ 9)%Z as Hy by nia.
  destruct (Z.ltb_spec ((2 ^ 63 - 1) / 10) x) as [Hlt|_].
  { exfalso. assert (10 ^ 9 < (2 ^ 63 - 1) / 10)%Z by by vm_compute. lia. }
  destruct (Z.ltb_spec (2 ^ 63) (x * 10 + digit c)); [lia|].
  rewrite IH; [|lia|nia]. unfold scaled. rewrite Nat.iter_succ_r.
  do 2 f_equal. ring.
Qed.

(** ** Parts *)

(** The fraction of a number: nothing, or a point and digits. *)
Inductive frac_text : string → nat → Z → Prop :=
| frac_none : frac_text "" 0 0
| frac_some s k f : digits s (S k) f → (0 < f)%Z → frac_text ("." +:+ s) (S k) f.

(** A scale of ten divides the units with a fraction without rounding. *)
Lemma scale_exact p k :
  p ∈ [3; 6; 9] → k ≤ p →
  f64_div (f64_of_Z (10 ^ Z.of_nat p)) (scaled k (f64_of_Z 1)) = f64_of_Z (10 ^ Z.of_nat (p - k)).
Proof.
  intros Hp Hk. rewrite !elem_of_cons, elem_of_nil in Hp. destruct Hp as [->|[->|[->|[]]]];
    repeat (destruct k as [|k]; [by vm_compute|]); lia.
Qed.

Lemma fraction_exact p k f :
  p ∈ [3; 6; 9] → k ≤ p → (0 < f < 10 ^ Z.of_nat k)%Z →
  fraction f (10 ^ Z.of_nat p) (scaled k (f64_of_Z 1)) = (f * 10 ^ Z.of_nat (p - k))%Z.
Proof.
  intros Hp Hk Hf. unfold fraction. rewrite scale_exact by done.
  assert (p ≤ 9) as Hp9 by (rewrite !elem_of_cons, elem_of_nil in Hp; lia).
  pose proof (Z.pow_pos_nonneg 10 (Z.of_nat (p - k)) ltac:(lia) ltac:(lia)) as Hpos.
  assert (f * 10 ^ Z.of_nat (p - k) < 10 ^ 9)%Z as Hlt.
  { apply Z.lt_le_trans with (10 ^ Z.of_nat k * 10 ^ Z.of_nat (p - k))%Z; [nia|].
    rewrite <- Z.pow_add_r by lia. apply Z.pow_le_mono_r; lia. }
  assert (10 ^ 9 < 2 ^ 53)%Z as H9 by by vm_compute.
  rewrite (exactly_to_Z _ (f * 10 ^ Z.of_nat (p - k))); [done| |nia].
  apply mul_exact; try (apply of_Z_exact); nia.
Qed.

Definition unit_text (u : string) : Prop := u ≠ "" ∧ str_forallb (λ c, negb (in_number c)) u = true.
Definition starts_number (r : string) : Prop := match r with String c _ => in_number c = true | "" => True end.

Lemma take_unit_app u r : str_forallb (λ c, negb (in_number c)) u = true → starts_number r →
  take_unit (u +:+ r) = (u, r).
Proof.
  intros Hu Hr. induction u as [|c u IH].
  - rewrite str_app_nil_l. destruct r as [|c r]; [done|]. simpl in *. by rewrite Hr.
  - simpl in Hu. apply andb_true_iff in Hu as [Hc%negb_true_iff Hu].
    rewrite str_app_cons. simpl. by rewrite Hc, (IH Hu).
Qed.

Lemma unit_stops u r : unit_text u → stops_digits (u +:+ r) ∧ ∀ s', u +:+ r ≠ String "." s'.
Proof.
  intros [Hne Hu]. destruct u as [|c u]; [done|]. simpl in Hu. apply andb_true_iff in Hu as [Hc _].
  rewrite str_app_cons. apply negb_true_iff in Hc. unfold in_number in Hc. apply orb_false_iff in Hc as [H1 H2].
  split; [done|]. intros s' [= -> _]. done.
Qed.

(** The value of a part whose fraction is exact. *)
Lemma parse_part_text n fr k f u r p unit :
  (0 ≤ n)%Z → frac_text fr k f → unit_text u → starts_number r → unit_of u = Some unit →
  (fr ≠ "" → p ∈ [3; 6; 9] ∧ unit = (10 ^ Z.of_nat p)%Z ∧ k ≤ p) →
  (n * unit + f * 10 ^ Z.of_nat (p - k) ≤ 2 ^ 63)%Z → (0 < unit)%Z →
  parse_part (itoa n +:+ fr +:+ u +:+ r) = Some (n * unit + f * 10 ^ Z.of_nat (p - k), r)%Z.
Proof.
  intros Hn Hfr Hu Hr Hunit Hp Hb Hpos. destruct (itoa_digits n Hn) as [j Hj].
  destruct (unit_stops u r Hu) as [Hstop Hdot].
  pose proof (digits_length _ _ _ Hj) as Hlen.
  assert (0 ≤ f)%Z as Hf by (destruct Hfr; lia).
  pose proof (Z.pow_pos_nonneg 10 (Z.of_nat (p - k)) ltac:(lia) ltac:(lia)) as Hpk.
  assert (n ≤ 2 ^ 63)%Z as Hn63 by nia.
  assert (stops_digits (fr +:+ u +:+ r)) as Hst by (destruct Hfr; [by rewrite str_app_nil_l|done]).
  assert (leading_int 0 (itoa n +:+ fr +:+ u +:+ r) = Some (n, fr +:+ u +:+ r)) as Hlead.
  { rewrite (leading_int_digits _ _ _ _ _ Hj Hst); [done|lia|lia]. }
  unfold parse_part. destruct (itoa n +:+ fr +:+ u +:+ r) as [|c s] eqn:Es.
  { apply str_app_eq_nil in Es as [Es _]. by rewrite Es in Hlen. }
  assert (in_number c = true) as ->.
  { destruct (itoa_head n Hn) as (c' & t & Ht & Hc). rewrite Ht, str_app_cons in Es. injection Es as -> _.
    unfold in_number. by rewrite Hc, orb_true_r. }
  cbn [negb]. rewrite Hlead. cbn [mbind option_bind].
  rewrite (bool_decide_eq_false_2 (String.length (fr +:+ u +:+ r) = _)).
  2: { rewrite <- Es, (str_length_app (itoa n)), Hlen. lia. }
  assert (2 ^ 63 / unit <? n = false)%Z as Hov.
  { apply Z.ltb_ge. apply Z.div_le_lower_bound; nia. }
  destruct Hfr as [|ds k f Hds Hf0].
  - rewrite str_app_nil_l. replace (match u +:+ r with String "." s' => _ | _ => _ end)
      with (0%Z, f64_of_Z 1, false, u +:+ r).
    2: { destruct (u +:+ r) as [|c0 s0] eqn:E; [done|]. destruct (decide (c0 = "."%char)) as [->|Hc0]; [by destruct (Hdot s0)|].
      clear -Hc0. by repeat (match goal with b : bool |- _ => destruct b end || destruct c0). }
    cbn [negb andb]. rewrite (take_unit_app _ _ (proj2 Hu) Hr), Hunit. cbn [mbind option_bind].
    rewrite Hov. simpl. destruct (Z.ltb_spec (2 ^ 63) (n * unit)); [lia|]. by rewrite Z.add_0_r.
  - change (("." +:+ ds) +:+ u +:+ r) with (String "." (ds +:+ u +:+ r)). cbv iota beta zeta.
    destruct (Hp ltac:(done)) as (Hp3 & -> & Hkp). pose proof (digits_range _ _ _ Hds) as Hfr.
    assert (p ≤ 9) as Hp9 by (rewrite !elem_of_cons, elem_of_nil in Hp3; lia).
    assert (10 ^ Z.of_nat (S k) ≤ 10 ^ 9)%Z as Hk9 by (apply Z.pow_le_mono_r; lia).
    rewrite (leading_fraction_digits _ _ _ 0 _ _ Hds Hstop) by lia. rewrite Z.mul_0_l, Z.add_0_l.
    cbn [negb andb]. rewrite (take_unit_app _ _ (proj2 Hu) Hr), Hunit. cbn [mbind option_bind].
    rewrite Hov, fraction_exact by (done || lia). destruct (Z.ltb_spec 0 f); [|lia].
    destruct (Z.ltb_spec (2 ^ 63) (n * 10 ^ Z.of_nat p + f * 10 ^ Z.of_nat (p - S k))); [lia|done].
Qed.

(** ** What String prints *)

Lemma digits_itoa d s j a :
  (0 ≤ d < 10)%Z → digits s j a → digits (itoa d +:+ s) (S j) (d * 10 ^ Z.of_nat j + a).
Proof.
  intros Hd Hs. assert (∃ c, itoa d = String c "" ∧ is_digit c = true ∧ digit c = d) as (c & -> & Hc & <-).
  { assert (d = 0 ∨ d = 1 ∨ d = 2 ∨ d = 3 ∨ d = 4 ∨ d = 5 ∨ d = 6 ∨ d = 7 ∨ d = 8 ∨ d = 9)%Z as Hx by lia.
    destruct_or! Hx; subst; by eexists. }
  rewrite str_app_cons, str_app_nil_l. by constructor.
Qed.

(** Digits collected from the right, without zeros at the end. *)
Lemma fmt_frac_printing prec v acc j a :
  (0 ≤ v)%Z → digits acc j a → (0 < a)%Z →
  ∃ ds, fmt_frac prec v true acc = ("." +:+ ds, v / 10 ^ Z.of_nat prec)%Z ∧
    digits ds (prec + j) ((v mod 10 ^ Z.of_nat prec) * 10 ^ Z.of_nat j + a).
Proof.
  revert v acc j a. induction prec as [|prec IH]; intros v acc j a Hv Hacc Ha.
  { exists acc. cbn [fmt_frac]. rewrite Z.div_1_r, Z.mod_1_r. done. }
  cbn [fmt_frac]. cbn [orb]. pose proof (Z.mod_pos_bound v 10 ltac:(lia)) as Hm.
  pose proof (digits_itoa _ _ _ _ Hm Hacc) as Hd.
  destruct (IH (v / 10)%Z _ _ _ ltac:(apply Z.div_pos; lia) Hd) as (ds & -> & Hds).
  { pose proof (Z.pow_pos_nonneg 10 (Z.of_nat j)). nia. }
  exists ds. rewrite Nat2Z.inj_succ, Z.pow_succ_r by lia.
  pose proof (Z.pow_pos_nonneg 10 (Z.of_nat prec) ltac:(lia) ltac:(lia)) as Hp.
  split; [by rewrite Z.div_div by lia|]. replace (S prec + j) with (prec + S j) by lia.
  replace ((v mod (10 * 10 ^ Z.of_nat prec)) * 10 ^ Z.of_nat j + a)%Z with
    (((v / 10) mod 10 ^ Z.of_nat prec) * 10 ^ Z.of_nat (S j) + (v mod 10 * 10 ^ Z.of_nat j + a))%Z; [done|].
  rewrite Z.rem_mul_r by lia. rewrite Nat2Z.inj_succ, Z.pow_succ_r by lia. ring.
Qed.

(** The fraction of [v / 10^prec]. *)
Lemma fmt_frac_text prec v :
  (0 ≤ v)%Z →
  ∃ fr k f, fmt_frac prec v false "" = (fr, v / 10 ^ Z.of_nat prec)%Z ∧ frac_text fr k f ∧ k ≤ prec ∧
    (f * 10 ^ Z.of_nat (prec - k) = v mod 10 ^ Z.of_nat prec)%Z.
Proof.
  revert v. induction prec as [|prec IH]; intros v Hv.
  { exists "", 0, 0%Z. cbn [fmt_frac]. rewrite Z.div_1_r, Z.mod_1_r. split_and!; [done|constructor|done|done]. }
  cbn [fmt_frac]. cbn [orb]. pose proof (Z.mod_pos_bound v 10 ltac:(lia)) as Hm.
  pose proof (Z.pow_pos_nonneg 10 (Z.of_nat prec) ltac:(lia) ltac:(lia)) as Hp.
  assert (v mod 10 ^ Z.of_nat (S prec) = 10 * ((v / 10) mod 10 ^ Z.of_nat prec) + v mod 10)%Z as Hmod.
  { rewrite Nat2Z.inj_succ, Z.pow_succ_r, Z.rem_mul_r by lia. lia. }
  assert (v / 10 ^ Z.of_nat (S prec) = v / 10 / 10 ^ Z.of_nat prec)%Z as ->.
  { by rewrite Nat2Z.inj_succ, Z.pow_succ_r, Z.div_div by lia. }
  assert (0 ≤ v / 10)%Z as Hv10 by (apply Z.div_pos; lia).
  destruct (Z.eqb_spec (v mod 10) 0) as [Hz|Hz]; cbn [negb].
  - destruct (IH (v / 10)%Z Hv10) as (fr & k & f & -> & Hfr & Hk & Hf).
    exists fr, k, f. split_and!; [done|done|lia|]. rewrite Hmod, <- Hf, Hz.
    replace (S prec - k) with (S (prec - k)) by lia. rewrite Nat2Z.inj_succ, Z.pow_succ_r by lia. ring.
  - pose proof (digits_itoa _ _ _ _ Hm digits_nil) as Hd. rewrite Z.mul_1_r, Z.add_0_r in Hd.
    destruct (fmt_frac_printing prec (v / 10) _ _ _ Hv10 Hd) as (ds & -> & Hds); [lia|].
    rewrite Nat.add_1_r in Hds. eexists _, (S prec), _. split; [done|]. split; [apply (frac_some _ _ _ Hds)|].
    + pose proof (Z.mod_pos_bound (v / 10) (10 ^ Z.of_nat prec)). lia.
    + split; [lia|]. rewrite Nat.sub_diag, Hmod. simpl. lia.
Qed.

(** ** Reading it back *)

(** Every part takes a character at least, so the length of the text is enough
    fuel. *)
Lemma leading_int_length x s v r : leading_int x s = Some (v, r) → String.length r ≤ String.length s.
Proof.
  revert x. induction s as [|c s IH]; intros x; cbn [leading_int]; [by intros [= <- <-]|].
  destruct (is_digit c); [|by intros [= <- <-]].
  destruct (_ <? x)%Z; [done|]. destruct (_ <? _)%Z; [done|]. intros Hr%IH. simpl. lia.
Qed.
Lemma leading_fraction_length x sc b s : String.length (leading_fraction x sc b s).2 ≤ String.length s.
Proof.
  revert x sc b. induction s as [|c s IH]; intros x sc b; cbn [leading_fraction]; [done|].
  destruct (is_digit c); [|done].
  destruct b; [|destruct (_ <? x)%Z; [|destruct (_ <? _)%Z]]; simpl; etrans; try apply IH; lia.
Qed.
Lemma take_unit_length s : String.length s = String.length (take_unit s).1 + String.length (take_unit s).2.
Proof.
  induction s as [|c s IH]; [done|]. cbn [take_unit]. destruct (in_number c); [done|].
  destruct (take_unit s) as [u r]. simpl in *. lia.
Qed.
Lemma parse_part_length s v r : parse_part s = Some (v, r) → String.length r < String.length s.
Proof.
  unfold parse_part. destruct s as [|c s]; [done|]. destruct (negb (in_number c)); [done|].
  destruct (leading_int 0 (String c s)) as [[n s1]|] eqn:E; [|done]. apply leading_int_length in E.
  cbn [mbind option_bind]. set (t := match s1 with String "." s' => _ | _ => _ end).
  assert (String.length t.2 ≤ String.length s1) as Ht.
  { unfold t. repeat case_match; simplify_eq/=; try lia.
    match goal with H : leading_fraction ?x ?sc ?b ?s = _ |- _ =>
      pose proof (leading_fraction_length x sc b s) as Hl; rewrite H in Hl end. simpl in Hl. lia. }
  destruct t as [[[f scale] post] s2]. destruct (_ && _); [done|].
  pose proof (take_unit_length s2) as Hu. simpl in Ht. destruct (take_unit s2) as [u r'].
  destruct (unit_of u) as [unit|] eqn:Eu; [|done]. cbn [mbind option_bind].
  destruct (_ <? n)%Z; [done|]. destruct (_ <? _)%Z; [done|]. intros [= _ <-]. simpl in Hu.
  destruct u; [by vm_compute in Eu|]. simpl in Hu. lia.
Qed.
Lemma parse_parts_fuel fuel fuel' d s v :
  parse_parts fuel d s = Some v → String.length s < fuel' → parse_parts fuel' d s = Some v.
Proof.
  revert fuel' d s. induction fuel as [|fuel IH]; intros fuel' d s E Hf; [done|].
  destruct fuel' as [|fuel']; [lia|]. cbn [parse_parts] in *. case_bool_decide; [done|].
  destruct (parse_part s) as [[v' r]|] eqn:Ep; [|done]. apply parse_part_length in Ep.
  cbn [mbind option_bind] in *. destruct (_ <? _)%Z; [done|]. apply IH; [done|lia].
Qed.

Lemma starts_itoa n s : (0 ≤ n)%Z → starts_number (itoa n +:+ s).
Proof.
  intros Hn. destruct (itoa_head n Hn) as (c & t & -> & Hc). rewrite str_app_cons. simpl.
  unfold in_number. by rewrite Hc, orb_true_r.
Qed.

Lemma parse_step fuel d s v r :
  parse_part s = Some (v, r) → (0 ≤ d)%Z → (0 ≤ v)%Z → (d + v ≤ 2 ^ 63)%Z →
  parse_parts (S fuel) d s = parse_parts fuel (d + v) r.
Proof.
  intros Hp Hd Hv Hb. cbn [parse_parts]. rewrite bool_decide_eq_false_2 by (by intros ->). rewrite Hp.
  cbn [mbind option_bind]. rewrite Z.mod_small by lia. by destruct (Z.ltb_spec (2 ^ 63) (d + v)); [lia|].
Qed.

(** A whole number of a unit. *)
Lemma parse_whole fuel d n u r unit :
  (0 ≤ n)%Z → (0 ≤ d)%Z → unit_text u → starts_number r → unit_of u = Some unit → (0 < unit)%Z →
  (d + n * unit ≤ 2 ^ 63)%Z →
  parse_parts (S fuel) d (itoa n +:+ u +:+ r) = parse_parts fuel (d + n * unit) r.
Proof.
  intros Hn Hd Hu Hr Hunit Hpos Hb. apply parse_step; [|lia|nia|lia].
  rewrite <- (Z.add_0_r (n * unit)). apply (parse_part_text n "" 0 0 u r 0 unit); try done; [constructor|lia].
Qed.

(** The last part, with its fraction. *)
Lemma parse_last fuel d p n fr k f v u :
  p ∈ [0; 3; 6; 9] → unit_text u → unit_of u = Some (10 ^ Z.of_nat p)%Z → (0 ≤ d)%Z → (0 ≤ n)%Z →
  frac_text fr k f → k ≤ p → v = (n * 10 ^ Z.of_nat p + f * 10 ^ Z.of_nat (p - k))%Z → (d + v ≤ 2 ^ 63)%Z →
  parse_parts (S (S fuel)) d (itoa n +:+ fr +:+ u) = Some (d + v)%Z.
Proof.
  intros Hp Hu Hunit Hd Hn Hfr Hk Hv Hb.
  pose proof (Z.pow_pos_nonneg 10 (Z.of_nat p) ltac:(lia) ltac:(lia)) as Hpos.
  assert (0 ≤ f * 10 ^ Z.of_nat (p - k))%Z as Hf.
  { pose proof (Z.pow_pos_nonneg 10 (Z.of_nat (p - k))). destruct Hfr; nia. }
  rewrite (parse_step _ _ _ v ""); [by cbn [parse_parts]| |lia|nia|lia].
  rewrite Hv. rewrite <- (str_app_nil_r u). apply (parse_part_text _ _ k); try done; [|lia].
  intros Hne. split_and!; [|done|done]. destruct Hfr as [|ds k f _ _]; [done|].
  apply elem_of_cons in Hp as [->|Hp]; [lia|done].
Qed.

(** How [fmtFrac] splits a number of nanoseconds. *)
Lemma fmt_frac_split p u :
  (0 < u)%Z → ∃ fr k f, fmt_frac p u false "" = (fr, u / 10 ^ Z.of_nat p)%Z ∧ frac_text fr k f ∧ k ≤ p ∧
    (0 ≤ f * 10 ^ Z.of_nat (p - k))%Z ∧
    u = (u / 10 ^ Z.of_nat p * 10 ^ Z.of_nat p + f * 10 ^ Z.of_nat (p - k))%Z.
Proof.
  intros Hu. destruct (fmt_frac_text p u ltac:(lia)) as (fr & k & f & E & Hfr & Hk & Hf).
  exists fr, k, f. split_and!; [done..| |].
  - pose proof (Z.pow_pos_nonneg 10 (Z.of_nat (p - k))). destruct Hfr; nia.
  - rewrite Hf, (Z.mul_comm (u / _)). apply Z.div_mod. pose proof (Z.pow_pos_nonneg 10 (Z.of_nat p)). lia.
Qed.

Lemma parse_body_small u fuel :
  (0 < u < second)%Z → parse_parts (S (S fuel)) 0 (duration_string u) = Some u.
Proof.
  intros Hu. assert (u ≤ 2 ^ 63)%Z as Hb by (assert (second < 2 ^ 63)%Z by done; lia).
  unfold duration_string. rewrite (Z.abs_eq u) by lia.
  destruct (Z.ltb_spec u 0); [lia|]. destruct (Z.ltb_spec u second); [|lia].
  destruct (Z.eqb_spec u 0); [lia|].
  assert (∀ p suffix, p ∈ [0; 3; 6; 9] → unit_text suffix → unit_of suffix = Some (10 ^ Z.of_nat p)%Z →
    parse_parts (S (S fuel)) 0
      (let '(frac, n) := fmt_frac p u false "" in itoa n +:+ frac +:+ suffix) = Some u) as Hgo.
  { intros p suffix Hp Hs Hun. destruct (fmt_frac_split p u ltac:(lia)) as (fr & k & f & -> & Hfr & Hk & _ & Hv).
    apply (parse_last _ 0 p _ _ k f u); try done.
    apply Z.div_pos; [lia|apply Z.pow_pos_nonneg; lia]. }
  destruct (u <? microsecond)%Z; [|destruct (u <? millisecond)%Z]; apply Hgo; try done; set_solver.
Qed.

Lemma parse_body_large u fuel :
  (second ≤ u ≤ 2 ^ 63)%Z → parse_parts (S (S (S (S fuel)))) 0 (duration_string u) = Some u.
Proof.
  intros Hu. assert (second = 1000000000%Z) as Hsec by done. assert (minute = 60000000000%Z) as Hmin by done.
  assert (hour = 3600000000000%Z) as Hhour by done.
  unfold duration_string. rewrite (Z.abs_eq u) by lia.
  destruct (Z.ltb_spec u 0); [lia|]. destruct (Z.ltb_spec u second); [lia|].
  destruct (fmt_frac_split 9 u ltac:(lia)) as (fr & k & f & -> & Hfr & Hk & Hf & Hv).
  change (10 ^ Z.of_nat 9)%Z with second in *. set (n := (u / second)%Z) in *.
  assert (0 ≤ n)%Z as Hn by (apply Z.div_pos; lia).
  pose proof (Z.mod_pos_bound n 60 ltac:(lia)) as Hs.
  assert (0 ≤ n / 60)%Z as Hm by (apply Z.div_pos; lia).
  assert (0 ≤ n / 60 / 60)%Z as Hh by (apply Z.div_pos; lia).
  pose proof (Z.mod_pos_bound (n / 60) 60 ltac:(lia)) as Hmm.
  pose proof (Z.div_mod n 60 ltac:(lia)) as En. pose proof (Z.div_mod (n / 60) 60 ltac:(lia)) as Em.
  assert (∀ fuel d, (0 ≤ d)%Z → (d + (n mod 60 * second + f * 10 ^ Z.of_nat (9 - k)) ≤ 2 ^ 63)%Z →
    parse_parts (S (S fuel)) d (itoa (n mod 60) +:+ fr +:+ "s") =
    Some (d + (n mod 60 * second + f * 10 ^ Z.of_nat (9 - k)))%Z) as Hsecs.
  { intros fuel' d Hd Hb. apply (parse_last _ d 9 _ _ k f); try done; [set_solver|lia]. }
  clearbody n. rewrite Hsec in *.
  destruct (Z.eqb_spec (n / 60) 0) as [Hz|Hz].
  { rewrite Hsecs by lia. f_equal. lia. }
  assert (∀ m s, (0 ≤ m)%Z → starts_number (itoa m +:+ s)) as Hst by (intros; by apply starts_itoa).
  assert (∀ c, in_number c = false → unit_text (String c "")) as Hunit.
  { intros c Hc. split; [done|]. simpl. by rewrite Hc. }
  destruct (Z.eqb_spec (n / 60 / 60) 0) as [Hz'|Hz'].
  - rewrite (parse_whole _ 0 _ "m" _ minute); [|lia|lia|by apply Hunit|apply Hst; lia|done|lia|lia].
    rewrite Hsecs by lia. f_equal. lia.
  - rewrite (parse_whole _ 0 _ "h" _ hour); [|lia|lia|by apply Hunit|apply Hst; lia|done|lia|lia].
    rewrite (parse_whole _ _ _ "m" _ minute); [|lia|lia|by apply Hunit|apply Hst; lia|done|lia|lia].
    rewrite Hsecs by lia. f_equal. lia.
Qed.

Lemma parse_body u fuel :
  (0 < u ≤ 2 ^ 63)%Z → 3 ≤ fuel → parse_parts (S fuel) 0 (duration_string u) = Some u.
Proof.
  intros Hu Hfuel. do 3 (destruct fuel as [|fuel]; [lia|]).
  destruct (Z.ltb_spec u second); [apply parse_body_small|apply parse_body_large]; lia.
Qed.

Lemma duration_string_head u : (0 ≤ u)%Z → ∃ c s, duration_string u = String c s ∧ is_digit c = true.
Proof.
  intros Hu. assert (∀ n s, (0 ≤ n)%Z → ∃ c t, itoa n +:+ s = String c t ∧ is_digit c = true) as Hi.
  { intros n s Hn. destruct (itoa_head n Hn) as (c & t & -> & Hc). rewrite str_app_cons. by eexists _, _. }
  assert (∀ p, (0 ≤ snd (fmt_frac p u false ""))%Z) as Hsnd.
  { intros p. destruct (fmt_frac_text p u Hu) as (fr & k & f & -> & _). simpl.
    apply Z.div_pos; [lia|apply Z.pow_pos_nonneg; lia]. }
  unfold duration_string. rewrite (Z.abs_eq u) by lia. destruct (Z.ltb_spec u 0); [lia|].
  destruct (u <? second)%Z; [destruct (u =? 0)%Z; [by eexists _, _|]|].
  - destruct (u <? microsecond)%Z; [|destruct (u <? millisecond)%Z];
      [pose proof (Hsnd 0) as Hn|pose proof (Hsnd 3) as Hn|pose proof (Hsnd 6) as Hn];
      destruct (fmt_frac _ u false "") as [fr n]; by apply Hi.
  - specialize (Hsnd 9). destruct (fmt_frac 9 u false "") as [fr n]. simpl in Hsnd.
    assert (0 ≤ n / 60)%Z by (apply Z.div_pos; lia).
    destruct (n / 60 =? 0)%Z; [|destruct (n / 60 / 60 =? 0)%Z]; apply Hi;
      [apply Z.mod_pos_bound; lia|apply Z.mod_pos_bound; lia|apply Z.div_pos; lia].
Qed.

(** The sign does not change the rest. *)
Lemma duration_string_neg u : (0 < u)%Z → duration_string (- u) = "-" +:+ duration_string u.
Proof.
  intros Hu. unfold duration_string. rewrite Z.abs_opp.
  destruct (Z.ltb_spec (- u) 0); [|lia]. destruct (Z.ltb_spec u 0); [lia|done].
Qed.

Lemma ParseDuration_string d :
  (- 2 ^ 63 ≤ d < 2 ^ 63)%Z → ParseDuration (duration_string d) = Some d.
Proof.
  intros Hd. destruct (decide (d = 0%Z)) as [->|Hne]; [done|].
  assert (∀ u, (0 < u ≤ 2 ^ 63)%Z → ∃ c s, duration_string u = String c s ∧ is_digit c = true ∧
    String c s ≠ "0" ∧ parse_parts (S (String.length (String c s))) 0 (String c s) = Some u) as Hbody.
  { intros u Hu. destruct (duration_string_head u) as (c & s & E & Hc); [lia|].
    pose proof (parse_body u 3 Hu ltac:(lia)) as Hp. rewrite E in Hp. exists c, s.
    split_and!; [done|done| |]; [|eapply parse_parts_fuel; [exact Hp|lia]].
    intros [= -> ->]. by vm_compute in Hp. }
  unfold ParseDuration. destruct (Z.lt_trichotomy d 0) as [Hneg|[?|Hpos]]; [|done|].
  - replace d with (- (- d))%Z by lia. rewrite duration_string_neg by lia.
    destruct (Hbody (- d)%Z) as (c & s & -> & Hc & H0 & Hp); [lia|]. rewrite str_app_cons, str_app_nil_l.
    rewrite bool_decide_eq_false_2, bool_decide_eq_false_2, Hp by done. cbn [mbind option_bind].
    f_equal. rewrite wrap64_id; lia.
  - destruct (Hbody d) as (c & s & -> & Hc & H0 & Hp); [lia|].
    replace (match String c s with String "-" s' => (true, s') | String "+" s' => (false, s')
      | _ => (false, String c s) end) with (false, String c s).
    2: { clear -Hc. destruct c as [[] [] [] [] [] [] [] []]; done. }
    rewrite bool_decide_eq_false_2, bool_decide_eq_false_2, Hp by done. cbn [mbind option_bind].
    destruct (Z.ltb_spec (2 ^ 63 - 1) d); [lia|done].
Qed.

(** ** Durations of a report *)

(** [MarshalJSON] and [UnmarshalJSON]; the second gives the error (that of the
    decoder, or one of [ParseDuration], whose text is left out) and the value that
    is stored, if any. *)
Inductive read_error := NotText (e : string) | NotDuration.
Definition MarshalJSON (json : string → res string string) (d : Z) : res string string :=
  json (Duration_string d).
Definition UnmarshalJSON (unjson : string → res string string) (b : string) : option read_error * option Z :=
  match unjson b with
  | Err e => (Some (NotText e), None)
  | Ok s =>
      match ParseDuration s with
      | Some v => (None, Some v)
      | None => (Some NotDuration, Some 0%Z)
      end
  end.

Lemma duration_round_range d m :
  (0 < m ≤ 2 ^ 62)%Z → (- 2 ^ 63 ≤ d < 2 ^ 63)%Z → (- 2 ^ 63 ≤ duration_round d m < 2 ^ 63)%Z.
Proof.
  intros Hm Hd. unfold duration_round.
  destruct (Z.ltb_spec d 0).
  - pose proof (Z.rem_bound_pos_neg d m ltac:(lia) ltac:(lia)).
    destruct (Z.ltb_spec (- Z.rem d m + - Z.rem d m) m); [lia|].
    destruct (Z.ltb_spec (d - m + - Z.rem d m) (- 2 ^ 63)); lia.
  - pose proof (Z.rem_bound_pos d m ltac:(lia) ltac:(lia)). pose proof (Z.rem_le d m ltac:(lia) ltac:(lia)).
    destruct (Z.ltb_spec (Z.rem d m + Z.rem d m) m); [lia|].
    destruct (Z.ltb_spec (2 ^ 63 - 1) (d + m - Z.rem d m)); lia.
Qed.

(** The rounding moves a duration by half of the multiple at most. *)
Lemma duration_round_near d m :
  (0 < m ≤ 2 ^ 62)%Z → (- 2 ^ 63 ≤ d < 2 ^ 63)%Z → (2 * Z.abs (duration_round d m - d) ≤ m)%Z.
Proof.
  intros Hm Hd. unfold duration_round. destruct (Z.ltb_spec d 0).
  - pose proof (Z.rem_bound_pos_neg d m ltac:(lia) ltac:(lia)).
    destruct (Z.ltb_spec (- Z.rem d m + - Z.rem d m) m); [lia|].
    destruct (Z.ltb_spec (d - m + - Z.rem d m) (- 2 ^ 63)); lia.
  - pose proof (Z.rem_bound_pos d m ltac:(lia) ltac:(lia)).
    destruct (Z.ltb_spec (Z.rem d m + Z.rem d m) m); [lia|].
    destruct (Z.ltb_spec (2 ^ 63 - 1) (d + m - Z.rem d m)); lia.
Qed.

(** A duration of a saved report is read back as the duration that
    was written, rounded to milliseconds: whatever 64-bit value it has, parsing
    what [String] prints loses nothing, and the rounding moves it by half a
    millisecond at most. *)
Theorem Duration_read_back (json unjson : string → res string string) (d : Z) (b : string) :
  (∀ s b, json s = Ok b → unjson b = Ok s) → (- 2 ^ 63 ≤ d < 2 ^ 63)%Z → MarshalJSON json d = Ok b →
  ∃ v, UnmarshalJSON unjson b = (None, Some v) ∧ duration_string v = Duration_string d ∧
    (2 * Z.abs (v - d) ≤ millisecond)%Z.
Proof.
  intros Hjson Hd Hb. unfold MarshalJSON in Hb. apply Hjson in Hb.
  assert (0 < millisecond ≤ 2 ^ 62)%Z as Hm by by vm_compute.
  exists (duration_round d millisecond). split_and!; [|done|by apply duration_round_near].
  unfold UnmarshalJSON, Duration_string in *. rewrite Hb, ParseDuration_string; [done|].
  by apply duration_round_range.
Qed.

Lemma Duration_read_back_witness :
  MarshalJSON Ok (- 2 ^ 63) = Ok "-2562047h47m16.854775808s" ∧
  ∃ v, UnmarshalJSON Ok "-2562047h47m16.854775808s" = (None, Some v) ∧ (2 * Z.abs (v - - 2 ^ 63) ≤ millisecond)%Z.
Proof.
  assert (MarshalJSON Ok (- 2 ^ 63) = Ok "-2562047h47m16.854775808s") as E by by vm_compute.
  split; [exact E|]. assert (∀ s b : string, Ok (E := string) s = Ok b → Ok (E := string) b = Ok s) as Hj.
  { intros s b Hb. by injection Hb as ->. }
  destruct (Duration_read_back Ok Ok (- 2 ^ 63) _ Hj ltac:(lia) E) as (v & Hv & _ & Hn).
  exists v. exact (conj Hv Hn).
Defined.
