(* ===== verification/Runner.v ===== *)
(** * Runner: one host, from the connection to the last step
    ([internal/runner/runner.go])

    [runHost] and everything below it ([connect], [runStep], [attempt], [check],
    [runDisconnecting], [waitForHost], ...) in a state monad over a world [W].
    What the transport does is the class [Transport]; [TransportLaws] is what the
    theorems need of it, and [Exec] provides it.  The state also records the
    trace of what the runner asked for: connections, commands, pauses.

    A result [Panic] is a Go panic, [NoFuel] the end of the fuel of the two
    loops without a bound of their own ([connect], [waitForHost]). *)

From S2P Require Import Prelude GoStd Domain Build Credentials Exec Report.

(** ** The transport *)

(** [Plan]; a nil [*Auth] is [None]. *)
Record Plan (Signer : Type) := mkPlan {
  plTarget : Target;
  plActions : list Action;
  plAuth : option (@Auth Signer);
  plBastion : option (@Auth Signer);
}.
Arguments mkPlan {Signer}.
Arguments plTarget {Signer}.
Arguments plActions {Signer}.
Arguments plAuth {Signer}.
Arguments plBastion {Signer}.

(** One [Hop] of a dial: address, user and methods. *)
Record Hop (Signer : Type) := mkHop {
  hopAddr : string; hopUser : string; hopMethods : list (@AuthMethod Signer);
}.
Arguments mkHop {Signer}.

Class Transport (W Signer : Type) := {
  (** [Dialer.Dial] under a context with an optional deadline *)
  tr_dial : option Z → Hop Signer → option (Hop Signer) → W → option error * W;
  (** [sshx.Exec], [Alive], [KeepAlive] and its stop function, [Client.Close] *)
  tr_exec : nat → Request → W → Result * option error * W;
  tr_alive : nat → Z → W → bool * W;
  tr_keepalive : nat → Z → Z → W → W;
  tr_stop : nat → W → W;
  tr_close : nat → W → W;
  (** a timer against the context: the context's error if it is done first *)
  tr_wait : Z → W → option error * W;
  tr_now : W → Z;
  tr_ctx_err : W → option error;
  (** [rand.N] *)
  tr_rand : Z → W → Z * W;
}.

(** ** The monad *)

Inductive event :=
| EDial (c : option nat)             (* the new client, or [None] if it failed *)
| EExec (c : nat) (rq : Request)
| EClose (c : nat)
| EAlive (c : nat)
| ESleep (d : Z).

Record state (W : Type) := mkState { world : W; clients : nat; trace : list event }.
Arguments mkState {W}.
Arguments world {W}.
Arguments clients {W}.
Arguments trace {W}.

Inductive out (W A : Type) := Ret (a : A) (s : state W) | Panic | NoFuel.
Arguments Ret {W A}.
Arguments Panic {W A}.
Arguments NoFuel {W A}.

Definition M (W A : Type) := state W → out W A.
Definition ret {W A} (a : A) : M W A := λ s, Ret a s.
Definition bind {W A B} (m : M W A) (f : A → M W B) : M W B := λ s,
  match m s with Ret a s => f a s | Panic => Panic | NoFuel => NoFuel end.
Notation "'let!' x ':=' m 'in' k" := (bind m (fun x => k))
  (at level 10, x name, m at level 100, k at level 200) : rco_scope.
Notation "m ';!' k" := (bind m (fun _ => k)) (at level 100, right associativity) : rco_scope.

Section ops.
Context {W Signer : Type} `{!Transport W Signer}.

(** An effect on the world, and an event. *)
Definition lift {A} (f : W → A * W) (ev : A → list event) : M W A := λ s,
  let '(a, w) := f (world s) in Ret a (mkState w (clients s) (trace s ++ ev a)).

Definition now : M W Z := λ s, Ret (tr_now (world s)) s.
Definition ctx_err : M W (option error) := λ s, Ret (tr_ctx_err (world s)) s.
Definition exec (c : nat) (rq : Request) : M W (Result * option error) :=
  lift (λ w, let '(r, e, w) := tr_exec c rq w in ((r, e), w)) (λ _, [EExec c rq]).
Definition alive (c : nat) (timeout : Z) : M W bool := lift (tr_alive c timeout) (λ _, [EAlive c]).
Definition close (c : nat) : M W unit := lift (λ w, (tt, tr_close c w)) (λ _, [EClose c]).
Definition keepalive_start (c : nat) (interval misses : Z) : M W unit :=
  lift (λ w, (tt, tr_keepalive c interval misses w)) (λ _, []).
Definition keepalive_stop (c : nat) : M W unit := lift (λ w, (tt, tr_stop c w)) (λ _, []).
Definition rand (n : Z) : M W Z := lift (tr_rand n) (λ _, []).
Definition wait (d : Z) : M W (option error) := lift (tr_wait d) (λ _, [ESleep d]).

(** ** Helpers *)

(** [sleep] *)
Definition sleep (d : Z) : M W (option error) :=
  if (d <=? 0)%Z then ctx_err else wait d.

(** [backoff]; [rand.N] panics on a number that is not positive. *)
Definition backoff (base maxDelay : Z) (attempt : nat) : M W Z :=
  let d := wrap64 (base * 2 ^ Z.of_nat (attempt - 1)) in
  let d := if (maxDelay <? d)%Z || (d <=? 0)%Z then maxDelay else d in
  let n := wrap64 (Z.quot d 2 + 1) in
  if (n <=? 0)%Z then (λ _, Panic)
  else let! r := rand n in ret (wrap64 (Z.quot d 2 + r)).

Definition lastLine (s : string) : string :=
  trim_space (after_last "010" (trim_space s)).
End ops.

(** [Env] and [Logger] are arguments of what uses them; [OnHostDone] is the
    component [Schedule]'s. *)
Record Options := mkOptions {
  opConcurrency : Z;
  opConnectTimeout : Z;
  opHandshakeTimeout : Z;
  opStepTimeout : Z;
  opConnectRetries : Z;
  opRetryDelay : Z;
  opMaxRetryDelay : Z;
  opMaxOutput : Z;
  opKnownHosts : string;
  opAcceptNewHosts : bool;
  opInsecure : bool;
  opSkipCredentials : bool;
  opMaxFailures : Z;
  opProgress : Z;
}.

(** The tunables. *)
Definition bootIDCommand : string := "cat /proc/sys/kernel/random/boot_id".
Definition reconnectDelay : Z := 5 * second.
Definition keepaliveInterval : Z := 5 * second.

(** ** check *)

Section check.
Context `{GoRuntime}.

(** The loops over [Contains] and [NotContains]; an index out of range panics
    in Go: [None]. *)
Fixpoint check_texts (res : Result) (want : bool) (msg : string) (i : nat) (l : list string)
    : option (option Failure) :=
  match l with
  | [] => Some None
  | s :: l =>
      match Found res i with
      | None => None
      | Some b =>
          if bool_decide (b = want) then check_texts res want msg (S i) l
          else Some (Some (Fail CatCommandFailed (msg +:+ quote s)))
      end
  end.

Definition check (a : Action) (res : Result) : option (option Failure) :=
  match rExitCode res with
  | None => Some (Some (Fail CatCommandFailed "remote side did not report an exit status"))
  | Some code =>
      if negb (code =? aExitCode a)%Z then
        let reason := "exit code " +:+ itoa code +:+ ", expected " +:+ itoa (aExitCode a) in
        let line := lastLine (rStderr res) in
        let reason :=
          if negb (bool_decide (line = "")) && negb (aSensitive a)
          then reason +:+ ": " +:+ line else reason in
        Some (Some (Fail CatCommandFailed reason))
      else
        match check_texts res true "output does not contain " 0 (aContains a) with
        | Some None =>
            match check_texts res false "output contains forbidden text "
                    (length (aContains a)) (aNotContains a) with
            | Some None =>
                match aRegex a with
                | Some re =>
                    if regexp_match re (rStdout res) then Some None
                    else Some (Some (Fail CatCommandFailed
                           ("output does not match " +:+ quote re)))
                | None => Some None
                end
            | r => r
            end
        | r => r
        end
  end.
End check.

(** ** Steps *)

Section runner.
Context `{GoRuntime} {W Signer : Type} `{!Transport W Signer}.
(** The options and the redactor of the run. *)
Context (o : Options) (redact : string → string).

Definition lift_option {A} (x : option A) : M W A :=
  match x with Some a => ret a | None => λ _, Panic end.

Definition bad_exit (r : Result) : bool := negb (bool_decide (rExitCode r = Some 0%Z)).

(** [attempt] *)
Definition attempt (c : nat) (p : Plan Signer) (a : Action) (sudoPW : bool)
    : M W (Result * option Failure) :=
  let run (tmp : string) : M W (Result * option Failure) :=
    let sudoPW := aSudo a && sudoPW in
    let! stdin :=
      (if sudoPW then lift_option (pw ← plAuth p; Some (auSudoPassword pw +:+ newline))
       else ret "") in
    let! x := exec c (mkRequest (Remote a tmp sudoPW) stdin (aTimeout a) (Z.to_nat (opMaxOutput o))
                        (aContains a ++ aNotContains a)) in
    match x with
    | (res, Some e) => ret (res, Some (AsFailure e))
    | (res, None) => let! f := lift_option (check a res) in ret (res, f)
    end in
  match aContent a with
  | Some content =>
      let! x := exec c (mkRequest UploadCommand content (aTimeout a) 4096 []) in
      match x with
      | (res, Some e) => ret (res, Some (AsFailure e))
      | (res, None) =>
          if bad_exit res || bool_decide (rStdout res = "") then
            ret (res, Some (Fail CatCommandFailed
                   ("upload to a remote temp file failed: " +:+ rStderr res)))
          else run (rStdout res)
      end
  | None => run ""
  end.

Definition mask (a : Action) (s : string) : string :=
  if aSensitive a && negb (bool_decide (s = "")) then SensitiveMask else redact s.

Definition new_step (a : Action) (st : Status) : StepResult :=
  mkStepResult (aName a) (aKind a) (aDisplay a) st 0 None "" "" false "" 0 None "" false.

(** What an attempt leaves in the step's result. *)
Definition note_attempt (a : Action) (try : Z) (res : Result) (sr : StepResult) : StepResult :=
  mkStepResult (srName sr) (srKind sr) (srCommand sr) (srStatus sr) (try + 1) (rExitCode res)
    (mask a (rStdout res)) (mask a (rStderr res)) (rTruncated res) (srNote sr) (srDuration sr)
    (srCategory sr) (srReason sr) (rStarted res).

(** Status, category and reason at the end of a step. *)
Definition set_outcome (st : Status) (cat : option Category) (reason : string) (sr : StepResult)
    : StepResult :=
  mkStepResult (srName sr) (srKind sr) (srCommand sr) st (srAttempts sr) (srExitCode sr)
    (srStdout sr) (srStderr sr) (srTruncated sr) (srNote sr) (srDuration sr) cat reason
    (srStarted sr).
Definition set_duration (d : Z) (sr : StepResult) : StepResult :=
  mkStepResult (srName sr) (srKind sr) (srCommand sr) (srStatus sr) (srAttempts sr)
    (srExitCode sr) (srStdout sr) (srStderr sr) (srTruncated sr) (srNote sr) d
    (srCategory sr) (srReason sr) (srStarted sr).
Definition set_note (n : string) (sr : StepResult) : StepResult :=
  mkStepResult (srName sr) (srKind sr) (srCommand sr) (srStatus sr) (srAttempts sr)
    (srExitCode sr) (srStdout sr) (srStderr sr) (srTruncated sr) n (srDuration sr)
    (srCategory sr) (srReason sr) (srStarted sr).
Definition failed_status (f : Failure) : Status :=
  if bool_decide (fCategory f = CatCancelled) then StatusCancelled else StatusFailed.
Definition set_failure (f : Failure) (sr : StepResult) : StepResult :=
  set_outcome (failed_status f) (Some (fCategory f)) (redact (fReason f)) sr.

(** Outcomes worth repeating. *)
Definition repeatable (f : option Failure) : bool :=
  match f with
  | Some f => bool_decide (fCategory f = CatCommandFailed) ||
              bool_decide (fCategory f = CatCommandTimeout)
  | None => false
  end.

(** The loop of [runStep], from attempt [try] on; [n] attempts are left. *)
Fixpoint tries (n : nat) (try : Z) (c : nat) (p : Plan Signer) (a : Action) (sudoPW : bool)
    (sr : StepResult) (f : option Failure) : M W (StepResult * option Failure) :=
  match n with
  | O => ret (sr, f)
  | S n =>
      let! interrupted := (if (0 <? try)%Z then sleep (aRetryDelay a) else ret None) in
      match interrupted with
      | Some _ => ret (sr, f)
      | None =>
          let! x := attempt c p a sudoPW in
          let '(res, f) := x in
          let sr := note_attempt a try res sr in
          if repeatable f then tries n (try + 1) c p a sudoPW sr f else ret (sr, f)
      end
  end.

Definition runStep (c : nat) (p : Plan Signer) (a : Action) (sudoPW : bool)
    : M W (StepResult * option Failure) :=
  let! t0 := now in
  let! x := tries (Z.to_nat (aRetries a + 1)) 0 c p a sudoPW (new_step a StatusSuccess) None in
  let '(sr, f) := x in
  let sr := match f with Some f => set_failure f sr | None => set_outcome StatusSuccess None "" sr end in
  let! t1 := now in
  ret (set_duration (time_sub t1 t0) sr, f).

(** ** Connections *)

(** [dial]; reading [Methods] of a nil [*Auth] panics. *)
Definition hop_of (e : Endpoint) (a : @Auth Signer) : Hop Signer :=
  mkHop (Addr e) (eUsername e) (auMethods a).
Definition dial (p : Plan Signer) (deadline : option Z) : M W (res error nat) :=
  let! target := lift_option (a ← plAuth p; Some (hop_of (tEndpoint (plTarget p)) a)) in
  let! bastion := lift_option
    (match tBastion (plTarget p) with
     | Some b => a ← plBastion p; Some (Some (hop_of b a))
     | None => Some None
     end) in
  λ s, let '(e, w) := tr_dial deadline target bastion (world s) in
    match e with
    | Some e => Ret (Err e) (mkState w (clients s) (trace s ++ [EDial None]))
    | None => Ret (Ok (clients s)) (mkState w (S (clients s)) (trace s ++ [EDial (Some (clients s))]))
    end.

(** The loop of [connect]: the result and [ConnectAttempts]. *)
Fixpoint connect (fuel : nat) (attempt : nat) (p : Plan Signer) : M W (res error nat * Z) :=
  match fuel with
  | O => λ _, NoFuel
  | S fuel =>
      let! r := dial p None in
      match r with
      | Ok c => ret (Ok c, Z.of_nat attempt)
      | Err e =>
          let! ce := ctx_err in
          if negb (Retryable (fCategory (AsFailure e))) ||
             (opConnectRetries o <? Z.of_nat attempt)%Z || bool_decide (is_Some ce)
          then ret (Err e, Z.of_nat attempt)
          else
            let! d := backoff (opRetryDelay o) (opMaxRetryDelay o) attempt in
            let! s := sleep d in
            match s with
            | Some _ => ret (Err (err_of_failure
                (Fail CatCancelled "cancelled while waiting to reconnect")), Z.of_nat attempt)
            | None => connect fuel (S attempt) p
            end
      end
  end.

(** [needsSudoPassword] *)
Definition needsSudoPassword (c : nat) (p : Plan Signer) : M W bool :=
  let! pw := lift_option (a ← plAuth p; Some (auSudoPassword a)) in
  if bool_decide (pw = "") then ret false
  else if existsb aSudo (plActions p) then
    let! x := exec c (mkRequest "sudo -n true" "" (30 * second) 4096 []) in
    ret (match x with (_, Some _) => true | (res, None) => bad_exit res end)
  else ret false.

(** [bootID] *)
Definition bootID (c : nat) : M W (res Failure string) :=
  let! x := exec c (mkRequest bootIDCommand "" (30 * second) 4096 []) in
  ret (match x with
  | (_, Some e) => Err (AsFailure e)
  | (res, None) =>
      let id := trim_space (rStdout res) in
      if bad_exit res || bool_decide (id = "") then
        Err (Fail CatCommandFailed (bootIDCommand +:+ " failed: " +:+ lastLine (rStderr res)))
      else Ok id
  end).

(** ** Reboot and disconnect *)

Definition wait_cancelled : Failure :=
  Fail CatCancelled "cancelled while waiting for the host to come back".
Definition final_category (c : Category) : bool :=
  match c with CatAuthFailed | CatHostKeyMismatch | CatHostKeyUnknown => true | _ => false end.

(** The loop of [waitForHost]. *)
Fixpoint wait_loop (fuel : nat) (p : Plan Signer) (timeout deadline : Z) (oldBoot : string)
    (last : Failure) (sawOldBoot : bool) : M W (res Failure nat) :=
  match fuel with
  | O => λ _, NoFuel
  | S fuel =>
      let! s := sleep reconnectDelay in
      match s with
      | Some _ => ret (Err wait_cancelled)
      | None =>
          let! t := now in
          if (deadline <? t)%Z then
            if sawOldBoot then
              ret (Err (Fail CatCommandFailed ("host is reachable but was not rebooted within " +:+
                duration_string timeout +:+ " (boot ID unchanged)")))
            else
              ret (Err (Fail CatConnectionTimeout ("host did not come back within " +:+
                duration_string timeout +:+ " (last: " +:+ fReason last +:+ ")")))
          else
            let! r := dial p (Some deadline) in
            match r with
            | Err e =>
                let last := AsFailure e in
                let! ce := ctx_err in
                if bool_decide (is_Some ce) then ret (Err wait_cancelled)
                else if final_category (fCategory last) then ret (Err last)
                else wait_loop fuel p timeout deadline oldBoot last sawOldBoot
            | Ok c =>
                if bool_decide (oldBoot = "") then ret (Ok c)
                else
                  let! b := bootID c in
                  match b with
                  | Ok id =>
                      if negb (bool_decide (id = oldBoot)) then ret (Ok c)
                      else
                        close c ;!
                        wait_loop fuel p timeout deadline oldBoot
                          (Fail CatConnectionTimeout
                             "host still runs the old boot (not rebooted yet)") true
                  | Err f =>
                      close c ;!
                      wait_loop fuel p timeout deadline oldBoot f sawOldBoot
                  end
            end
      end
  end.

Definition waitForHost (fuel : nat) (p : Plan Signer) (timeout : Z) (oldBoot : string)
    : M W (res Failure nat) :=
  let! t := now in
  wait_loop fuel p timeout (t + timeout) oldBoot
    (Fail CatConnectionTimeout "no connection attempt made") false.

(** A lost connection, which such a step expects. *)
Definition lost_connection (f : option Failure) (sr : StepResult) : bool :=
  match f with
  | Some f =>
      srStarted sr &&
      (bool_decide (fCategory f = CatSessionFailed) ||
       bool_decide (fCategory f = CatCommandFailed) && bool_decide (srExitCode sr = None))
  | None => false
  end.

Definition runDisconnecting (fuel : nat) (c : nat) (p : Plan Signer) (a : Action) (sudoPW : bool)
    : M W (StepResult * option Failure * option nat) :=
  let! old := (if aReboot a then bootID c else ret (Ok "")) in
  match old with
  | Err f =>
      let f := Fail (fCategory f) ("cannot read the boot ID before rebooting: " +:+ fReason f) in
      ret (set_outcome StatusFailed (Some (fCategory f)) (redact (fReason f))
             (new_step a StatusFailed), Some f, Some c)
  | Ok oldBoot =>
      keepalive_start c keepaliveInterval 3 ;!
      let! x := runStep c p a sudoPW in
      let '(sr, f) := x in
      keepalive_stop c ;!
      let lost := lost_connection f sr in
      if bool_decide (is_Some f) && negb lost then ret (sr, f, Some c)
      else
        let sr := if lost then set_outcome StatusSuccess None "" sr else sr in
        let! up := (if negb (aReboot a) && negb lost then alive c keepaliveInterval
                    else ret false) in
        if up then ret (sr, None, Some c)
        else
          close c ;!
          let! t0 := now in
          let! r := waitForHost fuel p (aReconnectTimeout a) oldBoot in
          match r with
          | Err wf => ret (set_failure wf sr, Some wf, None)
          | Ok nc =>
              let! t1 := now in
              let back := duration_string (duration_round (time_sub t1 t0) second) in
              let note :=
                if aReboot a then
                  "host rebooted (new boot ID) and was back after " +:+ back
                else "connection closed as expected; host back after " +:+ back in
              ret (set_note note sr, None, Some nc)
          end
  end.

(** ** A host *)

(** The closure [fail]: the first failure decides the host's result. *)
Definition host_fail (f : Failure) (step : string) (h : HostResult) : HostResult :=
  match hrCategory h with
  | Some _ => h
  | None =>
      mkHostResult (hrHost h) (hrAddress h) (failed_status f) step (Some (fCategory f))
        (redact (fReason f)) (hrConnectAttempts h) (hrDuration h) (hrSteps h)
  end.
Definition add_step (sr : StepResult) (h : HostResult) : HostResult :=
  mkHostResult (hrHost h) (hrAddress h) (hrStatus h) (hrFailedStep h) (hrCategory h)
    (hrReason h) (hrConnectAttempts h) (hrDuration h) (hrSteps h ++ [sr]).
Definition set_attempts (n : Z) (h : HostResult) : HostResult :=
  mkHostResult (hrHost h) (hrAddress h) (hrStatus h) (hrFailedStep h) (hrCategory h)
    (hrReason h) n (hrDuration h) (hrSteps h).
Definition set_host_duration (d : Z) (h : HostResult) : HostResult :=
  mkHostResult (hrHost h) (hrAddress h) (hrStatus h) (hrFailedStep h) (hrCategory h)
    (hrReason h) (hrConnectAttempts h) d (hrSteps h).

Definition skipped (a : Action) : StepResult := new_step a StatusSkipped.
Definition new_host (p : Plan Signer) (st : Status) : HostResult :=
  mkHostResult (tName (plTarget p)) (Addr (tEndpoint (plTarget p))) st "" None "" 0 0 [].

(** A failure that a fire-and-forget step forgives: the command cut the
    connection while it started. *)
Definition forgiven (f : Failure) (sr : StepResult) : bool :=
  srStarted sr && negb (bool_decide (fCategory f = CatCancelled)) &&
  (bool_decide (fCategory f = CatSessionFailed) || bool_decide (srExitCode sr = None)).

Definition runForget (c : nat) (p : Plan Signer) (a : Action) (sudoPW : bool)
    : M W (StepResult * option Failure) :=
  let! x := runStep c p a sudoPW in
  let '(sr, f) := x in
  let '(sr, f) :=
    match f with
    | Some f' => if forgiven f' sr then (set_outcome StatusSuccess None "" sr, None) else (sr, f)
    | None => (sr, f)
    end in
  match f with
  | None => ret (set_note "started; result not checked (fire and forget)" sr, None)
  | Some _ => ret (sr, f)
  end.

(** One step of a host: the result, the failure and the client for the next. *)
Definition run_action (fuel : nat) (c : nat) (p : Plan Signer) (a : Action) (sudoPW : bool)
    : M W (StepResult * option Failure * option nat) :=
  if aDisconnect a then runDisconnecting fuel c p a sudoPW
  else if aFireAndForget a then
    let! x := runForget c p a sudoPW in let '(sr, f) := x in ret (sr, f, Some c)
  else
    let! x := runStep c p a sudoPW in let '(sr, f) := x in ret (sr, f, Some c).

(** A failure that ends the host. *)
Definition stops (a : Action) (f : Failure) (client : option nat) : bool :=
  negb (aContinueOnError a) || bool_decide (client = None) ||
  bool_decide (fCategory f = CatCancelled) || bool_decide (fCategory f = CatSessionFailed).

(** The loop over the steps; a nil client panics. *)
Fixpoint run_actions (fuel : nat) (client : option nat) (p : Plan Signer) (acts : list Action)
    (sudoPW stopped : bool) (h : HostResult) : M W (HostResult * option nat) :=
  match acts with
  | [] => ret (h, client)
  | a :: acts =>
      if stopped then run_actions fuel client p acts sudoPW true (add_step (skipped a) h)
      else
        let! c := lift_option client in
        let! x := run_action fuel c p a sudoPW in
        let '(sr, f, client) := x in
        let h := add_step sr h in
        match f with
        | None => run_actions fuel client p acts sudoPW false h
        | Some f =>
            run_actions fuel client p acts sudoPW (stops a f client) (host_fail f (aName a) h)
        end
  end.

Definition runHost (fuel : nat) (p : Plan Signer) : M W HostResult :=
  let! t0 := now in
  let! r := connect (S (Z.to_nat (opConnectRetries o))) 1 p in
  let '(r, attempts) := r in
  let h := set_attempts attempts (new_host p StatusSuccess) in
  match r with
  | Err e =>
      let h := foldl (λ h a, add_step (skipped a) h) (host_fail (AsFailure e) "" h) (plActions p) in
      let! t1 := now in ret (set_host_duration (time_sub t1 t0) h)
  | Ok c =>
      let! sudoPW := needsSudoPassword c p in
      let! x := run_actions fuel (Some c) p (plActions p) sudoPW false h in
      let '(h, client) := x in
      (match client with Some c => close c | None => ret tt end) ;!
      let! t1 := now in ret (set_host_duration (time_sub t1 t0) h)
  end.

(** [notStarted] *)
Definition notStarted (p : Plan Signer) (st : Status) (reason : string) : HostResult :=
  let h := new_host p st in
  mkHostResult (hrHost h) (hrAddress h) st ""
    (if bool_decide (st = StatusCancelled) then Some CatCancelled else None)
    reason 0 0 (map skipped (plActions p)).
End runner.
