(* ===== verification/Flags.v ===== *)
(** * Flags: the options of [run] and [validate] ([newFlags], [printHelp] and
    [printFlags] of [internal/cli/cli.go])

    The flags are a table, as [newFlags] defines them: name, kind, usage text,
    default and the setter of the field the flag stands for.  [Parse] is
    [flag.FlagSet.Parse] with [ContinueOnError]; values are read by the functions
    of [strconv] and [time].  The help text goes through [text/tabwriter], which is
    a parameter.

    Every setting can be typed ([Parse_typed]), and only a literal [--execute]
    sets that flag ([Parse_execute]). *)

From stdpp Require Import gmap.
From S2P Require Import Prelude GoStd Float64 MaxFailures Build Credentials Report Duration Runner.

(** ** strconv *)

(** [ParseBool] *)
Definition ParseBool (s : string) : option bool :=
  if bool_decide (s ∈ ["1"; "t"; "T"; "TRUE"; "true"; "True"]) then Some true
  else if bool_decide (s ∈ ["0"; "f"; "F"; "FALSE"; "false"; "False"]) then Some false
  else None.

Inductive num_error := ErrSyntax | ErrRange.

(** The value of a digit or a letter. *)
Definition digit36 (c : ascii) : option Z :=
  if is_digit c then Some (digit c)
  else if in_range "a" "z" (lower c) then Some (Z.of_N (byte_val (lower c)) - 87)%Z
  else None.

(** The loop of [ParseUint]; underscores are skipped. *)
Fixpoint uint_digits (base n : Z) (s : string) : res num_error Z :=
  match s with
  | "" => Ok n
  | String c s =>
      if bool_decide (c = "_"%char) then uint_digits base n s
      else match digit36 c with
      | None => Err ErrSyntax
      | Some d =>
          if (base <=? d)%Z then Err ErrSyntax
          else if ((2 ^ 64 - 1) / base + 1 <=? n)%Z || (2 ^ 64 <=? n * base + d)%Z then Err ErrRange
          else uint_digits base (n * base + d) s
      end
  end.

(** The prefix of the base, and what [underscoreOK] makes of the text. *)
Definition base_prefix (s : string) : Z * string :=
  match s with
  | String "0" s' =>
      match s' with
      | String x (String y r) =>
          if bool_decide (lower x = "b"%char) then (2%Z, String y r)
          else if bool_decide (lower x = "o"%char) then (8%Z, String y r)
          else if bool_decide (lower x = "x"%char) then (16%Z, String y r)
          else (8%Z, s')
      | _ => (8%Z, s')
      end
  | _ => (10%Z, s)
  end.
Definition underscoreOK (s : string) : bool :=
  match s with
  | String "0" (String x r) =>
      if bool_decide (lower x ∈ ["b"; "o"; "x"]%char)
      then underscores_ok (bool_decide (lower x = "x"%char)) "0" r
      else underscores_ok false "^" s
  | _ => underscores_ok false "^" s
  end.

(** [ParseUint s 0 64] *)
Definition ParseUint (s : string) : res num_error Z :=
  if bool_decide (s = "") then Err ErrSyntax
  else
    let '(base, body) := base_prefix s in
    let? n := uint_digits base 0 body in
    if has_char "_" body && negb (underscoreOK s) then Err ErrSyntax else Ok n.

(** [ParseInt s 0 64] *)
Definition ParseInt (s : string) : res num_error Z :=
  let '(neg, body) :=
    match s with
    | String "+" r => (false, r) | String "-" r => (true, r) | _ => (false, s) end in
  let? n := ParseUint body in
  if neg then if (2 ^ 63 <? n)%Z then Err ErrRange else Ok (- n)%Z
  else if (2 ^ 63 <=? n)%Z then Err ErrRange else Ok n.

Example ParseInt_examples :
  map ParseInt ["42"; "-7"; "+0x1f"; "0b101"; "017"; "1_000"; "1__0"; "0"; ""; "-"; "9223372036854775808"; "-9223372036854775808"; "08"; "abc"; "0x"]
  = [Ok 42; Ok (-7); Ok 31; Ok 5; Ok 15; Ok 1000; Err ErrSyntax; Ok 0; Err ErrSyntax; Err ErrSyntax;
     Err ErrRange; Ok (-9223372036854775808); Err ErrSyntax; Err ErrSyntax; Err ErrSyntax]%Z.
Proof. by vm_compute. Qed.

(** ** The flags *)

Record flags := mkFlags {
  fInv : list string; fGroups : list string; fTags : list string; fHosts : list string;
  fVars : list string; fVarEnvs : list string;
  fOpts : Options;
  fJob : string; fOutput : string; fReport : string; fOnlyFailed : string; fMaxFailures : string;
  fExecute : bool; fVerbose : bool; fQuiet : bool;
}.

(** The [Value]s of package [flag], and [multi]. *)
Inductive kind := KMulti | KString | KBool | KInt | KDuration.
#[export] Instance kind_eq_dec : EqDecision kind.
Proof. solve_decision. Defined.

(** A flag: what it sets, given the text of its value; an error is the text of
    [Set]'s. *)
Record flag_def := mkFlag {
  fdName : string;
  fdKind : kind;
  fdUsage : string;
  fdDefault : string;
  fdSet : string → flags → res string flags;
}.

Definition parse_error : string := "parse error".
Definition range_error : string := "value out of range".

(** [Set] of each kind, given the assignment to the field. *)
Definition set_text (put : string → flags → flags) (s : string) (f : flags) : res string flags := Ok (put s f).
Definition set_bool (put : bool → flags → flags) (s : string) (f : flags) : res string flags :=
  match ParseBool s with Some b => Ok (put b f) | None => Err parse_error end.
Definition set_int (put : Z → flags → flags) (s : string) (f : flags) : res string flags :=
  match ParseInt s with
  | Ok n => Ok (put n f) | Err ErrSyntax => Err parse_error | Err ErrRange => Err range_error end.
Definition set_duration (put : Z → flags → flags) (s : string) (f : flags) : res string flags :=
  match ParseDuration s with Some d => Ok (put d f) | None => Err parse_error end.

(** Assignments to the fields. *)
Definition with_opts (g : Options → Options) (f : flags) : flags :=
  mkFlags (fInv f) (fGroups f) (fTags f) (fHosts f) (fVars f) (fVarEnvs f) (g (fOpts f)) (fJob f)
    (fOutput f) (fReport f) (fOnlyFailed f) (fMaxFailures f) (fExecute f) (fVerbose f) (fQuiet f).
Definition with_lists (inv groups tags hosts vars envs : list string → list string) (f : flags) : flags :=
  mkFlags (inv (fInv f)) (groups (fGroups f)) (tags (fTags f)) (hosts (fHosts f)) (vars (fVars f))
    (envs (fVarEnvs f)) (fOpts f) (fJob f)
    (fOutput f) (fReport f) (fOnlyFailed f) (fMaxFailures f) (fExecute f) (fVerbose f) (fQuiet f).
Definition with_texts (job output report only max : string) (f : flags) : flags :=
  mkFlags (fInv f) (fGroups f) (fTags f) (fHosts f) (fVars f) (fVarEnvs f) (fOpts f) job
    output report only max (fExecute f) (fVerbose f) (fQuiet f).
Definition with_bools (execute verbose quiet : bool) (f : flags) : flags :=
  mkFlags (fInv f) (fGroups f) (fTags f) (fHosts f) (fVars f) (fVarEnvs f) (fOpts f) (fJob f)
    (fOutput f) (fReport f) (fOnlyFailed f) (fMaxFailures f) execute verbose quiet.
Definition with_times (step connect handshake delay max : Z) (o : Options) : Options :=
  mkOptions (opConcurrency o) connect handshake step (opConnectRetries o) delay max (opMaxOutput o)
    (opKnownHosts o) (opAcceptNewHosts o) (opInsecure o) (opSkipCredentials o) (opMaxFailures o) (opProgress o).
Definition with_numbers (conc retries output : Z) (o : Options) : Options :=
  mkOptions conc (opConnectTimeout o) (opHandshakeTimeout o) (opStepTimeout o) retries (opRetryDelay o)
    (opMaxRetryDelay o) output (opKnownHosts o) (opAcceptNewHosts o) (opInsecure o) (opSkipCredentials o)
    (opMaxFailures o) (opProgress o).
Definition with_keys (known : string) (accept insecure : bool) (o : Options) : Options :=
  mkOptions (opConcurrency o) (opConnectTimeout o) (opHandshakeTimeout o) (opStepTimeout o)
    (opConnectRetries o) (opRetryDelay o) (opMaxRetryDelay o) (opMaxOutput o) known accept insecure
    (opSkipCredentials o) (opMaxFailures o) (opProgress o).

(** The zero values, then the defaults of the flags. *)
Definition default_options : Options :=
  mkOptions 100 (10 * second) (15 * second) (5 * minute) 2 (2 * second) (30 * second) (2 ^ 20)
    "~/.ssh/known_hosts" false false false 0 0.
Definition default_flags : flags := mkFlags [] [] [] [] [] [] default_options "" "table" "" "" "" false false false.

Definition fs_multi (name : string) (put : string → flags → flags) (usage : string) : flag_def :=
  mkFlag name KMulti usage "" (set_text put).
Definition fs_string (name def : string) (put : string → flags → flags) (usage : string) : flag_def :=
  mkFlag name KString usage def (set_text put).
Definition fs_bool (name : string) (def : bool) (put : bool → flags → flags) (usage : string) : flag_def :=
  mkFlag name KBool usage (if def then "true" else "false") (set_bool put).
Definition fs_int (name : string) (def : Z) (put : Z → flags → flags) (usage : string) : flag_def :=
  mkFlag name KInt usage (itoa def) (set_int put).
Definition fs_duration (name : string) (def : Z) (put : Z → flags → flags) (usage : string) : flag_def :=
  mkFlag name KDuration usage (duration_string def) (set_duration put).

Definition put_inv (s : string) : flags → flags := with_lists (.++ [s]) id id id id id.
Definition put_group (s : string) : flags → flags := with_lists id (.++ [s]) id id id id.
Definition put_tag (s : string) : flags → flags := with_lists id id (.++ [s]) id id id.
Definition put_host (s : string) : flags → flags := with_lists id id id (.++ [s]) id id.
Definition put_var (s : string) : flags → flags := with_lists id id id id (.++ [s]) id.
Definition put_var_env (s : string) : flags → flags := with_lists id id id id id (.++ [s]).
Definition put_job (s : string) (f : flags) : flags :=
  with_texts s (fOutput f) (fReport f) (fOnlyFailed f) (fMaxFailures f) f.
Definition put_output (s : string) (f : flags) : flags :=
  with_texts (fJob f) s (fReport f) (fOnlyFailed f) (fMaxFailures f) f.
Definition put_report (s : string) (f : flags) : flags :=
  with_texts (fJob f) (fOutput f) s (fOnlyFailed f) (fMaxFailures f) f.
Definition put_only_failed (s : string) (f : flags) : flags :=
  with_texts (fJob f) (fOutput f) (fReport f) s (fMaxFailures f) f.
Definition put_max_failures (s : string) (f : flags) : flags :=
  with_texts (fJob f) (fOutput f) (fReport f) (fOnlyFailed f) s f.
Definition put_execute (b : bool) (f : flags) : flags := with_bools b (fVerbose f) (fQuiet f) f.
Definition put_verbose (b : bool) (f : flags) : flags := with_bools (fExecute f) b (fQuiet f) f.
Definition put_quiet (b : bool) (f : flags) : flags := with_bools (fExecute f) (fVerbose f) b f.
Definition put_timeout (d : Z) : flags → flags := with_opts (λ o,
  with_times d (opConnectTimeout o) (opHandshakeTimeout o) (opRetryDelay o) (opMaxRetryDelay o) o).
Definition put_connect_timeout (d : Z) : flags → flags := with_opts (λ o,
  with_times (opStepTimeout o) d (opHandshakeTimeout o) (opRetryDelay o) (opMaxRetryDelay o) o).
Definition put_handshake_timeout (d : Z) : flags → flags := with_opts (λ o,
  with_times (opStepTimeout o) (opConnectTimeout o) d (opRetryDelay o) (opMaxRetryDelay o) o).
Definition put_retry_delay (d : Z) : flags → flags := with_opts (λ o,
  with_times (opStepTimeout o) (opConnectTimeout o) (opHandshakeTimeout o) d (opMaxRetryDelay o) o).
Definition put_max_retry_delay (d : Z) : flags → flags := with_opts (λ o,
  with_times (opStepTimeout o) (opConnectTimeout o) (opHandshakeTimeout o) (opRetryDelay o) d o).
Definition put_concurrency (n : Z) : flags → flags := with_opts (λ o,
  with_numbers n (opConnectRetries o) (opMaxOutput o) o).
Definition put_connect_retries (n : Z) : flags → flags := with_opts (λ o,
  with_numbers (opConcurrency o) n (opMaxOutput o) o).
Definition put_max_output (n : Z) : flags → flags := with_opts (λ o,
  with_numbers (opConcurrency o) (opConnectRetries o) n o).
Definition put_known_hosts (s : string) : flags → flags := with_opts (λ o,
  with_keys s (opAcceptNewHosts o) (opInsecure o) o).
Definition put_accept_new (b : bool) : flags → flags := with_opts (λ o,
  with_keys (opKnownHosts o) b (opInsecure o) o).
Definition put_insecure (b : bool) : flags → flags := with_opts (λ o,
  with_keys (opKnownHosts o) (opAcceptNewHosts o) b o).

(** [newFlags], in the order of the source. *)
Definition long_flags : list flag_def := [
  fs_multi "inventory" put_inv
    "inventory `FILE`; repeat to combine files (e.g. common.yaml + prod.yaml)";
  fs_string "job" "" put_job
    "`JOB` directory (with job.yaml) or job YAML file";
  fs_multi "group" put_group
    "select hosts in group `NAME` (repeatable)";
  fs_multi "tag" put_tag
    "select hosts with tag `NAME` (repeatable)";
  fs_multi "host" put_host
    "select host `NAME` (repeatable)";
  fs_bool "execute" false put_execute
    "actually run the job; without it RCO only previews, connecting to nothing";
  fs_multi "var" put_var
    "job variable `NAME=VALUE` (repeatable)";
  fs_multi "var-env" put_var_env
    "job variable `NAME=ENV_VAR` read from the environment; required for sensitive variables (repeatable)";
  fs_int "concurrency" 100 put_concurrency
    "maximum hosts processed at the same time";
  fs_string "max-failures" "" put_max_failures
    "override the job's max_failures: stop starting new hosts after `N` failed hosts, or N% of all hosts; the rest are SKIPPED";
  fs_string "only-failed" "" put_only_failed
    "run only on hosts that did not succeed in a previous `REPORT` (.json, .yaml or .jsonl)";
  fs_duration "timeout" (5 * minute) put_timeout
    "default per-step timeout (job file values win)";
  fs_duration "connect-timeout" (10 * second) put_connect_timeout
    "TCP connect timeout";
  fs_duration "handshake-timeout" (15 * second) put_handshake_timeout
    "SSH handshake and authentication timeout";
  fs_int "connect-retries" 2 put_connect_retries
    "extra connection attempts for transient failures (never for auth or host key errors)";
  fs_duration "retry-delay" (2 * second) put_retry_delay
    "base delay between retries (exponential with jitter)";
  fs_duration "max-retry-delay" (30 * second) put_max_retry_delay
    "maximum delay between connection retries";
  fs_int "max-output" (2 ^ 20) put_max_output
    "`BYTES` of stdout/stderr kept per step (head and tail are kept)";
  fs_string "known-hosts" "~/.ssh/known_hosts" put_known_hosts
    "known_hosts `FILE` used to verify host keys";
  fs_bool "accept-new-host-keys" false put_accept_new
    "add keys of hosts missing from known_hosts (trust on first use); changed keys still fail";
  fs_bool "insecure-skip-host-key-check" false put_insecure
    "INSECURE: do not verify host keys (lab use only)";
  fs_string "output" "table" put_output
    "result `FORMAT` on stdout: table, json or yaml";
  fs_string "report" "" put_report
    "also write the full report to `FILE` (.json, .yaml; .jsonl is written host by host as results arrive)";
  fs_bool "verbose" false put_verbose
    "table output: include every step with its output";
  fs_bool "quiet" false put_quiet
    "log only warnings and errors (hides progress)"
].

(** Short aliases share the long flag's value. *)
Definition aliases : list (string * string) :=
  [("inventory", "i"); ("job", "j"); ("group", "g"); ("tag", "t"); ("host", "H");
   ("concurrency", "c"); ("output", "o"); ("verbose", "v"); ("quiet", "q")].

Definition Lookup (fs : list flag_def) (name : string) : option flag_def :=
  snd <$> list_find (λ d, fdName d = name) fs.

(** [fs.Var(fs.Lookup(long).Value, short, "alias")]: a nil flag panics. *)
Definition alias_flag (a : string * string) : option flag_def :=
  d ← Lookup long_flags a.1; Some (mkFlag a.2 (fdKind d) "alias" (fdDefault d) (fdSet d)).
Definition newFlags : list flag_def := long_flags ++ omap alias_flag aliases.

(** No definition panics: every alias has its flag, no name is defined twice and
    every name is one that [Parse] can meet. *)
Lemma newFlags_defined :
  Forall (λ a, is_Some (alias_flag a)) aliases ∧ NoDup (map fdName newFlags) ∧
  Forall (λ d, fdName d ≠ "" ∧ has_char "=" (fdName d) = false ∧ has_prefix "-" (fdName d) = false) newFlags.
Proof. repeat split; apply (bool_decide_unpack _); by vm_compute. Qed.

(** ** Parse *)

(** [parseOne]'s view of an argument: not a flag, the end of the flags, bad
    syntax, or a name with the value after [=], if any. *)
Inductive arg :=
| NotFlag
| EndFlags
| BadSyntax
| Flag (name : string) (value : option string).

Definition split_arg (name : string) : arg :=
  match name with
  | "" | String "-" _ | String "=" _ => BadSyntax
  | String c rest =>
      match cut_char "=" rest with
      | Some (n, v) => Flag (String c n) (Some v)
      | None => Flag name None
      end
  end.
Definition read_arg (s : string) : arg :=
  match s with
  | String "-" (String "-" "") => EndFlags
  | String "-" (String "-" name) => split_arg name
  | String "-" (String c rest) => split_arg (String c rest)
  | _ => NotFlag
  end.

(** What [Parse] returns: [ErrHelp], another error with its text, or the flags and
    the arguments that are left. *)
Inductive parsed :=
| ParseHelp
| ParseError (msg : string)
| Parsed (f : flags) (rest : list string).

Section parse.
Context `{GoRuntime}.

Fixpoint Parse (f : flags) (args : list string) : parsed :=
  match args with
  | [] => Parsed f []
  | s :: args =>
      match read_arg s with
      | NotFlag => Parsed f (s :: args)
      | EndFlags => Parsed f args
      | BadSyntax => ParseError ("bad flag syntax: " +:+ s)
      | Flag name value =>
          match Lookup newFlags name with
          | None =>
              if bool_decide (name ∈ ["help"; "h"]) then ParseHelp
              else ParseError ("flag provided but not defined: -" +:+ name)
          | Some d =>
              if bool_decide (fdKind d = KBool) then
                match fdSet d (default "true" value) f with
                | Ok f => Parse f args
                | Err e =>
                    match value with
                    | Some v => ParseError ("invalid boolean value " +:+ quote v +:+ " for -" +:+ name +:+ ": " +:+ e)
                    | None => ParseError ("invalid boolean flag " +:+ name +:+ ": " +:+ e)
                    end
                end
              else
                let set v args :=
                  match fdSet d v f with
                  | Ok f => Parse f args
                  | Err e => ParseError ("invalid value " +:+ quote v +:+ " for flag -" +:+ name +:+ ": " +:+ e)
                  end in
                match value, args with
                | Some v, _ => set v args
                | None, v :: args => set v args
                | None, [] => ParseError ("flag needs an argument: -" +:+ name)
                end
          end
      end
  end.
End parse.

(** ** Help *)

(** [flag.UnquoteUsage]: the name in back quotes, or one for the type, and the
    usage without the quotes. *)
Definition type_name (k : kind) : string :=
  match k with
  | KBool => "" | KDuration => "duration" | KInt => "int" | KString => "string" | KMulti => "value" end.
Definition UnquoteUsage (d : flag_def) : string * string :=
  match cut_char "`" (fdUsage d) with
  | Some (before, rest) =>
      match cut_char "`" rest with
      | Some (name, after) => (name, before +:+ name +:+ after)
      | None => (type_name (fdKind d), fdUsage d)
      end
  | None => (type_name (fdKind d), fdUsage d)
  end.

Fixpoint trim_lower (s : string) : string :=
  match s with String c s' => if in_range "a" "z" c then trim_lower s' else s | "" => "" end.
Definition value_name (arg : string) : string :=
  (if bool_decide (arg = "int") then "N"
   else if bool_decide (arg = "duration") then "DURATION"
   else if bool_decide (arg = "value") then "VALUE"
   else if bool_decide (arg = "string") then "VALUE" else "") +:+ trim_lower arg.

(** [flagOrder] and [printFlags]; a nil flag panics. *)
Definition flagOrder : list string :=
  ["inventory"; "job"; "group"; "tag"; "host"; "execute"; "var"; "var-env"; "concurrency"; "max-failures"; "only-failed"; "timeout"; "connect-timeout"; "handshake-timeout"; "connect-retries"; "retry-delay"; "max-retry-delay"; "max-output"; "known-hosts"; "accept-new-host-keys"; "insecure-skip-host-key-check"; "output"; "report"; "verbose"; "quiet"].

Definition alias_of (name : string) : option string :=
  snd <$> (snd <$> list_find (λ a, a.1 = name) aliases).
Definition flag_line (name : string) : option string :=
  d ← Lookup newFlags name;
  let '(arg, usage) := UnquoteUsage d in
  let arg := if bool_decide (fdKind d = KBool) then "" else value_name arg in
  let head := match alias_of name with
    | Some short => "-" +:+ short +:+ ", --" +:+ name | None => "    --" +:+ name end in
  let head := if bool_decide (arg = "") then head else head +:+ " " +:+ arg in
  let usage := if bool_decide (fdDefault d ∈ [""; "false"; "0"]) then usage
    else usage +:+ " (default " +:+ fdDefault d +:+ ")" in
  Some ("  " +:+ head +:+ String "009" usage +:+ newline).

Definition usage : string :=
"RCO — run commands, scripts and file uploads on many Linux hosts over SSH

Usage:
  rco run      -i INVENTORY -j JOB [selectors] [options]              preview only
  rco run      -i INVENTORY -j JOB [selectors] [options] --execute    apply changes
  rco validate -j JOB [-i INVENTORY [selectors]]                      check without connecting
  rco version
  rco help

JOB is a job directory (containing job.yaml) or a job YAML file.
Selectors are repeatable: AND across kinds, OR within a kind; none = all hosts.
Every flag also works with a single dash (-execute).

Exit codes: 0 all hosts succeeded, 1 usage or validation error (nothing contacted),
2 some hosts failed, were skipped or cancelled.

Options:
".

(** [printHelp], given the tab writer; its error is dropped. *)
Definition printFlags : option string := str_join "" <$> mapM flag_line flagOrder.
Definition printHelp (tab : string → res string string) : option string :=
  rows ← printFlags;
  Some (usage +:+ match tab rows with Ok s => s | Err _ => "" end).

(** The help lists every flag exactly once. *)
Lemma flagOrder_complete : flagOrder ≡ₚ map fdName long_flags.
Proof. apply (bool_decide_unpack _). by vm_compute. Qed.
Lemma printHelp_total tab : is_Some (printHelp tab).
Proof. unfold printHelp. destruct printFlags eqn:E; [by eexists|by vm_compute in E]. Qed.
Example help_lines :
  map flag_line ["inventory"; "execute"; "concurrency"; "max-retry-delay"; "var"] =
  map Some
    ["  -i, --inventory FILE" +:+ String "009" "inventory FILE; repeat to combine files (e.g. common.yaml + prod.yaml)" +:+ newline;
     "      --execute" +:+ String "009" "actually run the job; without it RCO only previews, connecting to nothing" +:+ newline;
     "  -c, --concurrency N" +:+ String "009" "maximum hosts processed at the same time (default 100)" +:+ newline;
     "      --max-retry-delay DURATION" +:+ String "009" "maximum delay between connection retries (default 30s)" +:+ newline;
     "      --var NAME=VALUE" +:+ String "009" "job variable NAME=VALUE (repeatable)" +:+ newline].
Proof. by vm_compute. Qed.

(** ** Lookup *)

Lemma Lookup_Some fs name d : Lookup fs name = Some d → d ∈ fs ∧ fdName d = name.
Proof.
  unfold Lookup. destruct (list_find _ fs) as [[i d']|] eqn:E; [|done]. intros [= ->].
  apply list_find_Some in E as (Hi & Hn & _). split; [by eapply list_elem_of_lookup_2|done].
Qed.

Lemma Lookup_NoDup fs d : NoDup (map fdName fs) → d ∈ fs → Lookup fs (fdName d) = Some d.
Proof.
  intros Hnd Hin. unfold Lookup. destruct (list_find _ fs) as [[i d']|] eqn:E.
  - apply list_find_Some in E as (Hi & Hn & _). simpl. f_equal.
    apply (NoDup_map_inj fdName fs); [done|by eapply list_elem_of_lookup_2|done|done].
  - apply list_find_None in E. rewrite Forall_forall in E. by destruct (E d Hin).
Qed.

Lemma long_defined d : d ∈ long_flags → Lookup newFlags (fdName d) = Some d.
Proof.
  intros Hin. apply Lookup_NoDup; [apply newFlags_defined|]. apply elem_of_app. by left.
Qed.

Lemma split_name name value :
  name ≠ "" → has_prefix "-" name = false → has_char "=" name = false →
  split_arg (match value with Some v => name +:+ "=" +:+ v | None => name end) = Flag name value.
Proof.
  intros Hne Hm He. destruct name as [|c rest]; [done|]. rewrite has_char_cons, orb_false_iff in He.
  destruct He as [Hc%bool_decide_eq_false Hrest].
  assert (c ≠ "-"%char) as Hc' by (intros ->; by vm_compute in Hm).
  assert (∀ s, split_arg (String c s) = match cut_char "=" s with
    | Some (n, v) => Flag (String c n) (Some v) | None => Flag (String c s) None end) as Hsplit.
  { intros s. clear -Hc Hc'. destruct c as [[] [] [] [] [] [] [] []]; done. }
  destruct value as [v|].
  - rewrite str_app_cons, Hsplit. change ("=" +:+ v) with (String "=" v). by rewrite cut_char_app.
  - rewrite Hsplit. by rewrite cut_char_absent.
Qed.

(** ** Only a literal --execute sets that flag *)

(** The argument spells the flag out, with one dash or two. *)
Definition spells_execute (a : string) : Prop :=
  a ∈ ["-execute"; "--execute"] ∨
  ∃ v, (a = "-execute=" +:+ v ∨ a = "--execute=" +:+ v) ∧ ParseBool v = Some true.

Definition keeps_execute (d : flag_def) : Prop :=
  ∀ v f f', fdSet d v f = Ok f' → fExecute f' = fExecute f.

Lemma long_keeps : Forall (λ d, fdName d = "execute" ∨ keeps_execute d) long_flags.
Proof.
  assert (∀ put : string → flags → flags, (∀ x f, fExecute (put x f) = fExecute f) →
    ∀ v f f', set_text put v f = Ok f' → fExecute f' = fExecute f) as Htext.
  { intros put Hp v f f' [= <-]. apply Hp. }
  assert (∀ put : bool → flags → flags, (∀ x f, fExecute (put x f) = fExecute f) →
    ∀ v f f', set_bool put v f = Ok f' → fExecute f' = fExecute f) as Hbool.
  { intros put Hp v f f'. unfold set_bool. destruct (ParseBool v); [|done]. intros [= <-]. apply Hp. }
  assert (∀ put : Z → flags → flags, (∀ x f, fExecute (put x f) = fExecute f) →
    ∀ v f f', set_int put v f = Ok f' → fExecute f' = fExecute f) as Hint.
  { intros put Hp v f f'. unfold set_int. destruct (ParseInt v) as [n|[]]; [|done..]. intros [= <-]. apply Hp. }
  assert (∀ put : Z → flags → flags, (∀ x f, fExecute (put x f) = fExecute f) →
    ∀ v f f', set_duration put v f = Ok f' → fExecute f' = fExecute f) as Hdur.
  { intros put Hp v f f'. unfold set_duration. destruct (ParseDuration v); [|done]. intros [= <-]. apply Hp. }
  unfold long_flags. repeat (apply Forall_cons; split; [|]); [..|constructor];
    first [by left|right; unfold keeps_execute; simpl;
      first [apply Htext|apply Hbool|apply Hint|apply Hdur]; reflexivity].
Qed.

Lemma lookup_keeps name d : Lookup newFlags name = Some d → name = "execute" ∨ keeps_execute d.
Proof.
  pose proof long_keeps as Hl. rewrite Forall_forall in Hl.
  intros [Hin <-]%Lookup_Some. unfold newFlags in Hin. apply elem_of_app in Hin as [Hin|Hin].
  - destruct (Hl d Hin); [by left|by right].
  - right. apply list_elem_of_omap in Hin as ([long short] & Ha & Hd). unfold alias_flag in Hd. simpl in Hd.
    destruct (Lookup long_flags long) as [d0|] eqn:E; [|done]. injection Hd as <-.
    apply Lookup_Some in E as [H0 Hn]. destruct (Hl d0 H0) as [He|Hk]; [|exact Hk].
    exfalso. subst long. rewrite He in Ha. revert Ha. apply (bool_decide_unpack _). by vm_compute.
Qed.

(** The arguments that are read as the flag [execute]. *)
Lemma read_execute s value :
  read_arg s = Flag "execute" value →
  match value with
  | None => s ∈ ["-execute"; "--execute"]
  | Some v => s = "-execute=" +:+ v ∨ s = "--execute=" +:+ v
  end.
Proof.
  assert (∀ n, split_arg n = Flag "execute" value →
    n = match value with Some v => "execute=" +:+ v | None => "execute" end) as Hsplit.
  { intros n Hn. assert (∃ c rest, n = String c rest ∧ match cut_char "=" rest with
      | Some (n, v) => Flag (String c n) (Some v) | None => Flag (String c rest) None end =
      Flag "execute" value) as (c & rest & -> & Hc).
    { destruct n as [|c rest]; [done|]. exists c, rest. split; [done|].
      clear -Hn. destruct c as [[] [] [] [] [] [] [] []]; done. }
    destruct (cut_char "=" rest) as [[k v]|] eqn:E; [|by injection Hc as -> -> <-].
    injection Hc as -> -> <-. apply cut_char_Some in E as ->. done. }
  intros Hs. assert (∃ n, split_arg n = Flag "execute" value ∧ (s = "-" +:+ n ∨ s = "--" +:+ n)) as (n & Hn & Hs').
  { destruct s as [|a [|b rest]]; [done|by destruct a as [[] [] [] [] [] [] [] []]|].
    destruct (decide (a = "-"%char)) as [->|Ha]; [|by destruct a as [[] [] [] [] [] [] [] []]].
    destruct (decide (b = "-"%char)) as [->|Hb].
    - exists rest. split; [|by right]. by destruct rest.
    - exists (String b rest). split; [|by left]. by destruct b as [[] [] [] [] [] [] [] []]. }
  apply Hsplit in Hn as ->. destruct value as [v|]; destruct Hs' as [->| ->]; [by left|by right|set_solver..].
Qed.

Lemma execute_defined : Lookup newFlags "execute" = Some (fs_bool "execute" false put_execute
  "actually run the job; without it RCO only previews, connecting to nothing").
Proof. exact (long_defined _ (list_elem_of_lookup_2 long_flags 5 _ eq_refl)). Qed.

Section execute.
Context `{GoRuntime}.

Lemma Parse_execute (f f' : flags) (args rest : list string) :
  Parse f args = Parsed f' rest → fExecute f' = true →
  fExecute f = true ∨ Exists spells_execute args.
Proof.
  remember (length args) as n eqn:Hn. assert (length args ≤ n) as Hle by lia. clear Hn.
  revert f args Hle. induction n as [|n IH]; intros f args Hle E Hf'; (destruct args as [|s args];
    [injection E as -> _; by left|]); simpl in Hle; [lia|].
  simpl in E. destruct (read_arg s) as [| | |name value] eqn:Er; [by injection E as -> _; left..|done|].
  destruct (Lookup newFlags name) as [d|] eqn:El; [|by case_bool_decide].
  assert (∀ v f1 args', fdSet d v f = Ok f1 → length args' ≤ n → Parse f1 args' = Parsed f' rest →
    (∀ a, a ∈ args' → a ∈ args) →
    (name = "execute" → fExecute f1 = true → spells_execute s) →
    fExecute f = true ∨ Exists spells_execute (s :: args)) as Hstep.
  { intros v f1 args' Hset Hl Hp Hsub Hspell. destruct (IH f1 args' Hl Hp Hf') as [H1|H1].
    - destruct (lookup_keeps _ _ El) as [->|Hk]; [right; left; by apply Hspell|].
      left. by rewrite <- (Hk _ _ _ Hset).
    - right. right. apply Exists_exists in H1 as (a & Ha & Hs). apply Exists_exists. exists a. auto. }
  case_bool_decide as Hkind.
  - destruct (fdSet d (default "true" value) f) as [f1|e] eqn:Es; [|by destruct value].
    apply (Hstep _ f1 args Es); [lia|done|done|]. intros -> Hex.
    apply read_execute in Er. unfold spells_execute. destruct value as [v|]; [|by left].
    right. exists v. split; [done|]. rewrite execute_defined in El. injection El as <-.
    simpl in Es. unfold set_bool in Es. destruct (ParseBool v) as [[]|]; [done| |done].
    injection Es as <-. done.
  - assert (name ≠ "execute") as Hne.
    { intros ->. rewrite execute_defined in El. by injection El as <-. }
    destruct value as [v|].
    + destruct (fdSet d v f) as [f1|e] eqn:Es; [|done]. apply (Hstep _ f1 args Es); [lia|done|done|done].
    + destruct args as [|v args]; [done|]. simpl in Hle.
      destruct (fdSet d v f) as [f1|e] eqn:Es; [|done].
      apply (Hstep _ f1 args Es); [lia|done|by right|done].
Qed.
End execute.

(** ** Numbers that are printed are read back *)

Lemma pretty_go_head x s : (0 < x)%N → ∃ c t, pretty_N_go x s = String c t ∧ c ≠ "0"%char.
Proof.
  revert s. induction (N.lt_wf_0 x) as [x _ IH]. intros s Hx. rewrite pretty_N_go_step by done.
  destruct (decide (x < 10)%N) as [Hlt|Hge].
  - rewrite N.div_small, N.mod_small, pretty_N_go_0 by done. eexists _, _. split; [done|].
    intros Hc. assert (x = 1 ∨ x = 2 ∨ x = 3 ∨ x = 4 ∨ x = 5 ∨ x = 6 ∨ x = 7 ∨ x = 8 ∨ x = 9)%N as Hy by lia.
    destruct_or! Hy; subst; done.
  - apply IH; [by apply N.div_lt|]. apply N.div_str_pos. lia.
Qed.

Lemma itoa_nonzero z : (0 < z)%Z → ∃ c t, itoa z = String c t ∧ c ≠ "0"%char ∧ is_digit c = true.
Proof.
  intros Hz. destruct z as [|p|]; [lia| |lia]. destruct (itoa_head (Z.pos p)) as (c & t & E & Hc); [lia|].
  exists c, t. split; [done|split; [|done]]. unfold itoa in E.
  change (pretty (Z.pos p)) with (pretty (N.pos p)) in E. unfold pretty, pretty_N in E.
  rewrite decide_False in E by done. destruct (pretty_go_head (N.pos p) "") as (c' & t' & E' & H0); [lia|].
  rewrite E in E'. by injection E' as <- _.
Qed.

Lemma digit36_digit c : is_digit c = true → digit36 c = Some (digit c).
Proof. unfold digit36. by intros ->. Qed.

Lemma digit_not_underscore c : is_digit c = true → c ≠ "_"%char.
Proof. by intros Hc ->. Qed.

Lemma digits_no_underscore s j a : digits s j a → has_char "_" s = false.
Proof.
  induction 1 as [|c s j a Hc _ IH]; [done|].
  rewrite has_char_cons, IH, bool_decide_eq_false_2; [done|by apply digit_not_underscore].
Qed.

Lemma uint_digits_digits s j a n :
  digits s j a → (0 ≤ n)%Z → (n * 10 ^ Z.of_nat j + a < 2 ^ 64)%Z →
  uint_digits 10 n s = Ok (n * 10 ^ Z.of_nat j + a)%Z.
Proof.
  intros Hs. revert n. induction Hs as [|c s j a Hc Hs IH]; intros n Hn Hb; cbn [uint_digits].
  { f_equal. simpl. lia. }
  rewrite bool_decide_eq_false_2 by by apply digit_not_underscore. rewrite (digit36_digit c Hc).
  apply digit_range in Hc. pose proof (digits_range _ _ _ Hs). pose proof (Z.pow_pos_nonneg 10 (Z.of_nat j)).
  rewrite Nat2Z.inj_succ, Z.pow_succ_r in Hb |- * by lia.
  destruct (Z.leb_spec 10 (digit c)); [lia|].
  assert (n * 10 + digit c < 2 ^ 64)%Z by nia.
  assert ((2 ^ 64 - 1) / 10 + 1 ≤ n → False)%Z as Hno.
  { intros Hle. assert (2 ^ 64 ≤ 10 * ((2 ^ 64 - 1) / 10 + 1))%Z by by vm_compute. nia. }
  destruct (Z.leb_spec ((2 ^ 64 - 1) / 10 + 1) n); [by destruct Hno|].
  destruct (Z.leb_spec (2 ^ 64) (n * 10 + digit c)); [lia|]. cbn [orb].
  rewrite IH; [f_equal; ring|lia|nia].
Qed.

Lemma ParseUint_itoa z : (0 ≤ z < 2 ^ 64)%Z → ParseUint (itoa z) = Ok z.
Proof.
  intros Hz. destruct (decide (z = 0%Z)) as [->|Hne]; [done|].
  destruct (itoa_nonzero z) as (c & t & E & H0 & Hc); [lia|].
  destruct (itoa_digits z) as [j Hj]; [lia|]. unfold ParseUint.
  rewrite bool_decide_eq_false_2 by by rewrite E.
  assert (base_prefix (itoa z) = (10%Z, itoa z)) as ->.
  { rewrite E. clear -H0. destruct c as [[] [] [] [] [] [] [] []]; done. }
  rewrite (uint_digits_digits _ _ _ 0 Hj) by lia. cbn [res_bind].
  rewrite (digits_no_underscore _ _ _ Hj). done.
Qed.

Lemma ParseInt_itoa z : (- 2 ^ 63 ≤ z < 2 ^ 63)%Z → ParseInt (itoa z) = Ok z.
Proof.
  intros Hz. unfold ParseInt. destruct (Z.lt_ge_cases z 0) as [Hneg|Hpos].
  - assert (itoa z = String "-" (itoa (- z))) as ->.
    { destruct z as [| |p]; [lia|lia|]. done. }
    rewrite ParseUint_itoa by lia. cbn [res_bind]. destruct (Z.ltb_spec (2 ^ 63) (- z)); [lia|].
    f_equal. lia.
  - destruct (itoa_head z Hpos) as (c & t & E & Hc).
    replace (match itoa z with String "+" r => (false, r) | String "-" r => (true, r)
      | _ => (false, itoa z) end) with (false, itoa z).
    2: { rewrite E. clear -Hc. destruct c as [[] [] [] [] [] [] [] []]; done. }
    rewrite ParseUint_itoa by lia. cbn [res_bind]. by destruct (Z.leb_spec (2 ^ 63) z); [lia|].
Qed.

(** ** Every setting can be typed *)

Definition int64 (z : Z) : Prop := (- 2 ^ 63 ≤ z < 2 ^ 63)%Z.

(** The numbers are machine integers, and what no flag sets has its zero value. *)
Record settable (f : flags) : Prop := {
  st_numbers : Forall int64 [opConcurrency (fOpts f); opConnectRetries (fOpts f); opMaxOutput (fOpts f);
    opStepTimeout (fOpts f); opConnectTimeout (fOpts f); opHandshakeTimeout (fOpts f);
    opRetryDelay (fOpts f); opMaxRetryDelay (fOpts f)];
  st_zero : opSkipCredentials (fOpts f) = false ∧ opMaxFailures (fOpts f) = 0%Z ∧ opProgress (fOpts f) = 0%Z;
}.

(** A command line for the settings: the lists, then every other flag. *)
Definition typed_list (name : string) (l : list string) : list string := l ≫= λ s, ["--" +:+ name; s].
Definition typed_bool (name : string) (b : bool) : list string :=
  ["--" +:+ name +:+ "=" +:+ (if b then "true" else "false")].
Definition typed_value (name v : string) : list string := ["--" +:+ name; v].
Definition typed (f : flags) : list string :=
  let o := fOpts f in
  typed_list "inventory" (fInv f) ++ typed_list "group" (fGroups f) ++ typed_list "tag" (fTags f) ++
  typed_list "host" (fHosts f) ++ typed_list "var" (fVars f) ++ typed_list "var-env" (fVarEnvs f) ++
  typed_value "job" (fJob f) ++ typed_value "output" (fOutput f) ++ typed_value "report" (fReport f) ++
  typed_value "only-failed" (fOnlyFailed f) ++ typed_value "max-failures" (fMaxFailures f) ++
  typed_value "known-hosts" (opKnownHosts o) ++
  typed_value "concurrency" (itoa (opConcurrency o)) ++
  typed_value "connect-retries" (itoa (opConnectRetries o)) ++
  typed_value "max-output" (itoa (opMaxOutput o)) ++
  typed_value "timeout" (duration_string (opStepTimeout o)) ++
  typed_value "connect-timeout" (duration_string (opConnectTimeout o)) ++
  typed_value "handshake-timeout" (duration_string (opHandshakeTimeout o)) ++
  typed_value "retry-delay" (duration_string (opRetryDelay o)) ++
  typed_value "max-retry-delay" (duration_string (opMaxRetryDelay o)) ++
  typed_bool "accept-new-host-keys" (opAcceptNewHosts o) ++
  typed_bool "insecure-skip-host-key-check" (opInsecure o) ++
  typed_bool "execute" (fExecute f) ++ typed_bool "verbose" (fVerbose f) ++ typed_bool "quiet" (fQuiet f).

Section typed.
Context `{GoRuntime}.

Lemma long_read i d value :
  long_flags !! i = Some d →
  read_arg ("--" +:+ match value with Some v => fdName d +:+ "=" +:+ v | None => fdName d end) =
  Flag (fdName d) value.
Proof.
  intros Hi. destruct newFlags_defined as (_ & _ & Hall). unfold newFlags in Hall.
  apply Forall_app in Hall as [Hall _]. rewrite Forall_lookup in Hall.
  destruct (Hall i d Hi) as (Hne & He & Hm).
  rewrite <- (split_name (fdName d) value Hne Hm He).
  assert (∀ n : string, n ≠ "" → read_arg ("--" +:+ n) = split_arg n) as Hread by (by intros [|c n]).
  apply Hread. destruct value as [v|]; [|done]. by intros [? _]%str_app_eq_nil.
Qed.

(** A flag with its value, a Boolean flag, and a flag that is repeated. *)
Lemma Parse_value i name k usage def set v f f' args :
  long_flags !! i = Some (mkFlag name k usage def set) → k ≠ KBool → set v f = Ok f' →
  Parse f (typed_value name v ++ args) = Parse f' args.
Proof.
  intros Hi Hk Hs. cbn [typed_value app Parse]. assert (read_arg ("--" +:+ name) = Flag name None) as -> by exact (long_read i _ None Hi).
  assert (Lookup newFlags name = Some (mkFlag name k usage def set)) as ->
    by exact (long_defined _ (list_elem_of_lookup_2 _ _ _ Hi)).
  cbn [fdKind fdSet]. rewrite bool_decide_eq_false_2 by done. by rewrite Hs.
Qed.
Lemma Parse_bool i name usage def set (b : bool) f f' args :
  long_flags !! i = Some (mkFlag name KBool usage def set) →
  set (if b then "true" else "false") f = Ok f' →
  Parse f (typed_bool name b ++ args) = Parse f' args.
Proof.
  intros Hi Hs. cbn [typed_bool app Parse]. set (v := if b then "true" else "false") in *.
  assert (read_arg ("--" +:+ name +:+ "=" +:+ v) = Flag name (Some v)) as -> by exact (long_read i _ (Some v) Hi).
  assert (Lookup newFlags name = Some (mkFlag name KBool usage def set)) as ->
    by exact (long_defined _ (list_elem_of_lookup_2 _ _ _ Hi)).
  cbn [fdKind fdSet from_option id]. by rewrite Hs.
Qed.
Lemma Parse_list i name usage def put f args l :
  long_flags !! i = Some (mkFlag name KMulti usage def (set_text put)) →
  Parse f (typed_list name l ++ args) = Parse (foldl (λ f s, put s f) f l) args.
Proof.
  intros Hi. revert f. induction l as [|s l IH]; intros f; [done|].
  change (typed_list name (s :: l) ++ args) with (typed_value name s ++ typed_list name l ++ args).
  by rewrite (Parse_value _ _ _ _ _ _ s f (put s f) _ Hi), IH.
Qed.

Lemma set_int_itoa put z f : int64 z → set_int put (itoa z) f = Ok (put z f).
Proof. intros Hz. unfold set_int. by rewrite ParseInt_itoa. Qed.
Lemma set_duration_string put z f : int64 z → set_duration put (duration_string z) f = Ok (put z f).
Proof. intros Hz. unfold set_duration. by rewrite ParseDuration_string. Qed.
Lemma set_bool_text put (b : bool) f : set_bool put (if b then "true" else "false") f = Ok (put b f).
Proof. by destruct b. Qed.

Lemma foldl_lists l f :
  foldl (λ f s, put_inv s f) f l = with_lists (.++ l) id id id id id f ∧
  foldl (λ f s, put_group s f) f l = with_lists id (.++ l) id id id id f ∧
  foldl (λ f s, put_tag s f) f l = with_lists id id (.++ l) id id id f ∧
  foldl (λ f s, put_host s f) f l = with_lists id id id (.++ l) id id f ∧
  foldl (λ f s, put_var s f) f l = with_lists id id id id (.++ l) id f ∧
  foldl (λ f s, put_var_env s f) f l = with_lists id id id id id (.++ l) f.
Proof.
  revert f. induction l as [|s l IH]; intros f; simpl.
  { destruct f. unfold with_lists. simpl. by rewrite !app_nil_r. }
  repeat split; [destruct (IH (put_inv s f)) as (-> & _)|destruct (IH (put_group s f)) as (_ & -> & _)
    |destruct (IH (put_tag s f)) as (_ & _ & -> & _)|destruct (IH (put_host s f)) as (_ & _ & _ & -> & _)
    |destruct (IH (put_var s f)) as (_ & _ & _ & _ & -> & _)
    |destruct (IH (put_var_env s f)) as (_ & _ & _ & _ & _ & ->)];
    unfold with_lists; simpl; by rewrite <- app_assoc.
Qed.

(** One flag of [typed]; the number is its place in the table. *)
Ltac typed_step i :=
  first
    [ erewrite (Parse_value i); [|reflexivity|discriminate|
        first [reflexivity|apply set_int_itoa; assumption|apply set_duration_string; assumption]]
    | erewrite (Parse_bool i); [|reflexivity|apply set_bool_text] ].

Lemma Parse_typed_then (f : flags) (rest : list string) :
  settable f → Parse default_flags (typed f ++ rest) = Parse f rest.
Proof.
  intros [Hnum (Hskip & Hmax & Hprog)]. rewrite !Forall_cons in Hnum.
  destruct Hnum as (H1 & H2 & H3 & H4 & H5 & H6 & H7 & H8 & _).
  unfold typed. rewrite <- !app_assoc.
  erewrite (Parse_list 0), (Parse_list 2), (Parse_list 3), (Parse_list 4), (Parse_list 6), (Parse_list 7);
    [|reflexivity..].
  typed_step 1. typed_step 21. typed_step 22. typed_step 10. typed_step 9. typed_step 18.
  typed_step 8. typed_step 14. typed_step 17. typed_step 11. typed_step 12. typed_step 13.
  typed_step 15. typed_step 16. typed_step 19. typed_step 20. typed_step 5. typed_step 23. typed_step 24.
  f_equal. clear -Hskip Hmax Hprog.
  rewrite (proj1 (foldl_lists _ _)), (proj1 (proj2 (foldl_lists _ _))),
    (proj1 (proj2 (proj2 (foldl_lists _ _)))), (proj1 (proj2 (proj2 (proj2 (foldl_lists _ _))))),
    (proj1 (proj2 (proj2 (proj2 (proj2 (foldl_lists _ _)))))),
    (proj2 (proj2 (proj2 (proj2 (proj2 (foldl_lists _ _)))))).
  destruct f as [inv groups tags hosts vars envs [] job output report only max execute verbose quiet].
  simpl in *. by subst.
Qed.

(** C29: the command line reaches every setting that flags can set ([settable]: the
    numbers are machine integers, and what no flag sets has its default): for all
    such settings there are arguments that [Parse] reads back as exactly these
    settings, whatever their texts contain, with the numbers and durations that Go
    prints for them.  The arguments after these are read as if they stood alone, and
    are returned as they are from the first one on that is not a flag, or after
    [--]. *)
Theorem Parse_typed (f : flags) (rest : list string) :
  settable f →
  Parse default_flags (typed f ++ rest) = Parse f rest ∧
  (match rest with s :: _ => read_arg s = NotFlag | [] => True end →
   Parse default_flags (typed f ++ rest) = Parsed f rest) ∧
  Parse default_flags (typed f ++ "--" :: rest) = Parsed f rest.
Proof.
  intros Hf. rewrite !Parse_typed_then by done. split_and!; [done| |done].
  destruct rest as [|s rest]; [done|]. intros Hs. simpl. by rewrite Hs.
Qed.
End typed.

Definition typed_example : flags :=
  mkFlags ["a.yaml"; "-b"] ["web"] [] ["db1"] ["x=1"] ["p=PW"]
    (mkOptions (-3) 0 (15 * second) (90 * minute + 1) 2 (-7) (2 ^ 63 - 1) 4096 "--" true false false 0 0)
    "job" "json" "" "old.jsonl" "10%" true false true.

Lemma Parse_typed_witness :
  length (typed typed_example) = 45 ∧
  @Parse default_runtime default_flags (typed typed_example ++ ["web1"; "--quiet"]) =
    Parsed typed_example ["web1"; "--quiet"].
Proof.
  split; [by vm_compute|].
  refine (proj1 (proj2 (Parse_typed typed_example ["web1"; "--quiet"] _)) _); [|vm_compute; reflexivity].
  split; [repeat constructor; by vm_compute|split_and!; vm_compute; reflexivity].
Defined.
