(* ===== verification/Shown.v ===== *)
(** * Shown: what the report of a host tells

    Every text that [runHost] puts into a result went through the redactor, or is
    the mask of a sensitive step, or one of a few fixed notes.  The output of a
    sensitive step is never shown.  These facts need nothing of the transport:
    they hold of whatever a host sends. *)

From S2P Require Import Prelude GoStd Domain Build Credentials Exec Report Runner.

(** What a computation returns, if it does. *)
Definition gives {W A} (m : M W A) (Q : A → Prop) : Prop :=
  ∀ s, match m s with Ret a _ => Q a | _ => True end.

Section gives.
Context {W : Type}.
Lemma gives_ret {A} (a : A) (Q : A → Prop) : Q a → gives (W := W) (ret a) Q.
Proof. by intros HQ s. Qed.
Lemma gives_bind {A B} (P : A → Prop) (m : M W A) (f : A → M W B) Q :
  gives m P → (∀ a, P a → gives (f a) Q) → gives (bind m f) Q.
Proof. intros Hm Hf s. specialize (Hm s). unfold bind. destruct (m s); [by apply Hf|done..]. Qed.
Lemma gives_any {A} (m : M W A) : gives m (λ _, True).
Proof. intros s. by destruct (m s). Qed.
Lemma gives_then {A B} (m : M W A) (f : A → M W B) Q : (∀ a, gives (f a) Q) → gives (bind m f) Q.
Proof. intros Hf. eapply gives_bind; [apply gives_any|]. by intros a _. Qed.
End gives.


Section shown.
Context `{GoRuntime} {W Signer : Type} `{!Transport W Signer}.
Context (o : Options) (redact : string → string).

(** A text of a result: empty, the mask, or redacted. *)
Definition told (s : string) : Prop := s = "" ∨ s = SensitiveMask ∨ ∃ x, s = redact x.
(** What is left of the output of a sensitive step. *)
Definition hidden (s : string) : Prop := s = "" ∨ s = SensitiveMask ∨ s = redact "".
(** The notes of a step. *)
Definition noted (s : string) : Prop :=
  s = "" ∨ s = "started; result not checked (fire and forget)" ∨
  (∃ d, s = "host rebooted (new boot ID) and was back after " +:+ duration_string d) ∨
  ∃ d, s = "connection closed as expected; host back after " +:+ duration_string d.

Record step_shown (a : Action) (sr : StepResult) : Prop := {
  sh_command : srCommand sr = aDisplay a;
  sh_stdout : told (srStdout sr);
  sh_stderr : told (srStderr sr);
  sh_reason : told (srReason sr);
  sh_note : noted (srNote sr);
  sh_sensitive : aSensitive a = true → hidden (srStdout sr) ∧ hidden (srStderr sr);
}.
Record host_shown (p : Plan Signer) (h : HostResult) : Prop := {
  hs_reason : told (hrReason h);
  hs_failed : hrFailedStep h = "" ∨ ∃ a, a ∈ plActions p ∧ hrFailedStep h = aName a;
  hs_steps : Forall2 step_shown (plActions p) (hrSteps h);
}.

Lemma told_nil : told "".
Proof. by left. Qed.
Lemma told_redact x : told (redact x).
Proof. right; right. by exists x. Qed.
Lemma mask_told a s : told (mask redact a s).
Proof. unfold mask. destruct (_ && _); [by right; left|apply told_redact]. Qed.
Lemma mask_hidden a s : aSensitive a = true → hidden (mask redact a s).
Proof.
  intros Ha. unfold mask. rewrite Ha. simpl. case_bool_decide as Hs; simpl; [|by right; left].
  right; right. by rewrite Hs.
Qed.

Lemma new_step_shown a st : step_shown a (new_step a st).
Proof. split; simpl; try apply told_nil; [done|by left|]. by split; left. Qed.
Lemma note_attempt_shown a try res sr : step_shown a sr → step_shown a (note_attempt redact a try res sr).
Proof.
  intros [H1 H2 H3 H4 H5 H6]. split; simpl; try done; try apply mask_told.
  intros Ha. by split; apply mask_hidden.
Qed.
Lemma set_outcome_shown a st cat reason sr :
  told reason → step_shown a sr → step_shown a (set_outcome st cat reason sr).
Proof. by intros Hr [H1 H2 H3 H4 H5 H6]. Qed.
Lemma set_duration_shown a d sr : step_shown a sr → step_shown a (set_duration d sr).
Proof. by intros [H1 H2 H3 H4 H5 H6]. Qed.
Lemma set_note_shown a n sr : noted n → step_shown a sr → step_shown a (set_note n sr).
Proof. by intros Hn [H1 H2 H3 H4 H5 H6]. Qed.

(** ** Steps *)

Lemma tries_shown n try c p a sudoPW sr f :
  step_shown a sr → gives (tries o redact n try c p a sudoPW sr f) (λ x, step_shown a x.1).
Proof.
  revert try sr f. induction n as [|n IH]; intros try sr f Hsr; [by apply gives_ret|].
  cbn [tries]. apply gives_then. intros [e|]; [by apply gives_ret|].
  apply gives_then. intros [res f']. destruct (repeatable f').
  - by apply IH, note_attempt_shown.
  - by apply gives_ret, note_attempt_shown.
Qed.

Lemma runStep_shown c p a sudoPW :
  gives (runStep o redact c p a sudoPW) (λ x, step_shown a x.1).
Proof.
  unfold runStep. apply gives_then. intros t0. eapply gives_bind; [apply tries_shown, new_step_shown|].
  intros [sr f] Hsr. apply gives_then. intros t1. apply gives_ret, set_duration_shown.
  destruct f as [f|]; apply set_outcome_shown; [apply told_redact|done|apply told_nil|done].
Qed.

Lemma runForget_shown c p a sudoPW :
  gives (runForget o redact c p a sudoPW) (λ x, step_shown a x.1).
Proof.
  unfold runForget. eapply gives_bind; [apply runStep_shown|]. intros [sr f] Hsr. simpl in Hsr.
  assert (∀ sr, step_shown a sr →
    step_shown a (set_note "started; result not checked (fire and forget)" sr)) as Hnote.
  { intros sr'. apply set_note_shown. by right; left. }
  destruct f as [f|]; [destruct (forgiven f sr)|]; apply gives_ret; simpl; try done; apply Hnote; try done.
  by apply set_outcome_shown; [apply told_nil|].
Qed.

Lemma runDisconnecting_shown fuel c p a sudoPW :
  gives (runDisconnecting o redact fuel c p a sudoPW) (λ x, step_shown a x.1.1).
Proof.
  unfold runDisconnecting. apply gives_then. intros [oldBoot|f].
  2: { apply gives_ret, set_outcome_shown; [apply told_redact|apply new_step_shown]. }
  apply gives_then. intros _. eapply gives_bind; [apply runStep_shown|]. intros [sr f] Hsr. simpl in Hsr.
  apply gives_then. intros _. destruct (_ && negb _); [by apply gives_ret|].
  set (sr' := if lost_connection f sr then _ else sr).
  assert (step_shown a sr') as Hsr'.
  { unfold sr'. destruct (lost_connection f sr); [|done]. by apply set_outcome_shown; [apply told_nil|]. }
  apply gives_then. intros []; [by apply gives_ret|]. do 2 (apply gives_then; intros ?).
  apply gives_then. intros [nc|wf].
  - apply gives_then. intros t1. apply gives_ret, set_note_shown; [|done].
    unfold noted. destruct (aReboot a); right; right; [left|right]; by eexists.
  - apply gives_ret. by apply set_outcome_shown; [apply told_redact|].
Qed.

Lemma run_action_shown fuel c p a sudoPW :
  gives (run_action o redact fuel c p a sudoPW) (λ x, step_shown a x.1.1).
Proof.
  unfold run_action. destruct (aDisconnect a); [apply runDisconnecting_shown|].
  destruct (aFireAndForget a); 
    apply (gives_bind (λ x, step_shown a x.1)); try (intros [sr f] Hsr; apply gives_ret; exact Hsr).
  - apply runForget_shown.
  - apply runStep_shown.
Qed.

(** ** Hosts *)

Lemma foldl_skipped_steps acts h :
  foldl (λ h a, add_step (skipped a) h) h acts =
  mkHostResult (hrHost h) (hrAddress h) (hrStatus h) (hrFailedStep h) (hrCategory h) (hrReason h)
    (hrConnectAttempts h) (hrDuration h) (hrSteps h ++ map skipped acts).
Proof.
  revert h. induction acts as [|a acts IH]; intros h; simpl; [rewrite app_nil_r; by destruct h|].
  rewrite IH. simpl. by rewrite <- app_assoc.
Qed.

Lemma skipped_shown acts : Forall2 step_shown acts (map skipped acts).
Proof. induction acts; constructor; [apply new_step_shown|done]. Qed.

(** The result after some of the steps. *)
Record so_far (p : Plan Signer) (h : HostResult) (acts : list Action) : Prop := {
  sf_reason : told (hrReason h);
  sf_failed : hrFailedStep h = "" ∨ ∃ a, a ∈ plActions p ∧ hrFailedStep h = aName a;
  sf_steps : ∃ ran, plActions p = ran ++ acts ∧ Forall2 step_shown ran (hrSteps h);
}.

Lemma so_far_step p h a acts sr f :
  so_far p h (a :: acts) → step_shown a sr →
  so_far p (match f with
    | None => add_step sr h
    | Some f => host_fail redact f (aName a) (add_step sr h)
    end) acts.
Proof.
  intros [Hr Hf (ran & Hp & Hs)] Hsr.
  assert (∃ ran, plActions p = ran ++ acts ∧ Forall2 step_shown ran (hrSteps h ++ [sr])) as Hsteps.
  { exists (ran ++ [a]). rewrite <- app_assoc. split; [done|]. apply Forall2_app; [done|]. by constructor. }
  assert (a ∈ plActions p) as Ha by (rewrite Hp; set_solver).
  destruct f as [f|]; [|by split]. unfold host_fail. simpl. destruct (hrCategory h); [by split|].
  split; simpl; [apply told_redact|right; by exists a|done].
Qed.

Lemma run_actions_shown fuel client p acts sudoPW stopped h :
  so_far p h acts →
  gives (run_actions o redact fuel client p acts sudoPW stopped h) (λ x, so_far p x.1 []).
Proof.
  revert client stopped h. induction acts as [|a acts IH]; intros client stopped h Hh; [by apply gives_ret|].
  cbn [run_actions]. destruct stopped.
  { apply IH. by apply (so_far_step p h a acts (skipped a) None); [|apply new_step_shown]. }
  apply gives_then. intros c. eapply gives_bind; [apply run_action_shown|].
  intros [[sr f] client'] Hsr. simpl in Hsr. pose proof (so_far_step p h a acts sr f Hh Hsr) as Hn.
  destruct f as [f|]; by apply IH.
Qed.

Lemma runHost_gives fuel p : gives (runHost o redact fuel p) (host_shown p).
Proof.
  unfold runHost. apply gives_then. intros t0. apply gives_then. intros [r attempts].
  assert (so_far p (set_attempts attempts (new_host p StatusSuccess)) (plActions p)) as Hnew.
  { split; simpl; [apply told_nil|by left|]. by exists []. }
  destruct r as [c|e].
  - apply gives_then. intros sudoPW. eapply gives_bind; [by apply run_actions_shown|].
    intros [h client] [Hr Hf (ran & Hp & Hs)]. do 2 (apply gives_then; intros ?). apply gives_ret.
    rewrite app_nil_r in Hp. subst ran. by split.
  - apply gives_then. intros t1. apply gives_ret. rewrite foldl_skipped_steps.
    split; simpl; [apply told_redact|by left|apply skipped_shown].
Qed.

(** Whatever a host answers, every text of its result (reasons, the
    output of the steps) went through the redactor or is a mask, the command shown
    of a step is its redacted display, notes are fixed texts with a duration, and
    of the output of a sensitive step nothing is left. *)
Lemma runHost_told (fuel : nat) (p : Plan Signer) (s s' : state W) (h : HostResult) :
  runHost o redact fuel p s = Ret h s' → host_shown p h.
Proof. intros E. pose proof (runHost_gives fuel p s) as Hg. by rewrite E in Hg. Qed.

Lemma notStarted_shown (p : Plan Signer) st reason :
  Forall2 step_shown (plActions p) (hrSteps (notStarted p st reason)).
Proof. apply skipped_shown. Qed.
End shown.
