(* ===== verification/Keeps.v ===== *)
(** * Keeps: invariants of a host's run

    A predicate on the state that the operations of the transport keep, with
    dials to the hops of the plan, is kept by [runHost]: nothing else touches the
    state.  [stable] collects what has to be shown; it needs none of the laws of
    the transport. *)

From S2P Require Import Prelude GoStd Domain Build Credentials Exec Report Runner.

Create HintDb keeps.

Definition keeps {W A} (I : state W → Prop) (m : M W A) : Prop :=
  ∀ s, I s → match m s with Ret _ s' => I s' | _ => True end.

Section rules.
Context {W : Type} (I : state W → Prop).
Lemma keeps_ret {A} (a : A) : keeps I (ret a).
Proof. by intros s. Qed.
Lemma keeps_bind {A B} (m : M W A) (f : A → M W B) :
  keeps I m → (∀ a, keeps I (f a)) → keeps I (bind m f).
Proof. intros Hm Hf s Hs. specialize (Hm s Hs). unfold bind. destruct (m s); [by apply Hf|done..]. Qed.
Lemma keeps_panic {A} : keeps I (λ _, Panic : out W A).
Proof. by intros s. Qed.
Lemma keeps_nofuel {A} : keeps I (λ _, NoFuel : out W A).
Proof. by intros s. Qed.
Lemma keeps_lift_option {A} (x : option A) : keeps I (lift_option x).
Proof. destruct x; [apply keeps_ret|apply keeps_panic]. Qed.
End rules.
#[export] Hint Resolve keeps_ret keeps_panic keeps_nofuel keeps_lift_option : keeps.

(** Follows the structure of a computation. *)
Ltac keep :=
  repeat first
    [ solve [auto with keeps]
    | apply keeps_bind; [|intros ?]
    | case_match ].

Section keeps.
Context `{GoRuntime} {W Signer : Type} `{!Transport W Signer}.
Context (o : Options) (redact : string → string) (p : Plan Signer) (I : state W → Prop).

Record stable : Prop := {
  st_dial deadline : keeps I (dial p deadline);
  st_exec c rq : keeps I (exec c rq);
  st_alive c t : keeps I (alive c t);
  st_close c : keeps I (close c);
  st_keepalive c i m : keeps I (keepalive_start c i m);
  st_stop c : keeps I (keepalive_stop c);
  st_wait d : keeps I (wait d);
  st_rand n : keeps I (rand n);
}.

Context (Hst : stable).
#[local] Hint Resolve st_dial st_exec st_alive st_close st_keepalive st_stop st_wait st_rand : keeps.

Lemma keeps_now : keeps I now.
Proof. by intros s. Qed.
Lemma keeps_ctx_err : keeps I ctx_err.
Proof. by intros s. Qed.
#[local] Hint Resolve keeps_now keeps_ctx_err : keeps.

Lemma keeps_sleep d : keeps I (sleep d).
Proof. unfold sleep. keep. Qed.
Lemma keeps_backoff base maxDelay n : keeps I (backoff base maxDelay n).
Proof. unfold backoff. keep. Qed.
#[local] Hint Resolve keeps_sleep keeps_backoff : keeps.

Lemma keeps_attempt c a sudoPW : keeps I (attempt o c p a sudoPW).
Proof. unfold attempt. keep. Qed.
#[local] Hint Resolve keeps_attempt : keeps.

Lemma keeps_tries n try c a sudoPW sr f : keeps I (tries o redact n try c p a sudoPW sr f).
Proof. revert try sr f. induction n as [|n IH]; intros; cbn [tries]; keep. Qed.
#[local] Hint Resolve keeps_tries : keeps.

Lemma keeps_runStep c a sudoPW : keeps I (runStep o redact c p a sudoPW).
Proof. unfold runStep. keep. Qed.
Lemma keeps_connect fuel n : keeps I (connect o fuel n p).
Proof. revert n. induction fuel as [|fuel IH]; intros; cbn [connect]; keep. Qed.
Lemma keeps_needsSudoPassword c : keeps I (needsSudoPassword c p).
Proof. unfold needsSudoPassword. keep. Qed.
Lemma keeps_bootID c : keeps I (bootID c).
Proof. unfold bootID. keep. Qed.
#[local] Hint Resolve keeps_runStep keeps_connect keeps_needsSudoPassword keeps_bootID : keeps.

Lemma keeps_wait_loop fuel timeout deadline oldBoot last saw :
  keeps I (wait_loop fuel p timeout deadline oldBoot last saw).
Proof. revert last saw. induction fuel as [|fuel IH]; intros; cbn [wait_loop]; keep. Qed.
#[local] Hint Resolve keeps_wait_loop : keeps.

Lemma keeps_waitForHost fuel timeout oldBoot : keeps I (waitForHost fuel p timeout oldBoot).
Proof. unfold waitForHost. keep. Qed.
#[local] Hint Resolve keeps_waitForHost : keeps.

Lemma keeps_run_action fuel c a sudoPW : keeps I (run_action o redact fuel c p a sudoPW).
Proof. unfold run_action, runDisconnecting, runForget. keep. Qed.
#[local] Hint Resolve keeps_run_action : keeps.

Lemma keeps_run_actions fuel client acts sudoPW stopped h :
  keeps I (run_actions o redact fuel client p acts sudoPW stopped h).
Proof. revert client stopped h. induction acts as [|a acts IH]; intros; cbn [run_actions]; keep. Qed.
#[local] Hint Resolve keeps_run_actions : keeps.

Lemma runHost_keeps fuel s s' h : I s → runHost o redact fuel p s = Ret h s' → I s'.
Proof.
  assert (keeps I (runHost o redact fuel p)) as Hk by (unfold runHost; keep).
  intros Hs E. specialize (Hk s Hs). by rewrite E in Hk.
Qed.
End keeps.
