(* ===== verification/TransportSpec.v ===== *)
(** * TransportSpec: the interface of the transport and its laws

    [TransportLaws] is what the theorems about [Runner] need of the transport.
    [sat] is total correctness in the monad of [Runner]; the lemmas of this file
    are its rules for the small operations.  [protocol] is the discipline of
    connections that a trace has to follow. *)

From S2P Require Import Prelude GoStd Domain Build Credentials Exec Report Runner.

(** ** What the theorems need of the transport *)

Class TransportLaws (W Signer : Type) `{!Transport W Signer} := {
  (** [Exec_outcome]: errors are timeouts, cancellations or lost sessions; the
      patterns of the request can be looked up *)
  law_exec c rq w r e w' : tr_exec c rq w = (r, e, w') →
    (match e with
     | Some e => fCategory (AsFailure e) ∈ [CatCommandTimeout; CatCancelled; CatSessionFailed] ∧
         rExitCode r = None
     | None => rStarted r = true
     end) ∧
    (∀ i, i < length (rqPatterns rq) → is_Some (Found r i));
  law_rand n w : (0 < n)%Z → (0 ≤ fst (tr_rand n w) < n)%Z;
  (** time does not go back, and a timer that fires has waited *)
  law_dial_now d t b w : (tr_now w ≤ tr_now (snd (tr_dial d t b w)))%Z;
  law_exec_now c rq w : (tr_now w ≤ tr_now (snd (tr_exec c rq w)))%Z;
  law_alive_now c t w : (tr_now w ≤ tr_now (snd (tr_alive c t w)))%Z;
  law_keepalive_now c i m w : (tr_now w ≤ tr_now (tr_keepalive c i m w))%Z;
  law_stop_now c w : (tr_now w ≤ tr_now (tr_stop c w))%Z;
  law_close_now c w : (tr_now w ≤ tr_now (tr_close c w))%Z;
  law_rand_now n w : (tr_now w ≤ tr_now (snd (tr_rand n w)))%Z;
  law_wait_now d w : (tr_now w ≤ tr_now (snd (tr_wait d w)))%Z;
  law_wait d w : fst (tr_wait d w) = None → (tr_now w + d ≤ tr_now (snd (tr_wait d w)))%Z;
}.

(** ** Total correctness *)

Definition sat {W A} (m : M W A) (s : state W) (Q : A → state W → Prop) : Prop :=
  match m s with Ret a s' => Q a s' | _ => False end.

Section sat.
Context {W : Type}.
Lemma sat_ret {A} (a : A) (s : state W) Q : Q a s → sat (ret a) s Q.
Proof. done. Qed.
Lemma sat_bind {A B} (m : M W A) (f : A → M W B) s Q :
  sat m s (λ a s', sat (f a) s' Q) → sat (bind m f) s Q.
Proof. unfold sat, bind. by destruct (m s). Qed.
Lemma sat_mono {A} (m : M W A) s (Q Q' : A → state W → Prop) :
  sat m s Q → (∀ a s', Q a s' → Q' a s') → sat m s Q'.
Proof. unfold sat. destruct (m s); naive_solver. Qed.
Lemma sat_Ret {A} (m : M W A) s Q : sat m s Q ↔ ∃ a s', m s = Ret a s' ∧ Q a s'.
Proof. unfold sat. destruct (m s); naive_solver. Qed.
(** The postcondition can mention the run itself. *)
Lemma sat_run {A} (m : M W A) s (Q : A → state W → Prop) :
  sat m s (λ a s', m s = Ret a s' → Q a s') → sat m s Q.
Proof. unfold sat. destruct (m s); auto. Qed.
End sat.

(** ** Events *)

(** The requests sent, in order. *)
Definition execs (evs : list event) : list Request :=
  omap (λ e, match e with EExec _ rq => Some rq | _ => None end) evs.

Lemma execs_app e1 e2 : execs (e1 ++ e2) = execs e1 ++ execs e2.
Proof. apply omap_app. Qed.

(** The client protocol: a connection is opened only when none is open, used
    and closed only while it is open. *)
Definition proto (st : option (option nat)) (e : event) : option (option nat) :=
  match st, e with
  | Some cur, ESleep _ => Some cur
  | Some None, EDial c => Some c
  | Some (Some c), EExec c' _ | Some (Some c), EAlive c' => if decide (c = c') then Some (Some c) else None
  | Some (Some c), EClose c' => if decide (c = c') then Some None else None
  | _, _ => None
  end.
Definition protocol (cur : option nat) (evs : list event) : option (option nat) :=
  foldl proto (Some cur) evs.

Lemma protocol_app cur evs1 evs2 cur' :
  protocol cur evs1 = Some cur' → protocol cur (evs1 ++ evs2) = protocol cur' evs2.
Proof. unfold protocol. intros H. by rewrite foldl_app, H. Qed.

(** What a trace that opens with no connection uses, it has dialed. *)
Lemma protocol_exec_dialed evs st c rq :
  protocol None evs = Some st → EExec c rq ∈ evs → EDial (Some c) ∈ evs.
Proof.
  intros Hp Hin. assert (∀ cur, foldl proto (Some cur) evs = Some st →
    cur = Some c ∨ EDial (Some c) ∈ evs) as Hgo.
  2: { by destruct (Hgo None Hp). }
  clear Hp. assert (∀ l, foldl proto None l = None) as Hnone by (induction l; [done|by simpl]).
  induction evs as [|e evs IH]; intros cur Hp; [by apply elem_of_nil in Hin|].
  cbn [foldl] in Hp. apply elem_of_cons in Hin as [<-|Hin].
  { left. destruct cur as [c'|]; simpl in Hp; [|by rewrite Hnone in Hp]. case_decide; [by subst|].
    by rewrite Hnone in Hp. }
  destruct (proto (Some cur) e) as [cur'|] eqn:Ee; [|by rewrite Hnone in Hp].
  destruct (IH Hin cur' Hp) as [->|?]; [|right; by right].
  destruct cur as [c'|], e as [[d|]|c'' rq'|c''|c''|d]; simpl in Ee; repeat case_decide; simplify_eq;
    try (by left); right; left.
Qed.

(** Events that use client [c] only, and neither open nor close anything. *)
Definition uses (c : nat) (e : event) : Prop :=
  match e with EExec c' _ | EAlive c' => c' = c | ESleep _ => True | _ => False end.
Lemma protocol_uses c evs : Forall (uses c) evs → protocol (Some c) evs = Some (Some c).
Proof.
  unfold protocol. induction 1 as [|e evs He _ IH]; [done|]. simpl.
  destruct e; simpl in *; subst; try done; by rewrite decide_True.
Qed.

(** ** Small operations *)

Section spec.
Context `{GoRuntime} {W Signer : Type} `{!Transport W Signer} `{!TransportLaws W Signer}.
Context (o : Options) (redact : string → string).

(** [s'] follows [s] with the events [evs]. *)
Record follows (s s' : state W) (evs : list event) : Prop := {
  fo_trace : trace s' = trace s ++ evs;
  fo_now : (tr_now (world s) ≤ tr_now (world s'))%Z;
}.
Lemma follows_refl s : follows s s [].
Proof. split; [by rewrite app_nil_r|done]. Qed.
Lemma follows_trans s1 s2 s3 e1 e2 :
  follows s1 s2 e1 → follows s2 s3 e2 → follows s1 s3 (e1 ++ e2).
Proof. intros [H1 H2] [H3 H4]. split; [by rewrite H3, H1, app_assoc|lia]. Qed.

Lemma sat_now s (Q : Z → state W → Prop) : Q (tr_now (world s)) s → sat now s Q.
Proof. done. Qed.
Lemma sat_ctx_err s (Q : option error → state W → Prop) : Q (tr_ctx_err (world s)) s → sat ctx_err s Q.
Proof. done. Qed.
Lemma sat_lift_option {A} (x : option A) s (Q : A → state W → Prop) a :
  x = Some a → Q a s → sat (lift_option x) s Q.
Proof. by intros ->. Qed.

Lemma sat_exec c rq s (Q : Result * option error → state W → Prop) :
  (∀ r e s', follows s s' [EExec c rq] →
    (match e with
     | Some e => fCategory (AsFailure e) ∈ [CatCommandTimeout; CatCancelled; CatSessionFailed] ∧
         rExitCode r = None
     | None => rStarted r = true
     end) →
    (∀ i, i < length (rqPatterns rq) → is_Some (Found r i)) → Q (r, e) s') →
  sat (exec c rq) s Q.
Proof.
  intros HQ. unfold sat, exec, lift. destruct (tr_exec c rq (world s)) as [[r e] w] eqn:E.
  destruct (law_exec _ _ _ _ _ _ E) as [H1 H2]. apply HQ; [split; simpl; [done|]|done|done].
  pose proof (law_exec_now c rq (world s)) as Hn. by rewrite E in Hn.
Qed.

Lemma sat_sleep d s (Q : option error → state W → Prop) :
  (∀ e s' evs, follows s s' evs → (evs = [] ∨ evs = [ESleep d]) →
    ((0 < d)%Z → e = None → (tr_now (world s) + d ≤ tr_now (world s'))%Z) → Q e s') →
  sat (sleep d) s Q.
Proof.
  intros HQ. unfold sleep. destruct (Z.leb_spec d 0).
  - apply sat_ctx_err, (HQ _ _ []); [apply follows_refl|by left|lia].
  - unfold sat, wait, lift. pose proof (law_wait d (world s)) as Hw.
    pose proof (law_wait_now d (world s)) as Hn.
    destruct (tr_wait d (world s)) as [e w] eqn:E. simpl in *.
    apply (HQ e _ [ESleep d]); [by split|by right|]. intros _ ->. by apply Hw.
Qed.

Lemma sat_close c s (Q : unit → state W → Prop) :
  (∀ s', follows s s' [EClose c] → Q tt s') → sat (close c) s Q.
Proof. intros HQ. apply HQ. split; simpl; [done|apply law_close_now]. Qed.
Lemma sat_alive c t s (Q : bool → state W → Prop) :
  (∀ b s', follows s s' [EAlive c] → Q b s') → sat (alive c t) s Q.
Proof.
  intros HQ. unfold sat, alive, lift. pose proof (law_alive_now c t (world s)) as Hn.
  destruct (tr_alive c t (world s)) as [b w]. by apply HQ.
Qed.
Lemma sat_keepalive_start c i m s (Q : unit → state W → Prop) :
  (∀ s', follows s s' [] → Q tt s') → sat (keepalive_start c i m) s Q.
Proof. intros HQ. apply HQ. split; simpl; [done|apply law_keepalive_now]. Qed.
Lemma sat_keepalive_stop c s (Q : unit → state W → Prop) :
  (∀ s', follows s s' [] → Q tt s') → sat (keepalive_stop c) s Q.
Proof. intros HQ. apply HQ. split; simpl; [done|apply law_stop_now]. Qed.

(** A plan that [Prepare] accepted with credentials. *)
Record plan_ok (p : Plan Signer) : Prop := {
  po_auth : is_Some (plAuth p);
  po_bastion : is_Some (tBastion (plTarget p)) → is_Some (plBastion p);
}.

Lemma sat_dial p deadline s (Q : res error nat → state W → Prop) :
  plan_ok p →
  (∀ r s', follows s s' [EDial (match r with Ok c => Some c | Err _ => None end)] → Q r s') →
  sat (dial p deadline) s Q.
Proof.
  intros [[a Ha] Hb] HQ. unfold dial. rewrite Ha. apply sat_bind. simpl.
  assert (∃ b, match tBastion (plTarget p) with
     | Some b => a ← plBastion p; Some (Some (hop_of b a)) | None => Some None end = Some b) as [b Hbo].
  { destruct (tBastion (plTarget p)) as [e|]; [|eauto].
    destruct Hb as [ab ->]; [done|]. simpl. eauto. }
  unfold sat at 1. simpl. apply sat_bind. eapply sat_lift_option; [exact Hbo|].
  unfold sat. pose proof (law_dial_now deadline (hop_of (tEndpoint (plTarget p)) a) b (world s)) as Hn.
  destruct (tr_dial deadline (hop_of (tEndpoint (plTarget p)) a) b (world s)) as [[e|] w];
    apply HQ; by split.
Qed.
End spec.
