(* ===== verification/StepSpec.v ===== *)
(** * StepSpec: one step of a host

    [check], [attempt] and [runStep]: what a step sends to the host, how often it
    is attempted, and how its result agrees with the failure. *)

From S2P Require Import Prelude GoStd Domain Build Credentials Exec Report Runner TransportSpec.

Section spec.
Context `{GoRuntime} {W Signer : Type} `{!Transport W Signer} `{!TransportLaws W Signer}.
Context (o : Options) (redact : string → string).

(** ** check *)

Lemma check_texts_spec res want msg i l :
  (∀ j, j < length l → is_Some (Found res (i + j))) →
  ∃ f, check_texts res want msg i l = Some f ∧
    (f = None ↔ ∀ j, j < length l → Found res (i + j) = Some want) ∧
    (∀ g, f = Some g → fCategory g = CatCommandFailed).
Proof.
  revert i. induction l as [|t l IH]; intros i Hl; simpl.
  { exists None. split_and!; [done| |done]. split; [|done]. intros _ j. lia. }
  destruct (Hl 0) as [b Hb]; [simpl; lia|]. rewrite Nat.add_0_r in Hb. rewrite Hb.
  case_bool_decide as E.
  - destruct (IH (S i)) as (f & -> & Hf & Hc).
    { intros j Hj. specialize (Hl (S j)). rewrite Nat.add_succ_r in Hl. apply Hl. simpl. lia. }
    exists f. split_and!; [done| |done]. rewrite Hf. split.
    + intros Hall [|j] Hj; [by rewrite Nat.add_0_r, Hb, E|].
      rewrite Nat.add_succ_r. apply Hall. lia.
    + intros Hall j Hj. specialize (Hall (S j)). rewrite Nat.add_succ_r in Hall. apply Hall. lia.
  - eexists. split_and!; [done| |by intros g [= <-]]. split; [done|].
    intros Hall. specialize (Hall 0). rewrite Nat.add_0_r, Hb in Hall.
    exfalso. apply E. by assert (Some b = Some want) as [=] by (apply Hall; simpl; lia).
Qed.

(** The expectations of a step hold of a result. *)
Definition expected (a : Action) (res : Result) : Prop :=
  rExitCode res = Some (aExitCode a) ∧
  (∀ i, i < length (aContains a) → Found res i = Some true) ∧
  (∀ i, i < length (aNotContains a) → Found res (length (aContains a) + i) = Some false) ∧
  (∀ re, aRegex a = Some re → regexp_match re (rStdout res) = true).

Lemma check_spec a res :
  (∀ i, i < length (aContains a ++ aNotContains a) → is_Some (Found res i)) →
  ∃ f, check a res = Some f ∧ (f = None ↔ expected a res) ∧
    (∀ g, f = Some g → fCategory g = CatCommandFailed).
Proof.
  intros Hl. unfold check, expected. rewrite length_app in Hl.
  destruct (rExitCode res) as [code|]; [|eexists; split_and!; [done|naive_solver|by intros g [= <-]]].
  destruct (Z.eqb_spec code (aExitCode a)) as [->|Hne]; simpl.
  2: { eexists. split_and!; [done| |by intros g [= <-]]. split; [done|]. intros [[= ->] _]. done. }
  destruct (check_texts_spec res true "output does not contain " 0 (aContains a)) as (f1 & -> & H1 & C1).
  { intros j Hj. apply Hl. lia. }
  destruct f1 as [g|].
  { eexists. split_and!; [done| |done]. split; [done|]. intros (_ & Hc & _). by apply H1 in Hc. }
  destruct (check_texts_spec res false "output contains forbidden text " (length (aContains a))
    (aNotContains a)) as (f2 & -> & H2 & C2).
  { intros j Hj. apply Hl. lia. }
  destruct f2 as [g|].
  { eexists. split_and!; [done| |done]. split; [done|]. intros (_ & _ & Hc & _). by apply H2 in Hc. }
  destruct (aRegex a) as [re|].
  - destruct (regexp_match re (rStdout res)) eqn:Er; eexists; split_and!; try done.
    + split; [|done]. intros _. split_and!; [done|by apply H1|by apply H2|]. by intros ? [= <-].
    + split; [done|]. intros (_ & _ & _ & Hr). by rewrite (Hr re eq_refl) in Er.
    + by intros g [= <-].
  - eexists. split_and!; [done| |done]. split; [|done].
    intros _. split_and!; [done|by apply H1|by apply H2|done].
Qed.

(** ** attempt *)

(** The requests of one attempt of a step: the upload of its content, if any,
    then its command.  The sudo password is sent only to [sudo -S]. *)
Definition sudo_stdin (p : Plan Signer) (sudoPW : bool) : string :=
  if sudoPW then match plAuth p with Some a => auSudoPassword a +:+ newline | None => "" end else "".
Definition main_request (p : Plan Signer) (a : Action) (sudoPW : bool) (tmp : string) : Request :=
  mkRequest (Remote a tmp (aSudo a && sudoPW)) (sudo_stdin p (aSudo a && sudoPW)) (aTimeout a)
    (Z.to_nat (opMaxOutput o)) (aContains a ++ aNotContains a).
Definition upload_request (a : Action) (content : string) : Request :=
  mkRequest UploadCommand content (aTimeout a) 4096 [].

Definition attempt_requests (p : Plan Signer) (a : Action) (sudoPW : bool) (rqs : list Request) : Prop :=
  match aContent a with
  | None => rqs = [main_request p a sudoPW ""]
  | Some content => rqs = [upload_request a content] ∨
      ∃ tmp, tmp ≠ "" ∧ rqs = [upload_request a content; main_request p a sudoPW tmp]
  end.

Definition step_categories : list Category :=
  [CatCommandFailed; CatCommandTimeout; CatCancelled; CatSessionFailed].

Definition attempt_post (p : Plan Signer) (a : Action) (c : nat) (sudoPW : bool) (s : state W)
    (x : Result * option Failure) (s' : state W) : Prop :=
  ∃ rqs, follows s s' (map (EExec c) rqs) ∧ attempt_requests p a sudoPW rqs ∧
    match snd x with
    | None => expected a (fst x)
    | Some f => fCategory f ∈ step_categories
    end.

Lemma attempt_run_spec p a c sudoPW tmp s :
  plan_ok p →
  sat (let! stdin := (if aSudo a && sudoPW
         then lift_option (pw ← plAuth p; Some (auSudoPassword pw +:+ newline)) else ret "") in
       let! x := exec c (mkRequest (Remote a tmp (aSudo a && sudoPW)) stdin (aTimeout a)
                   (Z.to_nat (opMaxOutput o)) (aContains a ++ aNotContains a)) in
       match x with
       | (res, Some e) => ret (res, Some (AsFailure e))
       | (res, None) => let! f := lift_option (check a res) in ret (res, f)
       end) s
    (λ x s', follows s s' [EExec c (main_request p a sudoPW tmp)] ∧
      match snd x with
      | None => expected a (fst x)
      | Some f => fCategory f ∈ step_categories
      end).
Proof.
  intros [[au Hau] _]. apply sat_bind.
  assert (∀ Q, Q (sudo_stdin p (aSudo a && sudoPW)) s →
    sat (if aSudo a && sudoPW then lift_option (pw ← plAuth p; Some (auSudoPassword pw +:+ newline))
         else ret "") s Q) as Hstdin.
  { intros Q HQ. unfold sudo_stdin in HQ. rewrite Hau in HQ |- *.
    destruct (aSudo a && sudoPW); exact HQ. }
  apply Hstdin, sat_bind, sat_exec. intros r e s' Hf He Hi. destruct e as [e|].
  - apply sat_ret. split; [done|]. simpl. destruct He as [He _]. unfold step_categories. set_solver.
  - destruct (check_spec a r Hi) as (f & Hck & Hn & Hc). rewrite Hck. apply sat_bind.
    unfold sat at 1. simpl. apply sat_ret. split; [done|]. simpl.
    destruct f as [f|]; [|by apply Hn]. rewrite (Hc f eq_refl). unfold step_categories. set_solver.
Qed.

Lemma attempt_spec c p a sudoPW s :
  plan_ok p → sat (attempt o c p a sudoPW) s (attempt_post p a c sudoPW s).
Proof.
  intros Hp. unfold attempt, attempt_post, attempt_requests.
  destruct (aContent a) as [content|].
  - apply sat_bind, sat_exec. intros r e s1 Hf He _. destruct e as [e|].
    { apply sat_ret. exists [upload_request a content]. split_and!; [done|by left|].
      simpl. destruct He as [He _]. unfold step_categories. set_solver. }
    destruct (bad_exit r || bool_decide (rStdout r = "")) eqn:Eb.
    { apply sat_ret. exists [upload_request a content]. split_and!; [done|by left|].
      simpl. unfold step_categories. set_solver. }
    apply orb_false_iff in Eb as [_ Eb%bool_decide_eq_false].
    eapply sat_mono; [by apply attempt_run_spec|]. intros x s2 [Hf2 Hx]. simpl in *.
    exists [upload_request a content; main_request p a sudoPW (rStdout r)].
    split_and!; [|right; eauto|done].
    exact (follows_trans _ _ _ _ _ Hf Hf2).
  - eapply sat_mono; [by apply attempt_run_spec|]. intros x s2 [Hf2 Hx].
    exists [main_request p a sudoPW ""]. done.
Qed.

(** ** runStep *)

(** The events of the attempts of a step: pauses of [RetryDelay] and one group
    of requests per attempt. *)
Inductive attempts_events (c : nat) (p : Plan Signer) (a : Action) (sudoPW : bool) :
    list (list Request) → list event → Prop :=
| ae_nil : attempts_events c p a sudoPW [] []
| ae_sleep rqss evs : attempts_events c p a sudoPW rqss evs →
    attempts_events c p a sudoPW rqss (ESleep (aRetryDelay a) :: evs)
| ae_attempt rqs rqss evs : attempt_requests p a sudoPW rqs → attempts_events c p a sudoPW rqss evs →
    attempts_events c p a sudoPW (rqs :: rqss) (map (EExec c) rqs ++ evs).

Lemma attempts_uses c p a sudoPW rqss evs :
  attempts_events c p a sudoPW rqss evs →
  Forall (uses c) evs ∧ execs evs = concat rqss ∧ Forall (attempt_requests p a sudoPW) rqss.
Proof.
  induction 1 as [|rqss evs _ (IH1 & IH2 & IH3)|rqs rqss evs Hr _ (IH1 & IH2 & IH3)].
  - split_and!; constructor.
  - split_and!; [by constructor|done|done].
  - split_and!; [|rewrite execs_app, IH2|by constructor].
    + apply Forall_app. split; [|done]. apply Forall_map, Forall_true. done.
    + f_equal. clear. induction rqs as [|rq rqs IH]; [done|]. cbn. f_equal. exact IH.
Qed.

(** Fields of the result that the attempts do not change. *)
Definition same_step (sr sr' : StepResult) : Prop :=
  srName sr' = srName sr ∧ srKind sr' = srKind sr ∧ srCommand sr' = srCommand sr ∧
  srNote sr' = srNote sr.

Definition tries_post (n : nat) (try : Z) (c : nat) (p : Plan Signer) (a : Action) (sudoPW : bool)
    (sr : StepResult) (f : option Failure) (s : state W)
    (x : StepResult * option Failure) (s' : state W) : Prop :=
  ∃ rqss evs, follows s s' evs ∧ attempts_events c p a sudoPW rqss evs ∧ length rqss ≤ n ∧
    same_step sr (fst x) ∧
    (rqss = [] → x = (sr, f)) ∧
    (rqss ≠ [] → srAttempts (fst x) = (try + zlen rqss)%Z ∧
      match snd x with
      | None => srExitCode (fst x) = Some (aExitCode a)
      | Some g => fCategory g ∈ step_categories
      end) ∧
    (0 < n → (try ≤ 0)%Z → rqss ≠ []).

Lemma ae_sleeps c p a sudoPW rqss evs evs1 :
  (evs1 = [] ∨ evs1 = [ESleep (aRetryDelay a)]) →
  attempts_events c p a sudoPW rqss evs → attempts_events c p a sudoPW rqss (evs1 ++ evs).
Proof. by intros [->| ->] He; [|apply ae_sleep]. Qed.

Lemma same_step_trans sr1 sr2 sr3 : same_step sr1 sr2 → same_step sr2 sr3 → same_step sr1 sr3.
Proof. intros (? & ? & ? & ?) (? & ? & ? & ?). split_and!; congruence. Qed.

(** One more attempt in front of the following ones. *)
Lemma tries_cons n try c p a sudoPW sr f s s1 s2 s3 evs1 res f' x :
  follows s s1 evs1 → (evs1 = [] ∨ evs1 = [ESleep (aRetryDelay a)]) →
  attempt_post p a c sudoPW s1 (res, f') s2 →
  tries_post n (try + 1) c p a sudoPW (note_attempt redact a try res sr) f' s2 x s3 →
  tries_post (S n) try c p a sudoPW sr f s x s3.
Proof.
  intros H1 He (rqs & H2 & Hrq & Hf') (rqss & evs & H3 & Ha & Hlen & Hsame & Hnil & Hcons & _).
  exists (rqs :: rqss), (evs1 ++ map (EExec c) rqs ++ evs). split_and!.
  - eapply follows_trans; [done|]. by eapply follows_trans.
  - apply ae_sleeps; [done|]. by apply ae_attempt.
  - simpl. lia.
  - eapply same_step_trans; [|done]. done.
  - done.
  - intros _. simpl length. destruct rqss as [|rqs' rqss].
    + rewrite Hnil by done. simpl. split; [done|]. destruct f'; [done|apply Hf'].
    + destruct Hcons as [-> Hx]; [done|]. split; [simpl; lia|done].
  - done.
Qed.

Lemma tries_spec n try c p a sudoPW sr f s :
  plan_ok p → (0 ≤ try)%Z →
  sat (tries o redact n try c p a sudoPW sr f) s (tries_post n try c p a sudoPW sr f s).
Proof.
  intros Hp. revert try sr f s. induction n as [|n IH]; intros try sr f s Htry.
  { apply sat_ret. exists [], []. split_and!; try done; try lia; [apply follows_refl|constructor]. }
  cbn [tries]. apply sat_bind.
  assert (∀ s1 evs1, follows s s1 evs1 → (evs1 = [] ∨ evs1 = [ESleep (aRetryDelay a)]) →
    sat (let! x := attempt o c p a sudoPW in let '(res, f) := x in
      if repeatable f then tries o redact n (try + 1) c p a sudoPW (note_attempt redact a try res sr) f
      else ret (note_attempt redact a try res sr, f)) s1
      (tries_post (S n) try c p a sudoPW sr f s)) as Hmain.
  { intros s1 evs1 H1 He. apply sat_bind. eapply sat_mono; [by apply attempt_spec|].
    intros [res f'] s2 Hat. destruct (repeatable f').
    - eapply sat_mono; [apply IH; lia|]. intros x s3 H3. by eapply tries_cons.
    - apply sat_ret. eapply tries_cons; [done..|]. exists [], [].
      split_and!; [apply follows_refl|apply ae_nil|simpl; lia|done..|intros; lia]. }
  destruct (Z.ltb_spec 0 try).
  - apply sat_sleep. intros e s1 evs1 H1 He _. destruct e as [e|]; [|by eapply Hmain].
    apply sat_ret. exists [], evs1. split_and!; try done; [| simpl; lia|lia].
    rewrite <- (app_nil_r evs1). apply ae_sleeps; [done|constructor].
  - apply sat_ret. eapply Hmain; [apply follows_refl|by left].
Qed.

(** The result is about step [a]. *)
Definition step_of (a : Action) (sr : StepResult) : Prop :=
  srName sr = aName a ∧ srKind sr = aKind a ∧ srCommand sr = aDisplay a.

(** The result of a step and the failure it returns agree. *)
Definition outcome (sr : StepResult) (f : option Failure) : Prop :=
  match f with
  | None => srStatus sr = StatusSuccess ∧ srCategory sr = None
  | Some g => srStatus sr ≠ StatusSuccess ∧ srStatus sr ≠ StatusSkipped ∧
      srCategory sr = Some (fCategory g) ∧ srReason sr = redact (fReason g)
  end.

Record step_ran (p : Plan Signer) (a : Action) (c : nat) (sudoPW : bool) (s : state W)
    (x : StepResult * option Failure) (s' : state W) (rqss : list (list Request)) (evs : list event)
    : Prop := {
  sn_follows : follows s s' evs;
  sn_events : attempts_events c p a sudoPW rqss evs;
  sn_step : step_of a (fst x);
  sn_attempts : srAttempts (fst x) = zlen rqss;
  sn_bound : (zlen rqss ≤ Z.max 0 (aRetries a + 1))%Z;
  sn_some : (0 ≤ aRetries a)%Z → rqss ≠ [];
  sn_outcome : outcome (fst x) (snd x);
  sn_exit : (0 ≤ aRetries a)%Z → snd x = None → srExitCode (fst x) = Some (aExitCode a);
  sn_category : ∀ g, snd x = Some g → fCategory g ∈ step_categories;
}.

Lemma failed_status_not_success g : failed_status g ≠ StatusSuccess ∧ failed_status g ≠ StatusSkipped.
Proof. unfold failed_status. by case_bool_decide. Qed.

Lemma runStep_spec c p a sudoPW s :
  plan_ok p →
  sat (runStep o redact c p a sudoPW) s (λ x s', ∃ rqss evs, step_ran p a c sudoPW s x s' rqss evs).
Proof.
  intros Hp. unfold runStep. apply sat_bind, sat_now, sat_bind.
  eapply sat_mono; [apply tries_spec; [done|lia]|]. intros [sr f] s1.
  intros (rqss & evs & Hf & Hev & Hlen & (Hn & Hk & Hc & _) & Hnil & Hsome & Hpos).
  apply sat_bind, sat_now, sat_ret. exists rqss, evs. simpl in *.
  assert (srAttempts sr = zlen rqss) as Hat.
  { destruct rqss; [|destruct Hsome as [-> _]; [done|lia]].
    by injection (Hnil eq_refl) as -> _. }
  split; simpl; try done.
  - destruct f; done.
  - destruct f; done.
  - lia.
  - intros Hr. apply Hpos; lia.
  - destruct f as [g|]; simpl; [|done]. destruct (failed_status_not_success g). done.
  - intros Hr ->. destruct Hsome as [_ Hx]; [apply Hpos; lia|]. done.
  - intros g ->. destruct rqss as [|rqs rqss]; [|by destruct Hsome].
    by injection (Hnil eq_refl).
Qed.

(** ** Properties *)

(** A step succeeds exactly when its exit code is the expected one,
    each [contains] text was found in the output, none of the [not_contains] was,
    and the regular expression matches. *)
Theorem check_correct (a : Action) (res : Result) :
  (∀ i, i < length (aContains a ++ aNotContains a) → is_Some (Found res i)) →
  (check a res = Some None ↔ expected a res) ∧
  ∀ f, check a res = Some (Some f) → fCategory f = CatCommandFailed.
Proof.
  intros Hl. destruct (check_spec a res Hl) as (f & -> & Hf & Hc). split.
  - rewrite <- Hf. naive_solver.
  - intros g [= ->]. by apply Hc.
Qed.

(** C39: one step: it is attempted at least once and at most [retries]
    more times, with pauses of the step's delay; each attempt sends its upload
    and its command and nothing else; the result and the failure agree, a success
    has the expected exit code, and a failure is a failed or timed out command,
    a cancellation or a lost session. *)
Theorem runStep_correct (c : nat) (p : Plan Signer) (a : Action) (sudoPW : bool) (s : state W) :
  plan_ok p → (0 ≤ aRetries a)%Z →
  ∃ sr f s' rqss evs, runStep o redact c p a sudoPW s = Ret (sr, f) s' ∧
    trace s' = trace s ++ evs ∧ attempts_events c p a sudoPW rqss evs ∧
    srAttempts sr = zlen rqss ∧ 1 ≤ length rqss ∧ (zlen rqss ≤ aRetries a + 1)%Z ∧
    step_of a sr ∧ outcome sr f ∧
    (f = None → srExitCode sr = Some (aExitCode a)) ∧
    (∀ g, f = Some g → fCategory g ∈ step_categories).
Proof.
  intros Hp Hr. pose proof (runStep_spec c p a sudoPW s Hp) as Hs.
  apply sat_Ret in Hs as ([sr f] & s' & E & rqss & evs & [[Ht _] Hev Hst Hat Hb Hsome Ho Hex Hcat]).
  exists sr, f, s', rqss, evs. split_and!; try done; simpl in *.
  - specialize (Hsome Hr). destruct rqss; [done|simpl; lia].
  - lia.
  - by apply Hex.
Qed.
End spec.
