(* ===== verification/ConnectSpec.v ===== *)
(** * ConnectSpec: connecting and waiting for a host

    The loops of [connect] and [waitForHost], which have no bound of their own:
    both end, with a connection or with a failure, and leave no other connection
    open.  [wait_fuel] is the number of turns that waiting can take. *)

From S2P Require Import Prelude GoStd Domain Build Credentials Exec Report Runner TransportSpec StepSpec.

Section spec.
Context `{GoRuntime} {W Signer : Type} `{!Transport W Signer} `{!TransportLaws W Signer}.
Context (o : Options) (redact : string → string).

(** ** Boot IDs and sudo *)

Definition boot_request : Request := mkRequest bootIDCommand "" (30 * second) 4096 [].
Definition sudo_probe : Request := mkRequest "sudo -n true" "" (30 * second) 4096 [].

Lemma bootID_spec c s (Q : res Failure string → state W → Prop) :
  (∀ r s', follows s s' [EExec c boot_request] →
    match r with Ok id => id ≠ "" | Err f => fCategory f ∈ step_categories end → Q r s') →
  sat (bootID c) s Q.
Proof.
  intros HQ. unfold bootID. apply sat_bind, sat_exec. intros r e s' Hf He _. apply sat_ret.
  apply HQ; [done|]. destruct e as [e|].
  - destruct He as [He _]. unfold step_categories. set_solver.
  - destruct (bad_exit r || _) eqn:Eb; [unfold step_categories; simpl; set_solver|].
    by apply orb_false_iff in Eb as [_ Eb%bool_decide_eq_false].
Qed.

(** A password is configured, and a step could use it. *)
Definition wants_sudo (p : Plan Signer) : Prop :=
  ∃ a, plAuth p = Some a ∧ auSudoPassword a ≠ "" ∧ Exists (λ x, aSudo x = true) (plActions p).

(** How it is decided whether sudo steps get the password: never without one, or
    without a step that could use it; otherwise [sudo -n] is tried, and the password
    is used exactly if that fails. *)
Inductive sudo_decision (p : Plan Signer) (c : nat) (s : state W) : bool → state W → list event → Prop :=
| sd_unasked : ¬ wants_sudo p → sudo_decision p c s false s []
| sd_asked r e s' :
    wants_sudo p → exec c sudo_probe s = Ret (r, e) s' →
    sudo_decision p c s (match e with Some _ => true | None => bad_exit r end) s' [EExec c sudo_probe].

Lemma needsSudoPassword_spec c p s :
  plan_ok p →
  sat (needsSudoPassword c p) s (λ b s', ∃ evs, follows s s' evs ∧ sudo_decision p c s b s' evs).
Proof.
  intros [[a Ha] _]. unfold needsSudoPassword. rewrite Ha. apply sat_bind. unfold sat at 1. simpl.
  assert (∀ b, ¬ wants_sudo p → b = false → sat (ret b) s (λ b s', ∃ evs, follows s s' evs ∧ sudo_decision p c s b s' evs)) as Hno.
  { intros b Hw ->. apply sat_ret. exists []. split; [apply follows_refl|by constructor]. }
  case_bool_decide as Hpw.
  { apply Hno; [|done]. intros (a' & Ha' & Hne & _). congruence. }
  destruct (existsb aSudo (plActions p)) eqn:Ex.
  - apply sat_bind, sat_run, sat_exec. intros r e s' Hf _ _ Hrun. apply sat_ret. exists [EExec c sudo_probe].
    split; [done|]. assert (wants_sudo p) as Hw.
    { exists a. split_and!; [done|done|]. apply existsb_exists in Ex as (x & Hx%list_elem_of_In & Hs).
      apply Exists_exists. eauto. }
    pose proof (sd_asked p c s r e s' Hw Hrun) as Hd. by destruct e.
  - apply Hno; [|done]. intros (a' & _ & _ & (x & Hx & Hs)%Exists_exists).
    apply not_true_iff_false in Ex. apply Ex, existsb_exists. exists x. by rewrite <- list_elem_of_In.
Qed.

(** ** connect *)

(** [backoff] does not panic and stays under the maximum. *)
Lemma backoff_spec base maxDelay n s :
  (0 ≤ maxDelay < 2 ^ 63)%Z →
  sat (backoff base maxDelay n) s (λ d s', follows s s' [] ∧ (0 ≤ d ≤ maxDelay)%Z).
Proof.
  intros Hm. unfold backoff. set (d0 := wrap64 (base * _)).
  set (d := if (maxDelay <? d0)%Z || (d0 <=? 0)%Z then maxDelay else d0).
  assert (0 ≤ d ≤ maxDelay)%Z as Hd.
  { unfold d. destruct (Z.ltb_spec maxDelay d0), (Z.leb_spec d0 0); simpl; lia. }
  assert (Z.quot d 2 = d / 2)%Z as -> by (apply Z.quot_div_nonneg; lia).
  assert (0 ≤ d / 2 ∧ 2 * (d / 2) ≤ d)%Z as [H1 H2].
  { split; [apply Z.div_pos; lia|]. apply Z.mul_div_le. lia. }
  rewrite (wrap64_id (d / 2 + 1)) by lia.
  destruct (Z.leb_spec (d / 2 + 1) 0); [lia|]. apply sat_bind. unfold sat, rand, lift.
  pose proof (law_rand (d / 2 + 1) (world s)) as Hr.
  pose proof (law_rand_now (d / 2 + 1) (world s)) as Hn.
  destruct (tr_rand (d / 2 + 1) (world s)) as [r w]. simpl in *.
  rewrite wrap64_id by lia. split; [by split|lia].
Qed.

(** The dials of [connect]: failures, then the result. *)
Inductive connect_events : nat → option nat → list event → Prop :=
| ce_ok c : connect_events 1 (Some c) [EDial (Some c)]
| ce_err : connect_events 1 None [EDial None]
| ce_stop d : connect_events 1 None [EDial None; ESleep d]
| ce_retry n r evs : connect_events n r evs → connect_events (S n) r (EDial None :: evs)
| ce_sleep d n r evs : connect_events n r evs → connect_events (S n) r (EDial None :: ESleep d :: evs).

(** The error of a [connect] that ended in [s']: that of its last dial, or the
    cancellation of a pause. *)
Definition connect_error (p : Plan Signer) (s : state W) (e : error) (s' : state W) : Prop :=
  (∃ s0 evs, follows s s0 evs ∧ dial p None s0 = Ret (Err e) s') ∨
  e = err_of_failure (Fail CatCancelled "cancelled while waiting to reconnect").

Lemma connect_error_later p s s1 evs e s' : follows s s1 evs → connect_error p s1 e s' → connect_error p s e s'.
Proof.
  intros H1 [(s0 & evs0 & H0 & Hd)|?]; [left|by right]. exists s0, (evs ++ evs0).
  split; [by eapply follows_trans|done].
Qed.

Lemma connect_spec fuel n p s :
  plan_ok p → (0 ≤ opMaxRetryDelay o < 2 ^ 63)%Z →
  1 ≤ n → (opConnectRetries o < Z.of_nat (fuel + n) - 1)%Z → 1 ≤ fuel →
  sat (connect o fuel n p) s (λ x s', ∃ k evs,
    follows s s' evs ∧ connect_events k (match fst x with Ok c => Some c | Err _ => None end) evs ∧
    snd x = (Z.of_nat n + Z.of_nat k - 1)%Z ∧ 1 ≤ k ≤ fuel ∧
    match fst x with Ok _ => True | Err e => connect_error p s e s' end).
Proof.
  intros Hp Hm. revert n s. induction fuel as [|fuel IH]; intros n s Hn Hb Hf; [lia|].
  cbn [connect]. apply sat_bind, sat_run, sat_dial; [done|]. intros r s1 H1 Hrun. destruct r as [c|e].
  { apply sat_ret. exists 1, [EDial (Some c)]. split_and!; [done|constructor|simpl; lia..|done]. }
  apply sat_bind, sat_ctx_err. destruct (negb _ || _ || _) eqn:Estop.
  { apply sat_ret. exists 1, [EDial None]. split_and!; [done|apply ce_err|simpl; lia..|].
    left. exists s, []. split; [apply follows_refl|done]. }
  rewrite !orb_false_iff in Estop. destruct Estop as ((_ & Hlt%Z.ltb_ge) & _).
  apply sat_bind. eapply sat_mono; [by apply backoff_spec|]. intros d s2 [H2 Hd].
  apply sat_bind, sat_sleep. intros es s3 evs3 H3 Hev _.
  assert (follows s s3 (EDial None :: evs3)) as Hfol.
  { eapply (follows_trans _ s1 _ [_]); [done|]. by eapply (follows_trans _ s2 _ []). }
  destruct es as [es|].
  - apply sat_ret. exists 1, (EDial None :: evs3). split_and!; [done| |simpl; lia..|by right].
    destruct Hev as [->| ->]; [apply ce_err|apply ce_stop].
  - eapply sat_mono; [apply IH; lia|]. intros x s4 (k & evs & H4 & Hce & Hx & Hk & He).
    exists (S k), ((EDial None :: evs3) ++ evs). split_and!; [by eapply follows_trans| |lia..|].
    2: { destruct (fst x) as [|e']; [done|]. by eapply connect_error_later. }
    destruct Hev as [->| ->]; [by apply ce_retry|by apply ce_sleep].
Qed.

Lemma connect_protocol k r evs : connect_events k r evs → protocol None evs = Some r.
Proof. induction 1; done. Qed.
Lemma connect_execs k r evs : connect_events k r evs → execs evs = [].
Proof. induction 1; done. Qed.

(** ** waitForHost *)

(** The last thing between [s] and [s'] was to read a new boot ID on [c]. *)
Definition rebooted (oldBoot : string) (c : nat) (s s' : state W) : Prop :=
  oldBoot ≠ "" → ∃ s1 evs id, follows s s1 evs ∧ bootID c s1 = Ret (Ok id : res Failure string) s' ∧
    id ≠ oldBoot.

Definition wait_post (oldBoot : string) (s : state W) (r : res Failure nat) (s' : state W) : Prop :=
  ∃ evs, follows s s' evs ∧
    protocol None evs = Some (match r with Ok c => Some c | Err _ => None end) ∧
    Forall (.= boot_request) (execs evs) ∧
    match r with Ok c => rebooted oldBoot c s s' | Err _ => True end.

Lemma wait_prepend oldBoot s s1 r s' evs1 :
  follows s s1 evs1 → protocol None evs1 = Some None → Forall (.= boot_request) (execs evs1) →
  wait_post oldBoot s1 r s' → wait_post oldBoot s r s'.
Proof.
  intros H1 Hp He (evs & H2 & Hp2 & He2 & Hr). exists (evs1 ++ evs). split_and!.
  - by eapply follows_trans.
  - by rewrite (protocol_app _ _ _ None).
  - rewrite execs_app. by apply Forall_app.
  - destruct r as [c|f]; [|done]. intros Hne. destruct (Hr Hne) as (s2 & evs2 & id & Hf & Hb & Hid).
    exists s2, (evs1 ++ evs2), id. split_and!; [by eapply follows_trans|done|done].
Qed.

Lemma wait_return oldBoot s r s' evs :
  follows s s' evs → protocol None evs = Some None → Forall (.= boot_request) (execs evs) →
  wait_post oldBoot s (Err r) s'.
Proof. intros. exists evs. by split_and!. Qed.

Lemma bootID_ret c s :
  ∃ b s', bootID c s = Ret (b : res Failure string) s' ∧ follows s s' [EExec c boot_request].
Proof. apply (sat_Ret (bootID c) s (λ _ s', follows s s' _)), bootID_spec. by intros. Qed.

(** What the loop does with a new connection: it is kept, or closed again. *)
Lemma wait_connected_spec c oldBoot s s1 (again : M W (res Failure nat)) retry :
  follows s s1 [EDial (Some c)] →
  (∀ m s2, m = again ∨ (∃ f, m = retry f) → (tr_now (world s) ≤ tr_now (world s2))%Z →
    sat m s2 (wait_post oldBoot s2)) →
  sat (if bool_decide (oldBoot = "") then ret (Ok c)
       else let! b := bootID c in
         match b with
         | Ok id => if negb (bool_decide (id = oldBoot)) then ret (Ok c) else close c ;! again
         | Err f => close c ;! retry f
         end) s1 (wait_post oldBoot s).
Proof.
  intros H1 Hgo. case_bool_decide as Hold.
  { apply sat_ret. exists [EDial (Some c)]. split_and!; [done|done|constructor|]. by intros ?. }
  apply sat_bind. destruct (bootID_ret c s1) as (b & s2 & Eb & H2).
  unfold sat at 1. rewrite Eb. pose proof (follows_trans _ _ _ _ _ H1 H2) as H12. simpl in H12.
  assert (protocol None [EDial (Some c); EExec c boot_request; EClose c] = Some None) as Hpr.
  { unfold protocol. simpl. rewrite decide_True by done. simpl. by rewrite decide_True. }
  assert (∀ m, m = again ∨ (∃ f, m = retry f) → sat (close c ;! m) s2 (wait_post oldBoot s)) as Hagain.
  { intros m Hm. apply sat_bind, sat_close. intros s3 H3.
    pose proof (follows_trans _ _ _ _ _ H12 H3) as H13. simpl in H13.
    eapply sat_mono; [apply Hgo; [exact Hm|apply H13]|]. intros r' s' Hpost.
    by eapply (wait_prepend _ _ _ _ _ _ H13); [|repeat constructor|]. }
  destruct b as [id|f]; [|by apply Hagain; right; exists f].
  case_bool_decide as Hid; simpl; [by apply Hagain; left|]. apply sat_ret.
  exists [EDial (Some c); EExec c boot_request]. split_and!; [done| |by repeat constructor|].
  - unfold protocol. simpl. by rewrite decide_True.
  - intros _. by exists s1, [EDial (Some c)], id.
Qed.

Lemma reconnectDelay_pos : (0 < reconnectDelay)%Z.
Proof. by vm_compute. Qed.

#[local] Opaque reconnectDelay.

Lemma wait_loop_spec fuel p timeout deadline oldBoot last saw s :
  plan_ok p → 1 ≤ fuel → (deadline - tr_now (world s) < Z.of_nat fuel * reconnectDelay)%Z →
  sat (wait_loop fuel p timeout deadline oldBoot last saw) s (wait_post oldBoot s).
Proof.
  intros Hp. revert last saw s. induction fuel as [|fuel IH]; intros last saw s Hf Hb; [lia|].
  pose proof reconnectDelay_pos as Hpos. cbn [wait_loop].
  apply sat_bind, sat_sleep. intros es s1 evs1 H1 Hev1 Hw.
  assert (protocol None evs1 = Some None ∧ execs evs1 = []) as [Hp1 He1] by (by destruct Hev1 as [-> | ->]).
  destruct es as [es|].
  { apply sat_ret. eapply wait_return; [done|done|by rewrite He1]. }
  specialize (Hw Hpos eq_refl). apply sat_bind, sat_now.
  destruct (Z.ltb_spec deadline (tr_now (world s1))) as [Hlate|Hearly].
  { destruct saw; apply sat_ret; (eapply wait_return; [done|done|by rewrite He1]). }
  assert (∀ last saw s2, (tr_now (world s1) ≤ tr_now (world s2))%Z →
    sat (wait_loop fuel p timeout deadline oldBoot last saw) s2 (wait_post oldBoot s2)) as Hgo.
  { rewrite Nat2Z.inj_succ, Z.mul_succ_l in Hb. intros. apply IH; [destruct fuel; lia|lia]. }
  apply sat_bind, sat_dial; [done|]. intros r s2 H2.
  eapply sat_mono; [|intros r' s' Hpost; eapply (wait_prepend _ _ _ _ _ _ H1); [done|by rewrite He1|exact Hpost]].
  destruct r as [c|e].
  - apply wait_connected_spec; [done|]. intros m s3 [->|[f ->]] Hn; by apply Hgo.
  - apply sat_bind, sat_ctx_err. case_bool_decide.
    { apply sat_ret. eapply wait_return; [exact H2|done|constructor]. }
    destruct (final_category _).
    { apply sat_ret. eapply wait_return; [exact H2|done|constructor]. }
    eapply sat_mono; [apply Hgo, H2|]. intros r' s' Hpost. by eapply (wait_prepend _ _ _ _ _ _ H2).
Qed.

(** The turns that the loop needs for a timeout. *)
Definition wait_fuel (timeout : Z) : nat := Z.to_nat (timeout / reconnectDelay) + 2.

Lemma wait_fuel_mono t t' : (t ≤ t')%Z → wait_fuel t ≤ wait_fuel t'.
Proof.
  intros Ht. unfold wait_fuel.
  apply (Z.div_le_mono _ _ reconnectDelay) in Ht; [lia|apply reconnectDelay_pos].
Qed.

Lemma waitForHost_spec fuel p timeout oldBoot s :
  plan_ok p → wait_fuel timeout ≤ fuel →
  sat (waitForHost fuel p timeout oldBoot) s (wait_post oldBoot s).
Proof.
  intros Hp Hf. pose proof reconnectDelay_pos as Hpos. unfold wait_fuel in Hf.
  unfold waitForHost. apply sat_bind, sat_now. apply wait_loop_spec; [done|lia|].
  pose proof (Z.div_mod timeout reconnectDelay). pose proof (Z.mod_pos_bound timeout reconnectDelay).
  assert (timeout / reconnectDelay + 1 ≤ Z.of_nat fuel)%Z by lia. nia.
Qed.

(** ** Properties *)

(** The pause before another connection attempt is between 0 and the
    maximum, even when doubling the base delay overflows, as long as the maximum
    is not negative. *)
Theorem backoff_bounds (base maxDelay : Z) (attempt : nat) (s : state W) :
  (0 ≤ maxDelay < 2 ^ 63)%Z →
  ∃ d s', backoff base maxDelay attempt s = Ret d s' ∧ (0 ≤ d ≤ maxDelay)%Z.
Proof.
  intros Hm. pose proof (backoff_spec base maxDelay attempt s Hm) as Hs.
  apply sat_Ret in Hs as (d & s' & E & _ & Hd). eauto.
Qed.

(** C37: waiting for a host always ends, with a connection to it or without
    any open connection; after a reboot the last request read a boot ID
    other than the old one on that connection, so the old system is never taken for the
    new one; nothing but boot IDs is asked meanwhile. *)
Theorem waitForHost_correct (fuel : nat) (p : Plan Signer) (timeout : Z) (oldBoot : string)
    (s : state W) :
  plan_ok p → wait_fuel timeout ≤ fuel →
  ∃ r s' evs, waitForHost fuel p timeout oldBoot s = Ret r s' ∧ trace s' = trace s ++ evs ∧
    protocol None evs = Some (match r with Ok c => Some c | Err _ => None end) ∧
    Forall (.= boot_request) (execs evs) ∧
    match r with Ok c => rebooted oldBoot c s s' | Err _ => True end.
Proof.
  intros Hp Hf. pose proof (waitForHost_spec fuel p timeout oldBoot s Hp Hf) as Hs.
  apply sat_Ret in Hs as (r & s' & E & evs & [Ht _] & H1 & H2 & H3). by exists r, s', evs.
Qed.
End spec.
