(* ===== verification/Comeback.v ===== *)
(** * Comeback: a host that comes back is found

    [ConnectSpec] shows that waiting for a host ends; here is when it ends well.
    [comes_back] says that from a moment [up] on the host can be dialed and answers
    with a new boot ID, that it fails until then in ways that do not end the wait,
    and that no operation takes longer than [delta].  If [up] is early enough before
    the deadline the host is found, and soon. *)

From S2P Require Import Prelude GoStd Domain Build Credentials Exec Report Runner.
From S2P Require Import TransportSpec StepSpec ConnectSpec.

Section comeback.
Context `{GoRuntime} {W Signer : Type} `{!Transport W Signer} `{!TransportLaws W Signer}.
Context (o : Options) (redact : string → string) (p : Plan Signer).

(** The hops of the plan: its target and its bastion. *)
Definition plan_hops (t : Hop Signer) (b : option (Hop Signer)) : Prop :=
  (∃ a, plAuth p = Some a ∧ t = hop_of (tEndpoint (plTarget p)) a) ∧
  match tBastion (plTarget p) with
  | Some e => ∃ a, plBastion p = Some a ∧ b = Some (hop_of e a)
  | None => b = None
  end.

(** A command that prints a boot ID other than the old one. *)
Definition new_boot (oldBoot : string) (r : Result) (e : option error) : Prop :=
  e = None ∧ bad_exit r = false ∧ trim_space (rStdout r) ≠ "" ∧ trim_space (rStdout r) ≠ oldBoot.

(** The worlds with [J n] are those of a run that is not cancelled, towards a host
    that is back at [up], after [n] connections; a connection with [L] has just been
    made. *)
Record comes_back (J L : nat → W → Prop) (oldBoot : string) (up delta : Z) : Prop := {
  cb_delta : (0 ≤ delta)%Z;
  cb_ctx n w : J n w → tr_ctx_err w = None;
  cb_wait n d w : J n w → let '(e, w') := tr_wait d w in
    e = None ∧ J n w' ∧ (tr_now w' ≤ tr_now w + Z.max 0 d + delta)%Z;
  cb_dial n deadline t b w : J n w → plan_hops t b → let '(e, w') := tr_dial deadline t b w in
    (tr_now w' ≤ tr_now w + delta)%Z ∧
    match e with
    | Some e => J n w' ∧ (tr_now w < up)%Z ∧ final_category (fCategory (AsFailure e)) = false
    | None => J (S n) w' ∧ L n w'
    end;
  cb_boot n c w : J n w → L c w → let '(r, e, w') := tr_exec c boot_request w in
    J n w' ∧ (tr_now w' ≤ tr_now w + delta)%Z ∧ ((up ≤ tr_now w)%Z → new_boot oldBoot r e);
  cb_close n c w : J n w → J n (tr_close c w) ∧ (tr_now (tr_close c w) ≤ tr_now w + delta)%Z;
}.

Section finds.
Context (J L : nat → W → Prop) (oldBoot : string) (up delta : Z) (Hcb : comes_back J L oldBoot up delta).

Abbreviation back s := (J (clients s) (world s)).

Lemma sleep_back s (Q : option error → state W → Prop) :
  back s →
  (∀ s', back s' → (tr_now (world s) + reconnectDelay ≤ tr_now (world s') ≤
    tr_now (world s) + reconnectDelay + delta)%Z → Q None s') →
  sat (sleep reconnectDelay) s Q.
Proof.
  intros HJ HQ. unfold sleep. pose proof reconnectDelay_pos. destruct (Z.leb_spec reconnectDelay 0); [lia|].
  unfold sat, wait, lift. pose proof (cb_wait _ _ _ _ _ Hcb _ reconnectDelay (world s) HJ) as Hw.
  pose proof (law_wait reconnectDelay (world s)) as Hl.
  destruct (tr_wait reconnectDelay (world s)) as [e w]. destruct Hw as (-> & HJ' & Hn). simpl in *.
  apply HQ; [done|]. specialize (Hl eq_refl). simpl. lia.
Qed.

Lemma dial_back deadline s (Q : res error nat → state W → Prop) :
  plan_ok p → back s →
  (∀ r s', back s' → (tr_now (world s) ≤ tr_now (world s') ≤ tr_now (world s) + delta)%Z →
    match r with
    | Ok c => L c (world s')
    | Err e => (tr_now (world s) < up)%Z ∧ final_category (fCategory (AsFailure e)) = false
    end → Q r s') →
  sat (dial p deadline) s Q.
Proof.
  intros [[a Ha] Hb] HJ HQ. unfold dial. rewrite Ha. apply sat_bind. simpl. unfold sat at 1. simpl.
  assert (∃ b, match tBastion (plTarget p) with
     | Some b => a ← plBastion p; Some (Some (hop_of b a)) | None => Some None end = Some b ∧
     plan_hops (hop_of (tEndpoint (plTarget p)) a) b) as (b & Hbo & Hhops).
  { unfold plan_hops. destruct (tBastion (plTarget p)) as [e|].
    - destruct Hb as [ab ->]; [done|]. simpl. eauto 8.
    - exists None. split; [done|]. split; [by exists a|done]. }
  apply sat_bind. eapply sat_lift_option; [exact Hbo|]. unfold sat.
  pose proof (cb_dial _ _ _ _ _ Hcb _ deadline (hop_of (tEndpoint (plTarget p)) a) b (world s) HJ Hhops) as Hd.
  pose proof (law_dial_now deadline (hop_of (tEndpoint (plTarget p)) a) b (world s)) as Hn.
  destruct (tr_dial _ _ b (world s)) as [[e|] w]; destruct Hd as (Hle & HJ' & He);
    apply HQ; simpl in *; try done; lia.
Qed.

Lemma boot_back c s (Q : res Failure string → state W → Prop) :
  back s → L c (world s) →
  (∀ r s', back s' → (tr_now (world s) ≤ tr_now (world s') ≤ tr_now (world s) + delta)%Z →
    ((up ≤ tr_now (world s))%Z → ∃ id, r = Ok id ∧ id ≠ oldBoot) → Q r s') →
  sat (bootID c) s Q.
Proof.
  intros HJ HL HQ. unfold bootID. apply sat_bind. unfold sat at 1. unfold exec, lift.
  change (mkRequest bootIDCommand "" (30 * second) 4096 []) with boot_request.
  pose proof (cb_boot _ _ _ _ _ Hcb _ c (world s) HJ HL) as Hb. pose proof (law_exec_now c boot_request (world s)) as Hn.
  destruct (tr_exec c boot_request (world s)) as [[r e] w]. destruct Hb as (HJ' & Hle & Hnew). simpl in *.
  apply sat_ret, HQ; simpl; [done|lia|].
  intros (-> & -> & Hne & Hold)%Hnew. rewrite bool_decide_eq_false_2 by done. simpl. by eexists.
Qed.

Lemma close_back c s (Q : unit → state W → Prop) :
  back s →
  (∀ s', back s' → (tr_now (world s) ≤ tr_now (world s') ≤ tr_now (world s) + delta)%Z → Q tt s') →
  sat (close c) s Q.
Proof.
  intros HJ HQ. pose proof (cb_close _ _ _ _ _ Hcb _ c (world s) HJ) as [HJ' Hle].
  pose proof (law_close_now c (world s)). apply HQ; simpl; [done|lia].
Qed.

#[local] Opaque reconnectDelay.

(** The host was found, at most one turn after [limit]. *)
Definition found_by (limit : Z) (r : res Failure nat) (s : state W) : Prop :=
  (∃ c, r = Ok c) ∧ back s ∧ (tr_now (world s) ≤ limit + reconnectDelay + 3 * delta)%Z.

Lemma wait_loop_finds fuel timeout deadline limit last saw s :
  plan_ok p → 1 ≤ fuel → (deadline - tr_now (world s) < Z.of_nat fuel * reconnectDelay)%Z →
  back s → (tr_now (world s) ≤ limit)%Z → (up + 2 * delta ≤ limit)%Z →
  (limit + reconnectDelay + delta ≤ deadline)%Z →
  sat (wait_loop fuel p timeout deadline oldBoot last saw) s (found_by limit).
Proof.
  intros Hp Hf Hb HJ Ht Hup Hdl. pose proof (cb_delta _ _ _ _ _ Hcb) as Hd. pose proof reconnectDelay_pos as Hpos.
  revert last saw s Hf Hb HJ Ht. induction fuel as [|fuel IH]; intros last saw s Hf Hb HJ Ht; [lia|].
  cbn [wait_loop]. apply sat_bind, sleep_back; [done|]. intros s1 HJ1 Hn1. apply sat_bind, sat_now.
  destruct (Z.ltb_spec deadline (tr_now (world s1))) as [Hlate|_]; [lia|].
  assert (∀ last saw s2, back s2 → (tr_now (world s1) ≤ tr_now (world s2) ≤ limit)%Z →
    sat (wait_loop fuel p timeout deadline oldBoot last saw) s2 (found_by limit)) as Hgo.
  { rewrite Nat2Z.inj_succ, Z.mul_succ_l in Hb. intros. apply IH; [destruct fuel; lia|lia|done|lia]. }
  apply sat_bind, dial_back; [done|done|]. intros r s2 HJ2 Hn2 Hr. destruct r as [c|e].
  2: { destruct Hr as [Hlt Hfin]. apply sat_bind, sat_ctx_err. rewrite (cb_ctx _ _ _ _ _ Hcb _ _ HJ2).
    rewrite bool_decide_eq_false_2 by (by intros [? ?]). rewrite Hfin. apply Hgo; [done|lia]. }
  assert (∀ s', back s' → (tr_now (world s') ≤ limit + reconnectDelay + 3 * delta)%Z →
    found_by limit (Ok c) s') as Hfound by (intros; split_and!; [by exists c|done|done]).
  case_bool_decide; [apply sat_ret, Hfound; [done|lia]|].
  apply sat_bind, boot_back; [done|done|]. intros b s3 HJ3 Hn3 Hnew.
  destruct (Z.le_gt_cases up (tr_now (world s2))) as [Hback|Hnot].
  { destruct (Hnew Hback) as (id & -> & Hid). rewrite bool_decide_eq_false_2 by done. simpl.
    apply sat_ret, Hfound; [done|lia]. }
  destruct b as [id|f]; [case_bool_decide; simpl; [|apply sat_ret, Hfound; [done|lia]]|];
    (apply sat_bind, close_back; [done|]; intros s4 HJ4 Hn4; apply Hgo; [done|lia]).
Qed.

(** Waiting starts at [s]; [limit] is when the last turn that may fail ends. *)
Lemma waitForHost_finds fuel timeout s :
  plan_ok p → wait_fuel timeout ≤ fuel → back s →
  let limit := Z.max (tr_now (world s)) (up + 2 * delta) in
  (limit + reconnectDelay + delta ≤ tr_now (world s) + timeout)%Z →
  sat (waitForHost fuel p timeout oldBoot) s (found_by limit).
Proof.
  intros Hp Hf HJ limit Hl. pose proof reconnectDelay_pos as Hpos. unfold wait_fuel in Hf.
  unfold waitForHost. apply sat_bind, sat_now. apply wait_loop_finds; try done; try (unfold limit; lia).
  pose proof (Z.div_mod timeout reconnectDelay). pose proof (Z.mod_pos_bound timeout reconnectDelay).
  assert (timeout / reconnectDelay + 1 ≤ Z.of_nat fuel)%Z by lia. nia.
Qed.
End finds.

(** A step that does not fail is a success. *)
Lemma runStep_success c q a sudoPW sr f s1 s2 :
  (keepalive_start c keepaliveInterval 3 ;! runStep o redact c q a sudoPW) s1 = Ret (sr, f) s2 →
  f = None → srStatus sr = StatusSuccess.
Proof.
  unfold bind at 1. simpl. unfold runStep, bind, now, ret.
  destruct (tries _ _ _ _ _ _ _ _ _ _) as [[sr' f'] s'| |]; try done.
  intros [= <- <- _] ->. done.
Qed.

(** What follows the step, run from the state the step leaves. *)
Lemma rerun {B} c q a sudoPW x s1 s2 (k : StepResult * option Failure → M W B) :
  (keepalive_start c keepaliveInterval 3 ;! runStep o redact c q a sudoPW) s1 = Ret x s2 →
  (keepalive_start c keepaliveInterval 3 ;! (let! x := runStep o redact c q a sudoPW in k x)) s1 = k x s2.
Proof.
  intros Hrun. unfold bind in *. destruct (keepalive_start _ _ _ s1) as [[] s1'| |]; try done.
  by rewrite Hrun.
Qed.

(** C38: a step that reboots its host, or cuts its connection, succeeds when the
    host comes back in time.  If the boot ID was read (for a reboot), the command
    ended or its connection was lost as expected, and the host can be dialed (with a
    new boot ID) soon enough before the timeout of the step, then the step is a
    success with a note, and the rest of the plan goes on with a new connection, at
    most one turn of the wait later. *)
Theorem reboot_succeeds (fuel c : nat) (a : Action) (sudoPW : bool) (s s1 s2 : state W)
    (oldBoot : string) (sr : StepResult) (f : option Failure) (J L : nat → W → Prop) (up delta : Z) :
  plan_ok p → wait_fuel (aReconnectTimeout a) ≤ fuel →
  comes_back J L oldBoot up delta →
  (if aReboot a then bootID c else ret (Ok "")) s = Ret (Ok oldBoot) s1 →
  (keepalive_start c keepaliveInterval 3 ;! runStep o redact c p a sudoPW) s1 = Ret (sr, f) s2 →
  aReboot a = true ∧ f = None ∨ lost_connection f sr = true →
  let w := tr_close c (tr_stop c (world s2)) in
  let limit := Z.max (tr_now w) (up + 2 * delta) in
  J (clients s2) w → (limit + reconnectDelay + delta ≤ tr_now w + aReconnectTimeout a)%Z →
  ∃ sr' nc s', runDisconnecting o redact fuel c p a sudoPW s = Ret (sr', None, Some nc) s' ∧
    srStatus sr' = StatusSuccess ∧
    has_prefix (if aReboot a then "host rebooted (new boot ID)" else "connection closed as expected")
      (srNote sr') = true ∧
    J (clients s') (world s') ∧ (tr_now (world s') ≤ limit + reconnectDelay + 3 * delta)%Z.
Proof.
  intros Hp Hf Hcb Hboot Hrun Hlost w limit HJ Hl. unfold runDisconnecting.
  unfold bind at 1. rewrite Hboot, (rerun _ _ _ _ _ _ _ _ Hrun). simpl.
  unfold bind at 1, keepalive_stop, lift. simpl.
  pose proof (runStep_success _ _ _ _ _ _ _ _ Hrun) as Hsucc.
  set (st := mkState (tr_stop c (world s2)) (clients s2) (trace s2 ++ [])).
  set (sr1 := if lost_connection f sr then set_outcome StatusSuccess None "" sr else sr).
  assert (bool_decide (is_Some f) && negb (lost_connection f sr) = false) as ->.
  { destruct Hlost as [[_ ->]| ->]; [done|apply andb_false_r]. }
  assert (negb (aReboot a) && negb (lost_connection f sr) = false) as ->.
  { destruct Hlost as [[-> _]| ->]; [done|apply andb_false_r]. }
  assert (srStatus sr1 = StatusSuccess) as Hst.
  { unfold sr1. destruct (lost_connection f sr); [done|]. destruct Hlost as [[_ ->]|]; [by apply Hsucc|done]. }
  unfold bind at 1. unfold ret at 1. cbv beta iota. unfold bind at 1, close, lift. simpl.
  unfold bind at 1. unfold now at 1. cbv beta iota. unfold bind at 1.
  destruct (proj1 (sat_Ret _ _ _) (waitForHost_finds J L oldBoot up delta Hcb fuel (aReconnectTimeout a)
    (mkState w (clients st) (trace st ++ [EClose c])) Hp Hf HJ Hl))
    as (r & s' & Hw & (nc & ->) & HJ' & Hn).
  unfold st, w in *. simpl in *. rewrite Hw. unfold bind, now, ret. simpl. do 3 eexists.
  split; [reflexivity|]. split_and!; [exact Hst|by destruct (aReboot a)|done|exact Hn].
Qed.
End comeback.
