(* ===== verification/RunnerSpec.v ===== *)
(** * RunnerSpec: what a host's run guarantees

    The theorems about [Runner], for every transport that satisfies
    [TransportLaws]: total correctness of [runHost] (it terminates and never
    panics), the shape of its result, the requests it sends and the connections it
    opens and closes. *)

From S2P Require Import Prelude GoStd Domain Build Credentials Exec Report Runner.
From S2P Require Import TransportSpec StepSpec ConnectSpec.

Section spec.
Context `{GoRuntime} {W Signer : Type} `{!Transport W Signer} `{!TransportLaws W Signer}.
Context (o : Options) (redact : string → string).
#[local] Abbreviation outcome := (StepSpec.outcome redact).
#[local] Abbreviation step_ran := (StepSpec.step_ran o redact).
#[local] Abbreviation main_request := (StepSpec.main_request o).
#[local] Abbreviation attempt_requests := (StepSpec.attempt_requests o).
#[local] Abbreviation runStep_spec := (StepSpec.runStep_spec o redact).
#[local] Abbreviation connect_spec := (ConnectSpec.connect_spec o).

(** ** A step of a host *)

(** The requests of a step: boot IDs around the attempts, for a step that
    disconnects, and the requests of the attempts. *)
Record action_requests (p : Plan Signer) (a : Action) (sudoPW : bool) (sr : StepResult)
    (rqs : list Request) : Prop := {
  aq_attempts : ∃ pre rqss post, rqs = pre ++ concat rqss ++ post ∧
    Forall (.= boot_request) (pre ++ post) ∧ (aDisconnect a = false → pre = [] ∧ post = []) ∧
    Forall (attempt_requests p a sudoPW) rqss ∧ srAttempts sr = zlen rqss;
  aq_bound : (0 ≤ srAttempts sr ≤ Z.max 0 (aRetries a + 1))%Z;
}.

Record action_ran (p : Plan Signer) (a : Action) (c : nat) (sudoPW : bool) (s : state W)
    (sr : StepResult) (f : option Failure) (client : option nat) (s' : state W) (evs : list event)
    : Prop := {
  ar_follows : follows s s' evs;
  ar_step : step_of a sr;
  ar_outcome : outcome sr f;
  ar_protocol : protocol (Some c) evs = Some client;
  ar_client : f = None → is_Some client;
  ar_requests : action_requests p a sudoPW sr (execs evs);
}.

Definition ran_post (p : Plan Signer) (a : Action) (c : nat) (sudoPW : bool) (s : state W)
    (x : StepResult * option Failure * option nat) (s' : state W) : Prop :=
  ∃ evs, action_ran p a c sudoPW s (fst (fst x)) (snd (fst x)) (snd x) s' evs.

Lemma step_ran_requests p a c sudoPW s x s' rqss evs pre post :
  step_ran p a c sudoPW s x s' rqss evs →
  Forall (.= boot_request) (pre ++ post) → (aDisconnect a = false → pre = [] ∧ post = []) →
  ∀ sr, srAttempts sr = srAttempts (fst x) →
  action_requests p a sudoPW sr (pre ++ execs evs ++ post).
Proof.
  intros [Hf Hev Hst Hat Hb _ _ _ _] Hboot Hd sr Hsr.
  apply attempts_uses in Hev as (_ & He & Hall). split.
  - exists pre, rqss, post. split_and!; [by rewrite He|done|done|done|by rewrite Hsr].
  - rewrite Hsr, Hat. lia.
Qed.

(** An ordinary step. *)
Lemma plain_step_ran p a c sudoPW s x s' rqss evs sr f :
  step_ran p a c sudoPW s x s' rqss evs →
  step_of a sr → outcome sr f → srAttempts sr = srAttempts (fst x) →
  action_ran p a c sudoPW s sr f (Some c) s' evs.
Proof.
  intros Hr Hst Ho Hat. split; [apply Hr|done|done| |by eexists|].
  - apply protocol_uses. apply (attempts_uses _ _ _ _ _ _ _ (sn_events _ _ _ _ _ _ _ _ _ _ _ Hr)).
  - rewrite <- (app_nil_r (execs evs)). change (execs evs ++ []) with ([] ++ execs evs ++ []).
    by eapply step_ran_requests.
Qed.

Lemma runForget_spec c p a sudoPW s :
  plan_ok p →
  sat (runForget o redact c p a sudoPW) s
    (λ x s', ∃ evs, action_ran p a c sudoPW s (fst x) (snd x) (Some c) s' evs).
Proof.
  intros Hp. unfold runForget. apply sat_bind. eapply sat_mono; [by apply runStep_spec|].
  intros [sr f] s' (rqss & evs & Hr). pose proof (sn_step _ _ _ _ _ _ _ _ _ _ _ Hr) as Hst.
  pose proof (sn_outcome _ _ _ _ _ _ _ _ _ _ _ Hr) as Ho. simpl in *.
  destruct f as [f|]; [destruct (forgiven f sr)|]; apply sat_ret; exists evs;
    eapply plain_step_ran; try done.
Qed.

(** The three parts of a step that disconnects: boot ID, attempts, return. *)
Lemma disconnect_ran p a c sudoPW s s1 s2 s' x pre rqss evs evs2 sr f client :
  aDisconnect a = true →
  follows s s1 (map (EExec c) pre) → Forall (.= boot_request) pre →
  step_ran p a c sudoPW s1 x s2 rqss evs →
  follows s2 s' evs2 → protocol (Some c) evs2 = Some client → Forall (.= boot_request) (execs evs2) →
  step_of a sr → outcome sr f → srAttempts sr = srAttempts (fst x) → (f = None → is_Some client) →
  ran_post p a c sudoPW s (sr, f, client) s'.
Proof.
  intros Hd H1 Hpre Hr H2 Hp2 Hpost Hst Ho Hat Hcl.
  assert (∀ l, execs (map (EExec c) l) = l) as Hmap.
  { induction l as [|rq l IH]; [done|]. cbn. f_equal. exact IH. }
  assert (Forall (uses c) (map (EExec c) pre)) as Hu1 by (apply Forall_map, Forall_true; done).
  pose proof (attempts_uses _ _ _ _ _ _ _ (sn_events _ _ _ _ _ _ _ _ _ _ _ Hr)) as (Hu2 & _ & _).
  exists (map (EExec c) pre ++ evs ++ evs2). split; simpl; try done.
  - eapply follows_trans; [done|]. eapply follows_trans; [apply Hr|done].
  - rewrite (protocol_app _ _ _ _ (protocol_uses _ _ Hu1)).
    by rewrite (protocol_app _ _ _ _ (protocol_uses _ _ Hu2)).
  - rewrite !execs_app, Hmap. eapply step_ran_requests; [done| |congruence|done].
    by apply Forall_app.
Qed.

(** After the command: is the host still there, or does it come back? *)
Definition come_back (fuel : nat) (c : nat) (p : Plan Signer) (a : Action) (oldBoot : string)
    (lost : bool) (sr : StepResult) : M W (StepResult * option Failure * option nat) :=
  let! up := (if negb (aReboot a) && negb lost then alive c keepaliveInterval else ret false) in
  if up then ret (sr, None, Some c)
  else
    close c ;!
    let! t0 := now in
    let! r := waitForHost fuel p (aReconnectTimeout a) oldBoot in
    match r with
    | Err wf => ret (set_failure redact wf sr, Some wf, None)
    | Ok nc =>
        let! t1 := now in
        let back := duration_string (duration_round (time_sub t1 t0) second) in
        let note :=
          if aReboot a then
            "host rebooted (new boot ID) and was back after " +:+ back
          else "connection closed as expected; host back after " +:+ back in
        ret (set_note note sr, None, Some nc)
    end.

Lemma come_back_spec fuel c p a oldBoot lost sr s :
  plan_ok p → wait_fuel (aReconnectTimeout a) ≤ fuel → step_of a sr → outcome sr None →
  sat (come_back fuel c p a oldBoot lost sr) s (λ x s', ∃ evs,
    follows s s' evs ∧ protocol (Some c) evs = Some (snd x) ∧ Forall (.= boot_request) (execs evs) ∧
    step_of a (fst (fst x)) ∧ outcome (fst (fst x)) (snd (fst x)) ∧
    srAttempts (fst (fst x)) = srAttempts sr ∧ (snd (fst x) = None → is_Some (snd x))).
Proof.
  intros Hp Hfuel Hst Ho. unfold come_back. apply sat_bind.
  apply (sat_mono _ _ (λ _ s1, ∃ evs1, follows s s1 evs1 ∧ (evs1 = [] ∨ evs1 = [EAlive c]))).
  { destruct (negb (aReboot a) && negb lost).
    - apply sat_alive. intros b s1 H1. exists [EAlive c]. split; [done|by right].
    - apply sat_ret. exists []. split; [apply follows_refl|by left]. }
  intros b s1 (evs1 & H1 & Hev1).
  assert (protocol (Some c) evs1 = Some (Some c) ∧ execs evs1 = []) as [Hp1 He1].
  { destruct Hev1 as [->| ->]; [done|]. unfold protocol. simpl. by rewrite decide_True. }
  destruct b.
  { apply sat_ret. exists evs1. split_and!; try done; by rewrite He1. }
  apply sat_bind, sat_close. intros s2 H2. apply sat_bind, sat_now, sat_bind.
  eapply sat_mono; [by apply waitForHost_spec|]. intros r s3 (evs3 & H3 & Hp3 & He3 & Hreb).
  pose proof (follows_trans _ _ _ _ _ H1 (follows_trans _ _ _ _ _ H2 H3)) as Hf.
  assert (protocol (Some c) (evs1 ++ [EClose c] ++ evs3) =
    Some (match r with Ok c => Some c | Err _ => None end)) as Hpr.
  { rewrite (protocol_app _ _ _ _ Hp1). rewrite (protocol_app _ _ _ None); [done|].
    unfold protocol. simpl. by rewrite decide_True. }
  assert (Forall (.= boot_request) (execs (evs1 ++ [EClose c] ++ evs3))) as Hex.
  { by rewrite !execs_app, He1. }
  destruct r as [nc|wf].
  - apply sat_bind, sat_now, sat_ret. eexists. split_and!; try done.
  - apply sat_ret. eexists. split_and!; try done. simpl.
    destruct (failed_status_not_success wf). by split_and!.
Qed.

Lemma lost_connection_some f sr : lost_connection f sr = true → is_Some f.
Proof. destruct f; [by eexists|done]. Qed.

Lemma runDisconnecting_spec fuel c p a sudoPW s :
  plan_ok p → aDisconnect a = true → wait_fuel (aReconnectTimeout a) ≤ fuel →
  sat (runDisconnecting o redact fuel c p a sudoPW) s (ran_post p a c sudoPW s).
Proof.
  intros Hp Hd Hfuel. unfold runDisconnecting. apply sat_bind.
  apply (sat_mono _ _ (λ old s1, ∃ pre, follows s s1 (map (EExec c) pre) ∧
    Forall (.= boot_request) pre)).
  { destruct (aReboot a).
    - apply bootID_spec. intros r s1 H1 _. exists [boot_request]. split; [done|by constructor].
    - apply sat_ret. exists []. split; [apply follows_refl|done]. }
  intros old s1 (pre & H1 & Hpre). destruct old as [oldBoot|f].
  2: { apply sat_ret. exists (map (EExec c) pre). split; simpl; try done.
    - apply protocol_uses, Forall_map, Forall_true. done.
    - split; [|simpl; lia]. exists pre, [], []. split_and!; try done.
      + rewrite app_nil_r. clear. induction pre as [|rq l IH]; [done|]. cbn. f_equal. exact IH.
      + by rewrite app_nil_r.
      + congruence. }
  apply sat_bind, sat_keepalive_start. intros s2 H2. apply sat_bind.
  eapply sat_mono; [by apply runStep_spec|]. intros [sr f] s3 (rqss & evs & Hr).
  apply sat_bind, sat_keepalive_stop. intros s4 H4.
  pose proof (follows_trans _ _ _ _ _ H1 H2) as H12. rewrite app_nil_r in H12.
  pose proof (sn_step _ _ _ _ _ _ _ _ _ _ _ Hr) as Hst.
  pose proof (sn_outcome _ _ _ _ _ _ _ _ _ _ _ Hr) as Ho. simpl in Hst, Ho.
  destruct (bool_decide (is_Some f) && negb (lost_connection f sr)) eqn:Ereal.
  { apply sat_ret. eapply (disconnect_ran p a c sudoPW s s2 s3 s4); try done. }
  assert (outcome (if lost_connection f sr then set_outcome StatusSuccess None "" sr else sr) None)
    as Ho'.
  { destruct (lost_connection f sr) eqn:El; [done|]. rewrite andb_true_r in Ereal.
    apply bool_decide_eq_false in Ereal. destruct f; [by destruct Ereal|done]. }
  assert (step_of a (if lost_connection f sr then set_outcome StatusSuccess None "" sr else sr)
    ∧ srAttempts (if lost_connection f sr then set_outcome StatusSuccess None "" sr else sr)
      = srAttempts sr) as [Hst' Hat'] by (by destruct (lost_connection f sr)).
  eapply sat_mono; [by apply come_back_spec|].
  intros [[sr' f'] client] s5 (evs5 & H5 & Hp5 & He5 & Hs5 & Ho5 & Ha5 & Hc5). simpl in *.
  pose proof (follows_trans _ _ _ _ _ H4 H5) as H45.
  eapply (disconnect_ran p a c sudoPW s s2 s3 s5); try done. simpl. congruence.
Qed.

Lemma run_action_spec fuel c p a sudoPW s :
  plan_ok p → (aDisconnect a = true → wait_fuel (aReconnectTimeout a) ≤ fuel) →
  sat (run_action o redact fuel c p a sudoPW) s (ran_post p a c sudoPW s).
Proof.
  intros Hp Hfuel. unfold run_action. destruct (aDisconnect a) eqn:Ed.
  { apply runDisconnecting_spec; auto. }
  destruct (aFireAndForget a); apply sat_bind.
  - eapply sat_mono; [by apply runForget_spec|]. intros [sr f] s1 (evs & Hr).
    apply sat_ret. by exists evs.
  - eapply sat_mono; [by apply runStep_spec|]. intros [sr f] s1 (rqss & evs & Hr).
    apply sat_ret. exists evs. eapply plain_step_ran; [done|apply Hr|apply Hr|done].
Qed.

(** ** The steps of a host *)

(** The run goes on after a step that succeeded, or that failed with
    [continue_on_error] for another reason than a lost session or a
    cancellation. *)
Definition goes_on (a : Action) (sr : StepResult) : Prop :=
  srStatus sr = StatusSuccess ∨
  aContinueOnError a = true ∧ srCategory sr ≠ Some CatCancelled ∧
  srCategory sr ≠ Some CatSessionFailed.

(** A step that failed and ends its host: [goes_on] fails, or there is no
    connection any more. *)
Definition ends_host (a : Action) (sr : StepResult) (client : option nat) : Prop :=
  srStatus sr ≠ StatusSuccess ∧ (¬ goes_on a sr ∨ client = None).

(** The steps run in order, on the client that the one before left, until one ends
    the host; the steps after it are skipped and do nothing. *)
Inductive steps_run (fuel : nat) (p : Plan Signer) (sudoPW : bool) :
    nat → state W → list Action → list StepResult → list event → state W → option nat → Prop :=
| steps_done c s : steps_run fuel p sudoPW c s [] [] [] s (Some c)
| steps_next c s a sr f c' evs s1 acts srs evs' s' client :
    run_action o redact fuel c p a sudoPW s = Ret (sr, f, Some c') s1 →
    action_ran p a c sudoPW s sr f (Some c') s1 evs → goes_on a sr →
    steps_run fuel p sudoPW c' s1 acts srs evs' s' client →
    steps_run fuel p sudoPW c s (a :: acts) (sr :: srs) (evs ++ evs') s' client
| steps_stop c s a sr f client evs acts s' :
    run_action o redact fuel c p a sudoPW s = Ret (sr, f, client) s' →
    action_ran p a c sudoPW s sr f client s' evs → ends_host a sr client →
    steps_run fuel p sudoPW c s (a :: acts) (sr :: map skipped acts) evs s' client.

Lemma outcome_ran sr f : outcome sr f → srStatus sr ≠ StatusSkipped.
Proof. destruct f; simpl; [by intros (_ & ? & _)|by intros [-> _]]. Qed.

(** The first step that failed. *)
Definition first_failed (srs : list StepResult) : option StepResult :=
  head (filter (λ sr, srStatus sr ≠ StatusSuccess ∧ srStatus sr ≠ StatusSkipped) srs).

Definition category_status (c : option Category) : Status :=
  if bool_decide (c = Some CatCancelled) then StatusCancelled else StatusFailed.

(** The host's result after the steps [srs]. *)
Definition host_after (h : HostResult) (srs : list StepResult) (h' : HostResult) : Prop :=
  hrHost h' = hrHost h ∧ hrAddress h' = hrAddress h ∧
  hrConnectAttempts h' = hrConnectAttempts h ∧ hrSteps h' = hrSteps h ++ srs ∧
  match hrCategory h, first_failed srs with
  | None, Some sr =>
      hrStatus h' = category_status (srCategory sr) ∧ hrFailedStep h' = srName sr ∧
      hrCategory h' = srCategory sr ∧ is_Some (srCategory sr) ∧ hrReason h' = srReason sr
  | _, _ =>
      hrStatus h' = hrStatus h ∧ hrFailedStep h' = hrFailedStep h ∧
      hrCategory h' = hrCategory h ∧ hrReason h' = hrReason h
  end.

Lemma skipped_first acts : first_failed (map skipped acts) = None.
Proof.
  unfold first_failed. induction acts as [|a acts IH]; [done|]. simpl. rewrite filter_cons.
  by rewrite decide_False by (intros [_ ?]; done).
Qed.

Lemma host_after_skipped h acts :
  host_after h (map skipped acts) (foldl (λ h a, add_step (skipped a) h) h acts).
Proof.
  unfold host_after. rewrite skipped_first.
  revert h. induction acts as [|a acts IH]; intros h; simpl.
  - rewrite app_nil_r. by destruct (hrCategory h).
  - specialize (IH (add_step (skipped a) h)) as (? & ? & ? & Hs & Hrest). simpl in *.
    split_and!; [done..| |by destruct (hrCategory h)]. by rewrite Hs, <- app_assoc.
Qed.

(** One step, then the others. *)
Lemma host_after_step h a sr f srs h' :
  step_of a sr → outcome sr f →
  host_after (match f with
    | None => add_step sr h
    | Some f => host_fail redact f (aName a) (add_step sr h)
    end) srs h' →
  host_after h (sr :: srs) h'.
Proof.
  intros (Hn & _) Ho (H1 & H2 & H3 & H4 & H5). unfold host_after.
  assert (first_failed (sr :: srs) = if decide (f = None) then first_failed srs else Some sr) as ->.
  { unfold first_failed. rewrite filter_cons. destruct f as [g|]; simpl in Ho.
    - destruct Ho as (? & ? & _). by rewrite decide_True, decide_False.
    - destruct Ho as [Hs _]. rewrite decide_False by (rewrite Hs; tauto). by rewrite decide_True. }
  destruct f as [g|].
  - rewrite decide_False by done. unfold host_fail in *. simpl in *.
    destruct (hrCategory h) as [cat|] eqn:Ec; simpl in *.
    + rewrite Ec in H5. destruct H5 as (H6 & H7 & H8 & H9).
      split_and!; try done. by rewrite H4, <- app_assoc.
    + destruct Ho as (_ & _ & Hcat & Hr). rewrite Hcat. destruct H5 as (H6 & H7 & H8 & H9).
      split_and!; try done; [by rewrite H4, <- app_assoc|rewrite H6|by rewrite H7|by rewrite H9].
      unfold failed_status, category_status. repeat case_bool_decide; congruence.
  - rewrite decide_True by done. simpl in *. split_and!; try done. by rewrite H4, <- app_assoc.
Qed.

Definition actions_post (fuel : nat) (p : Plan Signer) (sudoPW : bool) (c : nat) (acts : list Action)
    (h : HostResult) (s : state W) (x : HostResult * option nat) (s' : state W) : Prop :=
  ∃ srs evs, follows s s' evs ∧ protocol (Some c) evs = Some (snd x) ∧
    steps_run fuel p sudoPW c s acts srs evs s' (snd x) ∧ host_after h srs (fst x).

Lemma run_actions_stopped fuel client p acts sudoPW h s :
  sat (run_actions o redact fuel client p acts sudoPW true h) s
    (λ x s', x = (foldl (λ h a, add_step (skipped a) h) h acts, client) ∧ s' = s).
Proof.
  revert h. induction acts as [|a acts IH]; intros h; [by apply sat_ret|]. apply IH.
Qed.

Lemma stops_spec a sr f client :
  outcome sr (Some f) → stops a f client = false → goes_on a sr ∧ is_Some client.
Proof.
  intros (_ & _ & Hc & _). unfold stops, goes_on. rewrite !orb_false_iff, !bool_decide_eq_false.
  intros (((Hcont & Hcl) & H1) & H2). apply negb_false_iff in Hcont. split.
  - right. split_and!; [done|congruence..].
  - by apply not_eq_None_Some.
Qed.

Lemma stops_true a sr f client :
  outcome sr (Some f) → stops a f client = true → ends_host a sr client.
Proof.
  intros (Hs & _ & Hc & _). unfold stops, ends_host, goes_on.
  rewrite !orb_true_iff, !bool_decide_eq_true, negb_true_iff. intros Hst. split; [done|].
  destruct Hst as [[[Hst|Hst]|Hst]|Hst]; [left|by right|left..]; intros [?|(? & ? & ?)]; congruence.
Qed.

Lemma run_actions_spec fuel c p acts sudoPW h s :
  plan_ok p →
  (∀ a, a ∈ acts → aDisconnect a = true → wait_fuel (aReconnectTimeout a) ≤ fuel) →
  sat (run_actions o redact fuel (Some c) p acts sudoPW false h) s
    (actions_post fuel p sudoPW c acts h s).
Proof.
  intros Hp. revert c h s. induction acts as [|a acts IH]; intros c h s Hfuel.
  { apply sat_ret. exists [], []. split_and!; [apply follows_refl|done|constructor|].
    unfold host_after. simpl. rewrite app_nil_r. by destruct (hrCategory h). }
  cbn [run_actions]. apply sat_bind. unfold sat at 1. simpl. apply sat_bind.
  apply sat_run. eapply sat_mono; [apply run_action_spec; [done|]|].
  { intros Hd. apply Hfuel; [set_solver|done]. }
  intros [[sr f] client] s1 (evs & Hran) Hrun1. pose proof Hran as [Hf Hst Ho Hpr Hcl Hrq]. simpl in *.
  assert (∀ b c' h1, is_Some client → client = Some c' → goes_on a sr →
    (∀ srs h', host_after h1 srs h' → host_after h (sr :: srs) h') → b = false →
    sat (run_actions o redact fuel client p acts sudoPW b h1) s1
      (actions_post fuel p sudoPW c (a :: acts) h s)) as Hgo.
  { intros b c' h1 _ -> Hg Hafter ->. eapply sat_mono; [apply IH|].
    { intros a' Ha'. apply Hfuel. set_solver. }
    intros [h' cl'] s2 (srs & evs2 & Hf2 & Hp2 & Hrun & Hh). exists (sr :: srs), (evs ++ evs2).
    split_and!; [by eapply follows_trans|by rewrite (protocol_app _ _ _ _ Hpr)| |by apply Hafter].
    by eapply steps_next. }
  destruct f as [f|].
  - destruct (stops a f client) eqn:Estop.
    + eapply sat_mono; [apply run_actions_stopped|]. intros [h' cl'] s2 [[= -> ->] ->].
      exists (sr :: map skipped acts), evs. split_and!; [done|done| |].
      * eapply steps_stop; [done|done|by eapply stops_true].
      * eapply host_after_step; [done|exact Ho|]. apply host_after_skipped.
    + destruct (stops_spec _ _ _ _ Ho Estop) as [Hg [c' ->]].
      eapply Hgo; [by eexists|done|done| |done].
      intros srs h' Hh. by eapply (host_after_step h a sr (Some f)).
  - destruct (Hcl eq_refl) as [c' ->]. eapply Hgo; [by eexists|done|by left; apply Ho| |done].
    intros srs h' Hh. by eapply (host_after_step h a sr None).
Qed.

(** ** A host *)

(** What is assumed of a host's run: a plan from [Prepare], a maximum delay that
    is not negative, and fuel for the waits of its steps. *)
Record runnable (fuel : nat) (p : Plan Signer) : Prop := {
  ru_plan : plan_ok p;
  ru_delay : (0 ≤ opMaxRetryDelay o < 2 ^ 63)%Z;
  ru_fuel : ∀ a, a ∈ plActions p → aDisconnect a = true → wait_fuel (aReconnectTimeout a) ≤ fuel;
}.

(** The host could not be reached: [connect] failed, which is what the host failed
    with; every step is skipped, nothing is sent. *)
Record unreachable (p : Plan Signer) (s : state W) (h : HostResult) (evs : list event) : Prop := {
  un_steps : hrSteps h = map skipped (plActions p);
  un_error : ∃ e s1, connect o (S (Z.to_nat (opConnectRetries o))) 1 p s = Ret (Err e, hrConnectAttempts h) s1 ∧
    connect_error p s e s1 ∧ hrStatus h = failed_status (AsFailure e) ∧
    hrCategory h = Some (fCategory (AsFailure e)) ∧ hrReason h = redact (fReason (AsFailure e));
  un_step : hrFailedStep h = "";
  un_execs : execs evs = [];
}.

(** The steps ran, on the client [c] that was connected in [s]. *)
Record ran (fuel : nat) (p : Plan Signer) (c : nat) (s : state W) (h : HostResult) (s' : state W)
    (evs : list event) : Prop := {
  rn_steps : ∃ sudoPW s1 s2 client evs1 evs2 evs3, evs = evs1 ++ evs2 ++ evs3 ∧ execs evs3 = [] ∧
    follows s s1 evs1 ∧ sudo_decision p c s sudoPW s1 evs1 ∧
    steps_run fuel p sudoPW c s1 (plActions p) (hrSteps h) evs2 s2 client ∧
    (client = None → s' = s2);
  rn_result :
    match first_failed (hrSteps h) with
    | Some sr => hrStatus h = category_status (srCategory sr) ∧ hrFailedStep h = srName sr ∧
        hrCategory h = srCategory sr ∧ is_Some (srCategory sr) ∧ hrReason h = srReason sr
    | None => hrStatus h = StatusSuccess ∧ hrFailedStep h = "" ∧ hrCategory h = None ∧ hrReason h = ""
    end;
}.

(** The host was reached, then its steps ran. *)
Definition reached (fuel : nat) (p : Plan Signer) (s : state W) (h : HostResult) (s' : state W)
    (evs : list event) : Prop :=
  ∃ c s1 evs0 evs', evs = evs0 ++ evs' ∧ execs evs0 = [] ∧ follows s s1 evs0 ∧
    connect o (S (Z.to_nat (opConnectRetries o))) 1 p s = Ret (Ok c, hrConnectAttempts h) s1 ∧
    ran fuel p c s1 h s' evs'.

Record host_ran (fuel : nat) (p : Plan Signer) (s : state W) (h : HostResult) (s' : state W) (evs : list event)
    : Prop := {
  hn_follows : follows s s' evs;
  hn_host : hrHost h = tName (plTarget p) ∧ hrAddress h = Addr (tEndpoint (plTarget p));
  hn_attempts : (1 ≤ hrConnectAttempts h ≤ Z.max 0 (opConnectRetries o) + 1)%Z;
  hn_protocol : protocol None evs = Some None;
  hn_outcome : unreachable p s h evs ∨ reached fuel p s h s' evs;
}.

Lemma fold_skipped h acts :
  let h' := foldl (λ h a, add_step (skipped a) h) h acts in
  hrSteps h' = hrSteps h ++ map skipped acts ∧ hrStatus h' = hrStatus h ∧
  hrFailedStep h' = hrFailedStep h ∧ hrCategory h' = hrCategory h ∧ hrReason h' = hrReason h ∧
  hrHost h' = hrHost h ∧ hrAddress h' = hrAddress h ∧ hrConnectAttempts h' = hrConnectAttempts h.
Proof.
  destruct (host_after_skipped h acts) as (H1 & H2 & H3 & H4 & H5).
  rewrite skipped_first in H5. simpl. destruct (hrCategory h); destruct H5 as (? & ? & ? & ?); by split_and!.
Qed.

Lemma run_reachable fuel c p h t0 s :
  runnable fuel p → h = set_attempts (hrConnectAttempts h) (new_host p StatusSuccess) →
  sat (let! sudoPW := needsSudoPassword c p in
       let! x := run_actions o redact fuel (Some c) p (plActions p) sudoPW false h in
       let '(h, client) := x in
       (match client with Some c => close c | None => ret tt end) ;!
       let! t1 := now in ret (set_host_duration (time_sub t1 t0) h)) s
    (λ h' s', ∃ evs, follows s s' evs ∧ protocol (Some c) evs = Some None ∧
      hrHost h' = hrHost h ∧ hrAddress h' = hrAddress h ∧
      hrConnectAttempts h' = hrConnectAttempts h ∧ ran fuel p c s h' s' evs).
Proof.
  intros [Hp Hd Hfuel] Hh. apply sat_bind. eapply sat_mono; [by apply needsSudoPassword_spec|].
  intros sudoPW s1 (evs1 & H1 & Hprobe). apply sat_bind.
  eapply sat_mono; [by apply run_actions_spec|].
  intros [h' client] s2 (srs & evs2 & H2 & Hp2 & Hrun & Hh1 & Hh2 & Hh3 & Hh4 & Hh5).
  simpl in Hp2, Hrun, Hh1, Hh2, Hh3, Hh4, Hh5. apply sat_bind.
  assert (protocol (Some c) (evs1 ++ evs2) = Some client) as Hp12.
  { rewrite (protocol_app _ _ _ (Some c)); [done|].
    destruct Hprobe; [done|]. unfold protocol. simpl. by rewrite decide_True. }
  apply (sat_mono _ _ (λ _ s3, ∃ evs3, follows s2 s3 evs3 ∧ protocol client evs3 = Some None ∧
    execs evs3 = [] ∧ (client = None → s3 = s2))).
  { destruct client as [c'|].
    - apply sat_close. intros s3 H3. exists [EClose c']. split_and!; [done| |done|done].
      unfold protocol. simpl. by rewrite decide_True.
    - apply sat_ret. exists []. split_and!; [apply follows_refl|done..]. }
  intros [] s3 (evs3 & H3 & Hp3 & He3 & Hcl). apply sat_bind, sat_now, sat_ret. exists (evs1 ++ evs2 ++ evs3).
  assert (hrSteps h' = srs) as Hsteps by (rewrite Hh4, Hh; done).
  split_and!; [|..|done|done|done|].
  - eapply follows_trans; [done|]. by eapply follows_trans.
  - rewrite app_assoc, (protocol_app _ _ _ _ Hp12). done.
  - split; simpl.
    + exists sudoPW, s1, s2, client, evs1, evs2, evs3. by rewrite Hsteps.
    + rewrite Hsteps. rewrite Hh in Hh5. simpl in Hh5. by destruct (first_failed srs).
Qed.

Lemma runHost_spec fuel p s :
  runnable fuel p → sat (runHost o redact fuel p) s (λ h s', ∃ evs, host_ran fuel p s h s' evs).
Proof.
  intros Hr. pose proof Hr as [Hp Hd Hfuel]. unfold runHost. apply sat_bind, sat_now, sat_bind, sat_run.
  eapply sat_mono; [apply connect_spec; [done|done|lia|lia|lia]|].
  intros [r n] s1 (k & evs1 & H1 & Hce & Hn & Hk & Herr) Hconn. simpl in *.
  assert (1 ≤ n ≤ Z.max 0 (opConnectRetries o) + 1)%Z as Hbound by lia.
  pose proof (connect_protocol _ _ _ Hce) as Hp1. pose proof (connect_execs _ _ _ Hce) as He1.
  destruct r as [c|e].
  - eapply sat_mono; [by apply run_reachable|].
    intros h' s2 (evs2 & H2 & Hp2 & Hh1 & Hh2 & Hh3 & Hran). simpl in *.
    exists (evs1 ++ evs2). split.
    + by eapply follows_trans.
    + by rewrite Hh1, Hh2.
    + by rewrite Hh3.
    + by rewrite (protocol_app _ _ _ _ Hp1).
    + right. exists c, s1, evs1, evs2. split_and!; try done. by rewrite Hh3.
  - apply sat_bind, sat_now, sat_ret. exists evs1.
    destruct (fold_skipped (host_fail redact (AsFailure e) "" (set_attempts n (new_host p StatusSuccess)))
      (plActions p)) as (F1 & F2 & F3 & F4 & F5 & F6 & F7 & F8).
    split; simpl.
    + done.
    + by rewrite F6, F7.
    + by rewrite F8.
    + done.
    + left. split; simpl; [by rewrite F1| |by rewrite F3|done].
      exists e, s1. rewrite F2, F4, F5, F8. by split_and!.
Qed.

(** ** Consequences of [steps_run] *)

Lemma skipped_steps acts : Forall2 step_of acts (map skipped acts).
Proof. induction acts; constructor; [by split_and!|done]. Qed.

Lemma steps_run_names fuel p sudoPW c s acts srs evs s' cl :
  steps_run fuel p sudoPW c s acts srs evs s' cl → Forall2 step_of acts srs.
Proof.
  induction 1 as [|???????????? ? _ Hr|????????? _ Hr]; constructor; try done; try apply Hr.
  apply skipped_steps.
Qed.

Lemma steps_run_later fuel p sudoPW c s acts srs evs s' cl i a sr :
  steps_run fuel p sudoPW c s acts srs evs s' cl → acts !! i = Some a → srs !! i = Some sr → ¬ goes_on a sr →
  ∀ j, i < j → j < length acts → ∃ b, acts !! j = Some b ∧ srs !! j = Some (skipped b).
Proof.
  intros Hrun. revert i. induction Hrun as [|c s a0 sr0 f c' evs s1 acts srs evs' s' cl _ _ Hg _ IH|
    c s a0 sr0 f cl evs acts s' _ _ _]; intros i Ha Hsr Hno j Hij Hj.
  - done.
  - destruct i as [|i]; simplify_eq/=; [done|]. destruct j as [|j]; [lia|]. simpl in *.
    apply (IH i); try done; lia.
  - destruct j as [|j]; [lia|]. simpl in *.
    destruct (lookup_lt_is_Some_2 acts j) as [b Hb]; [lia|].
    exists b. rewrite list_lookup_fmap, Hb. done.
Qed.

(** A step whose connection was lost, and whose host did not come back: it left no
    client, and it was the last thing that happened. *)
Definition not_back (fuel : nat) (p : Plan Signer) (a : Action) (sr : StepResult) (s s' : state W) : Prop :=
  ∃ sudoPW c f s1 evs, follows s s1 evs ∧ run_action o redact fuel c p a sudoPW s1 = Ret (sr, f, None) s'.

Lemma not_back_later fuel p a sr s s1 evs s' : follows s s1 evs → not_back fuel p a sr s1 s' → not_back fuel p a sr s s'.
Proof.
  intros H1 (sudoPW & c & f & s2 & evs2 & H2 & Hrun). exists sudoPW, c, f, s2, (evs ++ evs2).
  split; [by eapply follows_trans|done].
Qed.

(** Only such a step leaves no client. *)
Lemma run_action_client fuel c p a sudoPW s sr f s' :
  run_action o redact fuel c p a sudoPW s = Ret (sr, f, None) s' → aDisconnect a = true.
Proof.
  unfold run_action. destruct (aDisconnect a); [done|]. destruct (aFireAndForget a); unfold bind, ret.
  - by destruct (runForget _ _ _ _ _ _ _) as [[? ?] ?| |].
  - by destruct (runStep _ _ _ _ _ _ _) as [[? ?] ?| |].
Qed.

(** A skipped step comes after one that ended the host. *)
Lemma steps_run_skipped fuel p sudoPW c s acts srs evs s' cl j sr :
  steps_run fuel p sudoPW c s acts srs evs s' cl → srs !! j = Some sr → srStatus sr = StatusSkipped →
  ∃ i a sr', i < j ∧ acts !! i = Some a ∧ srs !! i = Some sr' ∧
    srStatus sr' ≠ StatusSuccess ∧ srStatus sr' ≠ StatusSkipped ∧
    (¬ goes_on a sr' ∨ cl = None ∧ aDisconnect a = true ∧ not_back fuel p a sr' s s').
Proof.
  intros Hrun. revert j. induction Hrun as [|c s a0 sr0 f c' evs s1 acts srs evs' s' cl _ Hran _ _ IH|
    c s a0 sr0 f cl evs acts s' Hact Hran [Hne Hend]]; intros j Hj Hs.
  - done.
  - destruct j as [|j]; simplify_eq/=.
    { by destruct (outcome_ran _ _ (ar_outcome _ _ _ _ _ _ _ _ _ _ Hran)). }
    destruct (IH j Hj Hs) as (i & a & sr' & ? & ? & ? & ? & ? & Hwhy).
    exists (S i), a, sr'. split_and!; [lia|done..|].
    destruct Hwhy as [?|(? & ? & Hb)]; [by left|right]. split_and!; [done|done|].
    eapply not_back_later; [apply Hran|done].
  - pose proof (outcome_ran _ _ (ar_outcome _ _ _ _ _ _ _ _ _ _ Hran)) as Hns.
    destruct j as [|j]; simplify_eq/=. exists 0, a0, sr0. split_and!; [lia|done..|].
    destruct Hend as [?| ->]; [by left|right]. split_and!; [done|by eapply run_action_client|].
    exists sudoPW, c, f, s, []. split; [apply follows_refl|done].
Qed.

Lemma action_requests_in p a sudoPW sr rqs rq :
  action_requests p a sudoPW sr rqs → rq ∈ rqs →
  rq = boot_request ∧ aDisconnect a = true ∨
  (∃ content, aContent a = Some content ∧ rq = upload_request a content) ∨
  ∃ tmp, rq = main_request p a sudoPW tmp.
Proof.
  intros [(pre & rqss & post & -> & Hb & Hd & Hall & _) _].
  rewrite Forall_app, !Forall_forall in Hb. destruct Hb as [Hb1 Hb2].
  assert (rq ∈ pre ∨ rq ∈ post → aDisconnect a = true) as Hdisc.
  { intros Hin. apply not_false_iff_true. intros Hf. destruct (Hd Hf) as [-> ->].
    by destruct Hin as [?%elem_of_nil|?%elem_of_nil]. }
  intros [Hin|[Hin|Hin]%elem_of_app]%elem_of_app;
    [left; split; [by apply Hb1|auto]| |left; split; [by apply Hb2|auto]].
  right. apply list_elem_of_In, in_concat in Hin as (l & Hl & Hrq).
  apply list_elem_of_In in Hl. apply list_elem_of_In in Hrq.
  rewrite Forall_forall in Hall. specialize (Hall l Hl). unfold attempt_requests in Hall.
  destruct (aContent a) as [content|].
  - destruct Hall as [->|(tmp & _ & ->)].
    + apply list_elem_of_singleton in Hrq as ->. left. eauto.
    + apply elem_of_cons in Hrq as [->|Hrq]; [left; eauto|].
      apply list_elem_of_singleton in Hrq as ->. right. eauto.
  - subst l. apply list_elem_of_singleton in Hrq as ->. right. eauto.
Qed.

Lemma steps_run_in fuel p sudoPW c s acts srs evs s' cl rq :
  steps_run fuel p sudoPW c s acts srs evs s' cl → rq ∈ execs evs →
  ∃ i a sr rqs', acts !! i = Some a ∧ srs !! i = Some sr ∧ srStatus sr ≠ StatusSkipped ∧
    action_requests p a sudoPW sr rqs' ∧ rq ∈ rqs'.
Proof.
  induction 1 as [|c s a0 sr0 f c' evs s1 acts srs evs' s' cl _ Hran _ _ IH|
    c s a0 sr0 f cl evs acts s' _ Hran _]; intros Hin.
  - by apply elem_of_nil in Hin.
  - rewrite execs_app in Hin. apply elem_of_app in Hin as [Hin|Hin].
    + exists 0, a0, sr0, (execs evs). split_and!; try done; [|apply Hran]. by eapply outcome_ran, Hran.
    + destruct (IH Hin) as (i & a & sr & rqs1 & ?). by exists (S i), a, sr, rqs1.
  - exists 0, a0, sr0, (execs evs). split_and!; try done; [|apply Hran]. by eapply outcome_ran, Hran.
Qed.

Lemma steps_run_attempts fuel p sudoPW c s acts srs evs s' cl i a sr :
  steps_run fuel p sudoPW c s acts srs evs s' cl → acts !! i = Some a → srs !! i = Some sr →
  (0 ≤ srAttempts sr ≤ Z.max 0 (aRetries a + 1))%Z.
Proof.
  intros Hrun. revert i. induction Hrun as [|c s a0 sr0 f c' evs s1 acts srs evs' s' cl _ Hran _ _ IH|
    c s a0 sr0 f cl evs acts s' _ Hran _]; intros [|i] Ha Hs; simplify_eq/=;
    try apply Hran; [by apply (IH i)|].
  rewrite list_lookup_fmap, Ha in Hs. simplify_eq/=. lia.
Qed.

Lemma first_failed_None srs :
  first_failed srs = None ↔ Forall (λ sr, srStatus sr = StatusSuccess ∨ srStatus sr = StatusSkipped) srs.
Proof.
  unfold first_failed. induction srs as [|sr srs IH]; [by split|]. rewrite filter_cons, Forall_cons, <- IH.
  case_decide as Hd; simpl.
  - split; [done|]. by intros [[?|?] _]; destruct Hd.
  - split; [|by intros [_ ?]]. intros ->. split; [|done].
    destruct (decide (srStatus sr = StatusSuccess)); [by left|].
    destruct (decide (srStatus sr = StatusSkipped)); [by right|]. by destruct Hd.
Qed.

Lemma steps_run_success fuel p sudoPW c s acts srs evs s' cl :
  steps_run fuel p sudoPW c s acts srs evs s' cl → first_failed srs = None →
  Forall (λ sr, srStatus sr = StatusSuccess) srs.
Proof.
  intros Hrun Hff. rewrite first_failed_None in Hff. apply Forall_forall. intros sr Hin.
  pose proof Hff as Hff'. rewrite Forall_forall in Hff. destruct (Hff sr Hin) as [|Hs]; [done|].
  apply list_elem_of_lookup in Hin as [j Hj].
  destruct (steps_run_skipped _ _ _ _ _ _ _ _ _ _ j sr Hrun Hj Hs) as (i & a & sr' & _ & _ & Hi & H1 & H2 & _).
  apply list_elem_of_lookup_2 in Hi. destruct (Hff sr' Hi); done.
Qed.

Lemma category_status_failed c : is_Some c → category_status c ≠ StatusSuccess.
Proof. unfold category_status. by case_bool_decide. Qed.

(** ** Properties of a host's run *)

Lemma reached_steps fuel p s h s' evs :
  reached fuel p s h s' evs → ∃ sudoPW c s1 s2 client evs2,
    steps_run fuel p sudoPW c s1 (plActions p) (hrSteps h) evs2 s2 client.
Proof.
  intros (c & s0 & evs0 & evs' & _ & _ & _ & _ & [(sudoPW & s1 & s2 & cl & e1 & e2 & e3 & _ & _ & _ & _ & Hrun & _) _]).
  by exists sudoPW, c, s1, s2, cl, e2.
Qed.

Lemma runHost_named (fuel : nat) (p : Plan Signer) (s : state W) :
  runnable fuel p →
  ∃ h s', runHost o redact fuel p s = Ret h s' ∧
    hrHost h = tName (plTarget p) ∧ Forall2 step_of (plActions p) (hrSteps h).
Proof.
  intros Hr. pose proof (runHost_spec fuel p s Hr) as Hs. apply sat_Ret in Hs as (h & s' & E & evs & Hh).
  exists h, s'. split_and!; [done|apply Hh|].
  destruct (hn_outcome _ _ _ _ _ _ Hh) as [[-> _ _ _]|Hre]; [apply skipped_steps|].
  apply reached_steps in Hre as (? & ? & ? & ? & ? & ? & Hrun). by eapply steps_run_names.
Qed.

(** C8: for a plan of [Prepare], enough fuel for its waits and a maximum delay that is
    not negative ([runnable]; [backoff_negative] panics without it), [runHost] always
    returns: it neither panics nor waits for ever, whatever the host does, and its
    result has one result per step of the job, in order, for this host. *)
Theorem runHost_total (fuel : nat) (p : Plan Signer) (s : state W) :
  runnable fuel p →
  ∃ h s', runHost o redact fuel p s = Ret h s' ∧
    hrHost h = tName (plTarget p) ∧ Forall2 step_of (plActions p) (hrSteps h).
Proof. apply runHost_named. Qed.

Lemma runHost_ran fuel p s h s' :
  runnable fuel p → runHost o redact fuel p s = Ret h s' → ∃ evs, host_ran fuel p s h s' evs.
Proof.
  intros Hr E. pose proof (runHost_spec fuel p s Hr) as Hs. unfold sat in Hs. by rewrite E in Hs.
Qed.

Lemma runHost_success fuel p s h s' :
  runnable fuel p → runHost o redact fuel p s = Ret h s' → hrStatus h = StatusSuccess →
  Forall (λ sr, srStatus sr = StatusSuccess) (hrSteps h).
Proof.
  intros Hr E Hst. destruct (runHost_ran _ _ _ _ _ Hr E) as (evs & Hh).
  destruct (hn_outcome _ _ _ _ _ _ Hh) as [[_ (e & s1 & _ & _ & H2 & _) _ _]|Hre].
  - rewrite Hst in H2. by destruct (failed_status_not_success (AsFailure e)) as [[] _].
  - apply reached_steps in Hre as Hrun. destruct Hrun as (? & ? & ? & ? & ? & ? & Hrun).
    destruct Hre as (c & s0 & _ & _ & _ & _ & _ & _ & [_ Hres]).
    destruct (first_failed (hrSteps h)) as [sr|] eqn:Ef; [|by eapply steps_run_success].
    destruct Hres as (H1 & _ & _ & H4 & _). rewrite Hst in H1. by destruct (category_status_failed _ H4).
Qed.

(** The run of [connect] in [runHost]. *)
Abbreviation connects p s := (connect o (S (Z.to_nat (opConnectRetries o))) 1 p s).

(** C9: for plans of [Prepare], enough fuel and a maximum delay that is not
    negative: the host's status is SUCCESS exactly when it was reached and every step
    succeeded.  Otherwise it is the first failure that is reported.  If the host could
    not be reached, no step ran, and category and reason are those of the error of
    [connect]: that of its last dial, or the cancellation of a pause.  If it was, step,
    category and reason are those of the first step that failed.  The status is
    CANCELLED for a cancellation and FAILED for anything else. *)
Theorem runHost_status (fuel : nat) (p : Plan Signer) (s s' : state W) (h : HostResult) :
  runnable fuel p → runHost o redact fuel p s = Ret h s' →
  (hrStatus h = StatusSuccess →
     hrCategory h = None ∧ hrFailedStep h = "" ∧ hrReason h = "" ∧
     Forall (λ sr, srStatus sr = StatusSuccess) (hrSteps h) ∧
     ∃ c s1, connects p s = Ret (Ok c, hrConnectAttempts h) s1) ∧
  (hrStatus h ≠ StatusSuccess →
     hrStatus h = category_status (hrCategory h) ∧ is_Some (hrCategory h) ∧
     ((∃ e s1, connects p s = Ret (Err e, hrConnectAttempts h) s1 ∧ connect_error p s e s1 ∧
         hrFailedStep h = "" ∧ hrSteps h = map skipped (plActions p) ∧
         hrCategory h = Some (fCategory (AsFailure e)) ∧ hrReason h = redact (fReason (AsFailure e))) ∨
      (∃ c s1, connects p s = Ret (Ok c, hrConnectAttempts h) s1) ∧
      ∃ sr, first_failed (hrSteps h) = Some sr ∧ hrFailedStep h = srName sr ∧
        hrCategory h = srCategory sr ∧ hrReason h = srReason sr)).
Proof.
  intros Hr E. destruct (runHost_ran _ _ _ _ _ Hr E) as (evs & Hh).
  destruct (hn_outcome _ _ _ _ _ _ Hh) as [[H1 (e & s1 & Hc & Hce & H2 & H3 & H4) H5 _]|Hre].
  - assert (hrStatus h = category_status (hrCategory h)) as Hst.
    { rewrite H2, H3. unfold failed_status, category_status. repeat case_bool_decide; congruence. }
    destruct (failed_status_not_success (AsFailure e)) as [Hne _].
    split; [congruence|]. intros _. split_and!; [done|by rewrite H3|left].
    exists e, s1. by split_and!.
  - apply reached_steps in Hre as Hrun. destruct Hrun as (? & ? & ? & ? & ? & ? & Hrun).
    destruct Hre as (c & s0 & _ & _ & _ & _ & _ & Hc & [_ Hres]).
    destruct (first_failed (hrSteps h)) as [sr|] eqn:Ef.
    + destruct Hres as (H1 & H2 & H3 & H4 & H5).
      split; [intros Hs; rewrite H1 in Hs; by destruct (category_status_failed _ H4)|].
      intros _. rewrite H1, H3. split_and!; [done|done|right]. split; [by exists c, s0|by exists sr].
    + destruct Hres as (H1 & H2 & H3 & H4). split; [|by rewrite H1].
      intros _. split_and!; [done..|by eapply steps_run_success|by exists c, s0].
Qed.

(** C10: for plans of [Prepare], enough fuel and a maximum delay that is not
    negative: after a step that fails without [continue_on_error], or that loses its
    session or is cancelled ([goes_on] fails), every later step is skipped.  And a
    step is skipped only if the host could not be reached, or after such a step, or
    after one that cut its connection and whose host did not come back ([not_back]:
    that step left no client, and nothing happened after it). *)
Theorem runHost_stops (fuel : nat) (p : Plan Signer) (s s' : state W) (h : HostResult) :
  runnable fuel p → runHost o redact fuel p s = Ret h s' →
  (∀ i j a sr, plActions p !! i = Some a → hrSteps h !! i = Some sr →
     ¬ goes_on a sr → i < j → j < length (plActions p) →
     ∃ b, plActions p !! j = Some b ∧ hrSteps h !! j = Some (skipped b)) ∧
  (∀ j sr, hrSteps h !! j = Some sr → srStatus sr = StatusSkipped →
     hrSteps h = map skipped (plActions p) ∧
       (∃ e s1, connects p s = Ret (Err e, hrConnectAttempts h) s1) ∨
     ∃ i a sr', i < j ∧ plActions p !! i = Some a ∧ hrSteps h !! i = Some sr' ∧
       srStatus sr' ≠ StatusSuccess ∧ srStatus sr' ≠ StatusSkipped ∧
       (¬ goes_on a sr' ∨ aDisconnect a = true ∧ not_back fuel p a sr' s s')).
Proof.
  intros Hr E. destruct (runHost_ran _ _ _ _ _ Hr E) as (evs & Hh).
  destruct (hn_outcome _ _ _ _ _ _ Hh) as [[H1 (e & s1 & Hc & _) _ _]|Hre].
  - rewrite H1. split; [|intros j sr _ _; left; split; [done|by exists e, s1]].
    intros i j a sr _ _ _ _ Hj.
    destruct (lookup_lt_is_Some_2 (plActions p) j Hj) as [b Hb].
    exists b. by rewrite list_lookup_fmap, Hb.
  - destruct Hre as (c & s0 & evs0 & evs' & _ & _ & Hf0 & _ &
      [(sudoPW & s1 & s2 & cl & e1 & e2 & e3 & _ & _ & Hf1 & _ & Hrun & Hcl) _]). split.
    + intros i j a sr Ha Hs Hg Hij Hj. by eapply steps_run_later.
    + intros j sr Hj Hs. right.
      destruct (steps_run_skipped _ _ _ _ _ _ _ _ _ _ _ _ Hrun Hj Hs) as (i & a & sr' & ? & ? & ? & ? & ? & Hwhy).
      exists i, a, sr'. split_and!; [done..|].
      destruct Hwhy as [?|(Hnone & ? & Hb)]; [by left|right]. split; [done|]. rewrite (Hcl Hnone).
      eapply not_back_later; [exact Hf0|]. by eapply not_back_later.
Qed.

(** C36: for a plan that is [runnable], a host never has two connections open at once, only uses the
    one that is open, and when it is done every connection it opened has been
    closed, across reboots too. *)
Theorem runHost_connections (fuel : nat) (p : Plan Signer) (s s' : state W) (h : HostResult) :
  runnable fuel p → runHost o redact fuel p s = Ret h s' →
  ∃ evs, trace s' = trace s ++ evs ∧ protocol None evs = Some None ∧
    (1 ≤ hrConnectAttempts h ≤ Z.max 0 (opConnectRetries o) + 1)%Z.
Proof.
  intros Hr E. destruct (runHost_ran _ _ _ _ _ Hr E) as (evs & [[Ht _] _ Ha Hpr _]).
  by exists evs.
Qed.

(** C7: a host that is not reached receives nothing.  A host that is reached is first
    asked whether [sudo -n] works, if a password is configured and a step uses sudo
    ([sudo_decision]), and the answer alone decides [sudoPW]: the password is used
    exactly if [sudo -n] failed.  After that it receives only requests of steps that
    ran: boot IDs (of a step that cuts its connection), the upload of a step's
    content, and its command line.  The sudo password goes to the [sudo -S] command
    lines of sudo steps when [sudoPW] says so; every other standard input but that of
    an upload is empty. *)
Theorem runHost_requests (fuel : nat) (p : Plan Signer) (s s' : state W) (h : HostResult) :
  runnable fuel p → runHost o redact fuel p s = Ret h s' →
  ∃ evs, trace s' = trace s ++ evs ∧
    (execs evs = [] ∧ hrSteps h = map skipped (plActions p) ∨
     ∃ auth c sudoPW s1 s2 evs0 evs1 evs2,
       plAuth p = Some auth ∧ connects p s = Ret (Ok c, hrConnectAttempts h) s1 ∧
       evs = evs0 ++ evs1 ++ evs2 ∧ execs evs0 = [] ∧ sudo_decision p c s1 sudoPW s2 evs1 ∧
       ∀ rq, rq ∈ execs evs2 → ∃ i a sr, plActions p !! i = Some a ∧ hrSteps h !! i = Some sr ∧
         srStatus sr ≠ StatusSkipped ∧
         (rq = boot_request ∧ aDisconnect a = true ∨
          (∃ content, aContent a = Some content ∧ rq = upload_request a content) ∨
          ∃ tmp, rqCommand rq = Remote a tmp (aSudo a && sudoPW) ∧
            rqStdin rq = if aSudo a && sudoPW then auSudoPassword auth +:+ newline else "")).
Proof.
  intros Hr E. destruct (runHost_ran _ _ _ _ _ Hr E) as (evs & Hh). exists evs.
  split; [apply Hh|]. destruct (po_auth p (ru_plan _ _ Hr)) as [auth Hau].
  destruct (hn_outcome _ _ _ _ _ _ Hh) as [[Hs _ _ He]|Hre]; [by left|right].
  destruct Hre as (c & s1 & evs0 & evs' & -> & He0 & _ & Hc &
    [(sudoPW & s2 & s3 & cl & e1 & e2 & e3 & -> & He3 & _ & Hd & Hrun & _) _]).
  exists auth, c, sudoPW, s1, s2, evs0, e1, (e2 ++ e3). split_and!; [done..|]. intros rq Hin.
  rewrite execs_app, He3, app_nil_r in Hin.
  destruct (steps_run_in _ _ _ _ _ _ _ _ _ _ _ Hrun Hin) as (i & a & sr & rqs' & Ha & Hsr & Hns & Hq & Hrq).
  exists i, a, sr. split_and!; [done..|].
  destruct (action_requests_in _ _ _ _ _ _ Hq Hrq) as [?|[?|(tmp & ->)]]; [by left|by right; left|].
  right. right. exists tmp. unfold main_request, sudo_stdin. simpl. by rewrite Hau.
Qed.

(** A step is attempted at most [retries + 1] times; a step that
    must not run twice (reboot, disconnect, fire and forget) has no retries, so
    its command is sent at most once. *)
Theorem runHost_attempts (fuel : nat) (p : Plan Signer) (s s' : state W) (h : HostResult)
    (i : nat) (a : Action) (sr : StepResult) :
  runnable fuel p → runHost o redact fuel p s = Ret h s' →
  plActions p !! i = Some a → hrSteps h !! i = Some sr →
  (0 ≤ srAttempts sr ≤ Z.max 0 (aRetries a + 1))%Z.
Proof.
  intros Hr E Ha Hs. destruct (runHost_ran _ _ _ _ _ Hr E) as (evs & Hh).
  destruct (hn_outcome _ _ _ _ _ _ Hh) as [[H1 _ _ _]|Hre].
  - rewrite H1, list_lookup_fmap, Ha in Hs. simplify_eq/=. lia.
  - apply reached_steps in Hre as (? & ? & ? & ? & ? & ? & Hrun). by eapply steps_run_attempts.
Qed.

End spec.
