(* ===== verification/Script.v ===== *)
(** * Script: a transport whose answers are written down

    The world of a [script] lists what the next dials and commands meet; commands
    run through [Exec], so the script discharges the interface [TransportLaws]
    with the theorems of [Exec].  The runs of this file are concrete instances of
    the theorems about [Runner]. *)

From S2P Require Import Prelude GoStd Domain Build Credentials Buffer Exec Report Runner.
From S2P Require Import TransportSpec StepSpec ConnectSpec RunnerSpec.

Record script := mkScript {
  scNow : Z;
  scCancel : option Z;                 (* when the context is cancelled *)
  scDials : list (option error);       (* the next dials; then they succeed *)
  scRuns : list exec_run;              (* the next commands; then [default_run] *)
}.

Definition default_run : exec_run := mkRun None None Ready ["done"] [] Ready None.
Definition cancel_error : error := MkError KCanceled "context canceled" None.

(** One second passes. *)
Definition tick_world (w : script) : script :=
  mkScript (scNow w + second) (scCancel w) (scDials w) (scRuns w).
Definition script_ctx_err (w : script) : option error :=
  match scCancel w with
  | Some t => if (t <=? scNow w)%Z then Some cancel_error else None
  | None => None
  end.
Definition script_exec (rq : Request) (w : script) : Result * option error * script :=
  let '(res, err, _) := Exec.Exec rq (default default_run (head (scRuns w))) in
  (res, err_of_failure <$> err,
   mkScript (scNow w + second) (scCancel w) (scDials w) (tail (scRuns w))).
Definition script_wait (d : Z) (w : script) : option error * script :=
  let late := match scCancel w with Some t => (t <=? scNow w + d)%Z | None => false end in
  if late then (Some cancel_error, w)
  else (None, mkScript (scNow w + Z.max 0 d) (scCancel w) (scDials w) (scRuns w)).

#[export] Instance script_transport : Transport script unit := {
  tr_dial d t b w :=
    (default None (head (scDials w)), mkScript (scNow w + second) (scCancel w) (tail (scDials w)) (scRuns w));
  tr_exec c rq w := script_exec rq w;
  tr_alive c t w := (true, tick_world w);
  tr_keepalive c i m w := w;
  tr_stop c w := w;
  tr_close c w := w;
  tr_wait d w := script_wait d w;
  tr_now w := scNow w;
  tr_ctx_err w := script_ctx_err w;
  tr_rand n w := (0%Z, w);
}.

Lemma stream_found lim pats chunks i :
  i < length pats → is_Some (Buf.Found (stream lim pats chunks) i).
Proof.
  intros Hi. unfold Buf.Found, stream. apply lookup_lt_is_Some.
  destruct (Buf.writes_inv (Buf.NewBuffer lim (map bytes_of pats)) (map bytes_of chunks) []
    (Buf.NewBuffer_retains _ _) (Buf.NewBuffer_searched _ _)) as (_ & [_ _ Hf] & _ & Hp).
  apply Forall2_length in Hf. rewrite Hf, Hp. simpl. by rewrite length_map.
Qed.

Lemma Found_some rq x i :
  i < length (rqPatterns rq) → is_Some (Found (fst (fst (Exec.Exec rq x))) i).
Proof.
  intros Hi.
  assert (is_Some (Found emptyResult i)) as He by by eexists.
  assert (∀ code, is_Some (Found (with_exit (collect rq x) code) i)) as Hc.
  { intros code. unfold Found. simpl.
    destruct (stream_found (rqMaxOutput rq) (rqPatterns rq) (xrStdout x) i Hi) as [[] ->];
      [by eexists|]. by apply stream_found. }
  unfold Exec.Exec. destruct (race_failure _ _); [done|]. destruct (open_session x); [done|].
  destruct (race_failure _ _); [apply (Hc None)|]. destruct (exit_status _); [apply Hc|apply (Hc None)].
Qed.

Lemma Exec_law rq x :
  match snd (fst (Exec.Exec rq x)) with
  | Some f => fCategory f ∈ [CatCommandTimeout; CatCancelled; CatSessionFailed] ∧
      rExitCode (fst (fst (Exec.Exec rq x))) = None
  | None => rStarted (fst (fst (Exec.Exec rq x))) = true
  end.
Proof.
  unfold Exec.Exec. destruct (xrOpen x); simpl; try (split; [set_solver|done]).
  destruct (open_session x) as [f|] eqn:Es; simpl.
  { unfold open_session in Es. case_all; set_solver. }
  destruct (xrWait x); simpl; try (split; [set_solver|done]).
  destruct (exit_status (xrWaitErr x)) as [code|f] eqn:Ee; simpl; [done|].
  unfold exit_status in Ee. case_all; set_solver.
Qed.

Lemma script_laws : TransportLaws script unit.
Proof.
  assert (0 < second)%Z by by vm_compute.
  split; simpl; try (intros; lia).
  - intros c rq w r e w'. unfold script_exec.
    pose proof (Exec_law rq (default default_run (head (scRuns w)))) as Hl.
    pose proof (λ i, Found_some rq (default default_run (head (scRuns w))) i) as Hf.
    destruct (Exec.Exec rq _) as [[res err] tr]. intros [= -> <- _]. simpl in *.
    split; [|done]. destruct err as [f|]; [|done]. simpl. by rewrite AsFailure_err_of_failure.
  - intros c rq w. unfold script_exec. destruct (Exec.Exec rq _) as [[res err] tr]. simpl. lia.
  - intros d w. unfold script_wait. case_match; simpl; lia.
  - intros d w. unfold script_wait. case_match; simpl; [done|lia].
Qed.
#[export] Existing Instance script_laws.

(** [Exec] provides what the runner's theorems assume of the
    transport's commands ([law_exec]): its failures, as the error the runner sees,
    are timeouts, cancellations or lost sessions without an exit code; without a
    failure the command has started; every pattern can be looked up. *)
Theorem Exec_implements_transport (rq : Request) (x : exec_run) :
  let '(res, err, _) := Exec.Exec rq x in
  match err_of_failure <$> err with
  | Some e => fCategory (AsFailure e) ∈ [CatCommandTimeout; CatCancelled; CatSessionFailed] ∧
      rExitCode res = None
  | None => rStarted res = true
  end ∧
  ∀ i, i < length (rqPatterns rq) → is_Some (Found res i).
Proof.
  pose proof (Exec_law rq x) as Hl. pose proof (λ i, Found_some rq x i) as Hf.
  destruct (Exec.Exec rq x) as [[res err] tr]. simpl in *. split; [|done].
  destruct err as [f|]; [|done]. simpl. by rewrite AsFailure_err_of_failure.
Qed.

(** ** A concrete host *)

Definition example_credential : Credential := mkCredential "main" "password" "admin" "PW" "" "" "".
Definition example_target : Target :=
  mkTarget (mkEndpoint "web1" "10.0.0.7" 22 "admin" example_credential) "" [] ∅ None.
Definition example_auth : @Auth unit := mkAuth [Password "s3cret"] "s3cret" ["s3cret"].

Definition example_action (name cmd : string) (content : option string) (sudo reboot : bool) : Action :=
  mkAction name KindCommand cmd cmd content "" "" sudo 0 ["ok"] [] None second
    (if reboot then 0 else 1) 0 false false reboot reboot (if reboot then 5 * second else 0) false.

Definition example_plan : Plan unit :=
  mkPlan example_target
    [example_action "install" "apt install" None true false;
     example_action "login" "login" (Some "token") false false;
     example_action "restart" "reboot" None true true;
     example_action "test" "run tests" None false false;
     example_action "clean" "rm x" None false false] (Some example_auth) None.
Definition example_options : Options := 
  mkOptions 10 (10 * second) (15 * second) (5 * minute) 2 (2 * second) (30 * second) 1024
    "~/.ssh/known_hosts" false false false 0 0.
Definition example_redact (s : string) : string := Redactor.redact ["s3cret"] s.

Definition run_with (out : string) (status : Z) : exec_run :=
  mkRun None None Ready [out] [] Ready
    (if bool_decide (status = 0%Z) then None
     else Some (MkError (KExitError status) "exit" None)).
Definition lost_run : exec_run :=
  mkRun None None Ready [] [] Ready (Some (MkError KExitMissingError "exit missing" None)).

(** The first dial is refused; sudo asks for a password; the first step fails
    once; the host reboots; the tests fail twice with the code 3. *)
Definition example_script : script :=
  mkScript 0 None
    [Some (err_of_failure (Fail CatConnectionRefused "connection refused by 10.0.0.7:22")); None; None]
    [run_with "" 1; run_with "no" 0; run_with "ok" 0; run_with "/tmp/a" 0; run_with "ok" 0;
     run_with "boot-1" 0; lost_run; run_with "boot-2" 0; run_with "ok" 3; run_with "ok" 3].
Definition example_start : state script := mkState example_script 0 [].
Definition example_fuel : nat := wait_fuel (5 * second).

Definition example_result : out script HostResult :=
  @runHost default_runtime script unit script_transport example_options example_redact example_fuel
    example_plan example_start.
Definition example_report : HostResult :=
  match example_result with Ret h _ => h | _ => new_host example_plan StatusFailed end.
Definition example_end : state script :=
  match example_result with Ret _ s => s | _ => example_start end.

Example example_run :
  (hrStatus example_report, hrFailedStep example_report, hrReason example_report,
   map (λ r, (srName r, srStatus r, srAttempts r)) (hrSteps example_report)) =
  (StatusFailed, "test", "exit code 3, expected 0",
   [("install", StatusSuccess, 2%Z); ("login", StatusSuccess, 1%Z); ("restart", StatusSuccess, 1%Z);
    ("test", StatusFailed, 2%Z); ("clean", StatusSkipped, 0%Z)]).
Proof. by vm_compute. Qed.

Example example_commands :
  map (λ rq, (rqCommand rq, rqStdin rq)) (execs (trace example_end)) =
  [("sudo -n true", "");
   ("sudo -k -S -p '' -- sh -c 'apt install'", "s3cret" +:+ newline);
   ("sudo -k -S -p '' -- sh -c 'apt install'", "s3cret" +:+ newline);
   (UploadCommand, "token"); ("sh '/tmp/a'; rc=$?; rm -f '/tmp/a'; exit $rc", "");
   (bootIDCommand, ""); ("sudo -k -S -p '' -- sh -c 'reboot'", "s3cret" +:+ newline);
   (bootIDCommand, ""); ("run tests", ""); ("run tests", "")].
Proof. by vm_compute. Qed.

Lemma example_runnable : runnable (Signer := unit) example_options example_fuel example_plan.
Proof.
  split.
  - split; [by eexists|]. by intros [? ?].
  - by vm_compute.
  - intros a Ha Hd. simpl in Ha.
    repeat (apply elem_of_cons in Ha as [->|Ha]; [try done; by vm_compute|]). by apply elem_of_nil in Ha.
Qed.

Lemma example_returns :
  @runHost default_runtime script unit script_transport example_options example_redact example_fuel
    example_plan example_start = Ret example_report example_end.
Proof. by vm_compute. Qed.

Lemma runHost_total_witness : ∃ h s',
  example_result = Ret h s' ∧ hrHost h = "web1" ∧ length (hrSteps h) = 5.
Proof.
  destruct (@runHost_total default_runtime _ _ _ _ example_options example_redact example_fuel
    example_plan example_start example_runnable) as (h & s' & E & Hh & Hs).
  exists h, s'. split; [exact E|]. split; [exact Hh|]. by apply Forall2_length in Hs.
Defined.

Lemma runHost_status_witness :
  hrStatus example_report ≠ StatusSuccess ∧
  ∃ sr, first_failed (hrSteps example_report) = Some sr ∧ srName sr = "test".
Proof.
  destruct (@runHost_status default_runtime _ _ _ _ example_options example_redact example_fuel
    example_plan example_start example_end example_report example_runnable example_returns)
    as [_ Hf].
  assert (hrStatus example_report ≠ StatusSuccess) as Hn by by vm_compute.
  split; [exact Hn|]. destruct (Hf Hn) as (_ & _ & [(e & s1 & _ & _ & He & _)|(_ & sr & Hsr & Hname & _)]).
  - by vm_compute in He.
  - exists sr. split; [exact Hsr|]. rewrite <- Hname. by vm_compute.
Defined.

Lemma runHost_stops_witness :
  ∃ b, plActions example_plan !! 4 = Some b ∧ hrSteps example_report !! 4 = Some (skipped b).
Proof.
  destruct (@runHost_stops default_runtime _ _ _ _ example_options example_redact example_fuel
    example_plan example_start example_end example_report example_runnable example_returns)
    as [Hs _].
  destruct (hrSteps example_report !! 3) as [sr|] eqn:Esr; [|by vm_compute in Esr].
  eapply (Hs 3 4 _ sr); [done|exact Esr| |lia|by vm_compute; lia].
  vm_compute in Esr. injection Esr as <-. intros [?|[? _]]; done.
Defined.

Lemma runHost_connections_witness :
  protocol None (trace example_end) = Some None ∧ hrConnectAttempts example_report = 2%Z.
Proof.
  destruct (@runHost_connections default_runtime _ _ _ _ example_options example_redact example_fuel
    example_plan example_start example_end example_report example_runnable example_returns)
    as (evs & Ht & Hp & _).
  rewrite (app_nil_l evs : trace example_start ++ evs = evs) in Ht. rewrite Ht. split; [exact Hp|by vm_compute].
Defined.

(** The requests of the concrete run: [sudo -n true] fails, so that the sudo steps get
    the password, on the client connected at the second try. *)
Lemma runHost_requests_witness : ∃ auth c sudoPW s1 s2 evs0 evs1 evs2,
  trace example_end = evs0 ++ evs1 ++ evs2 ∧ plAuth example_plan = Some auth ∧
  sudo_decision example_plan c s1 sudoPW s2 evs1 ∧
  Forall (λ rq, rqStdin rq = "s3cret" +:+ newline →
    ∃ a tmp, aSudo a = true ∧ rqCommand rq = Remote a tmp true) (execs evs2).
Proof.
  destruct (@runHost_requests default_runtime _ _ _ _ example_options example_redact example_fuel
    example_plan example_start example_end example_report example_runnable example_returns)
    as (evs & Ht & [[He _]|(auth & c & sudoPW & s1 & s2 & evs0 & evs1 & evs2 & Ha & _ & -> & _ & Hd & Hall)]).
  { exfalso. rewrite (app_nil_l evs : trace example_start ++ evs = evs) in Ht.
    rewrite <- Ht in He. vm_compute in He. discriminate He. }
  exists auth, c, sudoPW, s1, s2, evs0, evs1, evs2. split_and!; [exact Ht|exact Ha|exact Hd|].
  apply Forall_forall. intros rq Hin Hpw.
  destruct (Hall rq Hin) as (i & a & sr & Hi & _ & _ & [[-> _]|[(content & Hc & ->)|(tmp & Hcmd & Hin')]]).
  - discriminate Hpw.
  - exfalso. simpl in Hpw. subst content. apply list_elem_of_lookup_2 in Hi. clear -Hi Hc. simpl in Hi.
    repeat (apply elem_of_cons in Hi as [->|Hi]; [discriminate Hc|]). by apply elem_of_nil in Hi.
  - destruct (aSudo a) eqn:Es, sudoPW; cbn [andb] in Hcmd, Hin'; [exists a, tmp; exact (conj Es Hcmd)|..];
      rewrite Hin' in Hpw; discriminate Hpw.
Defined.

(** A host that cannot be reached: all dials are refused, and that is its result. *)
Definition refused_script : script :=
  mkScript 0 None (replicate 9 (Some (err_of_failure (Fail CatConnectionRefused "connection refused by 10.0.0.7:22")))) [].
Example refused_run :
  match @runHost default_runtime script unit script_transport example_options example_redact 1
    example_plan (mkState refused_script 0 []) with
  | Ret h _ => hrStatus h = StatusFailed ∧ hrCategory h = Some CatConnectionRefused ∧
      hrReason h = "connection refused by 10.0.0.7:22" ∧ hrConnectAttempts h = 3%Z
  | _ => False
  end.
Proof. by vm_compute. Qed.

Lemma runHost_attempts_witness : ∃ sr,
  hrSteps example_report !! 2 = Some sr ∧ srName sr = "restart" ∧ (srAttempts sr ≤ 1)%Z.
Proof.
  destruct (hrSteps example_report !! 2) as [sr|] eqn:Esr; [|by vm_compute in Esr].
  exists sr. split; [done|]. split; [vm_compute in Esr; by injection Esr as <-|].
  apply (@runHost_attempts default_runtime _ _ _ _ example_options example_redact example_fuel
    example_plan example_start example_end example_report 2 (example_action "restart" "reboot" None true true) sr
    example_runnable example_returns); [done|exact Esr].
Defined.

Lemma runStep_correct_witness : ∃ sr f s',
  @runStep default_runtime script unit script_transport example_options example_redact 0
    example_plan (example_action "test" "run tests" None false false) false example_start = Ret (sr, f) s' ∧
  (1 ≤ srAttempts sr ≤ 2)%Z.
Proof.
  destruct (@runStep_correct default_runtime script unit script_transport script_laws example_options
    example_redact 0 example_plan (example_action "test" "run tests" None false false) false example_start)
    as (sr & f & s' & rqss & evs & E & _ & _ & Ha & H1 & H2 & _).
  - apply example_runnable.
  - done.
  - exists sr, f, s'. split; [exact E|]. rewrite Ha. simpl in H2. lia.
Defined.

Lemma waitForHost_correct_witness :
  let s := mkState (mkScript 0 None [] [run_with "boot-2" 0]) 0 [] in
  ∃ c s', @waitForHost script unit script_transport example_fuel example_plan (5 * second) "boot-1" s =
      Ret (Ok c) s' ∧
    rebooted (W := script) (Signer := unit) "boot-1" c s s'.
Proof.
  intros s. destruct (@waitForHost_correct script unit script_transport script_laws
    example_fuel example_plan (5 * second) "boot-1" s)
    as (r & s' & evs & E & _ & _ & _ & Hr).
  - apply example_runnable.
  - by vm_compute.
  - destruct r as [c|f]; [exists c, s'; exact (conj E Hr)|]. vm_compute in E. discriminate E.
Defined.

Lemma check_correct_witness :
  let res := collect (mkRequest "c" "" second 100 ["ok"]) (run_with "all ok" 0) in
  @check default_runtime (example_action "t" "c" None false false) (with_exit res (Some 0%Z)) = Some None.
Proof.
  intros res. apply check_correct.
  - intros i Hi. destruct i as [|i]; [by vm_compute; eexists|]. simpl in Hi. lia.
  - split_and!; [done| | |done].
    + intros [|i] Hi; [by vm_compute|]. simpl in Hi. lia.
    + intros i Hi. simpl in Hi. lia.
Defined.

Lemma backoff_bounds_witness : ∃ d s',
  @backoff script unit script_transport (2 * second) (30 * second) 64 example_start = Ret d s' ∧
  (0 ≤ d ≤ 30 * second)%Z.
Proof. apply (@backoff_bounds script unit script_transport script_laws). by vm_compute. Defined.

(** A negative maximum makes [rand.N] panic. *)
Example backoff_negative :
  @backoff script unit script_transport (2 * second) (- second) 1 example_start = Panic.
Proof. by vm_compute. Qed.

(** Cancelling while the boot ID is read: the host is CANCELLED, its step FAILED
    with the category of a cancellation. *)
Definition cancelled_run : exec_run := mkRun None None Ready [] [] CtxDone None.
Example boot_id_cancelled :
  let acts := [example_action "reboot" "reboot" None false true] in
  let p := mkPlan example_target acts (Some example_auth) None in
  match @runHost default_runtime script unit script_transport example_options example_redact example_fuel p
    (mkState (mkScript 0 None [] [cancelled_run]) 0 []) with
  | Ret h _ => hrStatus h = StatusCancelled ∧
      map (λ sr, (srStatus sr, srCategory sr)) (hrSteps h) = [(StatusFailed, Some CatCancelled)]
  | _ => False
  end.
Proof. by vm_compute. Qed.
