(* ===== verification/TestServer.v ===== *)
(** * TestServer: the SSH server of the tests ([internal/sshtest/server.go])

    The server accepts connections, checks passwords and keys, runs commands in a
    shell and acts out what reboots and dead links do to a host.  [session] is one
    channel; [peak_step] are the goroutines of [run] that count how many commands run
    at once.  [rig] is a network with one such server: a second transport for the
    runner, which discharges [TransportLaws], and whose host comes back after
    [rco-test-reboot] as [Comeback] asks.

    The shell, the files of the server, random numbers, the SSH keys and the
    payloads of requests are parameters. *)

From S2P Require Import Prelude GoStd Domain Build Credentials Classify Buffer Exec Dial Duration Report Runner.
From S2P Require Import TransportSpec StepSpec ConnectSpec RunnerSpec Comeback Script.

Definition RefusedAddr : string := "127.0.0.1:1".

(** ** The server *)

(** How the shell of a command ended: [cmd.Run] without an error, with the
    [ExitCode] of an [ExitError] (negative after a signal), or with another error. *)
Inductive shell_end := ShellOk | ShellExit (code : Z) | ShellFailed.

Record shell_result := mkShell {
  shStdout : list string; shStderr : list string; shEnd : shell_end; shTime : Z;
}.

Section server.
(** The directory of a server, keys; [files] read and write it. *)
Context {Dir Key : Type}.
Context (read_file : Dir → string → option string) (write_file : Dir → string → string → Dir).
(** [ssh.Marshal] of a key, [ssh.MarshalAuthorizedKey], the command of an exec
    request's payload (empty if it is malformed), the host and port of a direct-tcpip
    channel's. *)
Context (marshal marshal_authorized : Key → string) (unmarshal_command : string → string)
  (unmarshal_forward : string → option (string * Z)).
(** [/bin/sh -c command] in a directory, with an environment and a stdin. *)
Context (shell : Dir → list string → string → string → shell_result * Dir).

Record ServerOptions := mkServerOptions {
  soUser : string;
  soPassword : string;
  soAuthorizedKey : option Key;
  soSudoPassword : string;
  soAllowForward : bool;
  soRejectExec : bool;
  soHangExec : bool;
}.

Record Server := mkServer {
  svAddr : string;
  svPort : string;
  svDir : Dir;
  svBinDir : string;
  svHome : string;                 (* the path of Dir *)
  svHostKey : Key;
  svECDSAKey : Key;
  svOpts : ServerOptions;
  svConns : Z;
  svSessions : Z;
  svCommands : list string;
  svRunning : Z;
  svDownUntil : Z;
  svPeak : Z;
}.

Definition set_dir (d : Dir) (s : Server) : Server :=
  mkServer (svAddr s) (svPort s) d (svBinDir s) (svHome s) (svHostKey s) (svECDSAKey s) (svOpts s)
    (svConns s) (svSessions s) (svCommands s) (svRunning s) (svDownUntil s) (svPeak s).
Definition set_counts (conns sessions running peak : Z) (s : Server) : Server :=
  mkServer (svAddr s) (svPort s) (svDir s) (svBinDir s) (svHome s) (svHostKey s) (svECDSAKey s) (svOpts s)
    conns sessions (svCommands s) running (svDownUntil s) peak.
Definition add_command (c : string) (s : Server) : Server :=
  mkServer (svAddr s) (svPort s) (svDir s) (svBinDir s) (svHome s) (svHostKey s) (svECDSAKey s) (svOpts s)
    (svConns s) (svSessions s) (svCommands s ++ [c]) (svRunning s) (svDownUntil s) (svPeak s).
Definition set_down (t : Z) (s : Server) : Server :=
  mkServer (svAddr s) (svPort s) (svDir s) (svBinDir s) (svHome s) (svHostKey s) (svECDSAKey s) (svOpts s)
    (svConns s) (svSessions s) (svCommands s) (svRunning s) t (svPeak s).

(** [BootID] and [newBootID], with the 8 random bytes. *)
Definition BootID (s : Server) : string := default "" (read_file (svDir s) "boot_id").
Definition boot_line (id : list N) : string := str_join "" (map (hex_digits 2) id) +:+ newline.
Definition newBootID (id : list N) (s : Server) : Server :=
  set_dir (write_file (svDir s) "boot_id" (boot_line id)) s.

(** [Start], on the port the listener got. *)
Definition Start (o : ServerOptions) (port home bin : string) (d : Dir) (key ecdsa : Key)
    (id : list N) : Server :=
  let o := if bool_decide (soUser o = "")
    then mkServerOptions "deploy" (soPassword o) (soAuthorizedKey o) (soSudoPassword o)
           (soAllowForward o) (soRejectExec o) (soHangExec o)
    else o in
  newBootID id (mkServer ("127.0.0.1:" +:+ port) port d bin home key ecdsa o 0 0 [] 0 0 0).

(** The callbacks of [ssh.ServerConfig]; without one the method is not offered. *)
Definition password_callback (o : ServerOptions) : option (string → string → bool) :=
  if bool_decide (soPassword o = "") then None
  else Some (λ user pw, bool_decide (user = soUser o) && bool_decide (pw = soPassword o)).
Definition public_key_callback (o : ServerOptions) : option (string → Key → bool) :=
  match soAuthorizedKey o with
  | None => None
  | Some k => Some (λ user key,
      bool_decide (user = soUser o) && bool_decide (marshal key = marshal k))
  end.

(** The accept loop: a connection is dropped while the server is down. *)
Definition accepts (t : Z) (s : Server) : bool := negb (t <? svDownUntil s)%Z.

Definition Commands (s : Server) : list string := svCommands s.
Definition PeakConcurrent (s : Server) : Z := svPeak s.
Definition KnownHostsLineFor (s : Server) (k : Key) : string :=
  "[127.0.0.1]:" +:+ svPort s +:+ " " +:+ marshal_authorized k.
Definition KnownHostsLine (s : Server) : string := KnownHostsLineFor s (svHostKey s).
Definition WriteKnownHosts (servers : list Server) : string :=
  str_join "" (map KnownHostsLine servers).

(** The answer to a global request. *)
Definition reply_global (want_reply frozen : bool) : option bool :=
  if want_reply && negb frozen then Some false else None.

(** What [serve] does with a channel. *)
Inductive channel := Session | Forward | Rejected.
Definition serve_channel (type : string) : channel :=
  if bool_decide (type = "session") then Session
  else if bool_decide (type = "direct-tcpip") then Forward
  else Rejected.

(** [forward]; [dial] is [net.Dial]. *)
Inductive forwarded (Conn : Type) :=
| Prohibited (msg : string)
| ConnectionFailed (msg : string)
| Forwarded (target : Conn).
Arguments Prohibited {Conn}.
Arguments ConnectionFailed {Conn}.
Arguments Forwarded {Conn}.
Definition forward {Conn} (s : Server) (extra : string) (dial : string → res string Conn) : forwarded Conn :=
  match (if soAllowForward (svOpts s) then unmarshal_forward extra else None) with
  | None => Prohibited "forwarding disabled"
  | Some (host, port) =>
      match dial (join_host_port host (itoa port)) with
      | Err e => ConnectionFailed e
      | Ok c => Forwarded c
      end
  end.

(** ** Sessions *)

Record request := mkReq { rqType : string; rqPayload : string }.

(** How a session ends: the client stops sending requests, the connection goes
    silent or dies, or the exit status is sent after the output. *)
Inductive session_end :=
| NoMoreRequests
| Silent
| Died
| ExitStatus (r : shell_result) (code : Z).

(** The end of [run]: the code. *)
Definition run_code (e : shell_end) : Z :=
  match e with
  | ShellExit code => if (0 <=? code)%Z then code else 137%Z
  | ShellFailed => 127%Z
  | ShellOk => 0%Z
  end.

Definition environment (s : Server) : list string :=
  ["PATH=" +:+ svBinDir s +:+ ":/usr/bin:/bin:/usr/sbin:/sbin"; "HOME=" +:+ svHome s;
   "SUDO_TEST_PASSWORD=" +:+ soSudoPassword (svOpts s)].

(** [run], without other commands at the same time: [run_enter] are the counters
    at its start. *)
Definition run_enter (s : Server) : Server :=
  let n := (svRunning s + 1)%Z in
  set_counts (svConns s) (svSessions s) n (Z.max n (svPeak s)) s.
Definition run_leave (s : Server) : Server :=
  set_counts (svConns s) (svSessions s) (svRunning s - 1) (svPeak s) s.
Definition run (s : Server) (command stdin : string) : shell_result * Z * Server :=
  let s := run_enter s in
  let '(r, d) := shell (svDir s) (environment s) command stdin in
  (r, run_code (shEnd r), run_leave (set_dir d s)).

(** [session]: the replies to the requests, how it ends, the server after it.
    [t] is the time and [id] are the random bytes of a reboot. *)
Fixpoint session (t : Z) (id : list N) (stdin : string) (reqs : list request) (s : Server)
    : list bool * session_end * Server :=
  match reqs with
  | [] => ([], NoMoreRequests, s)
  | r :: reqs =>
      if bool_decide (rqType r = "exec") && soHangExec (svOpts s) then session t id stdin reqs s
      else if negb (bool_decide (rqType r = "exec")) || soRejectExec (svOpts s) then
        let '(rs, e, s) := session t id stdin reqs s in (false :: rs, e, s)
      else
        let command := unmarshal_command (rqPayload r) in
        let s := add_command command s in
        if bool_decide (command = "rco-test-freeze") then ([true], Silent, s)
        else if bool_decide (command = "rco-test-drop") then ([true], Died, s)
        else match strip_prefix "rco-test-reboot " command with
        | Some d =>
            let down := default 0%Z (ParseDuration d) in
            ([true], Died, set_down (t + down) (newBootID id s))
        | None =>
            let '(res, code, s) := run s command stdin in
            ([true], ExitStatus res (code mod 2 ^ 32), s)
        end
  end.

(** ** fakeSudo *)

Inductive sudo_mode := NoMode | StdinMode | NeverPrompt.
Inductive sudo_result := SudoExec (argv : list string) (stdin : string) | SudoError (msg : string).

(** The loop over the flags; [None]: there is nothing to shift. *)
Fixpoint sudo_flags (mode : sudo_mode) (args : list string) : option (sudo_mode * list string) :=
  match args with
  | [] => Some (mode, [])
  | a :: rest =>
      if bool_decide (a = "-S") then sudo_flags StdinMode rest
      else if bool_decide (a = "-n") then sudo_flags NeverPrompt rest
      else if bool_decide (a = "-k") then sudo_flags mode rest
      else if bool_decide (a = "-p") then
        match rest with _ :: rest => sudo_flags mode rest | [] => None end
      else if bool_decide (a = "--") then Some (mode, rest)
      else Some (mode, args)
  end.

(** [read -r]: the first line and what follows it. *)
Definition read_line (stdin : string) : string * string := default (stdin, "") (cut_char "010" stdin).

(** The script, with [SUDO_TEST_PASSWORD]. *)
Definition fakeSudo (password : string) (args : list string) (stdin : string) : option sudo_result :=
  '(mode, argv) ← sudo_flags NoMode args;
  if bool_decide (password = "") then Some (SudoExec argv stdin)
  else match mode with
  | StdinMode =>
      let '(pw, rest) := read_line stdin in
      if bool_decide (pw = password) then Some (SudoExec argv rest)
      else Some (SudoError "sudo: incorrect password attempt")
  | _ => Some (SudoError "sudo: a password is required")
  end.

(** ** A network with one server *)

(** A connection: open, silent, and when a keepalive would close it. *)
Record conn := mkConn { cnOpen : bool; cnFrozen : bool; cnWatched : option Z }.
Record rig := mkRig { rgServer : Server; rgNow : Z; rgConns : list conn }.

(** The client's side of the payloads, the keys of its signers, the random bytes
    of the reboot of the n-th command, and the time an operation takes. *)
Context {Signer : Type} (public : Signer → Key).
Context (marshal_command marshal_forward : string → string) (random : nat → list N) (lag : Z).

(** A method the server accepts. *)
Definition accepted (o : ServerOptions) (user : string) (m : @AuthMethod Signer) : bool :=
  match m with
  | Password pw => match password_callback o with Some f => f user pw | None => false end
  | KeyboardInteractive _ => false
  | PublicKeys k => match public_key_callback o with Some f => f user (public k) | None => false end
  end.

Definition dropped_error : error := MkError KPlain "ssh: handshake failed: EOF" (Some (MkError KEOF "EOF" None)).
Definition denied_error : error := MkError KPlain
  "ssh: handshake failed: ssh: unable to authenticate, no supported methods remain" None.
Definition refused_error : error :=
  MkError (KNetError false) "dial tcp: connection refused" (Some (MkError (KErrno ECONNREFUSED) "connection refused" None)).
Definition missing_error : error := MkError KExitMissingError "wait: remote command exited without exit status" None.
Definition rejected_error (msg : string) : error := MkError KOpenChannelError ("ssh: rejected: " +:+ msg) None.

Definition pass (d : Z) (w : rig) : rig := mkRig (rgServer w) (rgNow w + Z.max 0 d) (rgConns w).

(** TCP, the accept loop, the handshake. *)
Definition rig_connect (t : Runner.Hop Signer) (w : rig) : option error * rig :=
  let w := pass lag w in
  let addr := Runner.hopAddr _ t in
  let s := rgServer w in
  if negb (bool_decide (addr = svAddr s)) then
    (Some (err_of_failure (ClassifyDial refused_error addr)), w)
  else if negb (accepts (rgNow w) s) then
    (Some (err_of_failure (ClassifyHandshake dropped_error addr false)), w)
  else if negb (existsb (accepted (svOpts s) (Runner.hopUser _ t)) (Runner.hopMethods _ t)) then
    (Some (err_of_failure (ClassifyHandshake denied_error addr false)), w)
  else (None, mkRig (set_counts (svConns s + 1) (svSessions s) (svRunning s) (svPeak s) s) (rgNow w) (rgConns w)).

Definition rig_hop (t : Runner.Hop Signer) (b : option (Runner.Hop Signer)) (w : rig) : option error * rig :=
  match b with
  | None => rig_connect t w
  | Some b =>
      match rig_connect b w with
      | (Some e, w) => (Some (prefix_failure e "bastion"), w)
      | (None, w) =>
          let addr := Runner.hopAddr _ t in
          let reached a := if bool_decide (a = svAddr (rgServer w)) then Ok tt else Err "connection refused" in
          let failed msg := err_of_failure (ClassifyDial (rejected_error msg) addr) in
          match forward (rgServer w) (marshal_forward addr) reached with
          | Prohibited msg => (Some (failed ("administratively prohibited (" +:+ msg +:+ ")")), w)
          | ConnectionFailed msg => (Some (failed ("connect failed (" +:+ msg +:+ ")")), w)
          | Forwarded _ => rig_connect t w
          end
      end
  end.
Definition rig_dial (t : Runner.Hop Signer) (b : option (Runner.Hop Signer)) (w : rig) : option error * rig :=
  match rig_hop t b w with
  | (Some e, w) => (Some e, w)
  | (None, w) => (None, mkRig (rgServer w) (rgNow w) (rgConns w ++ [mkConn true false None]))
  end.

Definition closed_conn : conn := mkConn false false None.
Definition status_error (code : Z) : option error :=
  if bool_decide (code = 0%Z) then None else Some (MkError (KExitError code) "exit status" None).

(** What a client sees of a session of its own, how long it takes and what becomes
    of the connection. *)
Definition exec_outcome (rq : Request) (c : conn) (x : list bool * session_end) : exec_run * Z * conn :=
  match x with
  | ([], _) => (mkRun None None TimerFired [] [] Ready None, rqTimeout rq, closed_conn)
  | (false :: _, _) => (mkRun None (Some "ssh: command failed") Ready [] [] Ready None, 0%Z, c)
  | (_, Silent) =>
      match cnWatched c with
      | Some d =>
          if (d <=? rqTimeout rq)%Z then (mkRun None None Ready [] [] Ready (Some missing_error), d, closed_conn)
          else (mkRun None None Ready [] [] TimerFired None, rqTimeout rq, mkConn true true (Some d))
      | None => (mkRun None None Ready [] [] TimerFired None, rqTimeout rq, mkConn true true None)
      end
  | (_, ExitStatus r code) =>
      if (rqTimeout rq <? shTime r)%Z then
        (mkRun None None Ready (shStdout r) (shStderr r) TimerFired None, rqTimeout rq, c)
      else (mkRun None None Ready (shStdout r) (shStderr r) Ready (status_error code), shTime r, c)
  | _ => (mkRun None None Ready [] [] Ready (Some missing_error), 0%Z, closed_conn)
  end.

Definition rig_session (i : nat) (rq : Request) (w : rig) : exec_run * rig :=
  match rgConns w !! i with
  | Some c =>
      if cnOpen c then
        if cnFrozen c then
          (mkRun None None TimerFired [] [] Ready None,
           pass (rqTimeout rq) (mkRig (rgServer w) (rgNow w) (<[i := closed_conn]> (rgConns w))))
        else
          let s := rgServer w in
          let s := set_counts (svConns s) (svSessions s + 1) (svRunning s) (svPeak s) s in
          let '(rs, e, s) := session (rgNow w) (random (length (svCommands s))) (rqStdin rq)
            [mkReq "exec" (marshal_command (rqCommand rq))] s in
          let '(x, d, c) := exec_outcome rq c (rs, e) in
          (x, pass d (mkRig s (rgNow w) (<[i := c]> (rgConns w))))
      else (mkRun (Some "EOF") None Ready [] [] Ready None, w)
  | None => (mkRun (Some "EOF") None Ready [] [] Ready None, w)
  end.
Definition rig_exec (i : nat) (rq : Request) (w : rig) : Result * option error * rig :=
  let '(x, w) := rig_session i rq (pass lag w) in
  let '(r, f, _) := Exec.Exec rq x in
  (r, err_of_failure <$> f, w).

(** A keepalive is answered by an open connection that is not silent. *)
Definition rig_alive (i : nat) (timeout : Z) (w : rig) : bool * rig :=
  match rgConns w !! i with
  | Some c =>
      if cnOpen c then
        match reply_global true (cnFrozen c) with
        | Some _ => (true, pass lag w)
        | None => (false, pass timeout w)
        end
      else (false, w)
  | None => (false, w)
  end.
Definition watch (d : option Z) (c : conn) : conn := mkConn (cnOpen c) (cnFrozen c) d.
Definition on_conn (i : nat) (f : conn → conn) (w : rig) : rig :=
  mkRig (rgServer w) (rgNow w) (alter f i (rgConns w)).

#[local] Instance rig_transport : Transport rig Signer := {
  tr_dial _ t b w := rig_dial t b w;
  tr_exec i rq w := rig_exec i rq w;
  tr_alive i t w := rig_alive i t w;
  tr_keepalive i interval misses w := on_conn i (watch (Some (interval * (misses + 1))%Z)) w;
  tr_stop i w := on_conn i (watch None) w;
  tr_close i w := pass lag (on_conn i (λ _, closed_conn) w);
  tr_wait d w := (None, pass d w);
  tr_now w := rgNow w;
  tr_ctx_err _ := None;
  tr_rand _ w := (0%Z, w);
}.

Lemma rig_connect_now t w : (rgNow w ≤ rgNow (rig_connect t w).2)%Z.
Proof. unfold rig_connect. repeat case_match; simpl; lia. Qed.

Lemma rig_dial_now t b w : (rgNow w ≤ rgNow (rig_dial t b w).2)%Z.
Proof.
  assert (rgNow w ≤ rgNow (rig_hop t b w).2)%Z as H.
  { unfold rig_hop. destruct b as [b|]; [|apply rig_connect_now].
    pose proof (rig_connect_now b w) as Hb. destruct (rig_connect b w) as [[e|] w1]; simpl in *; [done|].
    destruct (forward _ _ _); simpl; [done..|]. pose proof (rig_connect_now t w1). lia. }
  unfold rig_dial. by destruct (rig_hop t b w) as [[e|] w1].
Qed.

Lemma rig_session_now i rq w : (rgNow w ≤ rgNow (rig_session i rq w).2)%Z.
Proof.
  unfold rig_session. destruct (rgConns w !! i) as [c|]; [|done]. destruct (cnOpen c); [|done].
  destruct (cnFrozen c); [simpl; lia|]. destruct (session _ _ _ _ _) as [[rs e] s].
  destruct (exec_outcome rq c (rs, e)) as [[x d] c']. simpl. lia.
Qed.

(** The network of the test server is a transport the runner's theorems apply to. *)
Lemma rig_laws : TransportLaws rig Signer.
Proof.
  split; simpl; try (intros; simpl; lia).
  - intros i rq w r e w'. unfold rig_exec. destruct (rig_session i rq (pass lag w)) as [x w1].
    pose proof (Exec_law rq x) as Hl. pose proof (λ i, Found_some rq x i) as Hf.
    destruct (Exec.Exec rq x) as [[res err] tr]. intros [= -> <- _]. simpl in *.
    split; [|done]. destruct err as [f|]; [|done]. simpl. by rewrite AsFailure_err_of_failure.
  - intros _ t b w. apply rig_dial_now.
  - intros i rq w. unfold rig_exec. pose proof (rig_session_now i rq (pass lag w)) as H.
    destruct (rig_session i rq (pass lag w)) as [x w1]. destruct (Exec.Exec rq x) as [[res err] tr].
    simpl in *. lia.
  - intros i t w. unfold rig_alive. repeat case_match; simpl; lia.
Qed.

(** ** A host that comes back *)

Section back.
Context (p : Plan Signer) (a : @Auth Signer) (d : Dir) (boot oldBoot : string) (up : Z).
Context (Hauth : plAuth p = Some a) (Hdirect : tBastion (plTarget p) = None).
Context (Hmarshal : ∀ c, unmarshal_command (marshal_command c) = c) (Hlag : (0 ≤ lag)%Z).
(** The server's shell prints the boot ID of the directory [d]. *)
Context (Hshell : ∀ env, shell d env bootIDCommand "" = (mkShell [boot] [] ShellOk 0, d)).
Context (Hlen : length (bytes_of boot) ≤ 4096).
Context (Hnew : trim_space (trim_right_newlines boot) ≠ "" ∧ trim_space (trim_right_newlines boot) ≠ oldBoot).

(** The server of the target, after [n] connections. *)
Record rig_back (n : nat) (w : rig) : Prop := {
  rb_conns : length (rgConns w) = n;
  rb_addr : svAddr (rgServer w) = Addr (tEndpoint (plTarget p));
  rb_auth : existsb (accepted (svOpts (rgServer w)) (eUsername (tEndpoint (plTarget p)))) (auMethods a) = true;
  rb_reject : soRejectExec (svOpts (rgServer w)) = false;
  rb_hang : soHangExec (svOpts (rgServer w)) = false;
  rb_down : svDownUntil (rgServer w) = up;
  rb_dir : svDir (rgServer w) = d;
}.
Definition rig_live (c : nat) (w : rig) : Prop := rgConns w !! c = Some (mkConn true false None).

Lemma rig_back_pass n t w : rig_back n w → rig_back n (pass t w).
Proof. by intros []. Qed.
Lemma rig_back_conns n l w : length l = n → rig_back n w → rig_back n (mkRig (rgServer w) (rgNow w) l).
Proof. intros Hl []. by split. Qed.

Lemma rig_back_dial n t b w : rig_back n w → plan_hops p t b → let '(e, w') := rig_dial t b w in
  (rgNow w' ≤ rgNow w + lag)%Z ∧
  match e with
  | Some e => rig_back n w' ∧ (rgNow w < up)%Z ∧ final_category (fCategory (AsFailure e)) = false
  | None => rig_back (S n) w' ∧ rig_live n w'
  end.
Proof.
  intros Hw [(a' & Ha & ->) Hb]. rewrite Hdirect in Hb. subst b. rewrite Hauth in Ha. injection Ha as <-.
  destruct Hw as [Hc Haddr Hau Hr Hh Hdown Hd]. unfold rig_dial, rig_hop, rig_connect, accepts. simpl.
  rewrite Haddr, Hau, bool_decide_eq_true_2 by done. simpl. rewrite Hdown.
  destruct (Z.ltb_spec (rgNow w + Z.max 0 lag) up); simpl.
  - split; [lia|]. split; [by split|]. split; [lia|done].
  - split; [lia|]. unfold rig_live. simpl. split.
    + split; simpl; try done. rewrite length_app, Hc. simpl. lia.
    + rewrite lookup_app_r, Hc, Nat.sub_diag by lia. done.
Qed.

(** What the boot ID request meets on a connection that has just been made. *)
Lemma rig_boot_session n c w : rig_back n w → rig_live c w →
  ∃ w', rig_session c boot_request w = (mkRun None None Ready [boot] [] Ready None, w') ∧
    rig_back n w' ∧ rgNow w' = rgNow w.
Proof.
  intros [Hc Haddr Hau Hr Hh Hdown Hd] HL. unfold rig_session. rewrite HL. simpl.
  rewrite Hh, Hr. simpl. rewrite Hmarshal. unfold run. simpl. rewrite Hd, Hshell. simpl.
  eexists. split; [done|]. split; [|simpl; lia]. split; simpl; try done. by rewrite length_insert.
Qed.

Lemma boot_printed : new_boot oldBoot (with_exit (collect boot_request
  (mkRun None None Ready [boot] [] Ready None)) (Some 0%Z)) None.
Proof.
  split; [done|]. split; [done|].
  assert (trim_right_newlines boot = rStdout (with_exit (collect boot_request
    (mkRun None None Ready [boot] [] Ready None)) (Some 0%Z))) as <-; [|exact Hnew].
  unfold collect, stream, with_exit. cbn [rStdout xrStdout]. f_equal.
  destruct (Buf.writes_spec 4096 [] [bytes_of boot]) as (Ho & _).
  cbn [map rqPatterns rqMaxOutput boot_request] in *. rewrite Ho. simpl concat.
  rewrite app_nil_r. unfold Buf.shown. rewrite bool_decide_eq_true_2 by done.
  symmetry. apply String.string_of_list_ascii_of_string.
Qed.

Lemma rig_comes_back :
  comes_back p rig_back rig_live oldBoot up lag.
Proof.
  split; simpl.
  - done.
  - done.
  - intros n t w Hw. split; [done|]. split; [by apply rig_back_pass|lia].
  - intros n _ t b w. apply rig_back_dial.
  - intros n c w Hw HL. unfold rig_exec.
    destruct (rig_boot_session n c (pass lag w)) as (w' & -> & Hw' & Hn); [by apply rig_back_pass|done|].
    destruct (Exec.Exec _ _) as [[r f] tr] eqn:E. injection E as <- <- _.
    split; [done|]. split; [simpl in Hn; lia|]. intros _. apply boot_printed.
  - intros n c w Hw. split; [|lia]. apply rig_back_pass, rig_back_conns; [|done].
    rewrite length_alter. by apply rb_conns.
Qed.
End back.
End server.

(** ** How many commands run at once

    The counters of [run], by many goroutines: adding to [running], loading [peak]
    and the compare-and-swap are one step each.  [pkHigh] records the highest value
    [running] has had. *)

Inductive counting :=
| NotCounted
| Added (n : Z)              (* about to load the peak *)
| Loaded (n p : Z)           (* it is [p] and lower: about to swap *)
| Running
| Left.

Record peaks := mkPeaks { pkRunning : Z; pkPeak : Z; pkHigh : Z; pkCommands : list counting }.

Inductive peak_step : peaks → peaks → Prop :=
| pk_add i r p h l : l !! i = Some NotCounted →
    peak_step (mkPeaks r p h l) (mkPeaks (r + 1) p (Z.max h (r + 1)) (<[i := Added (r + 1)%Z]> l))
| pk_load_break i n r p h l : l !! i = Some (Added n) → (n ≤ p)%Z →
    peak_step (mkPeaks r p h l) (mkPeaks r p h (<[i := Running]> l))
| pk_load i n r p h l : l !! i = Some (Added n) → (p < n)%Z →
    peak_step (mkPeaks r p h l) (mkPeaks r p h (<[i := Loaded n p]> l))
| pk_swap i n r p h l : l !! i = Some (Loaded n p) →
    peak_step (mkPeaks r p h l) (mkPeaks r n h (<[i := Running]> l))
| pk_swap_failed i n q r p h l : l !! i = Some (Loaded n q) → q ≠ p →
    peak_step (mkPeaks r p h l) (mkPeaks r p h (<[i := Added n]> l))
| pk_leave i r p h l : l !! i = Some Running →
    peak_step (mkPeaks r p h l) (mkPeaks (r - 1) p h (<[i := Left]> l)).

Definition peak_start (n : nat) : peaks := mkPeaks 0 0 0 (replicate n NotCounted).
Definition peak_reachable (n : nat) : peaks → Prop := rtc peak_step (peak_start n).

(** Between [Add(1)] and [Add(-1)], and in the loop of the peak. *)
Definition counted (c : counting) : bool := match c with NotCounted | Left => false | _ => true end.
Definition pending (c : counting) : option Z :=
  match c with Added n | Loaded n _ => Some n | _ => None end.

Record peak_inv (s : peaks) : Prop := {
  pi_running : pkRunning s = Z.of_nat (length (filter counted (pkCommands s)));
  pi_peak : (0 ≤ pkPeak s ≤ pkHigh s)%Z;
  pi_loaded i n q : pkCommands s !! i = Some (Loaded n q) → (q ≤ pkPeak s ∧ q < n)%Z;
  pi_pending i c n : pkCommands s !! i = Some c → pending c = Some n → (n ≤ pkHigh s)%Z;
  pi_now : (pkRunning s ≤ pkHigh s)%Z;
  pi_high : pkHigh s = pkPeak s ∨
    ∃ i c, pkCommands s !! i = Some c ∧ pending c = Some (pkHigh s);
}.

Lemma filter_insert_count (l : list counting) i c c' :
  l !! i = Some c →
  (length (filter counted (<[i := c']> l)) + (if counted c then 1 else 0) =
   length (filter counted l) + (if counted c' then 1 else 0))%nat.
Proof.
  revert i. induction l as [|x l IH]; intros [|i] Hi; simplify_eq/=.
  - rewrite !filter_cons. destruct (counted c), (counted c'); simpl; lia.
  - rewrite !filter_cons. specialize (IH i Hi). destruct (counted x); simpl; lia.
Qed.

(** What the invariant needs of the goroutine that moves from [c] to [c']: its own
    part, and that the highest value is still accounted for. *)
Lemma peak_inv_move r r' p p' h h' l i c c' :
  peak_inv (mkPeaks r p h l) → l !! i = Some c →
  (r' = r + (if counted c' then 1 else 0) - (if counted c then 1 else 0))%Z →
  (p ≤ p' ≤ h')%Z → (h ≤ h')%Z → (r' ≤ h')%Z →
  (∀ n q, c' = Loaded n q → (q ≤ p' ∧ q < n)%Z) →
  (∀ n, pending c' = Some n → (n ≤ h')%Z) →
  (h' = p' ∨ pending c' = Some h' ∨ h' = h ∧ h ≠ p ∧ pending c ≠ Some h) →
  peak_inv (mkPeaks r' p' h' (<[i := c']> l)).
Proof.
  intros [Hr Hp Hl Hpe Hn Hh] Hi Hr' Hp' Hh' Hn' Hl' Hpe' Hhigh. simpl in *.
  pose proof (filter_insert_count l i c c' Hi) as Hcount.
  assert (i < length l) as Hlt by by eapply lookup_lt_Some.
  split; simpl.
  - destruct (counted c), (counted c'); lia.
  - lia.
  - intros j n q [(-> & E & _)|[_ Hj]]%list_lookup_insert_Some; [by apply Hl'|].
    specialize (Hl _ _ _ Hj). lia.
  - intros j d n [(-> & <- & _)|[_ Hj]]%list_lookup_insert_Some Hd; [by apply Hpe'|].
    specialize (Hpe _ _ _ Hj Hd). lia.
  - done.
  - destruct Hhigh as [E|[E|(-> & Hne & Hc)]]; [by left| |]; right.
    + exists i, c'. by rewrite list_lookup_insert_eq.
    + destruct Hh as [?|(j & d & Hj & Hd)]; [done|]. exists j, d.
      rewrite list_lookup_insert_ne; [done|]. intros <-. congruence.
Qed.

(** The three ways in which the highest value is accounted for. *)
Ltac highest h p n :=
  destruct (Z.eq_dec h p), (Z.eq_dec h n);
  first [left; lia | right; left; congruence | right; right; split_and!; congruence].

Lemma peak_inv_step s s' : peak_step s s' → peak_inv s → peak_inv s'.
Proof.
  intros Hst Hinv. destruct Hst as [i r p h l Hi|i n r p h l Hi Hle|i n r p h l Hi Hlt|i n r p h l Hi|
    i n q r p h l Hi Hne|i r p h l Hi]; pose proof Hinv as [_ Hp Hl Hpe Hn Hh]; simpl in *;
    try (specialize (Hpe _ _ n Hi eq_refl)); try (specialize (Hl _ _ _ Hi));
    (eapply peak_inv_move; [exact Hinv|exact Hi|..]); simpl; try lia; try (intros; simplify_eq; lia).
  - destruct (Z.le_gt_cases (r + 1) h); [rewrite Z.max_l by lia; highest h p h|].
    rewrite Z.max_r by lia. auto.
  - highest h p n.
  - highest h p n.
  - highest h p n.
  - highest h p n.
  - highest h p r.
Qed.

Lemma peak_inv_reachable n s : peak_reachable n s → peak_inv s.
Proof.
  assert (peak_inv (peak_start n)) as H0.
  { unfold peak_start. split; simpl; try lia; try done.
    - assert (filter counted (replicate n NotCounted) = []) as -> by (by induction n). done.
    - intros i m q Hi. by apply lookup_replicate in Hi as [? _].
    - intros i c m Hi. by apply lookup_replicate in Hi as [-> _]. }
  unfold peak_reachable. generalize dependent (peak_start n). intros s0 H0 Hr.
  induction Hr as [|s1 s2 s3 Hst _ IH]; [done|]. by apply IH, (peak_inv_step s1).
Qed.

(** [PeakConcurrent] is the highest number of commands that ran at the same
    time: in every interleaving of the goroutines the counter is never too high, and
    once no goroutine is in the loop of the compare-and-swap it is exact.  A failed
    swap means that another goroutine raised the peak, so the loop makes progress. *)
Theorem peak_exact (n : nat) (s : peaks) :
  peak_reachable n s →
  pkRunning s = Z.of_nat (length (filter counted (pkCommands s))) ∧
  (0 ≤ pkPeak s ≤ pkHigh s)%Z ∧
  ((∀ c, c ∈ pkCommands s → pending c = None) → pkPeak s = pkHigh s) ∧
  ∀ i m q, pkCommands s !! i = Some (Loaded m q) → q ≠ pkPeak s → (q < pkPeak s)%Z.
Proof.
  intros [Hr Hp Hl _ _ Hh]%peak_inv_reachable. split_and!; [done|lia|lia| |].
  - intros Hc. destruct Hh as [?|(i & c & Hi & Hpe)]; [done|].
    apply list_elem_of_lookup_2 in Hi. by rewrite Hc in Hpe.
  - intros i m q Hi Hq. specialize (Hl _ _ _ Hi). lia.
Qed.

(** Without interleaving the goroutines do what [run_enter] does. *)
Lemma run_enter_steps r p h l i : l !! i = Some NotCounted →
  rtc peak_step (mkPeaks r p h l)
    (mkPeaks (r + 1) (Z.max (r + 1) p) (Z.max h (r + 1)) (<[i := Running]> l)).
Proof.
  intros Hi. assert (i < length l) as Hlt by by eapply lookup_lt_Some.
  assert (∀ c, <[i := c]> l !! i = Some c) as Hc by (intros; by apply list_lookup_insert_eq).
  eapply rtc_l; [by apply pk_add|].
  destruct (Z.le_gt_cases (r + 1) p).
  - rewrite (Z.max_r (r + 1) p) by lia. eapply rtc_l; [eapply pk_load_break; [apply Hc|lia]|].
    by rewrite list_insert_insert_eq.
  - rewrite (Z.max_l (r + 1) p) by lia. eapply rtc_l; [eapply pk_load; [apply Hc|lia]|].
    rewrite list_insert_insert_eq. eapply rtc_l; [eapply pk_swap, Hc|]. by rewrite list_insert_insert_eq.
Qed.

(** ** The scripted sudo and the command lines of [Build] *)

(** With the password that [attempt] sends as the first line, the scripted sudo runs
    exactly the command that [Remote] quoted, on the rest of stdin; without a
    password it runs what [sudo -n] is given, if none is needed. *)
Lemma fakeSudo_Remote (a : Action) (tmp secret rest : string) :
  aSudo a = true → secret ≠ "" → has_char "010" secret = false →
  (∃ args after, sh_command (Remote a tmp true) = Some ("sudo" :: args, after) ∧
    fakeSudo secret args (secret +:+ newline +:+ rest) =
      Some (SudoExec ["sh"; "-c"; inner_command a tmp] rest)) ∧
  ∃ args after, sh_command (Remote a tmp false) = Some ("sudo" :: args, after) ∧
    fakeSudo "" args rest = Some (SudoExec ["sh"; "-c"; inner_command a tmp] rest) ∧
    fakeSudo secret args rest = Some (SudoError "sudo: a password is required").
Proof.
  intros Hs Hne Hnl. rewrite !sh_command_Remote by done.
  split; do 2 eexists; (split; [reflexivity|]); unfold fakeSudo; simpl.
  - rewrite bool_decide_eq_false_2 by done. unfold read_line.
    change (newline +:+ rest) with (String "010" rest). rewrite cut_char_app by done. simpl.
    by rewrite bool_decide_eq_true_2.
  - by rewrite bool_decide_eq_false_2.
Qed.

(** ** A concrete server *)

Definition lab_dir : Type := string.                  (* what boot_id holds *)
Definition lab_read (d : lab_dir) (name : string) : option string :=
  if bool_decide (name = "boot_id") then Some d else None.
Definition lab_write (d : lab_dir) (name s : string) : lab_dir :=
  if bool_decide (name = "boot_id") then s else d.
Definition lab_shell (d : lab_dir) (env : list string) (command stdin : string) : shell_result * lab_dir :=
  if bool_decide (command = bootIDCommand) then (mkShell [d] [] ShellOk 0, d)
  else if bool_decide (command = "false") then (mkShell [] [] (ShellExit 1) millisecond, d)
  else (mkShell ["ok"] [] ShellOk millisecond, d).
Definition lab_id (n : nat) : list N := replicate 8 (N.of_nat n + 160)%N.
Definition lab_options : @ServerOptions string := mkServerOptions "" "s3cret" None "" false false false.
Definition lab_server : Server :=
  Start lab_write lab_options "2222" "/tmp/home" "/tmp/bin" "" "ed25519 AAAA" "ecdsa BBBB" (lab_id 0).
Definition lab_rig : rig := mkRig lab_server 0 [].

#[local] Instance lab_transport : Transport (@rig lab_dir string) unit :=
  rig_transport lab_write id id (λ _, None) lab_shell (λ _, "") id id lab_id (10 * millisecond).
#[local] Instance lab_laws : TransportLaws (@rig lab_dir string) unit :=
  rig_laws lab_write id id (λ _, None) lab_shell (λ _, "") id id lab_id (10 * millisecond).

Definition lab_target : Target :=
  mkTarget (mkEndpoint "web1" "127.0.0.1" 2222 "deploy" example_credential) "" [] ∅ None.
Definition lab_step (name cmd : string) (reboot : bool) : Action :=
  mkAction name KindCommand cmd cmd None "" "" false 0 [] [] None minute 0 0 false false reboot reboot
    (if reboot then minute else 0) false.
Definition lab_reboot : Action := lab_step "reboot" "rco-test-reboot 12s" true.
Definition lab_plan : Plan unit :=
  mkPlan lab_target [lab_step "before" "uname" false; lab_reboot; lab_step "after" "uname" false]
    (Some example_auth) None.

Example lab_server_lines :
  (KnownHostsLine id lab_server, BootID lab_read lab_server, svAddr lab_server) =
  ("[127.0.0.1]:2222 ed25519 AAAA", "a0a0a0a0a0a0a0a0" +:+ newline, "127.0.0.1:2222").
Proof. by vm_compute. Qed.

(** The host is rebooted and found again after two turns of the wait; four
    connections were tried. *)
Example lab_host :
  match @runHost default_runtime _ unit lab_transport example_options id 20 lab_plan (mkState lab_rig 0 []) with
  | Ret h s =>
      map (λ r, (srName r, srStatus r, srNote r)) (hrSteps h) =
        [("before", StatusSuccess, "");
         ("reboot", StatusSuccess, "host rebooted (new boot ID) and was back after 15s");
         ("after", StatusSuccess, "")] ∧
      Commands (rgServer (world s)) =
        ["uname"; bootIDCommand; "rco-test-reboot 12s"; bootIDCommand; "uname"] ∧
      svConns (rgServer (world s)) = 2%Z ∧ PeakConcurrent (rgServer (world s)) = 1%Z
  | _ => False
  end.
Proof. by vm_compute. Qed.

(** Steps that cut the connection: it dies at once, or goes silent until the
    keepalives of the step close it. *)
Definition lab_cut (cmd : string) : Action :=
  mkAction "restart" KindCommand cmd cmd None "" "" false 0 [] [] None minute 0 0 false false false true minute false.
Definition lab_cut_host (cmd : string) : option (Status * string * Z) :=
  match @runHost default_runtime _ unit lab_transport example_options id 20
    (mkPlan lab_target [lab_cut cmd] (Some example_auth) None) (mkState lab_rig 0 []) with
  | Ret h s => Some (hrStatus h, default "" (srNote <$> head (hrSteps h)), svConns (rgServer (world s)))
  | _ => None
  end.
Example lab_cuts :
  map lab_cut_host ["rco-test-drop"; "rco-test-freeze"; "uname"] =
  [Some (StatusSuccess, "connection closed as expected; host back after 5s", 2%Z);
   Some (StatusSuccess, "connection closed as expected; host back after 5s", 2%Z);
   Some (StatusSuccess, "", 1%Z)].
Proof. by vm_compute. Qed.

(** A wrong password is a failed authentication, and is not tried again. *)
Example lab_denied :
  match @runHost default_runtime _ unit lab_transport example_options id 20
    (mkPlan lab_target [] (Some (mkAuth [Password "guess"; KeyboardInteractive "s3cret"] "" [])) None)
    (mkState lab_rig 0 []) with
  | Ret h s => hrCategory h = Some CatAuthFailed ∧ hrConnectAttempts h = 1%Z ∧ svConns (rgServer (world s)) = 0%Z
  | _ => False
  end.
Proof. by vm_compute. Qed.

(** The steps before the wait, one after the other. *)
Definition after {A} (m : M (@rig lab_dir string) A) (s : state rig) : state rig :=
  match m s with Ret _ s => s | _ => s end.
Definition lab_connected : state rig := after (dial lab_plan None) (mkState lab_rig 0 []).
Definition lab_read_id : state rig := after (bootID 0) lab_connected.
Definition lab_run_step : M rig (StepResult * option Failure) :=
  keepalive_start 0 keepaliveInterval 3 ;!
  runStep (H := default_runtime) example_options id 0 lab_plan lab_reboot false.
Definition lab_gone : state rig := after lab_run_step lab_read_id.
Definition lab_result : StepResult * option Failure :=
  match lab_run_step lab_read_id with Ret x _ => x | _ => (new_step lab_reboot StatusFailed, None) end.
Definition lab_up : Z := svDownUntil (rgServer (world lab_gone)).

Lemma reboot_succeeds_witness : ∃ sr nc s',
  runDisconnecting (H := default_runtime) example_options id 20 0 lab_plan lab_reboot false lab_connected =
    Ret (sr, None, Some nc) s' ∧
  srStatus sr = StatusSuccess ∧ has_prefix "host rebooted (new boot ID)" (srNote sr) = true.
Proof.
  destruct (reboot_succeeds (H := default_runtime) example_options id lab_plan 20 0 lab_reboot false
    lab_connected lab_read_id lab_gone "a0a0a0a0a0a0a0a0" lab_result.1 lab_result.2
    (rig_back id (λ _, "") lab_plan example_auth (boot_line (lab_id 1)) lab_up) rig_live lab_up (10 * millisecond))
    as (sr & nc & s' & E & Hs & Hn & _).
  - split; [by eexists|]. by intros [? ?].
  - vm_compute. lia.
  - eapply (rig_comes_back _ _ _ _ _ _ _ _ _ _ _ _ (boot_line (lab_id 1))); try done. vm_compute. lia.
  - by vm_compute.
  - by vm_compute.
  - right. by vm_compute.
  - split; by vm_compute.
  - by vm_compute.
  - exists sr, nc, s'. split; [exact E|]. split; [exact Hs|exact Hn].
Defined.

(** Three commands at once: two add themselves before either swaps; the swap of the
    first fails, and it finds the peak high enough. *)
Lemma peak_exact_witness : ∃ s, peak_reachable 3 s ∧ pkPeak s = 2%Z ∧ pkHigh s = 2%Z.
Proof.
  assert (peak_reachable 3 (mkPeaks 2 2 2 [Running; Running; NotCounted])) as H.
  { do 2 (eapply rtc_l; [eapply pk_add with (i := 0) + eapply pk_add with (i := 1); done|]).
    eapply rtc_l; [by eapply pk_load with (i := 0)|]. eapply rtc_l; [by eapply pk_load with (i := 1)|].
    eapply rtc_l; [by eapply pk_swap with (i := 1)|].
    eapply rtc_l; [by eapply pk_swap_failed with (i := 0)|].
    eapply rtc_l; [by eapply pk_load_break with (i := 0)|]. apply rtc_refl. }
  exists (mkPeaks 2 2 2 [Running; Running; NotCounted]). split; [exact H|].
  destruct (peak_exact 3 _ H) as (_ & _ & He & _). split; [|done]. rewrite He; [done|].
  intros c Hc. simpl in Hc. repeat (apply elem_of_cons in Hc as [->|Hc]; [done|]). by apply elem_of_nil in Hc.
Defined.
