(* ===== verification/Network.v ===== *)
(** * Network: a host's run over the dialer and the sessions

    The transport of a real run: connections are made by [Dial] (through the host
    keys and, for a host behind a bastion, the pool) and commands run through
    [Exec].  The rest of the world is [session_ops]: what a session does with a
    command, the clock, the context.  A client is the number of a connection in the
    list of those that this host has made.

    [net_transport_laws] discharges the interface of [TransportSpec]; and since
    [runHost] reaches hosts only through it, [runHost_trusted] can say to whom the
    commands of a plan go. *)

From S2P Require Import Prelude GoStd Domain Build Credentials Dial Exec Report Runner Keeps.
From S2P Require Import TransportSpec StepSpec ConnectSpec RunnerSpec Script.

Section network.
Context {W Conn Client Addr Key Signer : Type}.
Context (ops : @net_ops W Conn Client Addr Key (@AuthMethod Signer)).
Context (pool : option (@pool_ops W Client Addr Key)) (h : HostKeys).

Record session_ops := {
  se_run : W → Client → Request → exec_run * W;
  se_alive : Client → Z → W → bool * W;
  se_keepalive : Client → Z → Z → W → W;
  se_stop : Client → W → W;
  se_wait : Z → W → option error * W;
  se_now : W → Z;
  se_ctx_err : W → option error;
  se_rand : Z → W → Z * W;
  se_deadline : option Z → W → W;      (* context.WithDeadline, or the run's context *)
}.
Context (se : session_ops).

Record net := mkNet {
  nWorld : W;
  nCache : @cache Addr Key;
  nClients : list (@client Client);
}.

(** An operation on a connection. *)
Definition on_client {A} (c : nat) (absent : A) (f : client → W → A * W) (n : net) : A * net :=
  match nClients n !! c with
  | Some cl => let '(a, w) := f cl (nWorld n) in (a, mkNet w (nCache n) (nClients n))
  | None => (absent, n)
  end.
Definition on_world {A} (f : W → A * W) (n : net) : A * net :=
  let '(a, w) := f (nWorld n) in (a, mkNet w (nCache n) (nClients n)).

Definition net_hop (t : Runner.Hop Signer) : Dial.Hop :=
  Dial.mkHop (Runner.hopAddr _ t) (Runner.hopUser _ t) (Runner.hopMethods _ t).

Definition net_dial (deadline : option Z) (t : Runner.Hop Signer) (b : option (Runner.Hop Signer))
    (n : net) : option error * net :=
  match Dial.Dial ops pool h (nCache n) (se_deadline se deadline (nWorld n)) (net_hop t) (net_hop <$> b) with
  | (Ok cl, c, w) => (None, mkNet (se_deadline se None w) c (nClients n ++ [cl]))
  | (Err e, c, w) => (Some e, mkNet (se_deadline se None w) c (nClients n))
  end.

Definition session_lost : error := err_of_failure (Fail CatSessionFailed "no connection").
Definition net_exec (c : nat) (rq : Request) (n : net) : Result * option error * net :=
  on_client c (emptyResult, Some session_lost) (λ cl w,
    let '(x, w) := se_run se w (clConn cl) rq in
    let '(res, err, _) := Exec.Exec rq x in ((res, err_of_failure <$> err), w)) n.

#[local] Instance net_transport : Transport net Signer := {
  tr_dial := net_dial;
  tr_exec := net_exec;
  tr_alive c t n := on_client c false (λ cl w, se_alive se (clConn cl) t w) n;
  tr_keepalive c i m n := (on_client c tt (λ cl w, (tt, se_keepalive se (clConn cl) i m w)) n).2;
  tr_stop c n := (on_client c tt (λ cl w, (tt, se_stop se (clConn cl) w)) n).2;
  tr_close c n := (on_client c tt (λ cl w, (tt, Dial.Close ops cl w)) n).2;
  tr_wait d n := on_world (se_wait se d) n;
  tr_now n := se_now se (nWorld n);
  tr_ctx_err n := se_ctx_err se (nWorld n);
  tr_rand k n := on_world (se_rand se k) n;
}.

(** ** What moves the world *)

(** A relation between states of known_hosts' cache and the world that every
    operation moves along: the clock that does not go back, or an invariant that
    is kept. *)
Definition place : Type := @cache Addr Key * W.

Record dial_moves (R : place → place → Prop) : Prop := {
  mv_refl x : R x x;
  mv_trans x y z : R x y → R y z → R x z;
  mv_mkdir c w path : AcceptNew h = true → R (c, w) (c, (mkdir_all ops w path).2);
  mv_write c w path : AcceptNew h = true → R (c, w) (c, (write_empty ops w path).2);
  mv_append c w path line : AcceptNew h = true → R (c, w) (c, (append_line ops w path line).2);
  mv_forget c w : R (c, w) (mkCache (modTime c) None, w);
  mv_load c w mt k : knownhosts_new ops w (Path h) = Ok k → R (c, w) (mkCache mt (Some k), w);
  mv_tcp c w a : R (c, w) (c, (dial_tcp ops w a).2);
  mv_through c w b a : R (c, w) (c, (dial_through ops w b a).2);
  mv_conn c w conn : R (c, w) (c, close_conn ops conn w);
  mv_client c w cl : R (c, w) (c, close_client ops cl w);
  (** the pool waits for the dial of another caller, or dials itself *)
  mv_get q key f c w r c' w' : pool = Some q → pool_get q key f c w = (r, c', w') →
    (∀ c w, R (c, w) ((f c w).1.2, (f c w).2)) → R (c, w) (c', w');
  mv_broken q key b e c w : pool = Some q → R (c, w) (c, pool_broken q key b e w);
}.

Section moves.
Context (R : place → place → Prop) (HR : dial_moves R).

Lemma moves_step c w x y : R (c, w) x → R x y → R (c, w) y.
Proof. apply (mv_trans _ HR). Qed.

Lemma load_moves c w r c' w' : load ops h c w = (r, c', w') → R (c, w) (c', w').
Proof.
  unfold load. set (stat := match os_stat ops w (Path h) with Ok _ => _ | Err _ => _ end).
  assert (R (c, w) (c, stat.2)) as Hs.
  { unfold stat. destruct (os_stat ops w (Path h)) as [mt|[t|t]]; try apply (mv_refl _ HR).
    destruct (AcceptNew h) eqn:Ea; [|apply (mv_refl _ HR)].
    pose proof (mv_mkdir _ HR c w (path_dir (Path h)) Ea) as H1.
    destruct (mkdir_all _ _ _) as [[e|] w1]; [exact H1|].
    pose proof (mv_write _ HR c w1 (Path h) Ea) as H2.
    destruct (write_empty _ _ _) as [[e|] w2]; eapply moves_step; eassumption. }
  clearbody stat. destruct stat as [[msg|[mt|e]] w1]; simpl in Hs.
  - by intros [= _ <- <-].
  - assert (∀ r c' w', match knownhosts_new ops w1 (Path h) with
      | Ok k => (Ok k, mkCache mt (Some k), w1)
      | Err e => (unknown ("cannot load known_hosts " +:+ Path h +:+ ": " +:+ e), c, w1)
      end = (r, c', w') → R (c, w) (c', w')) as Hload.
    { intros r0 c0 w0. destruct (knownhosts_new ops w1 (Path h)) as [k|e] eqn:Ek; intros [= _ <- <-]; [|done].
      eapply moves_step; [exact Hs|]. by apply (mv_load _ HR). }
    destruct (cb c); [|apply Hload]. destruct (mt =? _)%Z; [|apply Hload]. by intros [= _ <- <-].
  - by intros [= _ <- <-].
Qed.

Lemma Callback_moves c w r c' w' : Callback ops h c w = (r, c', w') → R (c, w) (c', w').
Proof.
  unfold Callback. destruct (Insecure h); [|apply load_moves]. intros [= _ <- <-]. apply (mv_refl _ HR).
Qed.

Lemma verify_moves strict c w host remote key r c' w' :
  verify ops h strict c w host remote key = (r, c', w') → R (c, w) (c', w').
Proof.
  unfold verify. destruct (AcceptNew h) eqn:Ea; simpl; [|intros [= _ <- <-]; apply (mv_refl _ HR)].
  destruct (Insecure h); [intros [= _ <- <-]; apply (mv_refl _ HR)|].
  destruct (unknown_host _); simpl; [|intros [= _ <- <-]; apply (mv_refl _ HR)].
  unfold add. intros E. eapply moves_step; [apply (mv_forget _ HR)|].
  destruct (load ops h (mkCache (modTime c) None) w) as [[[k|f] c1] w1] eqn:El; apply load_moves in El.
  2: { by injection E as _ <- <-. }
  eapply moves_step; [exact El|]. destruct (unknown_host _); simpl in E.
  2: { injection E as _ <- <-. apply (mv_refl _ HR). }
  destruct (open_append _ _ _); [injection E as _ <- <-; apply (mv_refl _ HR)|].
  pose proof (mv_append _ HR c1 w1 (Path h) (known_line ops host key) Ea) as H1.
  destruct (append_line _ _ _ _) as [[e|] w2]; injection E as _ <- <-; [exact H1|].
  eapply moves_step; [exact H1|apply (mv_forget _ HR)].
Qed.

Lemma handshake_moves c w conn t r c' w' :
  handshake ops h c w conn t = (r, c', w') → R (c, w) (c', w').
Proof.
  unfold handshake. destruct (Callback ops h c w) as [[[strict|f] c1] w1] eqn:Ec; apply Callback_moves in Ec.
  2: { intros [= _ <- <-]. eapply moves_step; [exact Ec|apply (mv_conn _ HR)]. }
  intros E. eapply moves_step; [exact Ec|].
  destruct (new_client_conn ops h strict c1 w1 conn _ _) as [[x c2] w2] eqn:En.
  assert (R (c1, w1) (c2, w2)) as H2.
  { unfold new_client_conn in En. destruct (server_of _ _ _ _ _) as [e|remote key rest].
    { injection En as _ <- <-. apply (mv_refl _ HR). }
    destruct (verify ops h strict c1 w1 _ remote key) as [[[e|] c3] w3] eqn:Ev; apply verify_moves in Ev;
      by injection En as _ <- <-. }
  eapply moves_step; [exact H2|]. destruct x as [cl|e].
  { injection E as _ <- <-. apply (mv_refl _ HR). }
  destruct (handshake_timers _ _ _). injection E as _ <- <-. apply (mv_conn _ HR).
Qed.

Lemma dialTCP_moves c w a r w' : dialTCP ops w a = (r, w') → R (c, w) (c, w').
Proof.
  unfold dialTCP. pose proof (mv_tcp _ HR c w a) as Ht.
  by destruct (dial_tcp ops w a) as [[conn|e] w1]; intros [= _ <-].
Qed.

Lemma dialHop_moves c w t r c' w' : dialHop ops h c w t = (r, c', w') → R (c, w) (c', w').
Proof.
  unfold dialHop. destruct (dialTCP ops w (Dial.hopAddr t)) as [[conn|e] w1] eqn:Ed;
    apply (dialTCP_moves c) in Ed.
  - intros Hh. eapply moves_step; [exact Ed|]. by eapply handshake_moves.
  - by intros [= _ <- <-].
Qed.

(** A dial moves along [R]; a connection it returns was made by a handshake with
    the target, at a place it reached. *)
Definition dialed (c : @cache Addr Key) (w : W) (t : Dial.Hop) (x : res error client * @cache Addr Key * W) : Prop :=
  R (c, w) (x.1.2, x.2) ∧
  ∀ cl, x.1.1 = Ok cl → ∃ conn c1 w1, R (c, w) (c1, w1) ∧
    handshake ops h c1 w1 conn t = (Ok (clConn cl), x.1.2, x.2).

Lemma dialed_later c w c1 w1 t x : R (c, w) (c1, w1) → dialed c1 w1 t x → dialed c w t x.
Proof.
  intros H1 [H2 Hc]. split; [by eapply moves_step|]. intros cl Hcl.
  destruct (Hc cl Hcl) as (conn & c2 & w2 & Hm & Hh). exists conn, c2, w2. split; [by eapply moves_step|done].
Qed.
Lemma dialed_failed c w c1 w1 t e : R (c, w) (c1, w1) → dialed c w t (Err e, c1, w1).
Proof. by split. Qed.

Lemma dial_target_dialed c w conn t owned : dialed c w t (dial_target ops h c w conn t owned).
Proof.
  unfold dial_target. destruct (handshake ops h c w conn t) as [[[cl|e] c1] w1] eqn:Eh.
  - split; simpl; [by eapply handshake_moves|]. intros cl' [= <-]. exists conn, c, w.
    split; [apply (mv_refl _ HR)|exact Eh].
  - apply handshake_moves in Eh. apply dialed_failed. destruct owned as [b|]; [|done].
    eapply moves_step; [exact Eh|apply (mv_client _ HR)].
Qed.

Lemma Dial_dialed c w t b : dialed c w t (Dial.Dial ops pool h c w t b).
Proof.
  unfold Dial.Dial. destruct b as [b|].
  - assert (∀ c w, R (c, w) ((dialHop ops h c w b).1.2, (dialHop ops h c w b).2)) as Hhop.
    { intros c0 w0. destruct (dialHop ops h c0 w0 b) as [[r c1] w1] eqn:E. by eapply dialHop_moves. }
    set (get := match pool with Some _ => _ | None => _ end).
    assert (R (c, w) (get.1.2, get.2)) as Hget.
    { unfold get. destruct pool as [q|] eqn:Ep; [|apply Hhop].
      destruct (pool_get q _ _ c w) as [[r c1] w1] eqn:Eg. eapply (mv_get _ HR); [exact Ep|exact Eg|].
      apply Hhop. }
    destruct get as [[[bc|e] c1] w1]; simpl in Hget; [|by apply dialed_failed].
    apply (dialed_later _ _ _ _ _ _ Hget). pose proof (mv_through _ HR c1 w1 bc (Dial.hopAddr t)) as Ht.
    destruct (dial_through ops w1 bc _) as [[conn|e] w2]; simpl in Ht.
    + apply (dialed_later _ _ _ _ _ _ Ht), dial_target_dialed.
    + apply dialed_failed. eapply moves_step; [exact Ht|].
      destruct pool as [q|] eqn:Ep; [by apply (mv_broken _ HR)|apply (mv_client _ HR)].
  - destruct (dialTCP ops w _) as [[conn|e] w1] eqn:Ed; apply (dialTCP_moves c) in Ed.
    + apply (dialed_later _ _ _ _ _ _ Ed), dial_target_dialed.
    + by apply dialed_failed.
Qed.

Lemma Close_moves c w cl : R (c, w) (c, Dial.Close ops cl w).
Proof.
  unfold Dial.Close. pose proof (mv_client _ HR c w (clConn cl)) as H1. destruct (clBastion cl); [|done].
  eapply moves_step; [exact H1|apply (mv_client _ HR)].
Qed.
End moves.

(** ** The interface *)

(** Time does not go back, a timer that fires has waited, and random numbers are
    in their range. *)
Record session_laws : Prop := {
  sl_dial : dial_moves (λ x y, (se_now se x.2 ≤ se_now se y.2)%Z);
  sl_run w cl rq : (se_now se w ≤ se_now se (se_run se w cl rq).2)%Z;
  sl_alive cl t w : (se_now se w ≤ se_now se (se_alive se cl t w).2)%Z;
  sl_keepalive cl i m w : (se_now se w ≤ se_now se (se_keepalive se cl i m w))%Z;
  sl_stop cl w : (se_now se w ≤ se_now se (se_stop se cl w))%Z;
  sl_wait_now d w : (se_now se w ≤ se_now se (se_wait se d w).2)%Z;
  sl_wait d w : (se_wait se d w).1 = None → (se_now se w + d ≤ se_now se (se_wait se d w).2)%Z;
  sl_rand_now n w : (se_now se w ≤ se_now se (se_rand se n w).2)%Z;
  sl_rand n w : (0 < n)%Z → (0 ≤ (se_rand se n w).1 < n)%Z;
  sl_deadline d w : (se_now se w ≤ se_now se (se_deadline se d w))%Z;
}.

Lemma on_client_now {A} c (absent : A) f n :
  (∀ cl w, (se_now se w ≤ se_now se (f cl w).2)%Z) →
  (se_now se (nWorld n) ≤ se_now se (nWorld (on_client c absent f n).2))%Z.
Proof.
  intros Hf. unfold on_client. destruct (nClients n !! c) as [cl|]; [|done].
  specialize (Hf cl (nWorld n)). by destruct (f cl (nWorld n)).
Qed.
Lemma on_world_now {A} (f : W → A * W) n :
  (∀ w, (se_now se w ≤ se_now se (f w).2)%Z) →
  (se_now se (nWorld n) ≤ se_now se (nWorld (on_world f n).2))%Z.
Proof. intros Hf. unfold on_world. specialize (Hf (nWorld n)). by destruct (f (nWorld n)). Qed.

Lemma net_dial_now d t b n : session_laws → (se_now se (nWorld n) ≤ se_now se (nWorld (net_dial d t b n).2))%Z.
Proof.
  intros Hl. unfold net_dial. pose proof (sl_deadline Hl d (nWorld n)) as H1.
  pose proof (proj1 (Dial_dialed _ (sl_dial Hl) (nCache n) (se_deadline se d (nWorld n)) (net_hop t) (net_hop <$> b))) as H2.
  destruct (Dial.Dial _ _ _ _ _ _ _) as [[[cl|e] c] w]; simpl in *; pose proof (sl_deadline Hl None w); lia.
Qed.

Lemma net_exec_law c rq n r e n' :
  net_exec c rq n = (r, e, n') →
  match e with
  | Some e => fCategory (AsFailure e) ∈ [CatCommandTimeout; CatCancelled; CatSessionFailed] ∧ rExitCode r = None
  | None => rStarted r = true
  end ∧ (∀ i, i < length (rqPatterns rq) → is_Some (Found r i)).
Proof.
  unfold net_exec, on_client. destruct (nClients n !! c) as [cl|].
  - destruct (se_run se (nWorld n) (clConn cl) rq) as [x w]. pose proof (Exec_law rq x) as Hx.
    pose proof (Found_some rq x) as Hf. destruct (Exec.Exec rq x) as [[res err] fate].
    intros [= <- <- _]. simpl in *. split; [|by apply Hf]. destruct err as [f|]; [|done]. simpl.
    by rewrite AsFailure_err_of_failure.
  - intros [= <- <- _]. split; [|by intros; eexists]. unfold session_lost.
    rewrite AsFailure_err_of_failure. simpl. split; [set_solver|done].
Qed.

Lemma net_laws : session_laws → TransportLaws net Signer.
Proof.
  intros Hl. split; simpl.
  - intros c rq n r e n' Hx. by eapply net_exec_law.
  - intros n w Hn. unfold on_world. pose proof (sl_rand Hl n (nWorld w) Hn) as Hr.
    by destruct (se_rand se n (nWorld w)).
  - intros d t b n. by apply net_dial_now.
  - intros c rq n. apply on_client_now. intros cl w. pose proof (sl_run Hl w (clConn cl) rq) as Hr.
    destruct (se_run se w (clConn cl) rq) as [x w1]. by destruct (Exec.Exec rq x) as [[res err] fate].
  - intros c t n. apply on_client_now. intros cl w. apply (sl_alive Hl).
  - intros c i m n. apply on_client_now. intros cl w. apply (sl_keepalive Hl).
  - intros c n. apply on_client_now. intros cl w. apply (sl_stop Hl).
  - intros c n. apply on_client_now. intros cl w.
    apply (Close_moves _ (sl_dial Hl) (nCache n)).
  - intros k n. apply on_world_now. intros w. apply (sl_rand_now Hl).
  - intros d n. apply on_world_now. intros w. apply (sl_wait_now Hl).
  - intros d n Hn. unfold on_world in *. pose proof (sl_wait Hl d (nWorld n)) as Hw.
    destruct (se_wait se d (nWorld n)) as [e w]. by apply Hw.
Qed.

(** C32: the dialer, the sessions and the clock together are a transport
    as the theorems about hosts need it: whatever a server does, errors of
    commands are timeouts, cancellations or lost sessions, and time does not go
    back, whether a connection is dialed directly, through a bastion of its own or
    through the pool. *)
Theorem net_transport_laws : session_laws → TransportLaws net Signer.
Proof. apply net_laws. Qed.

(** ** To whom the commands go *)

(** A policy: the keys that known_hosts may accept in the worlds of a run. *)
Context (good : string → Addr → Key → Prop) (Inv : W → Prop).
Definition sound (k : strict_callback) : Prop := ∀ host remote key, k host remote key = None → good host remote key.
Definition safe (x : place) : Prop := Inv x.2 ∧ ∀ k, cb x.1 = Some k → sound k.

(** known_hosts accepts only good keys, and what a run does keeps it so. *)
Record policy : Prop := {
  pl_known w k : Inv w → knownhosts_new ops w (Path h) = Ok k → sound k;
  pl_dial w : Inv w → ∀ a, Inv (dial_tcp ops w a).2;
  pl_through w b a : Inv w → Inv (dial_through ops w b a).2;
  pl_conn w conn : Inv w → Inv (close_conn ops conn w);
  pl_client w cl : Inv w → Inv (close_client ops cl w);
  pl_get q key f c w r c' w' : pool = Some q → pool_get q key f c w = (r, c', w') →
    (∀ c w, safe (c, w) → safe ((f c w).1.2, (f c w).2)) → safe (c, w) → safe (c', w');
  pl_broken q key b e w : pool = Some q → Inv w → Inv (pool_broken q key b e w);
  pl_run w cl rq : Inv w → Inv (se_run se w cl rq).2;
  pl_alive cl t w : Inv w → Inv (se_alive se cl t w).2;
  pl_keepalive cl i m w : Inv w → Inv (se_keepalive se cl i m w);
  pl_stop cl w : Inv w → Inv (se_stop se cl w);
  pl_wait d w : Inv w → Inv (se_wait se d w).2;
  pl_rand n w : Inv w → Inv (se_rand se n w).2;
  pl_deadline d w : Inv w → Inv (se_deadline se d w);
}.

Definition stays_safe (x y : place) : Prop := safe x → safe y.

(** The policy can be read along every dial, if new keys are not accepted. *)
Lemma policy_moves :
  policy → AcceptNew h = false → dial_moves stays_safe.
Proof.
  intros Hp Ha. split; unfold stays_safe, safe; simpl.
  - done.
  - by intros x y z H1 H2 Hx%H1%H2.
  - by rewrite Ha.
  - by rewrite Ha.
  - by rewrite Ha.
  - intros c w [Hi _]. by split.
  - intros c w mt k Hk [Hi _]. split; [done|]. intros k' [= <-]. by apply (pl_known Hp w).
  - intros c w a [Hi Hc]. split; [by apply (pl_dial Hp)|done].
  - intros c w b a [Hi Hc]. split; [by apply (pl_through Hp)|done].
  - intros c w conn [Hi Hc]. split; [by apply (pl_conn Hp)|done].
  - intros c w cl [Hi Hc]. split; [by apply (pl_client Hp)|done].
  - intros q key f c w r c' w' Hq Hg Hf Hs. by apply (pl_get Hp _ _ _ _ _ _ _ _ Hq Hg).
  - intros q key b e c w Hq [Hi Hc]. split; [by apply (pl_broken Hp)|done].
Qed.

(** A client that a handshake with hop [t] made: the server presented a good key
    for the hop's address, and was logged into with the hop's user and methods. *)
Definition authentic (t : Dial.Hop) (cl : Client) : Prop :=
  ∃ w conn cfg remote key, Inv w ∧
    server_of ops w conn (Dial.hopAddr t) cfg = Presents remote key (Ok cl) ∧
    cfgUser cfg = Dial.hopUser t ∧ cfgAuth cfg = Dial.hopMethods t ∧
    good (Dial.hopAddr t) remote key.

Lemma load_cached c w k c' w' : load ops h c w = (Ok k, c', w') → cb c' = Some k.
Proof.
  unfold load. destruct (match os_stat ops w (Path h) with Ok _ => _ | Err _ => _ end) as [[msg|[mt|e]] w1]; [done| |done].
  assert (∀ k c' w', match knownhosts_new ops w1 (Path h) with
    | Ok k => (Ok k, mkCache mt (Some k), w1)
    | Err e => (unknown ("cannot load known_hosts " +:+ Path h +:+ ": " +:+ e), c, w1)
    end = (Ok k, c', w') → cb c' = Some k) as Hload.
  { intros k0 c0 w0. by destruct (knownhosts_new ops w1 (Path h)) as [k1|e]; intros [= -> <- _]. }
  destruct (cb c) as [k0|] eqn:Ec; [|apply Hload]. destruct (mt =? _)%Z; [|apply Hload].
  by intros [= -> <- _].
Qed.

Context (Hpol : policy) (Hstrict : Insecure h = false) (Hold : AcceptNew h = false).

Lemma handshake_authentic c w conn t cl c' w' :
  safe (c, w) → handshake ops h c w conn t = (Ok cl, c', w') → authentic t cl.
Proof.
  intros Hs E. destruct (handshake_checked _ _ _ _ _ _ _ _ _ E)
    as (strict & c0 & w0 & cfg & remote & key & Hc & Hsv & Hu & Ha & _ & Ht).
  unfold Callback in Hc. rewrite Hstrict in Hc.
  pose proof (load_moves _ (policy_moves Hpol Hold) _ _ _ _ _ Hc Hs) as [Hi Hk].
  specialize (Hk strict (load_cached _ _ _ _ _ Hc)). exists w0, conn, cfg, remote, key.
  split_and!; [done..|]. apply Hk. destruct Ht as [Hx|[Hx|[Hx _]]]; congruence.
Qed.

(** *** The invariant of a host's run *)

Context `{GoRuntime} (o : Options) (redact : string → string) (p : Plan Signer).

(** A connection to the target: its address, its user, its methods. *)
Definition plan_client (cl : client) : Prop :=
  ∃ a, plAuth p = Some a ∧
    authentic (Dial.mkHop (Domain.Addr (tEndpoint (plTarget p))) (eUsername (tEndpoint (plTarget p))) (auMethods a))
      (clConn cl).

Record net_inv (s : state net) : Prop := {
  ni_safe : safe (nCache (world s), nWorld (world s));
  ni_clients : clients s = length (nClients (world s));
  ni_made cl : cl ∈ nClients (world s) → plan_client cl;
  ni_dialed c : EDial (Some c) ∈ trace s → c < clients s;
}.

(** An operation that leaves the connections and the cache alone. *)
Lemma net_inv_effect s n ev :
  net_inv s → Inv (nWorld n) → nCache n = nCache (world s) → nClients n = nClients (world s) →
  (∀ c, EDial (Some c) ∉ ev) → net_inv (mkState n (clients s) (trace s ++ ev)).
Proof.
  intros [[Hi Hc] Hl Hm Hd] Hn Ec El Hev. split; simpl; rewrite ?Ec, ?El; try done.
  intros c [Hx|Hx]%elem_of_app; [by apply Hd|]. by destruct (Hev c).
Qed.

Lemma on_client_inv {A} c (absent : A) f ev s :
  (∀ cl w, Inv w → Inv (f cl w).2) → (∀ c, EDial (Some c) ∉ ev) → net_inv s →
  net_inv (mkState (on_client c absent f (world s)).2 (clients s) (trace s ++ ev)).
Proof.
  intros Hf Hev Hs. pose proof (proj1 (ni_safe _ Hs)) as Hi. simpl in Hi. unfold on_client.
  destruct (nClients (world s) !! c) as [cl|]; [|by apply net_inv_effect].
  specialize (Hf cl _ Hi). destruct (f cl _). by apply net_inv_effect.
Qed.
Lemma on_world_inv {A} (f : W → A * W) ev s :
  (∀ w, Inv w → Inv (f w).2) → (∀ c, EDial (Some c) ∉ ev) → net_inv s →
  net_inv (mkState (on_world f (world s)).2 (clients s) (trace s ++ ev)).
Proof.
  intros Hf Hev Hs. pose proof (proj1 (ni_safe _ Hs)) as Hi. simpl in Hi. unfold on_world.
  specialize (Hf _ Hi). destruct (f _). by apply net_inv_effect.
Qed.

Lemma dial_inv deadline : keeps net_inv (dial p deadline).
Proof.
  unfold dial. intros s Hs. unfold bind. destruct (plAuth p) as [a|] eqn:Ea; simpl; [|done].
  destruct (match tBastion (plTarget p) with Some _ => _ | None => _ end) as [b|]; simpl; [|done].
  unfold net_dial. destruct (Dial.Dial _ _ _ _ _ _ _) as [[r c1] w1] eqn:Ed.
  pose proof (Dial_dialed _ (policy_moves Hpol Hold) (nCache (world s))
    (se_deadline se deadline (nWorld (world s))) (net_hop (hop_of (tEndpoint (plTarget p)) a)) (net_hop <$> b))
    as [Hmv Hcl]. rewrite Ed in Hmv, Hcl. simpl in Hmv, Hcl.
  destruct Hs as [[Hi Hc] Hl Hm Hd]. simpl in Hi, Hc.
  assert (safe (nCache (world s), se_deadline se deadline (nWorld (world s)))) as Hs0.
  { split; simpl; [by apply (pl_deadline Hpol)|done]. }
  destruct (Hmv Hs0) as [Hi1 Hc1]. simpl in Hi1, Hc1.
  assert (safe (c1, se_deadline se None w1)) as Hs1 by (split; simpl; [by apply (pl_deadline Hpol)|done]).
  destruct r as [cl|e]; split; simpl; try done.
  - rewrite length_app, Hl. simpl. lia.
  - intros cl' [Hin|Hin]%elem_of_app; [by apply Hm|]. apply list_elem_of_singleton in Hin as ->.
    destruct (Hcl cl eq_refl) as (conn & c2 & w2 & H2 & Hh). exists a. split; [done|].
    eapply handshake_authentic; [exact (H2 Hs0)|exact Hh].
  - intros c [Hx|Hx]%elem_of_app; [specialize (Hd c Hx); lia|]. apply list_elem_of_singleton in Hx as [= ->]. lia.
  - intros c [Hx|Hx]%elem_of_app; [by apply Hd|]. by apply list_elem_of_singleton in Hx.
Qed.

Lemma net_stable : stable p net_inv.
Proof.
  assert (∀ e c, e ≠ EDial (Some c) → EDial (Some c) ∉ [e]) as Hev.
  { intros e c He Hin. by apply list_elem_of_singleton in Hin. }
  assert (∀ c, EDial (Some c) ∉ []) as Hnil by (intros c; apply not_elem_of_nil).
  split.
  - apply dial_inv.
  - intros c rq s Hs. unfold exec, lift. simpl. unfold net_exec.
    match goal with |- context [on_client c ?a ?f _] =>
      pose proof (on_client_inv c a f [EExec c rq] s) as Hx; destruct (on_client c a f _) as [[res err] n] end.
    apply Hx; [|by intros; apply Hev|done]. intros cl w Hi. pose proof (pl_run Hpol w (clConn cl) rq Hi) as Hr.
    destruct (se_run se w (clConn cl) rq) as [x w1]. by destruct (Exec.Exec rq x) as [[res' err'] fate].
  - intros c t s Hs. unfold alive, lift. simpl.
    match goal with |- context [on_client c ?a ?f _] =>
      pose proof (on_client_inv c a f [EAlive c] s) as Hx; destruct (on_client c a f _) as [b n] end.
    apply Hx; [|by intros; apply Hev|done]. intros cl w. apply (pl_alive Hpol).
  - intros c s Hs. unfold close, lift. simpl. apply on_client_inv; [|by intros; apply Hev|done].
    intros cl w Hi. simpl. unfold Dial.Close. destruct (clBastion cl); repeat apply (pl_client Hpol); done.
  - intros c i m s Hs. unfold keepalive_start, lift. simpl. apply on_client_inv; [|done|done].
    intros cl w. apply (pl_keepalive Hpol).
  - intros c s Hs. unfold keepalive_stop, lift. simpl. apply on_client_inv; [|done|done].
    intros cl w. apply (pl_stop Hpol).
  - intros d s Hs. unfold wait, lift. simpl.
    pose proof (on_world_inv (se_wait se d) [ESleep d] s (pl_wait Hpol d) ltac:(by intros; apply Hev) Hs) as Hx.
    destruct (on_world (se_wait se d) (world s)). exact Hx.
  - intros n s Hs. unfold rand, lift. simpl.
    pose proof (on_world_inv (se_rand se n) [] s (pl_rand Hpol n) Hnil Hs) as Hx.
    destruct (on_world (se_rand se n) (world s)). exact Hx.
Qed.

(** Every request goes to a connection to the target. *)
Lemma runHost_clients (fuel : nat) (w : W) (hr : HostResult) (s' : state net) :
  session_laws → Inv w → runnable o fuel p →
  runHost o redact fuel p (mkState (mkNet w (mkCache 0 None) []) 0 []) = Ret hr s' →
  ∀ c rq, EExec c rq ∈ trace s' → ∃ cl, nClients (world s') !! c = Some cl ∧ plan_client cl.
Proof.
  intros Hl Hw Hr E c rq Hin. pose proof (net_laws Hl) as Hlaws.
  assert (net_inv (mkState (mkNet w (mkCache 0 None) []) 0 [])) as Hs0.
  { split; simpl; [by split|done|by intros cl ?%elem_of_nil|by intros c0 ?%elem_of_nil]. }
  destruct (runHost_keeps o redact p net_inv net_stable fuel _ _ _ Hs0 E) as [_ Hn Hm Hd].
  destruct (runHost_ran _ _ _ _ _ _ _ Hr E) as (evs & [[Ht _] _ _ Hpr _]). simpl in Ht. subst evs.
  pose proof (Hd c (protocol_exec_dialed _ _ _ _ Hpr Hin)) as Hlt. rewrite Hn in Hlt.
  apply lookup_lt_is_Some_2 in Hlt as [cl Hcl]. exists cl. split; [done|]. apply Hm.
  by eapply list_elem_of_lookup_2.
Qed.
End network.

(** The host keys of the dialer that [Prepare] builds. *)
Definition host_keys {Signer} (k : @key_env Signer) (o : Options) : HostKeys :=
  mkHostKeys (ExpandHome k (opKnownHosts o)) (opInsecure o) (opAcceptNewHosts o).

Section trusted.
Context `{GoRuntime} {W Conn Client Addr Key Signer : Type}.
Context (ops : @net_ops W Conn Client Addr Key (@AuthMethod Signer)).
Context (pool : option (@pool_ops W Client Addr Key)) (se : @session_ops W Client).
Context (keys : @key_env Signer) (o : Options) (redact : string → string).

(** C13: every command of a host's run goes to a server that presented
    a good key for the address of the target, over a connection that was logged
    into as the target's user with the target's methods: whatever the network
    and other servers do, through a bastion or not, at the first connection and
    after a reboot.  Good are the keys that known_hosts accepts, when it is
    verified and new keys are not added. *)
Theorem runHost_trusted (good : string → Addr → Key → Prop) (Inv : W → Prop) (p : Plan Signer)
    (fuel : nat) (w : W) (hr : HostResult) (s' : state net) :
  opInsecure o = false → opAcceptNewHosts o = false →
  policy ops pool (host_keys keys o) se good Inv → session_laws ops pool (host_keys keys o) se →
  Inv w → runnable o fuel p →
  runHost (Transport0 := net_transport ops pool (host_keys keys o) se) o redact fuel p
    (mkState (mkNet w (mkCache 0 None) []) 0 []) = Ret hr s' →
  ∀ c rq, EExec c rq ∈ trace s' →
    ∃ cl, nClients (world s') !! c = Some cl ∧ plan_client ops good Inv p cl.
Proof. intros. by eapply runHost_clients. Qed.
End trusted.

(** ** A concrete network

    Every operation takes a second.  known_hosts holds the keys of a bastion and of
    a host behind it; a server presents the key of its address, commands print
    ["ok"]. *)

Record lab := mkLab { labKnown : list (string * string); labNow : Z }.
Definition lab_later (d : Z) (w : lab) : lab := mkLab (labKnown w) (labNow w + d).
Definition lab_keys : list (string * string) := [("10.0.1.1:22", "kb"); ("10.0.0.7:22", "kh")].

Definition lab_ops : @net_ops lab string string unit string (@AuthMethod unit) := {|
  os_stat w path := Ok 0%Z;
  mkdir_all w path := (None, lab_later 1 w);
  write_empty w path := (None, lab_later 1 w);
  knownhosts_new w path := Ok (toy_check (labKnown w));
  open_append w path := None;
  append_line w path line := (None, mkLab ((line, line) :: labKnown w) (labNow w));
  known_line host key := host;
  probe_key := "probe";
  parse_ip s := false;
  tcp_addr ip port := tt;
  dial_tcp w addr := (Ok addr, lab_later 1 w);
  dial_through w c addr := (Ok addr, lab_later 1 w);
  server_of w conn addr cfg := toy_server lab_keys addr;
  wrap_error e := MkError KPlain ("ssh: handshake failed: " +:+ err_text e) (Some e);
  handshake_timers w conn := (false, CtxAlive);
  close_conn conn w := w;
  close_client cl w := w;
|}.
Definition lab_pool : @pool_ops lab string unit string := {|
  pool_get key dial c w := dial c w;
  pool_broken key b e w := w;
|}.
Definition lab_sessions : @session_ops lab string := {|
  se_run w cl rq := (run_with "ok" 0, lab_later 1 w);
  se_alive cl t w := (true, w);
  se_keepalive cl i m w := w;
  se_stop cl w := w;
  se_wait d w := (None, lab_later (Z.max 0 d) w);
  se_now := labNow;
  se_ctx_err w := None;
  se_rand n w := (0%Z, w);
  se_deadline d w := w;
|}.
Definition lab_home : @key_env unit :=
  mkKeyEnv (Some "/home/u") (λ _, Err "no such file") (λ _, Err OtherKeyError) (λ _ _, Err OtherKeyError).
Definition lab_hosts : HostKeys := host_keys lab_home example_options.
Definition lab_world : lab := mkLab lab_keys 0.
Definition lab_plan : Plan unit :=
  mkPlan (mkTarget (tEndpoint example_target) "" [] ∅
      (Some (mkEndpoint "jump" "10.0.1.1" 22 "proxy" example_credential)))
    [example_action "greet" "echo ok" None false false] (Some example_auth) (Some example_auth).
Definition lab_transport := net_transport lab_ops (Some lab_pool) lab_hosts lab_sessions.

Definition lab_run : out net HostResult :=
  @runHost default_runtime _ unit lab_transport example_options example_redact 1 lab_plan
    (mkState (mkNet lab_world (mkCache 0 None) []) 0 []).

(** The command runs on the connection to the host, through the bastion. *)
Example lab_result :
  match lab_run with
  | Ret h s => hrStatus h = StatusSuccess ∧ map clConn (nClients (world s)) = ["10.0.0.7:22"] ∧
      execs (trace s) = [mkRequest "echo ok" "" second 1024 ["ok"]]
  | _ => False
  end.
Proof. by vm_compute. Qed.

Lemma lab_laws : session_laws lab_ops (Some lab_pool) lab_hosts lab_sessions.
Proof.
  split; simpl; try (intros; lia). split; simpl; try (intros; lia).
  - intros q key f c w r c' w' [= <-] E Hf. specialize (Hf c w). simpl in E. by rewrite E in Hf.
  - by intros q key b e c w [= <-].
Qed.

Lemma net_transport_laws_witness : TransportLaws net unit (Transport0 := lab_transport).
Proof. exact (net_transport_laws lab_ops (Some lab_pool) lab_hosts lab_sessions lab_laws). Defined.

Definition lab_good (host : string) (remote : unit) (key : string) : Prop := (host, key) ∈ lab_keys.
Lemma lab_policy : policy lab_ops (Some lab_pool) lab_hosts lab_sessions lab_good (λ w, labKnown w = lab_keys).
Proof.
  split; simpl; try done.
  - intros w k -> [= <-] host remote key. unfold toy_check. case_bool_decide as Hin; [|done]. intros _.
    apply list_elem_of_fmap in Hin as ([host' key'] & -> & [Hh Hin]%list_elem_of_filter). simpl in *. by subst.
  - intros q key f c w r c' w' [= <-] E Hf Hs. specialize (Hf c w Hs). simpl in E. by rewrite E in Hf.
  - by intros q key b e w [= <-].
Qed.

Lemma lab_runnable : runnable (Signer := unit) example_options 1 lab_plan.
Proof.
  split; [by split; eexists|by vm_compute|]. intros a Ha Hd. simpl in Ha.
  by apply list_elem_of_singleton in Ha as ->.
Qed.

Lemma lab_returns : ∃ h s, lab_run = Ret h s ∧ ∃ rq, EExec 0 rq ∈ trace s.
Proof. eexists _, _. split; [vm_compute; reflexivity|]. eexists. right. left. Qed.

Lemma runHost_trusted_witness : ∃ h s cl, lab_run = Ret h s ∧ nClients (world s) !! 0 = Some cl ∧
  plan_client lab_ops lab_good (λ w, labKnown w = lab_keys) lab_plan cl.
Proof.
  destruct lab_returns as (h & s & E & rq & Hin). exists h, s.
  destruct (@runHost_trusted default_runtime _ _ _ _ _ _ lab_ops (Some lab_pool) lab_sessions lab_home
    example_options example_redact lab_good (λ w, labKnown w = lab_keys) lab_plan 1 lab_world h s eq_refl eq_refl
    lab_policy lab_laws eq_refl lab_runnable E 0 rq Hin) as (cl & Hcl & Hpl).
  exists cl. exact (conj E (conj Hcl Hpl)).
Defined.
