(* ===== verification/Schedule.v ===== *)
(** * Schedule: all the hosts of a run ([Run] of [internal/runner/runner.go])

    [Run] starts the hosts one after the other, at most [conc] at a time, and
    stops starting them when the run is cancelled or when [MaxFailures] hosts
    have failed.  The model is a step relation: the main goroutine walks over the
    plans, every host has a goroutine of its own, and a step is one atomic action
    (taking or giving back a place of the semaphore, storing a result, counting a
    failure).  Every schedule is a sequence of steps.

    What [runHost] may return for the plan [i] is the relation [outcome i]. *)

From stdpp Require Import relations.
From S2P Require Import Prelude GoStd Domain Build Credentials Report Runner.
From S2P Require Import TransportSpec StepSpec ConnectSpec RunnerSpec Script.

(** Where a host stands. *)
Inductive phase :=
| Pending
| Running                      (* its goroutine is in [runHost] *)
| Recorded (h : HostResult)    (* [rep.Hosts[i]] is set *)
| Counted (h : HostResult)     (* a failure is counted *)
| Reported (h : HostResult)    (* [OnHostDone] has had the result *)
| Released (h : HostResult)    (* the goroutine has given its place back *)
| NotRun (h : HostResult).     (* finished by the main goroutine *)

Definition result_of (ph : phase) : option HostResult :=
  match ph with
  | Pending | Running => None
  | Recorded h | Counted h | Reported h | Released h | NotRun h => Some h
  end.

(** The main goroutine: choosing for the host [next], or holding a place for it. *)
Inductive main_phase := Choosing | Holding.
#[export] Instance main_phase_eq_dec : EqDecision main_phase.
Proof. solve_decision. Defined.

Record sched := mkSched {
  next : nat;
  main : main_phase;
  places : nat;               (* the places of the semaphore in use *)
  failures : nat;             (* the atomic counter [failed] *)
  cancelled : bool;
  hosts : list phase;
  emitted : list HostResult;  (* the results given to [OnHostDone], in order *)
}.

Section schedule.
Context {Signer : Type} (plans : list (Plan Signer)) (concurrency maxFailures : Z).
Context (outcome : nat → HostResult → Prop).

Definition conc : nat := Z.to_nat (Z.max 1 concurrency).

Definition start : sched :=
  mkSched 0 Choosing 0 0 false (replicate (length plans) Pending) [].

(** [m > 0 && failed.Load() >= m] *)
Definition too_many (s : sched) : bool :=
  (0 <? maxFailures)%Z && (maxFailures <=? Z.of_nat (failures s))%Z.

Definition skip_reason (k : nat) : string :=
  "not started: " +:+ itoa (Z.of_nat k) +:+ " hosts failed (--max-failures " +:+
  itoa maxFailures +:+ ")".

Inductive step : sched → sched → Prop :=
| step_acquire s :                              (* sem <- struct{}{} *)
    main s = Choosing → next s < length plans → places s < conc →
    step s (mkSched (next s) Holding (S (places s)) (failures s) (cancelled s) (hosts s) (emitted s))
| step_cancelled s p :                          (* <-ctx.Done() *)
    main s = Choosing → cancelled s = true → plans !! next s = Some p →
    step s (mkSched (S (next s)) Choosing (places s) (failures s) (cancelled s)
      (<[next s := NotRun (notStarted p StatusCancelled "cancelled before start")]> (hosts s))
      (emitted s ++ [notStarted p StatusCancelled "cancelled before start"]))
| step_skip s p k :                             (* the counter is read again for the text *)
    main s = Holding → too_many s = true → plans !! next s = Some p → failures s ≤ k →
    step s (mkSched (S (next s)) Choosing (places s - 1) (failures s) (cancelled s)
      (<[next s := NotRun (notStarted p StatusSkipped (skip_reason k))]> (hosts s))
      (emitted s ++ [notStarted p StatusSkipped (skip_reason k)]))
| step_start s :                                (* go func() *)
    main s = Holding → too_many s = false → next s < length plans →
    step s (mkSched (S (next s)) Choosing (places s) (failures s) (cancelled s)
      (<[next s := Running]> (hosts s)) (emitted s))
| step_record s i h :                           (* runHost returns; rep.Hosts[i] = h *)
    hosts s !! i = Some Running → outcome i h →
    step s (mkSched (next s) (main s) (places s) (failures s) (cancelled s)
      (<[i := Recorded h]> (hosts s)) (emitted s))
| step_count s i h :                            (* failed.Add(1) *)
    hosts s !! i = Some (Recorded h) →
    step s (mkSched (next s) (main s) (places s)
      (if decide (hrStatus h = StatusFailed) then S (failures s) else failures s) (cancelled s)
      (<[i := Counted h]> (hosts s)) (emitted s))
| step_report s i h :                           (* OnHostDone(h) *)
    hosts s !! i = Some (Counted h) →
    step s (mkSched (next s) (main s) (places s) (failures s) (cancelled s)
      (<[i := Reported h]> (hosts s)) (emitted s ++ [h]))
| step_release s i h :                          (* <-sem; wg.Done() *)
    hosts s !! i = Some (Reported h) →
    step s (mkSched (next s) (main s) (places s - 1) (failures s) (cancelled s)
      (<[i := Released h]> (hosts s)) (emitted s))
| step_cancel s :
    cancelled s = false →
    step s (mkSched (next s) (main s) (places s) (failures s) true (hosts s) (emitted s)).

Definition reachable (s : sched) : Prop := rtc step start s.

(** [wg.Wait()] has returned. *)
Definition finished (s : sched) : Prop :=
  next s = length plans ∧ main s = Choosing ∧
  Forall (λ ph, match ph with Released _ | NotRun _ => True | _ => False end) (hosts s).

(** ** Counting hosts *)

Definition b2n (b : bool) : nat := if b then 1 else 0.
Definition tally (P : phase → bool) (l : list phase) : nat := length (filter (λ x, P x = true) l).

Lemma tally_cons P x l : tally P (x :: l) = b2n (P x) + tally P l.
Proof. unfold tally. rewrite filter_cons. destruct (P x); simpl; done. Qed.

Lemma tally_le P Q R l :
  (∀ x, b2n (P x) ≤ b2n (Q x) + b2n (R x)) → tally P l ≤ tally Q l + tally R l.
Proof.
  intros H. induction l as [|x l IH]; [done|]. rewrite !tally_cons. specialize (H x). lia.
Qed.

Lemma tally_mono P Q l : (∀ x, P x = true → Q x = true) → tally P l ≤ tally Q l.
Proof.
  intros H. induction l as [|x l IH]; [done|]. rewrite !tally_cons.
  destruct (P x) eqn:E; [rewrite (H x E)|]; simpl; lia.
Qed.

Lemma tally_pos P l : 0 < tally P l ↔ ∃ i x, l !! i = Some x ∧ P x = true.
Proof.
  induction l as [|x l IH]; [unfold tally; simpl; split; [lia|by intros (? & ? & ? & _)]|].
  rewrite tally_cons. split.
  - destruct (P x) eqn:E; [by exists 0, x|]. intros (i & y & ? & ?)%IH. by exists (S i), y.
  - intros ([|i] & y & Hy & HP); simplify_eq/=; [rewrite HP; simpl; lia|].
    assert (0 < tally P l); [|lia]. apply IH. by exists i, y.
Qed.

Lemma tally_insert P l i x y :
  l !! i = Some y → tally P (<[i := x]> l) + b2n (P y) = tally P l + b2n (P x).
Proof.
  revert i. induction l as [|z l IH]; intros [|i] Hi; simplify_eq/=; rewrite !tally_cons.
  - lia.
  - specialize (IH i Hi). lia.
Qed.

(** The goroutines of hosts, those that have not counted, and the failures. *)
Definition active (ph : phase) : bool :=
  match ph with Running | Recorded _ | Counted _ | Reported _ => true | _ => false end.
Definition uncounted (ph : phase) : bool :=
  match ph with Running | Recorded _ => true | _ => false end.
Definition counted_failure (ph : phase) : bool :=
  match ph with
  | Counted h | Reported h | Released h | NotRun h => bool_decide (hrStatus h = StatusFailed)
  | _ => false
  end.
Definition failure (ph : phase) : bool :=
  match result_of ph with Some h => bool_decide (hrStatus h = StatusFailed) | None => false end.

Definition held (s : sched) : nat := match main s with Holding => 1 | Choosing => 0 end.

(** The result that [OnHostDone] has had. *)
Definition shown (ph : phase) : option HostResult :=
  match ph with
  | Pending | Running | Recorded _ | Counted _ => None
  | Reported h | Released h | NotRun h => Some h
  end.

Lemma shown_insert l i x y :
  l !! i = Some y → omap shown (<[i := x]> l) ++ option_list (shown y) ≡ₚ
                    omap shown l ++ option_list (shown x).
Proof.
  revert i. induction l as [|z l IH]; intros [|i] Hi; simplify_eq/=.
  - destruct (shown x), (shown y); simpl; rewrite ?(app_nil_r); try done; solve_Permutation.
  - specialize (IH i Hi). destruct (shown z); simpl; by rewrite IH.
Qed.

(** A result of the main goroutine. *)
Definition not_run (i : nat) (h : HostResult) : Prop :=
  ∃ p st reason, plans !! i = Some p ∧ h = notStarted p st reason ∧
    (st = StatusCancelled ∨ st = StatusSkipped).

Record inv (s : sched) : Prop := {
  inv_length : length (hosts s) = length plans;
  inv_next : next s ≤ length plans ∧ (main s = Holding → next s < length plans);
  inv_pending : ∀ i, i < length plans → hosts s !! i = Some Pending ↔ next s ≤ i;
  inv_places : places s = tally active (hosts s) + held s ∧ places s ≤ conc;
  inv_failures : failures s = tally counted_failure (hosts s);
  inv_bound : (0 < maxFailures)%Z →
    (Z.of_nat (failures s + tally uncounted (hosts s)) ≤ maxFailures - 1 + Z.of_nat conc)%Z;
  inv_results : ∀ i ph h, hosts s !! i = Some ph → result_of ph = Some h →
    match ph with NotRun _ => not_run i h | _ => outcome i h end;
  inv_emitted : emitted s ≡ₚ omap shown (hosts s);
  inv_cancelled : ∀ i h, hosts s !! i = Some (NotRun h) →
    (hrStatus h = StatusCancelled → cancelled s = true) ∧
    (hrStatus h = StatusSkipped → (0 < maxFailures ≤ Z.of_nat (failures s))%Z);
}.

Lemma conc_pos : 0 < conc.
Proof. unfold conc. lia. Qed.

Lemma tally_replicate P n : P Pending = false → tally P (replicate n Pending) = 0.
Proof. intros HP. unfold tally. induction n; [done|]. simpl. rewrite filter_cons. by rewrite HP. Qed.

Lemma sched_inv_start : inv start.
Proof.
  pose proof conc_pos. split; simpl; rewrite ?tally_replicate by done.
  - apply length_replicate.
  - split; [lia|done].
  - intros i Hi. split; [lia|]. intros _. by apply lookup_replicate_2.
  - split; [done|lia].
  - done.
  - lia.
  - intros i ph h [-> _]%lookup_replicate. done.
  - clear. by induction (length plans).
  - intros i h [? _]%lookup_replicate. done.
Qed.

(** The goroutine of host [i] moves on. *)
Lemma host_move s i x y n' f' e :
  inv s → hosts s !! i = Some y → y ≠ Pending → x ≠ Pending →
  n' + b2n (active y) = places s + b2n (active x) →
  n' ≤ places s → failures s ≤ f' →
  f' + b2n (counted_failure y) = failures s + b2n (counted_failure x) →
  f' + b2n (uncounted x) ≤ failures s + b2n (uncounted y) →
  (∀ h, result_of x = Some h → match x with NotRun _ => False | _ => outcome i h end) →
  shown y = None ∧ e = emitted s ++ option_list (shown x) ∨ shown y = shown x ∧ e = emitted s →
  inv (mkSched (next s) (main s) n' f' (cancelled s) (<[i := x]> (hosts s)) e).
Proof.
  intros [H1 H2 H3 H4 H5 H6 H7 He H8] Hi Hy Hx Hp Hp' Hff Hf Hu Hr Hem.
  pose proof (shown_insert _ i x y Hi) as Ts.
  pose proof (tally_insert active _ i x y Hi) as Ta.
  pose proof (tally_insert counted_failure _ i x y Hi) as Tc.
  pose proof (tally_insert uncounted _ i x y Hi) as Tu.
  split; simpl; rewrite ?length_insert; try done.
  - intros j Hj. rewrite <- H3 by done. destruct (decide (i = j)) as [<-|Hne].
    + rewrite list_lookup_insert_eq by by eapply lookup_lt_Some. rewrite Hi. naive_solver.
    + by rewrite list_lookup_insert_ne.
  - destruct H4 as [H4 H4']. unfold held in *. simpl. lia.
  - lia.
  - intros Hm. specialize (H6 Hm). lia.
  - intros j ph h. rewrite list_lookup_insert_Some. intros [(<- & <- & _)|[_ Hj]] Hres.
    + specialize (Hr h Hres). by destruct x.
    + by apply (H7 j).
  - destruct Hem as [[Hsy ->]|[Hsy ->]]; rewrite Hsy in Ts.
    + rewrite app_nil_r in Ts. by rewrite Ts, He.
    + apply Permutation_app_inv_r in Ts. by rewrite Ts.
  - intros j h. rewrite list_lookup_insert_Some. intros [(<- & -> & _)|[_ Hj]].
    + by specialize (Hr h eq_refl).
    + destruct (H8 j h Hj) as [? Hs]. split; [done|]. intros ?. specialize (Hs ltac:(done)). lia.
Qed.

(** The main goroutine decides about host [next]. *)
Lemma main_move s x n' e :
  inv s → next s < length plans →
  x = Running ∨ (∃ h, x = NotRun h) →
  n' = tally active (hosts s) + b2n (active x) → n' ≤ conc →
  e = emitted s ++ option_list (shown x) →
  (x = Running → (0 < maxFailures)%Z → (Z.of_nat (failures s) < maxFailures)%Z) →
  (∀ h, x = NotRun h → not_run (next s) h ∧ hrStatus h ≠ StatusFailed ∧
    (hrStatus h = StatusCancelled → cancelled s = true) ∧
    (hrStatus h = StatusSkipped → (0 < maxFailures ≤ Z.of_nat (failures s))%Z)) →
  inv (mkSched (S (next s)) Choosing n' (failures s) (cancelled s) (<[next s := x]> (hosts s)) e).
Proof.
  intros [H1 H2 H3 H4 H5 H6 H7 He H8] Hn Hx Hp Hp' -> Hm Hnr.
  assert (hosts s !! next s = Some Pending) as Hi by (apply H3; lia).
  pose proof (tally_insert active _ _ x _ Hi) as Ta.
  pose proof (tally_insert counted_failure _ _ x _ Hi) as Tc.
  pose proof (tally_insert uncounted _ _ x _ Hi) as Tu. simpl in Ta, Tc, Tu.
  pose proof (shown_insert _ _ x _ Hi) as Ts. simpl in Ts. rewrite app_nil_r in Ts.
  assert (b2n (counted_failure x) = 0) as Hcf.
  { destruct Hx as [->|[h ->]]; [done|]. simpl.
    destruct (Hnr h eq_refl) as (_ & Hs & _). by rewrite bool_decide_false. }
  split; simpl; rewrite ?length_insert; try done.
  - intros j Hj. destruct (decide (next s = j)) as [<-|Hne].
    + rewrite list_lookup_insert_eq by by eapply lookup_lt_Some.
      split; [|lia]. destruct Hx as [->|[h ->]]; done.
    + rewrite list_lookup_insert_ne by done. rewrite H3 by done. lia.
  - unfold held. simpl. lia.
  - lia.
  - intros Hmf. specialize (H6 Hmf). destruct Hx as [->|[h ->]]; simpl in *.
    + specialize (Hm eq_refl Hmf).
      assert (tally uncounted (hosts s) ≤ tally active (hosts s)) as Hle.
      { apply tally_mono. by intros []. }
      lia.
    + lia.
  - intros j ph h. rewrite list_lookup_insert_Some. intros [(<- & <- & _)|[_ Hj]] Hres.
    + destruct Hx as [->|[h' ->]]; [done|]. simpl in Hres. simplify_eq. by apply Hnr.
    + by apply (H7 j).
  - by rewrite Ts, He.
  - intros j h. rewrite list_lookup_insert_Some. intros [(<- & -> & _)|[_ Hj]].
    + by destruct (Hnr h eq_refl) as (_ & _ & ?).
    + by apply (H8 j).
Qed.

Lemma too_many_true s : too_many s = true ↔ (0 < maxFailures ≤ Z.of_nat (failures s))%Z.
Proof. unfold too_many. rewrite andb_true_iff, Z.ltb_lt, Z.leb_le. done. Qed.

Lemma sched_step_inv s s' : inv s → step s s' → inv s'.
Proof.
  intros Hs Hst. pose proof Hs as [H1 H2 H3 [H4 H4'] H5 H6 H7 He H8].
  destruct Hst as [s Hm Hn Hp|s p Hm Hc Hp|s p k Hm Ht Hp Hk|s Hm Ht Hn|s i h Hi Ho|s i h Hi|s i h Hi|s i h Hi|s Hc].
  - split; simpl; try done; unfold held in *; rewrite ?Hm in *; simpl; lia.
  - unfold held in H4. rewrite Hm in H4.
    eapply main_move; [done|by eapply lookup_lt_Some|by right; eexists|simpl; lia|done|done|done|].
    intros h [= <-]. simpl. split_and!; try done. exists p, StatusCancelled, "cancelled before start".
    split_and!; [done|done|by left].
  - unfold held in H4. rewrite Hm in H4. apply too_many_true in Ht.
    eapply main_move; [done|by eapply lookup_lt_Some|by right; eexists|simpl; lia|lia|done|done|].
    intros h [= <-]. simpl. split_and!; try done. exists p, StatusSkipped, (skip_reason k).
    split_and!; [done|done|by right].
  - unfold held in H4. rewrite Hm in H4.
    eapply main_move; [done|done|by left|simpl; lia|done|by simpl; rewrite app_nil_r| |done].
    intros _ Hmf. apply not_true_iff_false in Ht. rewrite too_many_true in Ht. lia.
  - eapply (host_move _ i _ Running); simpl; try done; try lia; [by intros ? [= <-]|by right].
  - pose proof (H7 i _ h Hi eq_refl) as Ho. simpl in Ho.
    eapply (host_move _ i _ (Recorded h)); simpl; try done; try lia.
    + case_decide; lia.
    + case_decide; [rewrite bool_decide_true by done|rewrite bool_decide_false by done]; simpl; lia.
    + case_decide; lia.
    + by intros ? [= <-].
    + by right.
  - pose proof (H7 i _ h Hi eq_refl) as Ho. simpl in Ho.
    eapply (host_move _ i _ (Counted h)); simpl; try done; try lia; [by intros ? [= <-]|by left].
  - pose proof (H7 i _ h Hi eq_refl) as Ho. simpl in Ho.
    pose proof (tally_insert active _ i (Released h) _ Hi) as Ta. simpl in Ta.
    eapply (host_move _ i _ (Reported h)); simpl; try done; try lia; [by intros ? [= <-]|by right].
  - split; simpl; try done. intros i h Hi. destruct (H8 i h Hi). split; [done|done].
Qed.

Lemma sched_reachable_inv s : reachable s → inv s.
Proof.
  revert s. apply (rtc_ind_r inv start); [apply sched_inv_start|].
  intros y z _ Hst Hy. by eapply sched_step_inv.
Qed.

(** ** Termination *)

(** What a host still has to do. *)
Definition work (ph : phase) : nat :=
  match ph with
  | Pending => 7 | Running => 4 | Recorded _ => 3 | Counted _ => 2 | Reported _ => 1 | Released _ | NotRun _ => 0
  end.
Definition total_work (l : list phase) : nat := foldr (λ ph n, work ph + n) 0 l.
Definition measure (s : sched) : nat :=
  total_work (hosts s) + (match main s with Choosing => 1 | Holding => 0 end) +
  (if cancelled s then 0 else 1).

Lemma total_work_insert l i x y :
  l !! i = Some y → total_work (<[i := x]> l) + work y = total_work l + work x.
Proof.
  revert i. induction l as [|z l IH]; intros [|i] Hi; simplify_eq/=; [lia|].
  specialize (IH i Hi). lia.
Qed.

Lemma step_measure s s' : inv s → step s s' → measure s' < measure s.
Proof.
  intros Hs Hst. pose proof Hs as [H1 H2 H3 _ _ _ _ _ _]. unfold measure.
  assert (∀ x, next s < length plans →
    total_work (<[next s := x]> (hosts s)) + 7 = total_work (hosts s) + work x) as Hnext.
  { intros x Hn. rewrite (total_work_insert _ _ x Pending); [done|]. by apply H3. }
  destruct Hst as [s Hm Hn Hp|s p Hm Hc Hp|s p k Hm Ht Hp Hk|s Hm Ht Hn|s i h Hi Ho|s i h Hi|s i h Hi|s i h Hi|s Hc]; simpl.
  - rewrite Hm. lia.
  - specialize (Hnext (NotRun (notStarted p StatusCancelled "cancelled before start"))
      (lookup_lt_Some _ _ _ Hp)). simpl in Hnext. rewrite Hm. lia.
  - specialize (Hnext (NotRun (notStarted p StatusSkipped (skip_reason k)))
      (lookup_lt_Some _ _ _ Hp)). simpl in Hnext. rewrite Hm. lia.
  - specialize (Hnext Running Hn). simpl in Hnext. rewrite Hm. lia.
  - pose proof (total_work_insert _ _ (Recorded h) _ Hi) as Hw. simpl in Hw. lia.
  - pose proof (total_work_insert _ _ (Counted h) _ Hi) as Hw. simpl in Hw. lia.
  - pose proof (total_work_insert _ _ (Reported h) _ Hi) as Hw. simpl in Hw. lia.
  - pose proof (total_work_insert _ _ (Released h) _ Hi) as Hw. simpl in Hw. lia.
  - rewrite Hc. lia.
Qed.

(** Some goroutine can move. *)
Lemma active_step s :
  (∀ i, i < length plans → ∃ h, outcome i h) → inv s → 0 < tally active (hosts s) →
  ∃ s', step s s' ∧ next s' = next s.
Proof.
  intros Hout Hs (i & ph & Hi & Hact)%tally_pos.
  pose proof (lookup_lt_Some _ _ _ Hi) as Hlt. rewrite (inv_length s Hs) in Hlt.
  destruct ph; try done.
  - destruct (Hout i Hlt) as [h Hh]. eexists. split; [by eapply step_record|done].
  - eexists. split; [by eapply step_count|done].
  - eexists. split; [by eapply step_report|done].
  - eexists. split; [by eapply step_release|done].
Qed.

Lemma progress s :
  (∀ i, i < length plans → ∃ h, outcome i h) → inv s → finished s ∨ ∃ s', step s s'.
Proof.
  intros Hout Hs. pose proof Hs as [H1 [H2 H2'] H3 [H4 H4'] _ _ _ _ _]. pose proof conc_pos.
  destruct (decide (tally active (hosts s) = 0)) as [Hz|Hz].
  2: { right. destruct (active_step s Hout Hs) as (s' & Hst & _); [lia|]. by exists s'. }
  destruct (main s) eqn:Hm.
  - destruct (decide (next s < length plans)) as [Hlt|Hge].
    + right. eexists. apply step_acquire; [done|done|]. unfold held in H4. rewrite Hm in H4. lia.
    + left. split_and!; [lia|done|]. apply Forall_forall. intros ph Hin.
      apply list_elem_of_lookup in Hin as [i Hi].
      pose proof (lookup_lt_Some _ _ _ Hi) as Hlt. rewrite H1 in Hlt.
      destruct (active ph) eqn:Hact; [exfalso; assert (0 < tally active (hosts s)); [|lia];
        apply tally_pos; by exists i, ph|].
      destruct ph; try done. apply H3 in Hi; lia.
  - right. specialize (H2' eq_refl). destruct (too_many s) eqn:Ht.
    + destruct (lookup_lt_is_Some_2 plans (next s) H2') as [p Hp].
      eexists. by eapply (step_skip s p (failures s)).
    + eexists. by apply step_start.
Qed.

(** ** The report *)

Definition report_hosts (s : sched) : list HostResult := omap result_of (hosts s).

(** [rep.Hosts] at the end, in the order of the plans, then [rep.finish]. *)
Definition Run_report (rep : Report) (now : Z) (s : sched) : Report :=
  Report.finish now (mkReport (rpJob rep) (rpVersion rep) (rpHash rep) (rpStartedAt rep) (rpFinishedAt rep)
    (rpDuration rep) (rpSummary rep) (report_hosts s)).

Lemma finished_results s :
  inv s → finished s →
  length (report_hosts s) = length plans ∧
  ∀ i h, report_hosts s !! i = Some h →
    hosts s !! i = Some (Released h) ∧ outcome i h ∨ hosts s !! i = Some (NotRun h) ∧ not_run i h.
Proof.
  intros Hs (_ & _ & Hall). pose proof (inv_results s Hs) as Hr. rewrite <- (inv_length s Hs).
  unfold report_hosts.
  assert (Forall (λ ph, is_Some (result_of ph)) (hosts s)) as Hsome.
  { eapply Forall_impl; [exact Hall|]. intros [] ?; try done; by eexists. }
  assert (∀ i, omap result_of (hosts s) !! i = hosts s !! i ≫= result_of) as Hlook.
  { clear - Hsome. induction Hsome as [|ph l [h Hh] _ IH]; [done|].
    cbn. rewrite Hh. intros [|i]; [simpl; by rewrite Hh|apply IH]. }
  split.
  - clear - Hsome. induction Hsome as [|ph l [h Hh] _ IH]; [done|]. cbn. rewrite Hh. cbn. by rewrite IH.
  - intros i h. rewrite Hlook. destruct (hosts s !! i) as [ph|] eqn:Hi; [|done]. simpl. intros Hres.
    specialize (Hr i ph h Hi Hres). rewrite Forall_lookup in Hall. specialize (Hall i ph Hi).
    simpl in Hall. destruct ph; try done; injection Hres as ->; [by left|by right].
Qed.

Lemma finished_emitted s : inv s → finished s → emitted s ≡ₚ report_hosts s.
Proof.
  intros Hs (_ & _ & Hall). rewrite (inv_emitted s Hs). unfold report_hosts. clear Hs.
  induction Hall as [|ph l Hph _ IH]; [done|]. destruct ph; try done; simpl; by rewrite IH.
Qed.

(** C12: at most [concurrency] hosts run at any moment, and when a limit
    of failures is set, at most [limit + concurrency - 1] hosts fail, however
    the hosts interleave: no host starts once the limit is reached. *)
Theorem Run_bounded (s : sched) :
  reachable s →
  tally active (hosts s) ≤ conc ∧
  ((0 < maxFailures)%Z →
   (Z.of_nat (tally failure (hosts s)) ≤ maxFailures - 1 + Z.of_nat conc)%Z) ∧
  ((0 < maxFailures ≤ Z.of_nat (failures s))%Z → ∀ s', step s s' →
     ∀ i, hosts s' !! i = Some Running → hosts s !! i = Some Running).
Proof.
  intros Hs%sched_reachable_inv. pose proof Hs as [H1 H2 H3 [H4 H4'] H5 H6 H7 He H8]. split_and!.
  - unfold held in H4. destruct (main s); lia.
  - intros Hm. specialize (H6 Hm). rewrite H5 in H6.
    assert (tally failure (hosts s) ≤ tally counted_failure (hosts s) + tally uncounted (hosts s)).
    { apply tally_le. unfold failure. intros []; simpl; repeat case_bool_decide; simpl; lia. }
    lia.
  - intros Hm s' Hst i. apply too_many_true in Hm.
    destruct Hst; simpl; try done; try congruence;
      rewrite list_lookup_insert_Some; intros [(_ & ? & _)|[_ ?]]; done.
Qed.

Lemma Run_spec s :
  reachable s → finished s →
  length (report_hosts s) = length plans ∧ emitted s ≡ₚ report_hosts s ∧
  ∀ i h, report_hosts s !! i = Some h →
    outcome i h ∨
    (∃ p reason, plans !! i = Some p ∧ h = notStarted p StatusCancelled reason ∧ cancelled s = true) ∨
    (∃ p reason, plans !! i = Some p ∧ h = notStarted p StatusSkipped reason ∧
       (0 < maxFailures ≤ Z.of_nat (tally failure (hosts s)))%Z).
Proof.
  intros Hs%sched_reachable_inv Hf. destruct (finished_results s Hs Hf) as [Hl Hres].
  split; [done|split; [by apply finished_emitted|]].
  intros i h Hi. destruct (Hres i h Hi) as [[_ ?]|[Hn (p & st & reason & Hp & -> & Hst)]];
    [by left|right]. destruct (inv_cancelled s Hs i _ Hn) as [Hc Hsk].
  destruct Hst as [->| ->].
  - left. exists p, reason. split; [done|split; [done|by apply Hc]].
  - right. exists p, reason. split; [done|split; [done|]]. specialize (Hsk eq_refl).
    rewrite (inv_failures s Hs) in Hsk.
    pose proof (tally_mono counted_failure failure (hosts s) ltac:(by intros [])). lia.
Qed.
End schedule.

(** ** The hosts run [runHost] *)

Section run.
Context `{GoRuntime} {W Signer : Type} `{!Transport W Signer} `{!TransportLaws W Signer}.
Context (o : Options) (redact : string → string) (fuel : nat) (plans : list (Plan Signer)).

(** A result that [runHost] returns for the plan [i], in some state of the world. *)
Definition host_outcome (i : nat) (h : HostResult) : Prop :=
  ∃ p s s', plans !! i = Some p ∧ runHost o redact fuel p s = Ret h s'.

Definition Run_step : sched → sched → Prop :=
  step plans (opConcurrency o) (opMaxFailures o) host_outcome.
Definition Run_reachable : sched → Prop :=
  reachable plans (opConcurrency o) (opMaxFailures o) host_outcome.

Lemma notStarted_named (p : Plan Signer) st reason :
  hrHost (notStarted p st reason) = tName (plTarget p) ∧
  Forall2 step_of (plActions p) (hrSteps (notStarted p st reason)).
Proof. split; [done|apply skipped_steps]. Qed.

(** A host's result in the report of a finished run. *)
Definition host_done (p : Plan Signer) (s : sched) (h : HostResult) : Prop :=
  (∃ s1 s2, runHost o redact fuel p s1 = Ret h s2) ∨
  (∃ reason, h = notStarted p StatusCancelled reason ∧ cancelled s = true) ∨
  (∃ reason, h = notStarted p StatusSkipped reason ∧
     (0 < opMaxFailures o ≤ Z.of_nat (tally failure (hosts s)))%Z).

Lemma outcome_exists (w : state W) :
  (∀ p, p ∈ plans → runnable (Signer := Signer) o fuel p) →
  ∀ i, i < length plans → ∃ h, host_outcome i h.
Proof.
  intros Hr i [p Hp]%lookup_lt_is_Some_2.
  destruct (runHost_named o redact fuel p w) as (h & s' & E & _); [by eapply Hr, list_elem_of_lookup_2|].
  exists h, p, w, s'. exact (conj Hp E).
Qed.

Lemma Run_results s :
  (∀ p, p ∈ plans → runnable (Signer := Signer) o fuel p) → Run_reachable s → finished plans s →
  length (report_hosts s) = length plans ∧ emitted s ≡ₚ report_hosts s ∧
  ∀ i p h, plans !! i = Some p → report_hosts s !! i = Some h →
    hrHost h = tName (plTarget p) ∧ Forall2 step_of (plActions p) (hrSteps h) ∧ host_done p s h.
Proof.
  intros Hr Hs Hf. destruct (Run_spec plans (opConcurrency o) (opMaxFailures o) host_outcome s Hs Hf)
    as (Hl & Hem & Hall).
  split; [exact Hl|split; [exact Hem|]]. intros i p h Hp Hh.
  destruct (Hall i h Hh) as [(p' & s1 & s2 & Hp' & E)|[(p' & reason & Hp' & -> & Hc)|(p' & reason & Hp' & -> & Hm)]];
    rewrite Hp in Hp'; injection Hp' as <-.
  - destruct (runHost_named o redact fuel p s1) as (h' & s2' & E' & Hn & Hst);
      [by eapply Hr, list_elem_of_lookup_2|].
    rewrite E in E'. injection E' as <- <-. split; [exact Hn|split; [exact Hst|]]. left. by exists s1, s2.
  - destruct (notStarted_named p StatusCancelled reason) as [Hn Hst].
    split; [exact Hn|split; [exact Hst|]]. right. left. by exists reason.
  - destruct (notStarted_named p StatusSkipped reason) as [Hn Hst].
    split; [exact Hn|split; [exact Hst|]]. right. right. by exists reason.
Qed.

(** C11: every run ends, whatever the order of its steps, and its report
    then has exactly one result per plan, in the order of the plans, with one
    result per step: the result of [runHost], or a host that was never started
    because the run was cancelled or because the limit of failures was reached;
    without either, every host was run.  [OnHostDone] was called exactly once
    with each of these results. *)
Theorem Run_complete (w : state W) :
  (∀ p, p ∈ plans → runnable (Signer := Signer) o fuel p) →
  (∀ s s', Run_reachable s → Run_step s s' → measure s' < measure s) ∧
  (∀ s, Run_reachable s → finished plans s ∨ ∃ s', Run_step s s') ∧
  ∀ s, Run_reachable s → finished plans s →
    length (report_hosts s) = length plans ∧ emitted s ≡ₚ report_hosts s ∧
    ∀ i p h, plans !! i = Some p → report_hosts s !! i = Some h →
      hrHost h = tName (plTarget p) ∧ Forall2 step_of (plActions p) (hrSteps h) ∧ host_done p s h.
Proof.
  intros Hr. pose proof (outcome_exists w Hr) as Hout. split_and!.
  - intros s s' Hs%sched_reachable_inv. by apply step_measure.
  - intros s Hs%sched_reachable_inv. by apply progress.
  - intros s Hs Hf. by apply Run_results.
Qed.
End run.

(** ** A concrete run: one host at a time, stop after the first failure *)

Definition example_plans : list (Plan unit) := [example_plan; example_plan].
Definition example_limits : Options :=
  mkOptions 1 (10 * second) (15 * second) (5 * minute) 2 (2 * second) (30 * second) 1024
    "~/.ssh/known_hosts" false false false 1 0.
Definition sched_outcome : nat → HostResult → Prop :=
  @host_outcome default_runtime script unit script_transport example_limits example_redact example_fuel
    example_plans.
Definition sched_skipped : HostResult := notStarted example_plan StatusSkipped (skip_reason 1 1).

(** The second host is skipped: the first one has failed. *)
Definition sched_middle : sched := mkSched 1 Choosing 1 1 false [Counted example_report; Pending] [].
Definition sched_end : sched :=
  mkSched 2 Choosing 0 1 false [Released example_report; NotRun sched_skipped]
    [example_report; sched_skipped].

Lemma example_failed : hrStatus example_report = StatusFailed.
Proof. by vm_compute. Qed.

Lemma example_outcome : sched_outcome 0 example_report.
Proof. exists example_plan, example_start, example_end. split; [done|]. by vm_compute. Qed.

Lemma sched_middle_reachable : reachable example_plans 1 1 sched_outcome sched_middle.
Proof.
  eapply rtc_l; [apply step_acquire; [done|simpl; lia|unfold conc; simpl; lia]|].
  eapply rtc_l; [apply step_start; [done|done|simpl; lia]|].
  eapply rtc_l; [by eapply (step_record _ _ _ _ _ 0 example_report), example_outcome|].
  eapply rtc_l; [by eapply (step_count _ _ _ _ _ 0 example_report)|].
  cbn [start length example_plans replicate hosts list_insert next main places failures cancelled insert emitted].
  rewrite decide_True by apply example_failed. apply rtc_refl.
Qed.

Lemma sched_end_reachable : reachable example_plans 1 1 sched_outcome sched_end.
Proof.
  eapply rtc_trans; [apply sched_middle_reachable|].
  eapply rtc_l; [by eapply (step_report _ _ _ _ _ 0 example_report)|].
  eapply rtc_l; [by eapply (step_release _ _ _ _ _ 0 example_report)|].
  eapply rtc_l; [apply step_acquire; [done|simpl; lia|unfold conc; simpl; lia]|].
  eapply rtc_l; [by apply (step_skip _ _ _ _ _ example_plan 1)|]. apply rtc_refl.
Qed.

Lemma Run_bounded_witness : tally failure (hosts sched_middle) ≤ 1 ∧ conc 1 = 1.
Proof.
  split; [|done].
  destruct (Run_bounded example_plans 1 1 sched_outcome sched_middle sched_middle_reachable) as (_ & Hf & _).
  specialize (Hf eq_refl). unfold conc in Hf. simpl in Hf |- *. lia.
Defined.

Lemma Run_complete_witness : length (report_hosts sched_end) = 2.
Proof.
  destruct (@Run_complete default_runtime script unit script_transport script_laws example_limits
    example_redact example_fuel example_plans example_start) as (_ & _ & H).
  - intros p Hp. unfold example_plans in Hp.
    repeat (apply elem_of_cons in Hp as [->|Hp];
      [split; [apply example_runnable|by vm_compute|apply example_runnable]|]). by apply elem_of_nil in Hp.
  - destruct (H sched_end) as [Hl _]; [exact sched_end_reachable| |exact Hl].
    split; [done|split; [done|]]. by repeat constructor.
Defined.
