(* ===== verification/Progress.v ===== *)
(** * Progress: the progress log of a run ([logProgress] of
    [internal/runner/runner.go])

    A goroutine reads the three counters of [Run] one after the other, while the
    hosts go on: a line is made of up to three different moments of a schedule.
    [logProgress] are the lines of a run, [progress_line_consistent] says what they
    can be relied on for. *)

From stdpp Require Import relations.
From S2P Require Import Prelude GoStd Float64 Domain Build Credentials MaxFailures Report Runner.
From S2P Require Import TransportSpec StepSpec ConnectSpec RunnerSpec Script Schedule.

(** The counters [done] and [running], as functions of the schedule; [failures]
    is [failed].  [done.Add(1)] is between counting a failure and [OnHostDone],
    [running.Add(-1)] between the end of [runHost] and storing its result; only this
    goroutine reads them. *)
Definition is_done (ph : phase) : bool := bool_decide (is_Some (shown ph)).
Definition is_running (ph : phase) : bool := match ph with Running => true | _ => false end.
Definition done_count (s : sched) : nat := tally is_done (hosts s).
Definition running_count (s : sched) : nat := tally is_running (hosts s).

Section lines.
Context `{GoRuntime}.

(** The time left, as the text of the log, for [d > 0] hosts that are done. *)
Definition eta (elapsed total d : Z) : string :=
  duration_string (duration_round
    (f64_int (f64_mul (f64_div (f64_of_Z elapsed) (f64_of_Z d)) (f64_of_Z (total - d)))) second).

Record line := mkLine {
  lnDone : Z; lnTotal : Z; lnRunning : Z; lnFailed : Z; lnEta : option string;
}.

(** A tick: the time since the start and the schedule when each counter is read. *)
Record moment := mkMoment { mElapsed : Z; mDone : sched; mRunning : sched; mFailed : sched }.

Definition progress_line (total : Z) (m : moment) : line :=
  let d := Z.of_nat (done_count (mDone m)) in
  mkLine d total (Z.of_nat (running_count (mRunning m))) (Z.of_nat (failures (mFailed m)))
    (if (0 <? d)%Z then Some (eta (mElapsed m) total d) else None).

(** The ticks, until the function that is returned closes [quit] ([None]). *)
Fixpoint progress_lines (total : Z) (ticks : list (option moment)) : list line :=
  match ticks with
  | Some m :: ticks => progress_line total m :: progress_lines total ticks
  | _ => []
  end.
Definition logProgress (o : Options) (total : Z) (ticks : list (option moment)) : list line :=
  if (opProgress o <=? 0)%Z then [] else progress_lines total ticks.
End lines.

Section progress.
Context `{GoRuntime}.
Context {Signer : Type} (plans : list (Plan Signer)) (concurrency maxFailures : Z).
Context (outcome : nat → HostResult → Prop).
Abbreviation step := (step plans concurrency maxFailures outcome).
Abbreviation reachable := (reachable plans concurrency maxFailures outcome).

(** Hosts that are done stay so, and failures are never uncounted. *)
Lemma counters_step s s' : reachable s → step s s' →
  done_count s ≤ done_count s' ∧ failures s ≤ failures s'.
Proof.
  intros [_ _ Hp _ _ _ _ _ _]%sched_reachable_inv Hst. unfold done_count.
  assert (∀ x, next s < length plans → tally is_done (<[next s := x]> (hosts s)) = tally is_done (hosts s) + b2n (is_done x)) as Hnext.
  { intros x Hn. pose proof (tally_insert is_done (hosts s) (next s) x Pending) as T. simpl in T.
    rewrite <- T; [lia|]. by apply Hp. }
  destruct Hst as [s Hm Hn Hc|s p Hm Hc Hpl|s p k Hm Ht Hpl Hk|s Hm Ht Hn|s i h Hi Ho|s i h Hi|s i h Hi|s i h Hi|s Hc]; simpl.
  - done.
  - rewrite Hnext by by eapply lookup_lt_Some. lia.
  - rewrite Hnext by by eapply lookup_lt_Some. lia.
  - rewrite Hnext by done. lia.
  - pose proof (tally_insert is_done _ _ (Recorded h) _ Hi) as T. simpl in T. lia.
  - pose proof (tally_insert is_done _ _ (Counted h) _ Hi) as T. simpl in T. case_decide; lia.
  - pose proof (tally_insert is_done _ _ (Reported h) _ Hi) as T. simpl in T. lia.
  - pose proof (tally_insert is_done _ _ (Released h) _ Hi) as T. simpl in T. lia.
  - done.
Qed.

Lemma reachable_later s s' : reachable s → rtc step s s' → reachable s'.
Proof. unfold Schedule.reachable. intros H1 H2. by etrans. Qed.

Lemma counters_later s s' : reachable s → rtc step s s' →
  done_count s ≤ done_count s' ∧ failures s ≤ failures s'.
Proof.
  intros Hr Hst. induction Hst as [s|s1 s2 s3 H12 _ IH]; [done|].
  destruct (counters_step s1 s2 Hr H12). destruct IH; [by eapply rtc_r|]. lia.
Qed.

Lemma tally_disjoint P Q l :
  (∀ x, P x = true → Q x = false) → tally P l + tally Q l ≤ length l.
Proof.
  intros HPQ. induction l as [|x l IH]; [done|]. rewrite !tally_cons. simpl.
  specialize (HPQ x). destruct (P x); [rewrite HPQ by done|]; destruct (Q x); simpl; lia.
Qed.

(** The moments of a tick, in the order in which the counters are read. *)
Definition in_order (m : moment) : Prop :=
  reachable (mDone m) ∧ rtc step (mDone m) (mRunning m) ∧ rtc step (mRunning m) (mFailed m).

(** Although the counters of a line are read at different moments, a
    line never claims more hosts than there are: those done and those running are
    different hosts, at most [conc] run, and the failures respect the limit of a
    run.  The numbers of done and failed hosts never go down from line to line. *)
Theorem progress_line_consistent (m m' : moment) :
  in_order m →
  let l := progress_line (Z.of_nat (length plans)) m in
  (lnDone l + lnRunning l ≤ lnTotal l)%Z ∧
  (lnRunning l ≤ Z.max 1 concurrency)%Z ∧
  (lnFailed l ≤ lnTotal l)%Z ∧
  ((0 < maxFailures)%Z → (lnFailed l ≤ maxFailures - 1 + Z.max 1 concurrency)%Z) ∧
  (is_Some (lnEta l) ↔ (0 < lnDone l)%Z) ∧
  (in_order m' → rtc step (mFailed m) (mDone m') →
   let l' := progress_line (Z.of_nat (length plans)) m' in
   (lnDone l ≤ lnDone l')%Z ∧ (lnFailed l ≤ lnFailed l')%Z).
Proof.
  intros (H1 & H12 & H23). simpl.
  pose proof (reachable_later _ _ H1 H12) as H2. pose proof (reachable_later _ _ H2 H23) as H3.
  destruct (counters_later _ _ H1 H12) as [Hd _]. destruct (counters_later _ _ H2 H23) as [Hd' _].
  apply sched_reachable_inv in H2 as I2. apply sched_reachable_inv in H3 as I3.
  pose proof (inv_length _ _ _ _ _ I2) as L2. pose proof (inv_length _ _ _ _ _ I3) as L3.
  assert (Z.of_nat (conc concurrency) = Z.max 1 concurrency) as Hconc by (unfold conc; lia).
  split_and!.
  - pose proof (tally_disjoint is_done is_running (hosts (mRunning m))) as Hle.
    unfold running_count, done_count in *. specialize (Hle ltac:(by intros [])). lia.
  - pose proof (inv_places _ _ _ _ _ I2) as [Hpl Hc].
    assert (running_count (mRunning m) ≤ tally active (hosts (mRunning m))); [|lia].
    apply tally_mono. by intros [].
  - rewrite (inv_failures _ _ _ _ _ I3).
    pose proof (tally_disjoint counted_failure is_running (hosts (mFailed m))) as Hle.
    specialize (Hle ltac:(by intros [])). lia.
  - intros Hm. pose proof (inv_bound _ _ _ _ _ I3 Hm). lia.
  - destruct (Z.ltb_spec 0 (Z.of_nat (done_count (mDone m)))); split; intros He;
      [done|by eexists|by destruct He|lia].
  - intros (H1' & H12' & H23') Hnext. pose proof (reachable_later _ _ H1' H12') as H2'.
    destruct (counters_later _ _ H3 Hnext). destruct (counters_later _ _ H1' H12').
    destruct (counters_later _ _ H2' H23'). lia.
Qed.
End progress.

(** Half of eight hosts are done after a minute: a minute is left. *)
Example eta_example `{GoRuntime} : (eta minute 8 4, eta (7 * second) 3 2, eta hour 5 5) = ("1m0s", "4s", "0s").
Proof. by vm_compute. Qed.
