(* ===== verification/Prepare.v ===== *)
(** * Prepare: every host is checked before any is contacted ([Prepare] of
    [internal/runner/runner.go])

    [Prepare] resolves the variables, builds the actions and reads the secrets of
    every target, and collects all problems.  Its local variables are the record
    [prep]; the closure [resolve] caches the secrets of each credential.  The
    environment, the key files and the iteration order of Go's maps are
    parameters.  [None] is a panic ([regexp.MustCompile]).

    [Prepare_spec] gives its outcome without a loop, [Prepare_hides] what cannot
    be shown, [Prepare_runnable] that what it returns can be run. *)

From stdpp Require Import gmap.
From S2P Require Import Prelude GoStd Domain Variables Job Build Credentials Report Runner.
From S2P Require Import TransportSpec StepSpec ConnectSpec RunnerSpec.

Record Input := mkInput {
  inpJob : Job;
  inpTargets : list Target;
  inpVars : gmap string string;      (* --var *)
  inpVarEnv : gmap string string;    (* --var-env *)
}.

Definition with_display (a : Action) (d : string) : Action :=
  mkAction (aName a) (aKind a) d (aShell a) (aContent a) (aDest a) (aMode a) (aSudo a)
    (aExitCode a) (aContains a) (aNotContains a) (aRegex a) (aTimeout a) (aRetries a)
    (aRetryDelay a) (aContinueOnError a) (aSensitive a) (aReboot a) (aDisconnect a)
    (aReconnectTimeout a) (aFireAndForget a).

(** What [Prepare] returns: the options, the input, the plans and the redactor. *)
Record Prepared (Signer : Type) := mkPrepared {
  prOptions : Options;
  prInput : Input;
  prPlans : list (Plan Signer);
  prRedact : list string;
}.
Arguments mkPrepared {Signer}.
Arguments prOptions {Signer}.
Arguments prInput {Signer}.
Arguments prPlans {Signer}.
Arguments prRedact {Signer}.

Section prepare.
Context `{GoRuntime} {Signer : Type} (k : key_env (Signer := Signer)) (env : string → option string).

(** The local variables: [auths], the redactor, [issues] and [r.Plans]. *)
Record prep := mkPrep {
  peAuths : gmap string (@Auth Signer);
  peRedact : list string;
  peIssues : list string;
  pePlans : list (Plan Signer);
}.

(** The flags that name a variable which the job does not declare, in the order
    in which the loops meet them. *)
Definition unknown_flags (inp : Input) : list string :=
  range 40 ({["--var" := inpVars inp; "--var-env" := inpVarEnv inp]} : gmap string (gmap string string))
  ≫= λ '(flag, m), range 41 m ≫= λ '(name, _),
    if bool_decide (is_Some (jVariables (inpJob inp) !! name)) then []
    else [flag +:+ " " +:+ name +:+ ": the job declares no variable " +:+ quote name].

(** The closure [resolve]: one lookup of the secrets per credential. *)
Definition resolve (o : Options) (c : Credential) (st : prep)
    : res Failure (option (@Auth Signer)) * prep :=
  if opSkipCredentials o then (Ok None, st)
  else match peAuths st !! cName c with
  | Some a => (Ok (Some a), st)
  | None =>
      match Credentials.Resolve k c env with
      | Err f => (Err f, st)
      | Ok a => (Ok (Some a), mkPrep (<[cName c := a]> (peAuths st))
          (Redactor.Add (peRedact st) (auSecrets a)) (peIssues st) (pePlans st))
      end
  end.

Definition add_issue (t : Target) (msg : string) (st : prep) : prep :=
  mkPrep (peAuths st) (peRedact st) (peIssues st ++ [tName t +:+ ": " +:+ msg]) (pePlans st).

(** The credential of one end of the connection; a failure is an issue. *)
Definition resolve_end (o : Options) (t : Target) (what : string) (c : Credential) (st : prep)
    : option (@Auth Signer) * prep :=
  match resolve o c st with
  | (Ok a, st) => (a, st)
  | (Err f, st) => (None, add_issue t (what +:+ failure_error f) st)
  end.

(** One turn of the loop over the targets. *)
Definition prepare_target (o : Options) (inp : Input) (st : prep) (t : Target) : option prep :=
  match Variables.Resolve (jVariables (inpJob inp))
          (mkInputs (tVariables t) (inpVars inp) (inpVarEnv inp)) env with
  | Err issues => Some (add_issue t (validation_error issues) st)
  | Ok (vars, secrets) =>
      let st := mkPrep (peAuths st) (Redactor.Add (peRedact st) secrets) (peIssues st) (pePlans st) in
      match Build (inpJob inp) vars (mkSettings (opStepTimeout o) (opRetryDelay o)) with
      | None => None
      | Some (Err f) => Some (add_issue t (failure_error f) st)
      | Some (Ok acts) =>
          let '(auth, st) := resolve_end o t "" (eCredential (tEndpoint t)) st in
          let '(bastion, st) :=
            match tBastion t with
            | Some b => resolve_end o t "bastion: " (eCredential b) st
            | None => (None, st)
            end in
          Some (mkPrep (peAuths st) (peRedact st) (peIssues st)
                  (pePlans st ++ [mkPlan t acts auth bastion]))
      end
  end.

Fixpoint prepare_targets (o : Options) (inp : Input) (st : prep) (ts : list Target) : option prep :=
  match ts with
  | [] => Some st
  | t :: ts => st ← prepare_target o inp st t; prepare_targets o inp st ts
  end.

(** The displays are redacted once every secret is known. *)
Definition redact_plan (r : list string) (p : Plan Signer) : Plan Signer :=
  mkPlan (plTarget p) (map (λ a, with_display a (Redactor.redact r (aDisplay a))) (plActions p))
    (plAuth p) (plBastion p).

Definition Prepare (o : Options) (inp : Input) : option (res string (Prepared Signer)) :=
  match unknown_flags inp with
  | msg :: _ => Some (Err msg)
  | [] =>
      st ← prepare_targets o inp (mkPrep ∅ [] [] []) (inpTargets inp);
      match peIssues st with
      | _ :: _ => Some (Err (Redactor.redact (peRedact st) (str_join newline (peIssues st))))
      | [] => Some (Ok (mkPrepared o inp (map (redact_plan (peRedact st)) (pePlans st)) (peRedact st)))
      end
  end.

(** ** What a target becomes *)

Definition inputs (inp : Input) (t : Target) : Inputs :=
  mkInputs (tVariables t) (inpVars inp) (inpVarEnv inp).
Definition settings (o : Options) : Settings := mkSettings (opStepTimeout o) (opRetryDelay o).
Definition target_creds (t : Target) : list Credential :=
  eCredential (tEndpoint t) :: match tBastion t with Some b => [eCredential b] | None => [] end.

(** Names tell the credentials of the targets apart, as they do in an inventory. *)
Definition named_apart (ts : list Target) : Prop :=
  ∀ t1 t2 c1 c2, t1 ∈ ts → t2 ∈ ts → c1 ∈ target_creds t1 → c2 ∈ target_creds t2 →
    cName c1 = cName c2 → c1 = c2.

(** Every secret that is long enough is registered. *)
Definition known (r secrets : list string) : Prop :=
  ∀ s, s ∈ secrets → MinSecretLen ≤ String.length s → s ∈ r.

(** The values and the secrets of a target, and its actions before redaction. *)
Definition resolves (inp : Input) (t : Target) (vars : gmap string string) (secrets : list string)
    : Prop :=
  Variables.Resolve (jVariables (inpJob inp)) (inputs inp t) env = Ok (vars, secrets).
Definition builds (o : Options) (inp : Input) (vars : gmap string string) (acts : list Action) : Prop :=
  Build (inpJob inp) vars (settings o) = Some (Ok acts).

(** The secrets of a credential can be read. *)
Definition readable (c : Credential) (a : @Auth Signer) : Prop := Credentials.Resolve k c env = Ok a.

Record target_ok (o : Options) (inp : Input) (t : Target) : Prop := {
  to_actions : ∃ vars secrets acts, resolves inp t vars secrets ∧ builds o inp vars acts;
  to_creds : opSkipCredentials o = false → ∀ c, c ∈ target_creds t → ∃ a, readable c a;
}.

(** What a plan holds for one end of the connection. *)
Definition end_auth (o : Options) (c : Credential) (x : option (@Auth Signer)) : Prop :=
  if opSkipCredentials o then x = None else ∃ a, readable c a ∧ x = Some a.

Record prepared (o : Options) (inp : Input) (show : string → string) (t : Target) (p : Plan Signer)
    : Prop := {
  pp_target : plTarget p = t;
  pp_actions : ∃ vars secrets acts, resolves inp t vars secrets ∧ builds o inp vars acts ∧
    plActions p = map (λ a, with_display a (show (aDisplay a))) acts;
  pp_auth : end_auth o (eCredential (tEndpoint t)) (plAuth p);
  pp_bastion : match tBastion t with
    | Some b => end_auth o (eCredential b) (plBastion p)
    | None => plBastion p = None
    end;
}.

(** The secrets of a target: those of its variables, and once its actions are
    built those of its credentials. *)
Definition secret_of (o : Options) (inp : Input) (t : Target) (sec : string) : Prop :=
  ∃ vars secrets, resolves inp t vars secrets ∧
    (sec ∈ secrets ∨
     ∃ acts c a, builds o inp vars acts ∧ opSkipCredentials o = false ∧ c ∈ target_creds t ∧
       readable c a ∧ sec ∈ auSecrets a).

(** ** The loop over the targets *)

Section loop.
Context (o : Options) (inp : Input).
Hypothesis Hapart : named_apart (inpTargets inp).
Hypothesis Hjob : valid_job (inpJob inp).

(** The cache holds the secrets of credentials of the targets. *)
Definition cached (st : prep) : Prop :=
  ∀ n a, peAuths st !! n = Some a →
    (∃ t c, t ∈ inpTargets inp ∧ c ∈ target_creds t ∧ cName c = n ∧ readable c a) ∧
    known (peRedact st) (auSecrets a).

Definition prep_ok (st : prep) : Prop := Redactor.inv (peRedact st) ∧ cached st.

Lemma known_mono r r' secrets : r ⊆ r' → known r secrets → known r' secrets.
Proof. intros Hr Hk s Hs Hl. apply Hr. by apply Hk. Qed.

Lemma Add_known r secrets :
  Redactor.inv r → Redactor.inv (Redactor.Add r secrets) ∧ r ⊆ Redactor.Add r secrets ∧
    known (Redactor.Add r secrets) secrets.
Proof.
  intros Hr. destruct (Redactor.Add_inv r secrets Hr) as [Hi Hin].
  split; [done|split]; [intros x Hx|intros x Hx Hl]; apply Hin; [by left|by right].
Qed.

Lemma add_secrets_ok st secrets :
  prep_ok st →
  let st' := mkPrep (peAuths st) (Redactor.Add (peRedact st) secrets) (peIssues st) (pePlans st) in
  prep_ok st' ∧ peRedact st ⊆ peRedact st' ∧ known (peRedact st') secrets.
Proof.
  intros [Hr Hc]. destruct (Add_known (peRedact st) secrets Hr) as (H1 & H2 & H3).
  split; [split; [done|]|done]. intros n a Hn. simpl in Hn. destruct (Hc n a Hn) as [? ?].
  split; [done|]. by eapply known_mono.
Qed.

(** Reading the secrets of one credential of a target. *)
Lemma creds_resolve_spec t c st :
  prep_ok st → t ∈ inpTargets inp → c ∈ target_creds t →
  let '(r, st') := resolve o c st in
  prep_ok st' ∧ peRedact st ⊆ peRedact st' ∧ peIssues st' = peIssues st ∧ pePlans st' = pePlans st ∧
  match r with
  | Ok x => end_auth o c x ∧ ∀ a, x = Some a → known (peRedact st') (auSecrets a)
  | Err f => opSkipCredentials o = false ∧ ¬ ∃ a, readable c a
  end.
Proof.
  intros Hst Ht Hc. unfold resolve, end_auth, readable.
  destruct (opSkipCredentials o); [by do 5 (split; [done|])|].
  destruct (peAuths st !! cName c) as [a|] eqn:Ea.
  { destruct (proj2 Hst _ _ Ea) as [(t' & c' & Ht' & Hc' & Hn & Hr) Hk].
    rewrite (Hapart t' t c' c Ht' Ht Hc' Hc Hn) in Hr.
    do 4 (split; [done|]). split; [by exists a|]. by intros a' [= <-]. }
  destruct (Credentials.Resolve k c env) as [a|f] eqn:Er.
  - destruct Hst as [Hr Hcache]. destruct (Add_known (peRedact st) (auSecrets a) Hr) as (H1 & H2 & H3).
    split; [split; [done|]|split; [done|]]; simpl.
    + intros n a'. simpl. rewrite lookup_insert_Some. intros [[<- <-]|[_ Hn]].
      * split; [|done]. by exists t, c.
      * destruct (Hcache n a' Hn) as [? ?]. split; [done|]. by eapply known_mono.
    + do 2 (split; [done|]). split; [by exists a|]. by intros a' [= <-].
  - do 4 (split; [done|]). split; [done|]. by intros [a Ha].
Qed.

Lemma end_auth_readable c x : opSkipCredentials o = false → end_auth o c x → ∃ a, readable c a ∧ x = Some a.
Proof. unfold end_auth. by intros ->. Qed.

(** The credential of one end: an issue exactly if its secrets cannot be read. *)
Lemma resolve_end_spec t what c st :
  prep_ok st → t ∈ inpTargets inp → c ∈ target_creds t →
  let '(x, st') := resolve_end o t what c st in
  prep_ok st' ∧ peRedact st ⊆ peRedact st' ∧ pePlans st' = pePlans st ∧
  ∃ issues, peIssues st' = peIssues st ++ issues ∧
    (issues = [] → end_auth o c x) ∧
    (issues = [] ↔ (opSkipCredentials o = false → ∃ a, readable c a)) ∧
    (opSkipCredentials o = false → ∀ a, readable c a → known (peRedact st') (auSecrets a)).
Proof.
  intros Hst Ht Hc. unfold resolve_end. pose proof (creds_resolve_spec t c st Hst Ht Hc) as Hr.
  destruct (resolve o c st) as [[x|f] st']; destruct Hr as (H1 & H2 & H3 & H4 & H5).
  - destruct H5 as [Hx Hk]. do 3 (split; [done|]). exists []. rewrite app_nil_r.
    split; [done|]. split; [done|]. split; [split; [|done]|].
    + intros _ Hs. destruct (end_auth_readable _ _ Hs Hx) as (a & Ha & _). by exists a.
    + intros Hs a Ha. destruct (end_auth_readable _ _ Hs Hx) as (a' & Ha' & ->).
      apply Hk. unfold readable in *. congruence.
  - destruct H5 as [Hs Hno]. do 3 (split; [done|]). simpl. rewrite H3.
    eexists. split; [done|]. split; [done|]. split; [split; [done|]|].
    + intros Hx. by destruct (Hno (Hx Hs)).
    + intros _ a Ha. destruct Hno. by exists a.
Qed.

Lemma mkPrep_eta st : mkPrep (peAuths st) (peRedact st) (peIssues st) (pePlans st) = st.
Proof. by destruct st. Qed.

Lemma with_display_id a : with_display a (aDisplay a) = a.
Proof. by destruct a. Qed.

Lemma show_id acts : acts = map (λ a, with_display a (id (aDisplay a))) acts.
Proof. rewrite <- (map_id acts) at 1. apply map_ext. intros a. symmetry. apply with_display_id. Qed.

(** What one turn does to the state. *)
Definition turn (t : Target) (st st' : prep) : Prop :=
  prep_ok st' ∧ peRedact st ⊆ peRedact st' ∧
  (∀ sec, secret_of o inp t sec → MinSecretLen ≤ String.length sec → sec ∈ peRedact st') ∧
  ∃ issues, peIssues st' = peIssues st ++ issues ∧ (issues = [] ↔ target_ok o inp t) ∧
    (issues = [] → ∃ p, pePlans st' = pePlans st ++ [p] ∧ prepared o inp id t p).

(** The two ends of the connection, once the actions are built. *)
Lemma ends_spec t vars secrets acts st :
  prep_ok st → t ∈ inpTargets inp → resolves inp t vars secrets → builds o inp vars acts →
  known (peRedact st) secrets →
  let '(auth, st1) := resolve_end o t "" (eCredential (tEndpoint t)) st in
  let '(bastion, st2) :=
    match tBastion t with
    | Some b => resolve_end o t "bastion: " (eCredential b) st1
    | None => (None, st1)
    end in
  turn t st (mkPrep (peAuths st2) (peRedact st2) (peIssues st2)
    (pePlans st2 ++ [mkPlan t acts auth bastion])).
Proof.
  intros Hst Ht Hres Hb Hk.
  pose proof (resolve_end_spec t "" (eCredential (tEndpoint t)) st Hst Ht ltac:(apply list_elem_of_here)) as H1.
  destruct (resolve_end o t "" _ st) as [auth st1].
  destruct H1 as (Hok1 & Hm1 & Hp1 & is1 & Hi1 & Ha1 & Hiff1 & Hk1).
  assert (∀ vars' secrets', resolves inp t vars' secrets' → vars' = vars ∧ secrets' = secrets) as Hu.
  { unfold resolves in *. intros vs ss Hx. rewrite Hres in Hx. by injection Hx as <- <-. }
  destruct (tBastion t) as [b|] eqn:Eb.
  - assert (eCredential b ∈ target_creds t) as Hin by (unfold target_creds; rewrite Eb; set_solver).
    pose proof (resolve_end_spec t "bastion: " (eCredential b) st1 Hok1 Ht Hin) as H2.
    destruct (resolve_end o t "bastion: " _ st1) as [bastion st2].
    destruct H2 as (Hok2 & Hm2 & Hp2 & is2 & Hi2 & Ha2 & Hiff2 & Hk2).
    assert (peRedact st ⊆ peRedact st2) as Hm by (etrans; eassumption).
    split; [exact Hok2|split; [exact Hm|split]]; simpl.
    + intros sec (vs & ss & Hx%Hu & Hs) Hl. destruct Hx as [-> ->]. destruct Hs as [Hs|(ac & c & a & _ & Hsk & Hc & Ha & Hs)].
      { eapply known_mono; [exact Hm|exact Hk|done|done]. }
      unfold target_creds in Hc. rewrite Eb in Hc.
      apply elem_of_cons in Hc as [->|Hc]; [|apply list_elem_of_singleton in Hc as ->].
      * apply Hm2. by eapply Hk1.
      * by eapply Hk2.
    + exists (is1 ++ is2). rewrite Hi2, Hi1, Hp2, Hp1, app_assoc. split; [done|]. split.
      * rewrite app_nil. split.
        -- intros [-> ->]. split; [by exists vars, secrets, acts|].
           intros Hs c Hc. unfold target_creds in Hc. rewrite Eb in Hc.
           apply elem_of_cons in Hc as [->|Hc]; [|apply list_elem_of_singleton in Hc as ->]; [by apply Hiff1|by apply Hiff2].
        -- intros [_ Hcr]. split; [apply Hiff1|apply Hiff2]; intros Hs; apply Hcr; try done; apply list_elem_of_here.
      * intros [-> ->]%app_nil. eexists. split; [done|]. split; simpl; [done| |by apply Ha1|].
        -- exists vars, secrets, acts. do 2 (split; [done|]). apply show_id.
        -- rewrite Eb. by apply Ha2.
  - split; [exact Hok1|split; [exact Hm1|split]]; simpl.
    + intros sec (vs & ss & Hx%Hu & Hs) Hl. destruct Hx as [-> ->]. destruct Hs as [Hs|(ac & c & a & _ & Hsk & Hc & Ha & Hs)].
      { eapply known_mono; [exact Hm1|exact Hk|done|done]. }
      unfold target_creds in Hc. rewrite Eb in Hc. apply list_elem_of_singleton in Hc as ->. by eapply Hk1.
    + exists is1. rewrite Hi1, Hp1. split; [done|]. split.
      * split.
        -- intros ->. split; [by exists vars, secrets, acts|].
           intros Hs c Hc. unfold target_creds in Hc. rewrite Eb in Hc.
           apply list_elem_of_singleton in Hc as ->. by apply Hiff1.
        -- intros [_ Hcr]. apply Hiff1. intros Hs. apply Hcr; [done|apply list_elem_of_here].
      * intros ->. eexists. split; [done|]. split; simpl; [done| |by apply Ha1|by rewrite Eb].
        exists vars, secrets, acts. do 2 (split; [done|]). apply show_id.
Qed.

Lemma prepare_target_spec t st :
  prep_ok st → t ∈ inpTargets inp → ∃ st', prepare_target o inp st t = Some st' ∧ turn t st st'.
Proof.
  intros Hst Ht. unfold prepare_target. fold (inputs inp t).
  destruct (Variables.Resolve _ _ env) as [[vars secrets]|is1] eqn:Er.
  2: { eexists. split; [done|]. split; [exact Hst|]. split; [done|]. split.
    - intros sec (vs & ss & Hx & _). unfold resolves in Hx. by rewrite Er in Hx.
    - eexists. split; [done|]. split; [|done]. split; [done|].
      intros [(vs & ss & ac & Hx & _) _]. unfold resolves in Hx. by rewrite Er in Hx. }
  destruct (add_secrets_ok st secrets Hst) as (Hok & Hm & Hk). fold (settings o).
  destruct (Build_actions (inpJob inp) vars (settings o) Hjob) as (r & Hb & _). rewrite Hb.
  destruct r as [acts|f].
  - pose proof (ends_spec t vars secrets acts _ Hok Ht Er Hb Hk) as Hends.
    destruct (resolve_end o t "" _ _) as [auth st1].
    destruct (match tBastion t with Some b => _ | None => _ end) as [bastion st2].
    eexists. split; [done|]. destruct Hends as (H1 & H2 & H3). split; [exact H1|].
    split; [by etrans|exact H3].
  - eexists. split; [done|]. split; [exact Hok|]. split; [exact Hm|]. simpl. split.
    + intros sec (vs & ss & Hx & Hs) Hl. unfold resolves in Hx. rewrite Er in Hx. injection Hx as <- <-.
      destruct Hs as [Hs|(ac & c & a & Hx & _)]; [by apply Hk|]. unfold builds in Hx. by rewrite Hb in Hx.
    + eexists. split; [done|]. split; [|done]. split; [done|].
      intros [(vs & ss & ac & Hx & Hy) _]. unfold resolves in Hx. rewrite Er in Hx. injection Hx as <- <-.
      unfold builds in Hy. by rewrite Hb in Hy.
Qed.

Lemma prepare_targets_spec ts st :
  prep_ok st → ts ⊆ inpTargets inp →
  ∃ st', prepare_targets o inp st ts = Some st' ∧ prep_ok st' ∧ peRedact st ⊆ peRedact st' ∧
    (∀ t sec, t ∈ ts → secret_of o inp t sec → MinSecretLen ≤ String.length sec → sec ∈ peRedact st') ∧
    ∃ issues, peIssues st' = peIssues st ++ issues ∧ (issues = [] ↔ ∀ t, t ∈ ts → target_ok o inp t) ∧
      (issues = [] → ∃ ps, pePlans st' = pePlans st ++ ps ∧ Forall2 (prepared o inp id) ts ps).
Proof.
  revert st. induction ts as [|t ts IH]; intros st Hst Hts; simpl.
  { exists st. split; [done|]. do 2 (split; [done|]). split; [by intros ? ? ?%elem_of_nil|].
    exists []. rewrite app_nil_r. split; [done|]. split; [split; [by intros _ ? ?%elem_of_nil|done]|].
    intros _. exists []. by rewrite app_nil_r. }
  destruct (prepare_target_spec t st Hst) as (st1 & -> & Hok1 & Hm1 & Hs1 & is1 & Hi1 & Hiff1 & Hp1); [set_solver|].
  destruct (IH st1 Hok1) as (st' & E & Hok & Hm & Hs & is2 & Hi & Hiff & Hp); [set_solver|].
  exists st'. split; [exact E|]. split; [exact Hok|]. split; [by etrans|]. split.
  - intros t' sec [->|Ht']%elem_of_cons Hsec Hl; [by apply Hm, Hs1|by eapply Hs].
  - exists (is1 ++ is2). rewrite Hi, Hi1, app_assoc. split; [done|]. split.
    + rewrite app_nil, Hiff1, Hiff. split.
      * intros [H1 H2] t' [->|Ht']%elem_of_cons; [done|by apply H2].
      * intros Hall. split; [apply Hall, list_elem_of_here|]. intros t' Ht'. by apply Hall, list_elem_of_further.
    + intros [E1 E2]%app_nil. destruct (Hp1 E1) as (p & Ep & Hprep). destruct (Hp E2) as (ps & -> & Hall).
      exists (p :: ps). rewrite Ep, <- app_assoc. split; [done|]. by constructor.
Qed.
End loop.

(** Every flag names a variable that the job declares. *)
Definition declared (inp : Input) : Prop :=
  ∀ name, is_Some (inpVars inp !! name) ∨ is_Some (inpVarEnv inp !! name) →
    is_Some (jVariables (inpJob inp) !! name).

Lemma unknown_flags_nil inp : unknown_flags inp = [] ↔ declared inp.
Proof.
  unfold unknown_flags. rewrite bind_nil. split.
  - intros Hall name Hn.
    assert (∀ flag m, ({["--var" := inpVars inp; "--var-env" := inpVarEnv inp]}
      : gmap string (gmap string string)) !! flag = Some m → is_Some (m !! name) →
      is_Some (jVariables (inpJob inp) !! name)) as Hf.
    { intros flag m Hm [v Hv]. specialize (Hall (flag, m)). rewrite range_elem in Hall.
      specialize (Hall Hm). simpl in Hall. rewrite bind_nil in Hall. specialize (Hall (name, v)).
      rewrite range_elem in Hall. specialize (Hall Hv). simpl in Hall.
      by case_bool_decide. }
    destruct Hn as [Hn|Hn]; [eapply (Hf "--var"); [|done]|eapply (Hf "--var-env"); [|done]]; done.
  - intros Hd [flag m] Hm%range_elem. rewrite bind_nil. intros [name v] Hv%range_elem.
    rewrite bool_decide_true; [done|]. apply Hd.
    apply lookup_insert_Some in Hm as [[<- <-]|[_ Hm]]; [left; by exists v|].
    apply lookup_singleton_Some in Hm as [<- <-]. right. by exists v.
Qed.

Lemma redact_prepared o inp r t p :
  prepared o inp id t p → prepared o inp (Redactor.redact r) t (redact_plan r p).
Proof.
  intros [H1 (vars & secrets & acts & Hr & Hb & Ha) H3 H4]. split; simpl; try done.
  exists vars, secrets, acts. split; [done|split; [done|]]. by rewrite Ha, <- show_id.
Qed.

(** The outcome of [Prepare] and what its redactor knows. *)
Lemma Prepare_outcome (o : Options) (inp : Input) :
  valid_job (inpJob inp) → named_apart (inpTargets inp) → declared inp →
  ∃ r issues, Redactor.inv r ∧
    (∀ t sec, t ∈ inpTargets inp → secret_of o inp t sec → MinSecretLen ≤ String.length sec → sec ∈ r) ∧
    (issues = [] ↔ ∀ t, t ∈ inpTargets inp → target_ok o inp t) ∧
    match issues with
    | [] => ∃ ps, Prepare o inp = Some (Ok (mkPrepared o inp ps r)) ∧
        Forall2 (prepared o inp (Redactor.redact r)) (inpTargets inp) ps
    | _ :: _ => Prepare o inp = Some (Err (Redactor.redact r (str_join newline issues)))
    end.
Proof.
  intros Hj Ha Hd%unknown_flags_nil. unfold Prepare. rewrite Hd.
  destruct (prepare_targets_spec o inp Ha Hj (inpTargets inp) (mkPrep ∅ [] [] []))
    as (st & -> & [Hr _] & _ & Hs & issues & Hi & Hiff & Hp).
  - split; [apply Redactor.inv_empty|]. intros n a Hn. simpl in Hn. by rewrite lookup_empty in Hn.
  - done.
  - simpl in Hi, Hp. subst issues. exists (peRedact st), (peIssues st).
    do 3 (split; [done|]). simpl. destruct (peIssues st) as [|i rest]; [|done].
    destruct (Hp eq_refl) as (ps & -> & Hall). eexists. split; [done|].
    rewrite <- (list_fmap_id (inpTargets inp)). apply Forall2_fmap.
    eapply Forall2_impl; [exact Hall|]. intros t p. apply redact_prepared.
Qed.

Lemma Prepare_iff (o : Options) (inp : Input) :
  valid_job (inpJob inp) → named_apart (inpTargets inp) →
  match Prepare o inp with
  | Some (Ok r) => declared inp ∧ prOptions r = o ∧ prInput r = inp ∧
      Forall2 (prepared o inp (Redactor.redact (prRedact r))) (inpTargets inp) (prPlans r)
  | Some (Err msg) => ¬ (declared inp ∧ ∀ t, t ∈ inpTargets inp → target_ok o inp t)
  | None => False
  end.
Proof.
  intros Hj Ha. destruct (decide (unknown_flags inp = [])) as [Hd|Hd].
  - apply unknown_flags_nil in Hd.
    destruct (Prepare_outcome o inp Hj Ha Hd) as (r & [|i rest] & _ & _ & Hiff & Hp).
    + destruct Hp as (ps & -> & Hall). done.
    + rewrite Hp. intros [_ Hok]. by apply Hiff in Hok.
  - unfold Prepare. destruct (unknown_flags inp) as [|msg l] eqn:E; [done|].
    intros [Hdecl _]. apply unknown_flags_nil in Hdecl. congruence.
Qed.


(** C6: for a valid job that declares every variable of the flags, and targets whose
    credentials are told apart by their names: a secret of a target whose variables
    resolve (of its sensitive variables, of its [--var-env] values or, once its actions
    build, of its credentials: [secret_of]) that has at least three bytes, no square
    bracket and is not part of the word REDACTED is known to the redactor, is shown
    by no plan of any host, and is not part of the report of the problems. *)
Theorem Prepare_hides (o : Options) (inp : Input) (t : Target) (sec : string) :
  valid_job (inpJob inp) → named_apart (inpTargets inp) → declared inp →
  t ∈ inpTargets inp → secret_of o inp t sec →
  MinSecretLen ≤ String.length sec → Redactor.plain_secret sec →
  match Prepare o inp with
  | Some (Ok r) => sec ∈ prRedact r ∧ Redactor.inv (prRedact r) ∧
      ∀ p a, p ∈ prPlans r → a ∈ plActions p → ¬ occurs sec (aDisplay a)
  | Some (Err msg) => ¬ occurs sec msg
  | None => False
  end.
Proof.
  intros Hj Ha Hd Ht Hs Hl Hp.
  destruct (Prepare_outcome o inp Hj Ha Hd) as (r & issues & Hr & Hk & _ & Hout).
  specialize (Hk t sec Ht Hs Hl).
  destruct issues as [|i rest]; [|rewrite Hout; by apply Redactor.redact_out].
  destruct Hout as (ps & -> & Hall). do 2 (split; [done|]). simpl. intros p a Hin Hact.
  apply list_elem_of_lookup in Hin as [i Hi].
  destruct (Forall2_lookup_r _ _ _ _ _ Hall Hi) as (t' & _ & [_ (vs & ss & acts & _ & _ & Hacts) _ _]).
  rewrite Hacts in Hact. apply list_elem_of_fmap in Hact as (a0 & -> & _). simpl.
  by apply Redactor.redact_out.
Qed.

Lemma Prepare_plans_run (o : Options) (inp : Input) (r : Prepared Signer) (p : Plan Signer) :
  valid_job (inpJob inp) → named_apart (inpTargets inp) →
  opSkipCredentials o = false → (0 ≤ opMaxRetryDelay o < 2 ^ 63)%Z →
  Prepare o inp = Some (Ok r) → p ∈ prPlans r →
  runnable o (wait_fuel MaxTimeout) p.
Proof.
  intros Hj Ha Hskip Hdelay E Hin.
  assert (Hall : Forall2 (prepared o inp (Redactor.redact (prRedact r))) (inpTargets inp) (prPlans r)).
  { assert (Hd : declared inp).
    { apply unknown_flags_nil. unfold Prepare in E. by destruct (unknown_flags inp). }
    destruct (Prepare_outcome o inp Hj Ha Hd) as (r' & [|i rest] & _ & _ & _ & Hp); [|congruence].
    destruct Hp as (ps & Hp & Hall). rewrite Hp in E. by injection E as <-. }
  apply list_elem_of_lookup in Hin as [i Hi].
  destruct (Forall2_lookup_r _ _ _ _ _ Hall Hi) as (t & _ & [Ht (vs & ss & acts & _ & Hb & Hacts) H3 H4]).
  split; [split|exact Hdelay|].
  - destruct (end_auth_readable _ _ _ Hskip H3) as (a & _ & ->). by exists a.
  - rewrite Ht. intros [b Hbst]. rewrite Hbst in H4.
    destruct (end_auth_readable _ _ _ Hskip H4) as (a & _ & ->). by exists a.
  - intros a Hact Hdis. rewrite Hacts in Hact. apply list_elem_of_fmap in Hact as (a0 & -> & Hin0).
    simpl in Hdis |- *. destruct (Build_actions (inpJob inp) vs (settings o) Hj) as (x & Hx & Hv).
    unfold builds in Hb. rewrite Hb in Hx. injection Hx as <-. destruct Hv as [Hlen Hv].
    apply list_elem_of_lookup in Hin0 as [m Hm].
    destruct (lookup_lt_is_Some_2 (jSteps (inpJob inp)) m) as [st Hst].
    { rewrite <- Hlen. by eapply lookup_lt_Some. }
    pose proof (va_reconnect _ _ _ _ (Hv m st a0 Hst Hm) Hdis) as Hrt.
    apply wait_fuel_mono, Hrt.
Qed.

(** What [Prepare] returns with credentials can be run: every plan
    satisfies what the theorems about [runHost] assume, so no host's run panics or
    waits for ever. *)
Theorem Prepare_runnable (o : Options) (inp : Input) (r : Prepared Signer) (p : Plan Signer) :
  valid_job (inpJob inp) → named_apart (inpTargets inp) →
  opSkipCredentials o = false → (0 ≤ opMaxRetryDelay o < 2 ^ 63)%Z →
  Prepare o inp = Some (Ok r) → p ∈ prPlans r →
  runnable o (wait_fuel MaxTimeout) p.
Proof. apply Prepare_plans_run. Qed.
End prepare.

(** ** A concrete run: two hosts, one of them behind a bastion *)

Definition prep_env (var : string) : option string :=
  if bool_decide (var = "PW") then Some "hunter2"
  else if bool_decide (var = "TOK") then Some "t0ken" else None.
Definition prep_keys : key_env (Signer := unit) :=
  mkKeyEnv (Some "/home/u") (λ _, Err "no such file") (λ _, Err OtherKeyError)
    (λ _ _, Err OtherKeyError).
Definition prep_credential : Credential := mkCredential "main" "password" "admin" "PW" "" "" "".
Definition prep_target (name version : string) (bastion : option Endpoint) : Target :=
  mkTarget (mkEndpoint name "10.0.0.7" 22 "admin" prep_credential) "" []
    {[ "version" := version ]} bastion.
Definition prep_input : Input :=
  mkInput Build.example_job
    [prep_target "web1" "1.2" None;
     prep_target "web2" "hunter2" (Some (mkEndpoint "jump" "10.0.0.1" 22 "admin" prep_credential))]
    ∅ {[ "token" := "TOK" ]}.
Definition prep_options : Options :=
  mkOptions 10 (10 * second) (15 * second) (5 * minute) 2 (2 * second) (30 * second) 1024
    "~/.ssh/known_hosts" false false false 0 0.

Lemma prep_apart : named_apart (inpTargets prep_input).
Proof.
  assert (∀ t c, t ∈ inpTargets prep_input → c ∈ target_creds t → c = prep_credential) as H.
  { intros t c Ht Hc. simpl in Ht.
    apply elem_of_cons in Ht as [->|Ht]; [by apply list_elem_of_singleton in Hc|].
    apply list_elem_of_singleton in Ht as ->. unfold target_creds in Hc. simpl in Hc.
    apply elem_of_cons in Hc as [->|Hc]; [done|by apply list_elem_of_singleton in Hc]. }
  intros t1 t2 c1 c2 Ht1 Ht2 Hc1 Hc2 _. by rewrite (H t1 c1), (H t2 c2).
Qed.

Definition prep_displays (r : option (res string (Prepared unit))) : list (list string) :=
  match r with Some (Ok r) => map (λ p, map aDisplay (plActions p)) (prPlans r) | _ => [] end.

(** The second host's version happens to be the password. *)
Example prep_example :
  prep_displays (@Prepare default_runtime unit prep_keys prep_env prep_options prep_input) =
  [["install 1.2"; "[SENSITIVE]"; "script run.sh"; "reboot"; "poweroff"];
   ["install [REDACTED]"; "[SENSITIVE]"; "script run.sh"; "reboot"; "poweroff"]].
Proof. by vm_compute. Qed.

(** All the problems are reported at once, and none with a secret. *)
Example prep_problems :
  @Prepare default_runtime unit prep_keys prep_env prep_options
    (mkInput Build.example_job
       [prep_target "web1" ("hunter2" +:+ newline) None; prep_target "web2" "1.2" None]
       ∅ {[ "token" := "NONE" ]}) =
  let unset := "required variable " +:+ dquote +:+ "token" +:+ dquote +:+ " is not set; variable " +:+
    dquote +:+ "token" +:+ dquote +:+ ": environment variable NONE is not set" in
  Some (Err ("web1: job invalid: " +:+ unset +:+ "; variable " +:+ dquote +:+ "version" +:+ dquote +:+
    ": value contains control character U+000A" +:+ newline +:+ "web2: job invalid: " +:+ unset)).
Proof. by vm_compute. Qed.


Lemma prep_secret : @secret_of default_runtime unit prep_keys prep_env prep_options prep_input
  (prep_target "web1" "1.2" None) "t0ken".
Proof.
  eexists _, ["t0ken"; "t0ken"]. split; [by vm_compute|]. left. apply list_elem_of_here.
Qed.

Lemma Prepare_hides_witness :
  match @Prepare default_runtime unit prep_keys prep_env prep_options prep_input with
  | Some (Ok r) => "t0ken" ∈ prRedact r
  | _ => False
  end.
Proof.
  pose proof (@Prepare_hides default_runtime unit prep_keys prep_env prep_options prep_input
    (prep_target "web1" "1.2" None) "t0ken" Build.example_job_valid prep_apart) as H.
  destruct (@Prepare default_runtime unit prep_keys prep_env prep_options prep_input) as [[r|msg]|] eqn:E;
    [|vm_compute in E; discriminate E|vm_compute in E; discriminate E].
  apply H.
  - apply (@unknown_flags_nil default_runtime). by vm_compute.
  - apply list_elem_of_here.
  - exact prep_secret.
  - unfold MinSecretLen. simpl. lia.
  - repeat split; apply (bool_decide_unpack _); by vm_compute.
Defined.

Definition prep_plans (r : option (res string (Prepared unit))) : list (Plan unit) :=
  match r with Some (Ok r) => prPlans r | _ => [] end.

Lemma prep_delay : (0 ≤ opMaxRetryDelay prep_options < 2 ^ 63)%Z.
Proof. by vm_compute. Qed.

Lemma Prepare_runnable_witness :
  let plans := prep_plans (@Prepare default_runtime unit prep_keys prep_env prep_options prep_input) in
  length plans = 2 ∧ Forall (runnable prep_options (wait_fuel MaxTimeout)) plans.
Proof.
  intros plans. split; [by vm_compute|]. unfold plans, prep_plans. clear plans.
  destruct (@Prepare default_runtime unit prep_keys prep_env prep_options prep_input) as [[r|msg]|] eqn:E;
    [|constructor|constructor].
  apply Forall_forall. intros p Hp.
  exact (@Prepare_runnable default_runtime unit prep_keys prep_env prep_options prep_input r p
    Build.example_job_valid prep_apart eq_refl prep_delay E Hp).
Defined.
