(* ===== verification/Reports.v ===== *)
(** * Reports: streamed reports and reruns ([internal/cli/reports.go])

    A [.jsonl] report gets one line per host as soon as the host is done, and a
    summary line at the end; [--only-failed] reads a report back and keeps the
    hosts that did not succeed.

    The file system, [encoding/json] and the YAML decoder are parameters.  The
    calls of [line] hold the mutex, so a stream is the sequence of its calls. *)

From S2P Require Import Prelude GoStd Domain Report Runner.

(** ** File extensions *)

(** [strings.ToLower] of an ASCII letter. *)
Definition ascii_lower (c : ascii) : ascii :=
  if in_range "A" "Z" c then ascii_of_N (byte_val c + 32) else c.
Fixpoint str_lower (s : string) : string :=
  match s with "" => "" | String c s => String (ascii_lower c) (str_lower s) end.

(** [strings.EqualFold s ".jsonl"]: Unicode folds the long s (U+017F, the bytes
    C5 BF) to the letter s; no other letter of the extension has such a form. *)
Fixpoint fold_s (s : string) : string :=
  match s with
  | String c (String d s' as t) =>
      if bool_decide (byte_val c = 197%N ∧ byte_val d = 191%N) then String "s" (fold_s s')
      else String c (fold_s t)
  | _ => s
  end.
Definition is_jsonl (ext : string) : bool := bool_decide (str_lower (fold_s ext) = ".jsonl").

(** ** jsonlStream *)

Section stream.
Context {W : Type}.

(** What a file offers: writing, and closing it. *)
Record file_ops := {
  file_open : string → W → option string * W;        (* os.OpenFile, truncating *)
  file_write : string → W → option string * W;
  file_close : W → option string * W;
}.
Context (ops : file_ops).

(** The first error is kept. *)
Record jsonlStream := mkStream { jsErr : option string }.

Definition keep_err (st : jsonlStream) (e : option string) : jsonlStream :=
  match jsErr st with Some _ => st | None => mkStream e end.

(** [openStream]: nothing for another extension. *)
Definition openStream (path : string) (w : W) : res string (option jsonlStream) * W :=
  if negb (is_jsonl (path_ext path)) then (Ok None, w)
  else match file_open ops path w with
  | (Some e, w) => (Err e, w)
  | (None, w) => (Ok (Some (mkStream None)), w)
  end.

(** [line], given what [json.Marshal] returns. *)
Definition line (data : res string string) (st : jsonlStream) (w : W) : jsonlStream * W :=
  match data with
  | Err e => (keep_err st (Some e), w)
  | Ok d => let '(e, w) := file_write ops (d +:+ newline) w in (keep_err st e, w)
  end.

(** [close]: the summary line, then the file. *)
Definition close (summary : res string string) (st : jsonlStream) (w : W) : option string * W :=
  let '(st, w) := line summary st w in
  let '(e, w) := file_close ops w in
  (jsErr (keep_err st e), w).

(** [OnHostDone] for each host, in the order of the calls. *)
Fixpoint lines (data : list (res string string)) (st : jsonlStream) (w : W) : jsonlStream * W :=
  match data with
  | [] => (st, w)
  | d :: data => let '(st, w) := line d st w in lines data st w
  end.
End stream.

(** ** onlyFailed *)

(** A report that was read back: the job and the status of each host. *)
Record prevHost := mkPrev { pvHost : string; pvStatus : string }.
Record prevReport := mkPrevReport { prJob : string; prHosts : list prevHost }.

(** What the decoders see: a line with the fields host, status and job, and a
    whole document. *)
Record decoders := {
  json_line : string → res string (prevHost * string);
  json_report : string → res string prevReport;
  yaml_report : string → res string prevReport;
}.

(** [bufio.ScanLines] without its buffer. *)
Definition drop_cr (s : string) : string :=
  match before_last "013" s with
  | Some b => if bool_decide (s = b +:+ String "013" "") then b else s
  | None => s
  end.
Fixpoint scan_lines (l : list string) : list string :=
  match l with
  | [] | [""] => []
  | s :: l => s :: scan_lines l
  end.
(** The scanner's buffer: a longer line is an error. *)
Definition max_line : Z := Z.shiftl 64 20.
Definition too_long : string := "bufio.Scanner: token too long".

(** The loop over the lines of a [.jsonl] report. *)
Fixpoint read_lines (d : decoders) (path : string) (l : list string) (prev : prevReport)
    : res string prevReport :=
  match l with
  | [] => Ok prev
  | s :: l =>
      if (max_line <=? Z.of_nat (String.length s))%Z then Err (path +:+ ": " +:+ too_long)
      else match json_line d (drop_cr s) with
      | Err e => Err (path +:+ ": " +:+ e)
      | Ok (h, job) =>
          read_lines d path l
            (mkPrevReport (if bool_decide (job = "") then prJob prev else job)
               (if bool_decide (pvHost h = "") then prHosts prev else prHosts prev ++ [h]))
      end
  end.

Definition read_report (d : decoders) (path data : string) : res string prevReport :=
  let ext := str_lower (path_ext path) in
  let with_path (r : res string prevReport) :=
    match r with Err e => Err (path +:+ ": " +:+ e) | _ => r end in
  if bool_decide (ext = ".jsonl") then
    read_lines d path (scan_lines (split_char "010" data)) (mkPrevReport "" [])
  else if bool_decide (ext = ".yaml" ∨ ext = ".yml") then with_path (yaml_report d data)
  else with_path (json_report d data).

(** The map [retry]: the last entry of a host decides. *)
Definition retry (hosts : list prevHost) : gmap string bool :=
  foldl (λ m h, <[pvHost h := negb (bool_decide (pvStatus h = status_string StatusSuccess))]> m)
    ∅ hosts.

(** [onlyFailed], without its two log lines. *)
Definition onlyFailed (os_read : string → res string string) (d : decoders) (path : string)
    (targets : list Target) : res string (list Target) :=
  let? data := os_read path in
  let? prev := read_report d path data in
  Ok (filter (λ t, default false (retry (prHosts prev) !! tName t) = true) targets).

(** ** Properties of the stream *)

Section stream_properties.
Context {W : Type} (ops : @file_ops W).

(** The world after writing every line, if each one can be marshalled and
    written. *)
Fixpoint written (data : list (res string string)) (w : W) : option W :=
  match data with
  | [] => Some w
  | Ok d :: data =>
      match file_write ops (d +:+ newline) w with (None, w) => written data w | _ => None end
  | Err _ :: _ => None
  end.

Lemma keep_no_err st : keep_err st None = st.
Proof. by destruct st as [[e|]]. Qed.
Lemma keep_an_err st e : jsErr (keep_err st (Some e)) ≠ None.
Proof. by destruct st as [[e'|]]. Qed.
Lemma keep_old_err st e : jsErr st ≠ None → jsErr (keep_err st e) ≠ None.
Proof. by destruct st as [[e'|]]. Qed.

Lemma line_spec d st w :
  match written [d] w with
  | Some w' => line ops d st w = (st, w')
  | None => jsErr (line ops d st w).1 ≠ None
  end.
Proof.
  unfold line. destruct d as [d|e]; simpl; [|apply keep_an_err].
  destruct (file_write ops (d +:+ newline) w) as [[e|] w']; simpl; [apply keep_an_err|].
  by rewrite keep_no_err.
Qed.

Lemma line_keeps d st w : jsErr st ≠ None → jsErr (line ops d st w).1 ≠ None.
Proof.
  intros Hst. unfold line. destruct d as [d|e]; simpl; [|by apply keep_old_err].
  destruct (file_write ops _ w) as [e w']. by apply keep_old_err.
Qed.

Lemma lines_keeps data st w : jsErr st ≠ None → jsErr (lines ops data st w).1 ≠ None.
Proof.
  revert st w. induction data as [|d data IH]; intros st w Hst; simpl; [done|].
  pose proof (line_keeps d st w Hst) as Hl. destruct (line ops d st w) as [st' w']. by apply IH.
Qed.

Lemma written_cons d data w : written (d :: data) w = written [d] w ≫= written data.
Proof. destruct d as [d|e]; simpl; [|done]. by destruct (file_write _ _ _) as [[e|] w']. Qed.

Lemma written_app data1 data2 w :
  written (data1 ++ data2) w = written data1 w ≫= written data2.
Proof.
  revert w. induction data1 as [|d data1 IH]; intros w; [done|].
  change ((d :: data1) ++ data2) with (d :: (data1 ++ data2)).
  rewrite written_cons, (written_cons d data1). destruct (written [d] w); [apply IH|done].
Qed.

Lemma lines_spec data st w :
  match written data w with
  | Some w' => lines ops data st w = (st, w')
  | None => jsErr (lines ops data st w).1 ≠ None
  end.
Proof.
  revert st w. induction data as [|d data IH]; intros st w; [done|].
  rewrite written_cons. pose proof (line_spec d st w) as Hl.
  change (lines ops (d :: data) st w) with (let '(st, w) := line ops d st w in lines ops data st w).
  destruct (written [d] w) as [w1|].
  - rewrite Hl. apply IH.
  - destruct (line ops d st w) as [st' w']. by apply lines_keeps.
Qed.

(** C28: [close] reports no error exactly when every result and the summary
    could be marshalled and written, one line each in the order of the calls, and
    the file could be closed: nothing is lost silently, even if other lines
    follow. *)
Theorem close_reports (path : string) (w w1 w3 : W) (st : jsonlStream)
    (data : list (res string string)) (summary : res string string) :
  openStream ops path w = (Ok (Some st), w1) →
  let '(st', w2) := lines ops data st w1 in
  close ops summary st' w2 = (None, w3) ↔
  ∃ w', written (data ++ [summary]) w1 = Some w' ∧ file_close ops w' = (None, w3).
Proof.
  unfold openStream. destruct (negb _); [done|]. destruct (file_open ops path w) as [[e|] w0]; [done|].
  intros [= <- <-]. pose proof (lines_spec data (mkStream None) w0) as Hls. rewrite written_app.
  destruct (written data w0) as [wd|].
  - change (Some wd ≫= written [summary]) with (written [summary] wd). rewrite Hls. unfold close. pose proof (line_spec summary (mkStream None) wd) as Hl.
    destruct (written [summary] wd) as [w4|].
    + rewrite Hl. destruct (file_close ops w4) as [[e|] w5] eqn:Ec; simpl.
      * split; [discriminate|]. intros (w' & [= <-] & Hc). congruence.
      * split; [|intros (w' & [= <-] & Hc); congruence]. intros [= <-]. by exists w4.
    + destruct (line ops summary (mkStream None) wd) as [st2 w4].
      destruct (file_close ops w4) as [e w5]. split; [|by intros (w' & Hw & _)].
      intros [= Hk _]. by destruct (keep_old_err _ e Hl).
  - destruct (lines ops data (mkStream None) w0) as [st' w2]. simpl in Hls.
    unfold close. pose proof (line_keeps summary st' w2 Hls) as Hl.
    destruct (line ops summary st' w2) as [st2 w4]. destruct (file_close ops w4) as [e w5].
    split; [|by intros (w' & Hw & _)]. intros [= Hk _]. by destruct (keep_old_err _ e Hl).
Qed.
End stream_properties.

(** ** Properties of onlyFailed *)

(** The status of a host in a report: its last entry. *)
Definition last_status (hosts : list prevHost) (name : string) : option string :=
  foldl (λ acc h, if bool_decide (pvHost h = name) then Some (pvStatus h) else acc) None hosts.

Lemma retry_spec hosts name :
  retry hosts !! name =
  (λ s, negb (bool_decide (s = status_string StatusSuccess))) <$> last_status hosts name.
Proof.
  unfold retry, last_status. induction hosts as [|h hosts IH] using rev_ind; [done|].
  rewrite !foldl_app. cbn [foldl]. destruct (decide (pvHost h = name)) as [E|E].
  - rewrite (bool_decide_true (pvHost h = name)) by done. subst name. by rewrite lookup_insert_eq.
  - rewrite (bool_decide_false (pvHost h = name)) by done. by rewrite lookup_insert_ne.
Qed.

Lemma last_status_Some hosts name s :
  NoDup (map pvHost hosts) →
  last_status hosts name = Some s ↔ ∃ h, h ∈ hosts ∧ pvHost h = name ∧ pvStatus h = s.
Proof.
  unfold last_status. induction hosts as [|h hosts IH] using rev_ind; intros Hn.
  { split; [done|]. by intros (h & Hh%elem_of_nil & _). }
  rewrite map_app in Hn. apply NoDup_app in Hn as (Hn & Hd & _).
  rewrite foldl_app. simpl. case_bool_decide as E.
  - split; [intros [= <-]; exists h; split; [set_solver|done]|].
    intros (h' & [Hin|Hin%list_elem_of_singleton]%elem_of_app & Hname & <-); [|by subst].
    exfalso. apply (Hd name); [rewrite <- Hname|rewrite <- E]; simpl; [|apply list_elem_of_here].
    by apply list_elem_of_fmap_2.
  - rewrite IH by done. split.
    + intros (h' & Hin & ?). exists h'. split; [set_solver|done].
    + intros (h' & [Hin|Hin%list_elem_of_singleton]%elem_of_app & Hname & ?); [by exists h'|by subst].
Qed.

Lemma split_char_app c s r : has_char c s = false → split_char c (s +:+ String c r) = s :: split_char c r.
Proof.
  unfold has_char. intros Hs%negb_false_iff. revert Hs.
  induction s as [|a s IH]; intros Hs.
  - change (split_char c (String c r) = "" :: split_char c r). simpl. by rewrite decide_True.
  - simpl in Hs. apply andb_true_iff in Hs as [Ha%negb_true_iff Hs]. apply bool_decide_eq_false in Ha.
    rewrite str_app_cons. simpl. rewrite decide_False by done. by rewrite IH.
Qed.

(** Reading lines back. *)
Lemma scan_lines_join l :
  Forall (λ s, has_char "010" s = false ∧ s ≠ "") l →
  scan_lines (split_char "010" (str_join "" (map (λ s, s +:+ newline) l))) = l.
Proof.
  assert (∀ l, str_join "" (map (λ s, s +:+ newline) l) = foldr (λ s r, s +:+ String "010" r) "" l) as Hj.
  { clear. induction l as [|s l IH]; [done|]. simpl.
    destruct l as [|s' l]; [done|]. simpl in *. rewrite IH, str_app_nil_l.
    unfold newline. by rewrite str_app_assoc. }
  rewrite Hj. induction 1 as [|s l [Hs Hne] _ IH]; [done|]. simpl.
  rewrite split_char_app by done. simpl. destruct s; [done|]. by rewrite IH.
Qed.

Lemma drop_cr_absent s : has_char "013" s = false → drop_cr s = s.
Proof. intros Hs. unfold drop_cr. by rewrite before_last_absent. Qed.

Section rerun.
Context (d : decoders) (enc : HostResult → string) (summary job : string).

(** What the code relies on of [encoding/json]: a line reads back as what was
    written (the summary has no host), and holds no line break.  A line has to
    fit the scanner's buffer. *)
Record reads_back (s : string) (h : prevHost) (job : string) : Prop := {
  rb_line : json_line d s = Ok (h, job);
  rb_break : has_char "010" s = false ∧ has_char "013" s = false ∧ s ≠ "";
  rb_length : (Z.of_nat (String.length s) < max_line)%Z;
}.

Definition prev_of (h : HostResult) : prevHost := mkPrev (hrHost h) (status_string (hrStatus h)).

(** The file that a stream leaves. *)
Definition stream_file (hs : list HostResult) : string :=
  str_join "" (map (λ s, s +:+ newline) (map enc hs ++ [summary])).

Lemma read_lines_hosts path hs prev l :
  Forall (λ h, hrHost h ≠ "" ∧ reads_back (enc h) (prev_of h) "") hs →
  read_lines d path (map enc hs ++ l) prev =
  read_lines d path l (mkPrevReport (prJob prev) (prHosts prev ++ map prev_of hs)).
Proof.
  revert prev. induction hs as [|h hs IH]; intros prev Hall; simpl.
  { rewrite app_nil_r. by destruct prev. }
  apply Forall_cons in Hall as [[Hne [Hd (_ & Hcr & _) Hl]] Hall].
  rewrite (proj2 (Z.leb_gt _ _)), drop_cr_absent, Hd by done.
  rewrite bool_decide_true, bool_decide_false by done. rewrite IH by done. simpl.
  by rewrite <- app_assoc.
Qed.

Lemma status_string_success s : status_string s = status_string StatusSuccess ↔ s = StatusSuccess.
Proof. by destruct s. Qed.

(** A target with a result that is not a success. *)
Definition unsuccessful (hs : list HostResult) (t : Target) : bool :=
  existsb (λ h, bool_decide (hrHost h = tName t ∧ hrStatus h ≠ StatusSuccess)) hs.

Lemma retry_hosts hs name :
  NoDup (map hrHost hs) →
  default false (retry (map prev_of hs) !! name) =
  existsb (λ h, bool_decide (hrHost h = name ∧ hrStatus h ≠ StatusSuccess)) hs.
Proof.
  intros Hn. assert (NoDup (map pvHost (map prev_of hs))) as Hn' by by rewrite map_map.
  rewrite retry_spec. apply eq_bool_prop_intro.
  destruct (last_status (map prev_of hs) name) as [s|] eqn:E; simpl; split.
  - apply last_status_Some in E as (p & Hp & <- & <-); [|done].
    apply list_elem_of_fmap in Hp as (h & -> & Hh). simpl. intros Hs%Is_true_true%negb_true_iff.
    apply bool_decide_eq_false in Hs. apply Is_true_true, existsb_exists. exists h.
    split; [by apply list_elem_of_In|]. apply bool_decide_eq_true. split; [done|].
    intros Hst. apply Hs. by rewrite Hst.
  - intros Hex%Is_true_true%existsb_exists. destruct Hex as (h & Hh%list_elem_of_In & Hb).
    apply bool_decide_eq_true in Hb as [Hname Hst].
    assert (last_status (map prev_of hs) name = Some (status_string (hrStatus h))) as E'.
    { apply last_status_Some; [done|]. exists (prev_of h). split; [by apply list_elem_of_fmap_2|done]. }
    rewrite E in E'. injection E' as ->. apply Is_true_true, negb_true_iff, bool_decide_eq_false.
    by rewrite status_string_success.
  - done.
  - intros Hex%Is_true_true%existsb_exists. destruct Hex as (h & Hh%list_elem_of_In & Hb).
    apply bool_decide_eq_true in Hb as [Hname _].
    assert (last_status (map prev_of hs) name = Some (status_string (hrStatus h))) as E'.
    { apply last_status_Some; [done|]. exists (prev_of h). split; [by apply list_elem_of_fmap_2|done]. }
    congruence.
Qed.

(** C30: reading back a stream that [rco] wrote, [--only-failed] keeps, in
    their order, exactly the targets with a result that is not a success: failed,
    cancelled and skipped hosts are run again, succeeded ones never. *)
Theorem onlyFailed_rerun (os_read : string → res string string) (path : string)
    (hs : list HostResult) (targets : list Target) :
  str_lower (path_ext path) = ".jsonl" →
  os_read path = Ok (stream_file hs) →
  Forall (λ h, hrHost h ≠ "" ∧ reads_back (enc h) (prev_of h) "") hs →
  reads_back summary (mkPrev "" "") job →
  NoDup (map hrHost hs) →
  onlyFailed os_read d path targets = Ok (filter (λ t, unsuccessful hs t = true) targets).
Proof.
  intros Hext Hread Hhs [Hsd (Hs1 & Hs2 & Hs3) Hs4] Hn. unfold onlyFailed. rewrite Hread. simpl.
  unfold read_report. rewrite bool_decide_true by done. unfold stream_file.
  rewrite scan_lines_join.
  2: { apply Forall_app. split; [|by repeat constructor]. apply Forall_fmap.
    eapply Forall_impl; [exact Hhs|]. intros h [_ [_ (H1 & _ & H3) _]]. done. }
  rewrite read_lines_hosts by done. simpl.
  rewrite (proj2 (Z.leb_gt _ _)), drop_cr_absent, Hsd by done. simpl.
  f_equal. apply list_filter_iff. intros t. unfold unsuccessful. by rewrite retry_hosts.
Qed.
End rerun.

(** ** A concrete report *)

Definition rep_host (name : string) (st : Status) : HostResult :=
  mkHostResult name "" st "" None "" 1 0 [].
Definition rep_hosts : list HostResult :=
  [rep_host "web2" StatusFailed; rep_host "web1" StatusSuccess; rep_host "web3" StatusSkipped].
Definition rep_enc (h : HostResult) : string := "h " +:+ hrHost h +:+ " " +:+ status_string (hrStatus h).
Definition rep_line (s : string) : res string (prevHost * string) :=
  match split_char " " s with
  | ["h"; name; status] => Ok (mkPrev name status, "")
  | ["s"; job] => Ok (mkPrev "" "", job)
  | _ => Err "bad line"
  end.
Definition rep_decoders : decoders :=
  {| json_line := rep_line; json_report _ := Err "bad"; yaml_report _ := Err "bad" |}.
Definition rep_target (name : string) : Target :=
  mkTarget (mkEndpoint name "" 22 "" (mkCredential "" "" "" "" "" "" "")) "" [] ∅ None.

Lemma onlyFailed_rerun_witness :
  onlyFailed (λ _, Ok (stream_file rep_enc "s deploy" rep_hosts)) rep_decoders "out.JSONL"
    (map rep_target ["web1"; "web2"; "web3"; "web4"]) = Ok (map rep_target ["web2"; "web3"]).
Proof.
  rewrite (onlyFailed_rerun rep_decoders rep_enc "s deploy" "deploy" _ _ rep_hosts); [done|done|done| | |].
  - repeat constructor; done.
  - by split.
  - by vm_compute; repeat constructor; set_solver.
Defined.

(** A world that keeps the file as a text and whose disk is full after a while. *)
Definition disk : @file_ops (string * nat) :=
  {| file_open _ w := (None, ("", snd w));
     file_write s w := if bool_decide (String.length (fst w +:+ s) ≤ snd w)
       then (None, (fst w +:+ s, snd w)) else (Some "no space left on device", w);
     file_close w := (None, w) |}.
Definition rep_data : list (res string string) := map (λ h, Ok (rep_enc h)) rep_hosts.

Lemma close_reports_witness :
  let '(st, w) := lines disk rep_data (mkStream None) ("", 100) in
  close disk (Ok "s deploy") st w = (None, (stream_file rep_enc "s deploy" rep_hosts, 100)).
Proof.
  pose proof (close_reports disk "r.jsonl" ("old", 100) ("", 100)
    (stream_file rep_enc "s deploy" rep_hosts, 100) (mkStream None) rep_data (Ok "s deploy") eq_refl) as H.
  destruct (lines disk rep_data (mkStream None) ("", 100)) as [st w] eqn:E. apply H.
  eexists. split; [vm_compute; reflexivity|vm_compute; reflexivity].
Defined.

Example full_disk :
  let '(st, w) := lines disk rep_data (mkStream None) ("", 20) in
  fst (close disk (Ok "s deploy") st w) = Some "no space left on device".
Proof. by vm_compute. Qed.
