(* ===== verification/Cli.v ===== *)
(** * Cli: the flow of a command ([internal/cli/cli.go])

    [Main] dispatches; [run] checks everything it can, prints a preview or runs the
    job, and returns the exit code.  A run's effects are a list: texts on the two
    streams, the report file, and [Contact], the only point where hosts are
    contacted ([Runner.Run]).

    The flags are those of [Flags], parsed by [Parse].  What reads and decodes
    files, the encoders, [text/tabwriter] and the run itself are the fields of
    [cli_env]. *)

From stdpp Require Import gmap.
From S2P Require Import Prelude GoStd Files Inventory Domain Variables MaxFailures Job.
From S2P Require Import JobLoad Build Credentials Report Runner Flags.
From S2P Require Import TransportSpec StepSpec ConnectSpec RunnerSpec Prepare Reports.

(** ** Exit codes and version *)

Definition ExitOK : Z := 0.
Definition ExitError : Z := 1.
Definition ExitHostsFailed : Z := 2.

(** [version]: the linked version, else the version of the module if the build
    information has one. *)
Definition version (Version : string) (read : option string) : string :=
  if negb (bool_decide (Version = "dev")) then Version
  else match read with
  | Some v => if negb (bool_decide (v = "")) && negb (bool_decide (v = "(devel)")) then v else Version
  | None => Version
  end.

(** ** Pairs *)

(** [pairs]: a later pair replaces an earlier one of the same name. *)
Fixpoint pairs_from (l : list string) (flagName : string) (out : gmap string string)
    `{GoRuntime} : res string (gmap string string) :=
  match l with
  | [] => Ok out
  | kv :: l =>
      match cut_char "=" kv with
      | Some (k, v) =>
          if bool_decide (k = "") then
            Err (flagName +:+ " " +:+ quote kv +:+ ": expected NAME=VALUE")
          else pairs_from l flagName (<[k := v]> out)
      | None => Err (flagName +:+ " " +:+ quote kv +:+ ": expected NAME=VALUE")
      end
  end.
Definition pairs `{GoRuntime} (l : list string) (flagName : string) : res string (gmap string string) :=
  pairs_from l flagName ∅.

(** ** Texts *)

Definition dash (s : string) : string := if bool_decide (s = "") then "-" else s.

Definition tab : string := String "009" "".

(** One stream of a step: every line with its prefix, tabs as four spaces. *)
Definition stream_lines (prefix text : string) : list string :=
  if bool_decide (text = "") then []
  else map (λ l, prefix +:+ replace_all l tab "    ") (split_char "010" text).
Definition outputLines (stdout stderr : string) : list string :=
  stream_lines "| " stdout ++ stream_lines "! " stderr.

(** The rows of a host in the table, as they are given to the tab writer. *)
Definition row (cells : list string) : string := str_join tab cells +:+ newline.
Definition step_rows (i : nat) (s : StepResult) : list string :=
  [row ["  " +:+ itoa (Z.of_nat (i + 1)) +:+ ". " +:+ srName s; status_string (srStatus s);
        srCommand s; dash (srReason s); Duration_string (srDuration s)]] ++
  map (λ l, row ["     " +:+ l; ""; ""; ""; ""]) (outputLines (srStdout s) (srStderr s)) ++
  (if bool_decide (srNote s = "") then []
   else [row ["     ~ " +:+ srNote s; ""; ""; ""; ""]]).
Definition host_rows (verbose : bool) (h : HostResult) : list string :=
  [row [hrHost h; status_string (hrStatus h); dash (hrFailedStep h); dash (hrReason h);
        Duration_string (hrDuration h)]] ++
  (if verbose then concat (imap step_rows (hrSteps h)) else []).
Definition table (verbose : bool) (rep : Report) : string :=
  str_join "" (row ["HOST"; "STATUS"; "FAILED STEP"; "REASON"; "DURATION"] ::
    (rpHosts rep ≫= host_rows verbose)).

(** [%.12s]: the first runes of a text. *)
Definition first_runes (n : nat) (s : string) : string := str_join "" (map snd (take n (runes s))).
(** [%-20s]: spaces up to a number of runes. *)
Definition pad_right (n : nat) (s : string) : string :=
  s +:+ str_join "" (replicate (n - length (runes s)) " ").

Definition summary_line (rep : Report) : string :=
  newline +:+ summary_string (rpSummary rep) +:+ " in " +:+ Duration_string (rpDuration rep) +:+
  " (job " +:+ rpJob rep +:+ ", sha256 " +:+ first_runes 12 (rpHash rep) +:+ ")" +:+ newline.

(** ** Previews *)

Record dryStep := mkDryStep {
  dsName : string; dsKind : string; dsCommand : string; dsSudo : bool; dsTimeout : string; dsMode : string;
}.
Record dryHost := mkDryHost {
  dhHost : string; dhAddress : string; dhUser : string; dhBastion : string; dhSteps : list dryStep;
}.

Definition stepMode (a : Action) : string :=
  if aFireAndForget a then "fire and forget"
  else if aReboot a then
    "reboot: wait for new boot ID, up to " +:+ duration_string (aReconnectTimeout a)
  else if aDisconnect a then
    "disconnect: reconnect, up to " +:+ duration_string (aReconnectTimeout a)
  else "".

Definition dry_step (a : Action) : dryStep :=
  mkDryStep (aName a) (aKind a) (aDisplay a) (aSudo a) (duration_string (aTimeout a)) (stepMode a).
Definition dry_host {Signer} (p : Plan Signer) : dryHost :=
  let t := plTarget p in
  mkDryHost (tName t) (Addr (tEndpoint t)) (eUsername (tEndpoint t))
    (match tBastion t with Some b => eName b | None => "" end) (map dry_step (plActions p)).

Definition preview_step (i : nat) (s : dryStep) : string :=
  "  " +:+ itoa (Z.of_nat (i + 1)) +:+ ". " +:+ pad_right 20 (dsName s) +:+ " " +:+
  (if dsSudo s then "[sudo] " else "") +:+ dsCommand s +:+
  (if bool_decide (dsMode s = "") then "" else "   [" +:+ dsMode s +:+ "]") +:+ newline.
Definition preview_host (d : dryHost) : string :=
  dhHost d +:+ " (" +:+ dhUser d +:+ "@" +:+ dhAddress d +:+
  (if bool_decide (dhBastion d = "") then "" else " via " +:+ dhBastion d) +:+ ")" +:+ newline +:+
  str_join "" (imap preview_step (dhSteps d)).
Definition preview (out : list dryHost) (maxFailures : Z) : string :=
  str_join "" (map preview_host out) +:+ newline +:+
  "preview: " +:+ itoa (Z.of_nat (length out)) +:+ " hosts, stop after " +:+ itoa maxFailures +:+
  " failed hosts; nothing was executed. Add --execute to apply." +:+ newline.

(** ** run *)

(** What a command does, in order; [Contact] is [Runner.Run] on the prepared
    plans. *)
Inductive effect (Signer : Type) :=
| Stdout (s : string)
| Stderr (s : string)
| OpenReport (path : string)
| Contact (r : Prepared Signer).
Arguments Stdout {Signer}.
Arguments Stderr {Signer}.
Arguments OpenReport {Signer}.
Arguments Contact {Signer}.

(** The last settings of [run]. *)
Definition run_options (o : Options) (maxFailures : Z) (skip : bool) : Options :=
  mkOptions (opConcurrency o) (opConnectTimeout o) (opHandshakeTimeout o) (opStepTimeout o)
    (opConnectRetries o) (opRetryDelay o) (opMaxRetryDelay o) (opMaxOutput o) (opKnownHosts o)
    (opAcceptNewHosts o) (opInsecure o) skip maxFailures (10 * second).

(** The [switch] over the flags. *)
Definition usage_error `{GoRuntime} (validateOnly : bool) (f : flags) (rest : list string)
    : option string :=
  match rest with
  | a :: _ => Some ("unexpected argument " +:+ quote a)
  | [] =>
      if bool_decide (fJob f = "") then Some "--job is required"
      else if bool_decide (fInv f = []) && negb validateOnly then Some "--inventory is required"
      else if negb (bool_decide (fOutput f ∈ ["table"; "json"; "yaml"])) then
        Some "--output must be table, json or yaml"
      else if (opConcurrency (fOpts f) <? 1)%Z || (opMaxOutput (fOpts f) <? 1024)%Z then
        Some "--concurrency must be >= 1 and --max-output >= 1024"
      else None
  end.

Record cli_env (W Signer : Type) := {
  ceIsDir : string → bool;
  ceOs : open_file;
  ceJobYaml : string → Job * option error;
  ceSha256 : string → string;
  ceInvYaml : yaml_decoder;
  ceRead : string → res string string;
  ceDecoders : decoders;
  ceKeys : key_env (Signer := Signer);
  ceEnv : string → option string;
  ceFile : @file_ops W;
  (** the report of a run, and the results in the order of [OnHostDone] *)
  ceRun : Prepared Signer → Report * list HostResult;
  ceHostJson : HostResult → res string string;
  ceSummaryJson : Report → res string string;
  ceEncode : string → Report → res string string;
  ceEncodePreview : string → list dryHost → res string string;
  ceTab : string → res string string;
}.
Arguments ceIsDir {W Signer}.
Arguments ceOs {W Signer}.
Arguments ceJobYaml {W Signer}.
Arguments ceSha256 {W Signer}.
Arguments ceInvYaml {W Signer}.
Arguments ceRead {W Signer}.
Arguments ceDecoders {W Signer}.
Arguments ceKeys {W Signer}.
Arguments ceEnv {W Signer}.
Arguments ceFile {W Signer}.
Arguments ceRun {W Signer}.
Arguments ceHostJson {W Signer}.
Arguments ceSummaryJson {W Signer}.
Arguments ceEncode {W Signer}.
Arguments ceEncodePreview {W Signer}.
Arguments ceTab {W Signer}.

Section run.
Context `{GoRuntime} {W Signer : Type} (env : cli_env W Signer).

Definition load_job (path : string) : res string Job :=
  JobLoad.Load (ceIsDir env) (ceOs env) (ceJobYaml env) (ceSha256 env) path.

(** Failures carry the prefix of the message. *)
Definition prefixed {A} (what : string) (r : res string A) : res string A :=
  match r with Err e => Err (what +:+ e) | Ok a => Ok a end.

(** From the inventory to the targets. *)
Definition select_targets (f : flags) (j : Job) : res string (list Target) :=
  let? inv := Inventory.Load (ceOs env) (ceInvYaml env) (fInv f) in
  let? targets := Select inv (mkSelector (fGroups f) (fTags f) (fHosts f)) in
  let? targets :=
    (if bool_decide (fOnlyFailed f = "") then Ok targets
     else prefixed "--only-failed: " (onlyFailed (ceRead env) (ceDecoders env) (fOnlyFailed f) targets)) in
  if bool_decide (targets = []) then Err "no hosts match the selectors" else Ok targets.

(** The options and the input of [Prepare]. *)
Definition run_input (validateOnly : bool) (f : flags) (j : Job) (targets : list Target)
    : res string (Options * Input) :=
  let limit := if bool_decide (fMaxFailures f = "") then jMaxFailures j else fMaxFailures f in
  let? m := prefixed "max failures " (ParseMaxFailures limit (zlen targets)) in
  let? vars := pairs (fVars f) "--var" in
  let? varEnv := pairs (fVarEnvs f) "--var-env" in
  Ok (run_options (fOpts f) m (negb (fExecute f) && negb validateOnly),
      mkInput j targets vars varEnv).

Definition printPreview (f : flags) (r : Prepared Signer) : list (effect Signer) * Z :=
  let out := map dry_host (prPlans r) in
  if bool_decide (fOutput f = "table") then
    ([Stdout (preview out (opMaxFailures (prOptions r)))], ExitOK)
  else match ceEncodePreview env (fOutput f) out with
  | Ok s => ([Stdout s], ExitOK)
  | Err _ => ([], ExitError)
  end.

Definition printReport (format : string) (verbose : bool) (rep : Report) : res string string :=
  if bool_decide (format = "table") then
    let? t := ceTab env (table verbose rep) in Ok (t +:+ summary_line rep)
  else ceEncode env format rep.

(** [writeReport] to the file that was opened for [path]. *)
Definition report_format (path : string) : string :=
  if bool_decide (str_lower (path_ext path) ∈ [".yaml"; ".yml"]) then "yaml" else "json".
Definition writeReport (path : string) (rep : Report) (w : W) : option string * W :=
  match ceEncode env (report_format path) rep with
  | Err e => (Some e, snd (file_close (ceFile env) w))
  | Ok s =>
      match file_write (ceFile env) s w with
      | (Some e, w) => (Some e, snd (file_close (ceFile env) w))
      | (None, w) => file_close (ceFile env) w
      end
  end.

(** The report file: a stream, or a file that is written at the end. *)
Definition open_report (path : string) (w : W) : res string (option jsonlStream) * W :=
  match openStream (ceFile env) path w with
  | (Ok None, w) =>
      if bool_decide (path = "") then (Ok None, w)
      else match file_open (ceFile env) path w with
      | (Some e, w) => (Err e, w)
      | (None, w) => (Ok None, w)
      end
  | r => r
  end.
Definition save_report (path : string) (stream : option jsonlStream) (rep : Report)
    (results : list HostResult) (w : W) : option string * W :=
  match stream with
  | Some st =>
      let '(st, w) := lines (ceFile env) (map (ceHostJson env) results) st w in
      Reports.close (ceFile env) (ceSummaryJson env rep) st w
  | None => if bool_decide (path = "") then (None, w) else writeReport path rep w
  end.

Definition error_line (msg : string) : effect Signer := Stderr ("error: " +:+ msg +:+ newline).

(** The hosts are contacted, the report is saved and printed. *)
Definition execute (f : flags) (r : Prepared Signer) (w : W) : list (effect Signer) * Z * W :=
  match open_report (fReport f) w with
  | (Err e, w) => ([error_line ("--report: " +:+ e)], ExitError, w)
  | (Ok stream, w) =>
      let opened := if bool_decide (fReport f = "") then [] else [OpenReport (fReport f)] in
      let '(rep, results) := ceRun env r in
      let '(saved, w) := save_report (fReport f) stream rep results w in
      let warning := match saved with
        | Some e => [error_line ("writing report: " +:+ e)] | None => [] end in
      match printReport (fOutput f) (fVerbose f) rep with
      | Err e => (opened ++ [Contact r] ++ warning ++ [error_line e], ExitError, w)
      | Ok s => (opened ++ [Contact r] ++ warning ++ [Stdout s],
                 if OK rep then ExitOK else ExitHostsFailed, w)
      end
  end.

(** The help on one of the streams; [FlagSet.Parse] prints its error and the
    usage. *)
Definition help_on (to : string → effect Signer) (code : Z) (w : W) : option (list (effect Signer) * Z * W) :=
  h ← printHelp (ceTab env); Some ([to h], code, w).
Definition parse_failed (msg : string) : string → effect Signer := λ h, Stderr (msg +:+ newline +:+ h).

(** [run], once the flags are parsed; [None] is a panic. *)
Definition run (validateOnly : bool) (p : parsed) (w : W) : option (list (effect Signer) * Z * W) :=
  match p with
  | ParseHelp => help_on Stderr ExitOK w
  | ParseError msg => help_on (parse_failed msg) ExitError w
  | Parsed f rest =>
      let fail msg := Some ([error_line msg], ExitError, w) in
      match usage_error validateOnly f rest with
      | Some msg => fail msg
      | None =>
          match load_job (fJob f) with
          | Err e => fail e
          | Ok j =>
              if validateOnly && bool_decide (fInv f = []) then
                Some ([Stdout ("job " +:+ quote (jName j) +:+ " is valid (" +:+ itoa (zlen (jSteps j)) +:+
                  " steps, sha256 " +:+ str_take 12 (jHash j) +:+ ")" +:+ newline)], ExitOK, w)
              else match (let? targets := select_targets f j in
                          let? oi := run_input validateOnly f j targets in Ok (targets, oi)) with
              | Err e => fail e
              | Ok (targets, (o, inp)) =>
                  match Prepare (ceKeys env) (ceEnv env) o inp with
                  | None => None
                  | Some (Err e) =>
                      fail ("validation failed, no host was contacted:" +:+ newline +:+ e)
                  | Some (Ok r) =>
                      if validateOnly then
                        Some ([Stdout ("job " +:+ quote (jName j) +:+ " is valid for " +:+
                          itoa (zlen targets) +:+ " hosts" +:+ newline)], ExitOK, w)
                      else if negb (fExecute f) then
                        let '(effs, code) := printPreview f r in Some (effs, code, w)
                      else Some (execute f r w)
                  end
              end
          end
      end
  end.

(** [Main]; [read] is the module version of the build information. *)
Definition Main (Version : string) (read : option string) (args : list string) (w : W)
    : option (list (effect Signer) * Z * W) :=
  match args with
  | [] => help_on Stderr ExitError w
  | cmd :: args =>
      if bool_decide (cmd = "run") then run false (Parse default_flags args) w
      else if bool_decide (cmd = "validate") then run true (Parse default_flags args) w
      else if bool_decide (cmd ∈ ["version"; "--version"]) then
        Some ([Stdout ("rco " +:+ version Version read +:+ newline)], ExitOK, w)
      else if bool_decide (cmd ∈ ["help"; "-h"; "--help"]) then help_on Stdout ExitOK w
      else Some ([Stderr ("unknown command " +:+ quote cmd +:+ " (see rco help)" +:+ newline)], ExitError, w)
  end.
End run.

(** ** Properties *)

(** In the targets of an inventory, a name stands for one credential. *)
Lemma has_credential_unique inv n1 n2 c1 c2 :
  has_credential inv n1 c1 → has_credential inv n2 c2 → cName c1 = cName c2 → c1 = c2.
Proof.
  intros [[<- _] (d1 & E1 & H1 & H2 & H3 & H4 & H5 & H6) _] [[<- _] (d2 & E2 & G1 & G2 & G3 & G4 & G5 & G6) _] Hn.
  rewrite Hn, E2 in E1. injection E1 as ->. destruct c1, c2; simpl in *. congruence.
Qed.

Lemma select_creds `{GoRuntime} inv sel ts t c :
  Select inv sel = Ok ts → t ∈ ts → c ∈ target_creds t → ∃ n, has_credential inv n c.
Proof.
  intros Hr%Select_iff Ht Hc. apply (sr_elements _ _ _ Hr) in Ht as (_ & e & _ & He).
  unfold target_creds in Hc. apply elem_of_cons in Hc as [->|Hc].
  - destruct (rs_credential _ _ _ _ _ He) as (n & _ & Hn). by exists n.
  - destruct (rs_bastion _ _ _ _ _ He) as (n & _ & Hb). destruct (tBastion t) as [b|]; [|by apply elem_of_nil in Hc].
    apply list_elem_of_singleton in Hc as ->. destruct Hb as [_ [_ _ (bb & _ & _ & _ & Hcr & _)]].
    by exists (bCredential bb).
Qed.

Lemma select_apart `{GoRuntime} inv sel ts : Select inv sel = Ok ts → named_apart ts.
Proof.
  intros Hs t1 t2 c1 c2 Ht1 Ht2 Hc1 Hc2.
  destruct (select_creds _ _ _ _ _ Hs Ht1 Hc1) as [n1 H1], (select_creds _ _ _ _ _ Hs Ht2 Hc2) as [n2 H2].
  by eapply has_credential_unique.
Qed.

(** Some host did not succeed. *)
Lemma not_success (hs : list HostResult) :
  ¬ (∀ h, h ∈ hs → hrStatus h = StatusSuccess) → ∃ h, h ∈ hs ∧ hrStatus h ≠ StatusSuccess.
Proof.
  intros Hn. rewrite <- Forall_forall in Hn.
  apply not_Forall_Exists, Exists_exists in Hn; [done|solve_decision].
Qed.

Section run_properties.
Context `{GoRuntime} {W Signer : Type} (env : cli_env W Signer).

Lemma help_on_spec to code w : ∃ h, help_on env to code w = Some ([to h], code, w).
Proof.
  unfold help_on. destruct (printHelp_total (ceTab env)) as [h ->]. by exists h.
Qed.

Lemma load_job_valid path j : load_job env path = Ok j → valid_job j.
Proof.
  intros E. pose proof (Load_job (ceIsDir env) (ceOs env) (ceJobYaml env) (ceSha256 env) path) as Hl.
  unfold load_job in E. rewrite E in Hl. apply Hl.
Qed.

Lemma select_targets_apart f j ts : select_targets env f j = Ok ts → named_apart ts ∧ ts ≠ [].
Proof.
  unfold select_targets. intros (inv & _ & (ts0 & Hs & (ts1 & Hf & Hx)%res_bind_Ok)%res_bind_Ok)%res_bind_Ok.
  case_bool_decide as Hne; [done|]. injection Hx as ->. split; [|done].
  apply select_apart in Hs. case_bool_decide; [by injection Hf as ->|].
  unfold prefixed, onlyFailed in Hf. destruct (let? data := _ in _) as [l|e] eqn:E; [|done].
  injection Hf as ->. apply res_bind_Ok in E as (data & _ & (prev & _ & [= <-])%res_bind_Ok).
  intros t1 t2 c1 c2 [_ H1]%list_elem_of_filter [_ H2]%list_elem_of_filter. by apply Hs.
Qed.

Lemma run_input_job v f j ts o inp :
  run_input v f j ts = Ok (o, inp) →
  inpJob inp = j ∧ inpTargets inp = ts ∧ opSkipCredentials o = negb (fExecute f) && negb v ∧
  opMaxRetryDelay o = opMaxRetryDelay (fOpts f).
Proof.
  unfold run_input. intros (m & _ & (vs & _ & (ve & _ & [= <- <-])%res_bind_Ok)%res_bind_Ok)%res_bind_Ok.
  done.
Qed.

(** Everything that [run] checks before it runs or shows anything. *)
Record checked (v : bool) (f : flags) (j : Job) (ts : list Target) (o : Options) (inp : Input)
    (r : Prepared Signer) : Prop := {
  ck_usage : usage_error v f [] = None;
  ck_job : load_job env (fJob f) = Ok j;
  ck_targets : select_targets env f j = Ok ts;
  ck_input : run_input v f j ts = Ok (o, inp);
  ck_prepare : Prepare (ceKeys env) (ceEnv env) o inp = Some (Ok r);
}.

(** The outcomes of [run]: a message and no plans, or plans that were checked. *)
Lemma run_cases v p w :
  (∃ effs code, run env v p w = Some (effs, code, w) ∧ (code = ExitOK ∨ code = ExitError) ∧
     ∀ r, Contact r ∉ effs) ∨
  ∃ f j ts o inp r, p = Parsed f [] ∧ v = false ∧ fExecute f = true ∧ checked v f j ts o inp r ∧
    run env v p w = Some (execute env f r w).
Proof.
  assert (∀ msg (r : Prepared Signer), Contact r ∉ [error_line (Signer := Signer) msg]) as Hfail.
  { by intros msg r Hin%list_elem_of_singleton. }
  assert (∀ msg (r : Prepared Signer), Contact r ∉ [Stdout (Signer := Signer) msg]) as Hout.
  { by intros msg r Hin%list_elem_of_singleton. }
  assert (∀ r : Prepared Signer, Contact r ∉ []) as Hnil by by intros r ?%elem_of_nil.
  destruct p as [|msg|f rest]; cbn [run].
  { destruct (help_on_spec Stderr ExitOK w) as [h ->]. left. eexists _, _. split; [done|].
    split; [by left|]. by intros r Hin%list_elem_of_singleton. }
  { destruct (help_on_spec (parse_failed msg) ExitError w) as [h ->]. left. eexists _, _. split; [done|].
    split; [by right|]. by intros r Hin%list_elem_of_singleton. }
  destruct (usage_error v f rest) as [msg|] eqn:Eu.
  { left. eexists _, _. split; [done|]. split; [by right|apply Hfail]. }
  assert (rest = []) as -> by by destruct rest.
  destruct (load_job env (fJob f)) as [j|e] eqn:Ej.
  2: { left. eexists _, _. split; [done|]. split; [by right|apply Hfail]. }
  destruct (v && bool_decide (fInv f = [])).
  { left. eexists _, _. split; [done|]. split; [by left|apply Hout]. }
  destruct (select_targets env f j) as [ts|e] eqn:Et; simpl.
  2: { left. eexists _, _. split; [done|]. split; [by right|apply Hfail]. }
  destruct (run_input v f j ts) as [[o inp]|e] eqn:Ei; simpl.
  2: { left. eexists _, _. split; [done|]. split; [by right|apply Hfail]. }
  destruct (run_input_job v f j ts o inp Ei) as (Hj & Hts & Hskip & _).
  pose proof (Prepare_iff (ceKeys env) (ceEnv env) o inp) as Hp.
  rewrite Hj, Hts in Hp. specialize (Hp (load_job_valid _ _ Ej) (proj1 (select_targets_apart _ _ _ Et))).
  destruct (Prepare (ceKeys env) (ceEnv env) o inp) as [[r|e]|] eqn:Ep; [|left|done].
  2: { eexists _, _. split; [done|]. split; [by right|apply Hfail]. }
  destruct v.
  { left. eexists _, _. split; [done|]. split; [by left|apply Hout]. }
  destruct (fExecute f) eqn:Ex; simpl.
  - right. exists f, j, ts, o, inp, r. by repeat split.
  - left. unfold printPreview. case_bool_decide.
    + eexists _, _. split; [done|]. split; [by left|apply Hout].
    + destruct (ceEncodePreview env (fOutput f) _); eexists _, _; (split; [done|]);
        [split; [by left|apply Hout]|split; [by right|apply Hnil]].
Qed.

(** What [execute] does. *)
Lemma execute_spec f r w :
  let '(effs, code, w') := execute env f r w in
  (code = ExitError ∧ ∀ r', Contact r' ∉ effs) ∨
  ∃ opened warning last, effs = opened ++ [Contact r] ++ warning ++ [last] ∧
    opened = (if bool_decide (fReport f = "") then [] else [OpenReport (fReport f)]) ∧
    (∀ r', Contact r' ∉ warning ++ [last]) ∧
    match printReport env (fOutput f) (fVerbose f) (ceRun env r).1 with
    | Ok _ => code = (if OK (ceRun env r).1 then ExitOK else ExitHostsFailed)
    | Err _ => code = ExitError
    end.
Proof.
  unfold execute. destruct (open_report env (fReport f) w) as [[stream|e] w1].
  2: { left. split; [done|]. by intros r' Hin%list_elem_of_singleton. }
  destruct (ceRun env r) as [rep results]. simpl.
  destruct (save_report env (fReport f) stream rep results w1) as [saved w2].
  set (warning := match saved with Some e => _ | None => _ end).
  assert (∀ r' : Prepared Signer, Contact r' ∉ warning) as Hw.
  { unfold warning. destruct saved; intros r' Hin; [by apply list_elem_of_singleton in Hin|by apply elem_of_nil in Hin]. }
  destruct (printReport env (fOutput f) (fVerbose f) rep) as [s|e]; right;
    eexists _, warning, _; (split; [done|split; [done|split; [|done]]]);
    intros r' [Hin|Hin]%elem_of_app; try (by apply (Hw r')); by apply list_elem_of_singleton in Hin.
Qed.

(** Hosts were contacted: what was checked, and what follows. *)
Lemma run_contacted v p w w' effs code r :
  run env v p w = Some (effs, code, w') → Contact r ∈ effs →
  v = false ∧ ∃ f j ts o inp after, p = Parsed f [] ∧ fExecute f = true ∧ checked false f j ts o inp r ∧
    effs = (if bool_decide (fReport f = "") then [] else [OpenReport (fReport f)]) ++ [Contact r] ++ after ∧
    (∀ r', Contact r' ∉ after) ∧
    match printReport env (fOutput f) (fVerbose f) (ceRun env r).1 with
    | Ok _ => code = (if OK (ceRun env r).1 then ExitOK else ExitHostsFailed)
    | Err _ => code = ExitError
    end.
Proof.
  intros E Hin. destruct (run_cases v p w) as [(effs' & code' & E' & _ & Hno)|
    (f & j & ts & o & inp & r' & -> & -> & Hex & Hck & E')]; rewrite E' in E.
  { injection E as -> -> ->. by apply Hno in Hin. }
  injection E as E. pose proof (execute_spec f r' w) as He. rewrite E in He.
  destruct He as [[_ Hno]|(opened & warning & last & -> & Hop & Hno & Hc)]; [by apply Hno in Hin|].
  assert (r = r') as <-.
  { apply elem_of_app in Hin as [Hin|Hin].
    - rewrite Hop in Hin. case_bool_decide; [by apply elem_of_nil in Hin|by apply list_elem_of_singleton in Hin].
    - apply elem_of_app in Hin as [Hin|Hin]; [apply list_elem_of_singleton in Hin; by injection Hin|].
      by apply Hno in Hin. }
  split; [done|]. exists f, j, ts, o, inp, (warning ++ [last]). by rewrite Hop.
Qed.

(** The plans of checked flags. *)
Lemma checked_plans f j ts o inp r :
  checked false f j ts o inp r → fExecute f = true →
  valid_job j ∧ named_apart ts ∧ ts ≠ [] ∧ inpJob inp = j ∧ inpTargets inp = ts ∧
  declared inp ∧ prOptions r = o ∧ prInput r = inp ∧ opSkipCredentials o = false ∧
  Forall2 (prepared (ceKeys env) (ceEnv env) o inp (Redactor.redact (prRedact r))) ts (prPlans r) ∧
  opMaxRetryDelay o = opMaxRetryDelay (fOpts f) ∧
  ((0 ≤ opMaxRetryDelay o < 2 ^ 63)%Z →
   ∀ pl, pl ∈ prPlans r → runnable o (wait_fuel MaxTimeout) pl).
Proof.
  intros [Hu Hj Ht Hi Hp] Hex. destruct (run_input_job _ _ _ _ _ _ Hi) as (Ej & Ets & Hskip & Hdelay).
  destruct (select_targets_apart _ _ _ Ht) as [Hap Hne]. pose proof (load_job_valid _ _ Hj) as Hv.
  assert (valid_job (inpJob inp)) as Hv' by by rewrite Ej.
  assert (named_apart (inpTargets inp)) as Hap' by by rewrite Ets.
  pose proof (Prepare_iff (ceKeys env) (ceEnv env) o inp Hv' Hap') as Hpi. rewrite Hp, Ets in Hpi.
  destruct Hpi as (Hd & Ho & Hin & Hall). rewrite Hex in Hskip.
  split_and!; [done..|]. intros Hdl pl Hpl.
  eapply Prepare_plans_run; [exact Hv'|exact Hap'|exact Hskip|exact Hdl|exact Hp|exact Hpl].
Qed.

(** C1: hosts are contacted only by [rco run --execute], after every check
    has passed for every host: the flags, the job, the inventory, the selection
    and [Prepare] with the credentials.  They are contacted once, after the
    report file has been opened, and (unless [--max-retry-delay] is negative)
    every plan satisfies what the theorems about [runHost] assume. *)
Theorem run_contacts (v : bool) (p : parsed) (w w' : W) (effs : list (effect Signer)) (code : Z)
    (r : Prepared Signer) :
  run env v p w = Some (effs, code, w') → Contact r ∈ effs →
  v = false ∧ ∃ f j ts o inp, p = Parsed f [] ∧ fExecute f = true ∧ checked v f j ts o inp r ∧
    ts ≠ [] ∧ Forall2 (prepared (ceKeys env) (ceEnv env) o inp (Redactor.redact (prRedact r))) ts (prPlans r) ∧
    (∃ after, effs = (if bool_decide (fReport f = "") then [] else [OpenReport (fReport f)]) ++
       [Contact r] ++ after ∧ ∀ r', Contact r' ∉ after) ∧
    ((0 ≤ opMaxRetryDelay (fOpts f) < 2 ^ 63)%Z →
     ∀ pl, pl ∈ prPlans r → runnable o (wait_fuel MaxTimeout) pl).
Proof.
  intros E Hin. destruct (run_contacted _ _ _ _ _ _ _ E Hin)
    as (-> & f & j & ts & o & inp & after & -> & Hex & Hck & -> & Hno & _).
  split; [done|]. exists f, j, ts, o, inp.
  destruct (checked_plans _ _ _ _ _ _ Hck Hex)
    as (_ & _ & Hne & _ & _ & _ & _ & _ & _ & Hall & Hd & Hrun).
  rewrite Hd in Hrun. repeat (split; [first [done|by exists after]|]). exact Hrun.
Qed.

(** C26: the exit code is 0, 1 or 2.  Without contact it is 0 or 1.  With
    contact, 0 means that every host succeeded and 2 that some host did not; 1
    is left for a report that could not be printed. *)
Theorem run_exit_code (v : bool) (p : parsed) (w w' : W) (effs : list (effect Signer)) (code : Z) :
  (∀ r, ∃ now rep, (ceRun env r).1 = finish now rep) →
  run env v p w = Some (effs, code, w') →
  code ∈ [ExitOK; ExitError; ExitHostsFailed] ∧
  ((∀ r, Contact r ∉ effs) → code ≠ ExitHostsFailed) ∧
  ∀ r, Contact r ∈ effs →
    (code = ExitOK → ∀ h, h ∈ rpHosts (ceRun env r).1 → hrStatus h = StatusSuccess) ∧
    (code = ExitHostsFailed → ∃ h, h ∈ rpHosts (ceRun env r).1 ∧ hrStatus h ≠ StatusSuccess) ∧
    (code = ExitError → ∃ f e, p = Parsed f [] ∧
       printReport env (fOutput f) (fVerbose f) (ceRun env r).1 = Err e).
Proof.
  intros Hfin E. assert (code ∈ [ExitOK; ExitError; ExitHostsFailed] ∧
    ((∀ r, Contact r ∉ effs) → code ≠ ExitHostsFailed)) as [H1 H2].
  { destruct (run_cases v p w) as [(effs' & code' & E' & Hcode & _)|
      (f & j & ts & o & inp & r' & _ & _ & _ & _ & E')]; rewrite E' in E; injection E as E.
    - subst code'. split; [destruct Hcode as [->| ->]; set_solver|by destruct Hcode as [->| ->]].
    - pose proof (execute_spec f r' w) as He. rewrite E in He.
      destruct He as [[-> _]|(opened & warning & last & -> & _ & _ & Hc)]; [split; [set_solver|done]|].
      split; [|intros Hn; exfalso; apply (Hn r'); set_solver].
      destruct (printReport _ _ _ _); subst code; [destruct (OK _)|]; set_solver. }
  split; [exact H1|split; [exact H2|]]. intros r Hin.
  destruct (run_contacted _ _ _ _ _ _ _ E Hin)
    as (-> & f & j & ts & o & inp & after & -> & _ & _ & _ & _ & Hc).
  destruct (Hfin r) as (now & rep & Hrep). pose proof (finish_OK now rep) as HOK. rewrite <- Hrep in HOK.
  assert (rpHosts rep = rpHosts (ceRun env r).1) as Hhosts by by rewrite Hrep.
  rewrite Hhosts in HOK. clear Hrep Hhosts.
  destruct (printReport env (fOutput f) (fVerbose f) (ceRun env r).1) as [t|e] eqn:Ep; subst code.
  - destruct (OK (ceRun env r).1) eqn:EO; (split; [|split]); try done; intros _; [by apply HOK|].
    apply not_success. intros Hall. apply HOK in Hall. congruence.
  - split; [done|]. split; [done|]. intros _. by exists f, e.
Qed.

(** C27: no command panics before hosts are contacted: parsing, loading,
    selecting, preparing and printing always end with an exit code. *)
Theorem Main_returns (Version : string) (read : option string) (args : list string) (w : W) :
  ∃ effs code w', Main env Version read args w = Some (effs, code, w') ∧
    code ∈ [ExitOK; ExitError; ExitHostsFailed].
Proof.
  assert (∀ v p, ∃ effs code w', run env v p w = Some (effs, code, w') ∧
    code ∈ [ExitOK; ExitError; ExitHostsFailed]) as Hrun.
  { intros v p. destruct (run_cases v p w) as [(effs & code & -> & Hc & _)|
      (f & j & ts & o & inp & r & -> & -> & _ & _ & ->)].
    - exists effs, code, w. split; [done|]. destruct Hc as [->| ->]; set_solver.
    - pose proof (execute_spec f r w) as He. destruct (execute env f r w) as [[effs code] w'].
      exists effs, code, w'. split; [done|]. destruct He as [[-> _]|(? & ? & ? & _ & _ & _ & Hc)]; [set_solver|].
      destruct (printReport _ _ _ _); subst code; [destruct (OK _)|]; set_solver. }
  destruct args as [|cmd args]; unfold Main.
  { destruct (help_on_spec Stderr ExitError w) as [h ->]. eexists _, _, _. split; [done|set_solver]. }
  repeat case_bool_decide; try apply Hrun; try (eexists _, _, _; (split; [done|set_solver])).
Qed.

(** C2: hosts are contacted only if the command is [run] and one of its
    arguments is literally [--execute] (or [-execute], or with a true value after
    [=]): neither an alias nor a default nor another flag sets it. *)
Theorem contact_typed_out (Version : string) (read : option string) (args : list string) (w w' : W)
    (effs : list (effect Signer)) (code : Z) (r : Prepared Signer) :
  Main env Version read args w = Some (effs, code, w') → Contact r ∈ effs →
  ∃ rest, args = "run" :: rest ∧ Exists spells_execute rest.
Proof.
  intros E Hin. destruct args as [|cmd rest]; unfold Main in E.
  { destruct (help_on_spec Stderr ExitError w) as [h Hh]. rewrite Hh in E. injection E as <- _ _.
    by apply list_elem_of_singleton in Hin. }
  case_bool_decide as Hcmd.
  - exists rest. split; [by rewrite Hcmd|].
    destruct (run_contacted _ _ _ _ _ _ _ E Hin) as (_ & f & j & ts & o & inp & after & Hp & Hex & _).
    destruct (Parse_execute _ _ _ _ Hp Hex) as [Hd|He]; [done|exact He].
  - exfalso. case_bool_decide.
    { destruct (run_contacted _ _ _ _ _ _ _ E Hin) as [Hv _]. done. }
    case_bool_decide; [injection E as <- _ _; by apply list_elem_of_singleton in Hin|].
    case_bool_decide; [|injection E as <- _ _; by apply list_elem_of_singleton in Hin].
    destruct (help_on_spec Stdout ExitOK w) as [h Hh]. rewrite Hh in E. injection E as <- _ _.
    by apply list_elem_of_singleton in Hin.
Qed.
End run_properties.

(** ** A concrete command *)

Definition cli_os (path : string) : res string opened :=
  if bool_decide (path = "inv.yaml") then Ok (mkOpened None true "hosts" None)
  else load_os "echo a" "echo b" path.
(** The first host fails, the others succeed. *)
Definition cli_report (r : Prepared unit) : Report :=
  let host (i : nat) (p : Plan unit) :=
    new_host p (if bool_decide (i = 0) then StatusFailed else StatusSuccess) in
  finish 5 (mkReport "deploy" "" (jHash (inpJob (prInput r))) 0 0 0 (mkSummary 0 0 0 0 0)
    (imap host (prPlans r))).
Definition cli_world (tab : string → res string string) : cli_env (string * nat) unit :=
  {| ceIsDir := load_dir; ceOs := cli_os; ceJobYaml := load_yaml; ceSha256 := load_digest;
     ceInvYaml _ := (Inventory.example_inventory, None);
     ceRead _ := Err "no such file"; ceDecoders := rep_decoders;
     ceKeys := prep_keys; ceEnv := prep_env; ceFile := disk;
     ceRun r := (cli_report r, rpHosts (cli_report r));
     ceHostJson h := Ok (rep_enc h); ceSummaryJson _ := Ok "s deploy";
     ceEncode _ rep := Ok ("report of " +:+ rpJob rep); ceEncodePreview _ _ := Ok "preview";
     ceTab := tab |}.
Definition cli_flags (execute : bool) (report : string) : flags :=
  mkFlags ["inv.yaml"] [] [] ["web1"; "db1"] [] [] prep_options "deploy" "table" report "" ""
    execute false false.
Definition cli_run (execute : bool) (report : string) (tab : string → res string string) (disk : nat) :=
  @run default_runtime (string * nat) unit (cli_world tab) false
    (Parsed (cli_flags execute report) []) ("", disk).

Definition cli_outcome (x : option (list (effect unit) * Z * (string * nat)))
    : option (list string * Z * string) :=
  match x with
  | Some (effs, code, w) =>
      Some (map (λ e, match e with
        | Stdout s => s | Stderr s => "! " +:+ s | OpenReport p => "open " +:+ p
        | Contact r => "contact " +:+ str_join ", " (map (λ p, tName (plTarget p)) (prPlans r)) end) effs,
        code, fst w)
  | None => None
  end.

(** Without [--execute] there is only a preview. *)
Example cli_preview :
  cli_outcome (cli_run false "r.jsonl" Ok 100) =
  Some ([str_join newline
    ["db1 (postgres@10.0.1.1:22 via jump)"; "  1. first                script a.sh";
     "  2. second               script b.sh"; "web1 (admin@10.0.2.1:2222)";
     "  1. first                script a.sh"; "  2. second               script b.sh"; "";
     "preview: 2 hosts, stop after 1 failed hosts; nothing was executed. Add --execute to apply."; ""]],
    ExitOK, "").
Proof. by vm_compute. Qed.

Example cli_executes :
  cli_outcome (cli_run true "r.jsonl" Ok 100) =
  Some (["open r.jsonl"; "contact db1, web1";
    str_join newline
      ["HOST" +:+ tab +:+ "STATUS" +:+ tab +:+ "FAILED STEP" +:+ tab +:+ "REASON" +:+ tab +:+ "DURATION";
       "db1" +:+ tab +:+ "FAILED" +:+ tab +:+ "-" +:+ tab +:+ "-" +:+ tab +:+ "0s";
       "web1" +:+ tab +:+ "SUCCESS" +:+ tab +:+ "-" +:+ tab +:+ "-" +:+ tab +:+ "0s"; "";
       "2 hosts: 1 succeeded, 1 failed, 0 cancelled in 0s (job deploy, sha256 6e616d653a20)"; ""]],
    ExitHostsFailed,
    "h db1 FAILED" +:+ newline +:+ "h web1 SUCCESS" +:+ newline +:+ "s deploy" +:+ newline).
Proof. by vm_compute. Qed.

(** The exit code 1 does not mean that nothing was contacted: the report may fail
    to be printed. *)
Example cli_error_after_contact :
  (λ x, snd (fst x)) <$> cli_outcome (cli_run true "" (λ _, Err "broken pipe") 100) = Some ExitError ∧
  (λ x, fst (fst x)) <$> cli_outcome (cli_run true "" (λ _, Err "broken pipe") 100) =
    Some ["contact db1, web1"; "! error: broken pipe" +:+ newline].
Proof. split; by vm_compute. Qed.

(** A report that could not be saved does not change the exit code. *)
Example cli_report_lost :
  (λ x, fst (fst x) !! 2) <$> cli_outcome (cli_run true "r.jsonl" Ok 20) =
    Some (Some ("! error: writing report: no space left on device" +:+ newline)) ∧
  (λ x, snd (fst x)) <$> cli_outcome (cli_run true "r.jsonl" Ok 20) = Some ExitHostsFailed.
Proof. split; by vm_compute. Qed.

Lemma cli_contact : ∃ effs w' r,
  cli_run true "r.jsonl" Ok 100 = Some (effs, ExitHostsFailed, w') ∧ Contact r ∈ effs.
Proof.
  eexists _, _, _. split; [vm_compute; reflexivity|]. right. left.
Qed.

Lemma run_contacts_witness : ∃ (r : Prepared unit) (ts : list Target),
  ts ≠ [] ∧ length (prPlans r) = length ts.
Proof.
  destruct cli_contact as (effs & w' & r & E & Hin).
  destruct (@run_contacts default_runtime _ _ (cli_world Ok) _ _ _ _ _ _ r E Hin)
    as (_ & f & j & ts & o & inp & _ & _ & _ & Hne & Hall & _).
  exists r, ts. split; [exact Hne|]. symmetry. exact (Forall2_length _ _ _ Hall).
Defined.

Lemma run_exit_code_witness : ∃ r : Prepared unit, ∃ h,
  h ∈ rpHosts (cli_report r) ∧ hrStatus h ≠ StatusSuccess.
Proof.
  destruct cli_contact as (effs & w' & r & E & Hin).
  destruct (@run_exit_code default_runtime _ _ (cli_world Ok) _ _ _ _ _ _
    (λ r, ex_intro _ 5%Z (ex_intro _ _ eq_refl)) E) as (_ & _ & Hr).
  destruct (Hr r Hin) as (_ & H & _). exists r. exact (H eq_refl).
Defined.

(** A command line as it is typed. *)
Definition cli_typed : list string :=
  ["run"; "-i"; "inv.yaml"; "-j"; "deploy"; "--host"; "web1"; "-H=db1"; "--execute"].
Definition cli_main (args : list string) : option (list (effect unit) * Z * (string * nat)) :=
  @Main default_runtime (string * nat) unit (cli_world Ok) "dev" None args ("", 100).

Lemma cli_main_contact : ∃ effs w' r,
  cli_main cli_typed = Some (effs, ExitHostsFailed, w') ∧ Contact r ∈ effs.
Proof. eexists _, _, _. split; [vm_compute; reflexivity|left]. Qed.

Lemma contact_typed_out_witness : ∃ rest, cli_typed = "run" :: rest ∧ Exists spells_execute rest.
Proof.
  destruct cli_main_contact as (effs & w' & r & E & Hin).
  exact (@contact_typed_out default_runtime _ _ (cli_world Ok) "dev" None cli_typed _ _ _ _ r E Hin).
Defined.

(** [-execute=false] only gives a preview, and no alias stands for [--execute]. *)
Example cli_not_typed :
  (λ x, snd (fst x)) <$> cli_outcome (cli_main (removelast cli_typed ++ ["-execute=false"])) = Some ExitOK ∧
  (λ x, snd (fst x)) <$> cli_outcome (cli_main (removelast cli_typed ++ ["-e"])) = Some ExitError.
Proof. split; by vm_compute. Qed.
