(* ===== verification/Program.v ===== *)
(** * Program: a whole run, from the command line to the report

    The command of [Cli] contacts hosts through the run of [Schedule], whose hosts
    run [runHost]; the plans come from [Prepare].  Here the theorems about these
    parts are put together: what a finished run of [rco run --execute] means for
    the targets that were selected, for the exit code and for their secrets. *)

From S2P Require Import Prelude GoStd Domain Variables Job Build Credentials Report Runner.
From S2P Require Import TransportSpec StepSpec ConnectSpec RunnerSpec Script Schedule Shown Prepare JobLoad Reports Flags Cli.

(** [newReport] *)
Definition newReport (j : Job) (now : Z) : Report :=
  mkReport (jName j) (jVersion j) (jHash j) now 0 0 (mkSummary 0 0 0 0 0) [].

Section program.
Context `{GoRuntime} {W T Signer : Type} (env : cli_env W Signer).
Context `{!Transport T Signer} `{!TransportLaws T Signer}.

Definition run_fuel : nat := wait_fuel MaxTimeout.
Definition hide (r : Prepared Signer) : string → string := Redactor.redact (prRedact r).

(** [Runner.Run] on prepared plans ended in [s] with this report, and gave the
    results to [OnHostDone] in this order. *)
Record ended (r : Prepared Signer) (s : sched) (rep : Report) (results : list HostResult) : Prop := {
  en_reachable : Run_reachable (prOptions r) (hide r) run_fuel (prPlans r) s;
  en_finished : finished (prPlans r) s;
  en_report : ∃ startedAt now, rep = Run_report (newReport (inpJob (prInput r)) startedAt) now s;
  en_results : results = emitted s;
}.

(** A target's result has its name and those of the steps of the job. *)
Definition reports (j : Job) (t : Target) (h : HostResult) : Prop :=
  hrHost h = tName t ∧ map srName (hrSteps h) = map sName (jSteps j).

Lemma prepared_names o inp show t p h :
  valid_job (inpJob inp) → prepared (ceKeys env) (ceEnv env) o inp show t p →
  hrHost h = tName (plTarget p) → Forall2 step_of (plActions p) (hrSteps h) →
  reports (inpJob inp) t h.
Proof.
  intros Hj [Ht (vs & ss & acts & _ & Hb & Hacts) _ _] Hh Hst. split; [by rewrite Hh, Ht|].
  destruct (Build_actions (inpJob inp) vs (settings o) Hj) as (x & Hx & Hv).
  unfold builds in Hb. rewrite Hb in Hx. injection Hx as <-. destruct Hv as [Hlen Hv].
  assert (map srName (hrSteps h) = map aName acts) as ->.
  { rewrite Hacts in Hst. clear -Hst. revert Hst. generalize (hrSteps h).
    induction acts as [|a acts IH]; intros [|sr srs] Hst; inversion_clear Hst as [|? ? ? ? [Hn _] Hr]; [done|].
    simpl in *. by rewrite Hn, (IH srs Hr). }
  apply list_eq_same_length with (length acts); [by rewrite length_map|by rewrite length_map|].
  intros i x y _ Hx Hy. apply list_lookup_fmap_Some in Hx as (a & -> & Ha).
  apply list_lookup_fmap_Some in Hy as (st & -> & Hst'). by apply (Hv i st a).
Qed.

(** What a finished run leaves for each of the targets. *)
Lemma ended_results r s rep results :
  (∀ p, p ∈ prPlans r → runnable (prOptions r) run_fuel p) → ended r s rep results →
  rpHosts rep = report_hosts s ∧ length (rpHosts rep) = length (prPlans r) ∧ results ≡ₚ rpHosts rep ∧
  ∀ i p h, prPlans r !! i = Some p → rpHosts rep !! i = Some h →
    hrHost h = tName (plTarget p) ∧ Forall2 step_of (plActions p) (hrSteps h) ∧
    host_done (prOptions r) (hide r) run_fuel p s h.
Proof.
  intros Hr [Hs Hf (st & now & ->) ->].
  destruct (Run_results (prOptions r) (hide r) run_fuel (prPlans r) s Hr Hs Hf) as (Hl & Hem & Hall).
  by split_and!.
Qed.

(** A result with status SUCCESS. *)
Lemma host_success r p s h :
  runnable (prOptions r) run_fuel p → host_done (prOptions r) (hide r) run_fuel p s h →
  hrStatus h = StatusSuccess → Forall (λ sr, srStatus sr = StatusSuccess) (hrSteps h).
Proof.
  intros Hr [(s1 & s2 & E)|[(reason & -> & _)|(reason & -> & _)]] Hst; [|done..].
  by eapply runHost_success.
Qed.

(** C4: when a run of [rco run --execute] has ended, in whatever order
    its hosts ran, the report has exactly one result for each selected target, in
    order, with one entry per step of the job, and these are the results of the
    streamed report.  Exit code 0 means that every step of the job succeeded on
    every selected target; exit code 2 that some target did not succeed. *)
Theorem execute_complete (v : bool) (p : parsed) (w w' : W) (effs : list (effect Signer)) (code : Z)
    (r : Prepared Signer) (s : sched) :
  run env v p w = Some (effs, code, w') → Contact r ∈ effs →
  (0 ≤ opMaxRetryDelay (prOptions r) < 2 ^ 63)%Z → ended r s (ceRun env r).1 (ceRun env r).2 →
  ∃ f j ts, p = Parsed f [] ∧ load_job env (fJob f) = Ok j ∧ select_targets env f j = Ok ts ∧ ts ≠ [] ∧
    Forall2 (reports j) ts (rpHosts (ceRun env r).1) ∧ (ceRun env r).2 ≡ₚ rpHosts (ceRun env r).1 ∧
    (code = ExitOK → ∀ h, h ∈ rpHosts (ceRun env r).1 →
       hrStatus h = StatusSuccess ∧ Forall (λ sr, srStatus sr = StatusSuccess) (hrSteps h)) ∧
    (code = ExitHostsFailed → ∃ h, h ∈ rpHosts (ceRun env r).1 ∧ hrStatus h ≠ StatusSuccess).
Proof.
  intros E Hin Hd Hend. destruct (run_contacted env _ _ _ _ _ _ _ E Hin)
    as (-> & f & j & ts & o & inp & after & -> & Hex & Hck & -> & _ & Hc).
  destruct (checked_plans env _ _ _ _ _ _ Hck Hex)
    as (Hv & _ & Hne & Hj & Hts & _ & Ho & Hi & _ & Hall & _ & Hrun).
  rewrite Ho in Hd. specialize (Hrun Hd). rewrite <- Ho in Hrun.
  destruct (ended_results _ _ _ _ Hrun Hend) as (Hh & Hl & Hem & Hres).
  assert (OK (ceRun env r).1 = true ↔ ∀ h, h ∈ rpHosts (ceRun env r).1 → hrStatus h = StatusSuccess) as HOK.
  { destruct Hend as [_ _ (st & now & ->) _]. exact (finish_OK now _). }
  exists f, j, ts. destruct Hck as [_ Hload Hsel _ _]. split_and!; try done.
  - apply Forall2_same_length_lookup_2; [by rewrite Hl; apply (Forall2_length _ _ _ Hall)|].
    intros i t h Ht Hhi. destruct (Forall2_lookup_l _ _ _ _ _ Hall Ht) as (pl & Hpl & Hpr).
    destruct (Hres i pl h Hpl Hhi) as (Hn & Hst & _). rewrite <- Hj in Hv |- *.
    exact (prepared_names _ _ _ _ _ _ Hv Hpr Hn Hst).
  - intros -> h Hin'. assert (hrStatus h = StatusSuccess) as Hst.
    { destruct (printReport _ _ _ _); [|done]. destruct (OK _); [|done]. by apply HOK. }
    split; [exact Hst|]. apply list_elem_of_lookup in Hin' as [i Hhi].
    destruct (lookup_lt_is_Some_2 (prPlans r) i) as [pl Hpl]; [rewrite <- Hl; by eapply lookup_lt_Some|].
    destruct (Hres i pl h Hpl Hhi) as (_ & _ & Hdone).
    eapply host_success; [by eapply Hrun, list_elem_of_lookup_2|exact Hdone|exact Hst].
  - intros ->. apply not_success. intros Hs%HOK. destruct (printReport _ _ _ _); [|done].
    by rewrite Hs in Hc.
Qed.

(** ** Secrets *)

Lemma told_out r sec x :
  Redactor.inv (prRedact r) → sec ∈ prRedact r → Redactor.plain_secret sec →
  ¬ occurs sec SensitiveMask → told (hide r) x → ¬ occurs sec x.
Proof.
  intros Hi Hin Hp Hm [->|[->|(y & ->)]]; [|done|by apply Redactor.redact_out].
  intros Ho%occurs_length. destruct Hi as [Hl _ _]. rewrite Forall_forall in Hl.
  specialize (Hl _ Hin). unfold MinSecretLen in Hl. simpl in Ho. lia.
Qed.

(** The secret is in no text of the step's result. *)
Definition silent (sec : string) (sr : StepResult) : Prop :=
  ¬ occurs sec (srCommand sr) ∧ ¬ occurs sec (srStdout sr) ∧ ¬ occurs sec (srStderr sr) ∧
  ¬ occurs sec (srReason sr).

Lemma shown_silent r o inp t p srs sec :
  Redactor.inv (prRedact r) → sec ∈ prRedact r → Redactor.plain_secret sec →
  ¬ occurs sec SensitiveMask → prepared (ceKeys env) (ceEnv env) o inp (hide r) t p →
  Forall2 (step_shown (hide r)) (plActions p) srs → Forall (silent sec) srs.
Proof.
  intros Hi Hin Hp Hm [_ (vs & ss & acts & _ & _ & Hacts) _ _] Hall.
  apply Forall_lookup. intros i sr Hsr.
  destruct (Forall2_lookup_r _ _ _ _ _ Hall Hsr) as (a & Ha & [Hc H1 H2 H3 _ _]).
  split_and!; try by eapply told_out.
  rewrite Hc. rewrite Hacts in Ha. apply list_lookup_fmap_Some in Ha as (a0 & -> & _).
  by apply Redactor.redact_out.
Qed.

(** C3: no secret of any selected target (of its sensitive variables, of
    its [--var-env] values, of its credentials and those of its bastion) that has
    at least three bytes, no square bracket and is part neither of the word REDACTED
    nor of [SensitiveMask] occurs, as it is written, in the report of a run that ended
    (with a maximum delay that is not negative): neither in the commands, the output and the failures of
    the steps, whatever the hosts print, nor in the reason of a host that was
    started. *)
Theorem execute_silent (v : bool) (p : parsed) (w w' : W) (effs : list (effect Signer)) (code : Z)
    (r : Prepared Signer) (s : sched) (t : Target) (sec : string) :
  run env v p w = Some (effs, code, w') → Contact r ∈ effs →
  (0 ≤ opMaxRetryDelay (prOptions r) < 2 ^ 63)%Z → ended r s (ceRun env r).1 (ceRun env r).2 →
  t ∈ inpTargets (prInput r) →
  secret_of (ceKeys env) (ceEnv env) (prOptions r) (prInput r) t sec →
  MinSecretLen ≤ String.length sec → Redactor.plain_secret sec → ¬ occurs sec SensitiveMask →
  ∀ h, h ∈ rpHosts (ceRun env r).1 → Forall (silent sec) (hrSteps h) ∧
    (¬ occurs sec (hrReason h) ∨ ∃ pl st reason, pl ∈ prPlans r ∧ h = notStarted pl st reason).
Proof.
  intros E Hin Hd Hend Ht Hs Hlen Hp Hm h Hh. destruct (run_contacted env _ _ _ _ _ _ _ E Hin)
    as (-> & f & j & ts & o & inp & after & -> & Hex & Hck & -> & _).
  destruct (checked_plans env _ _ _ _ _ _ Hck Hex)
    as (Hv & Hap & Hne & Hj & Hts & Hdecl & Ho & Hi & _ & Hall & _ & Hrun).
  rewrite Ho in Hd, Hs. rewrite Hi in Ht, Hs. rewrite <- Hj in Hv. rewrite <- Hts in Hap.
  destruct (Prepare_outcome (ceKeys env) (ceEnv env) o inp Hv Hap Hdecl) as (rd & issues & Hinv & Hk & _ & Hout).
  specialize (Hk t sec Ht Hs Hlen). pose proof (ck_prepare _ _ _ _ _ _ _ _ Hck) as Hprep.
  assert (prRedact r = rd) as <-.
  { destruct issues; [|by rewrite Hout in Hprep]. destruct Hout as (ps & Hout & _).
    rewrite Hout in Hprep. by injection Hprep as <-. }
  specialize (Hrun Hd). rewrite <- Ho in Hrun.
  destruct (ended_results _ _ _ _ Hrun Hend) as (_ & Hl & _ & Hres).
  apply list_elem_of_lookup in Hh as [i Hhi].
  destruct (lookup_lt_is_Some_2 (prPlans r) i) as [pl Hpl]; [rewrite <- Hl; by eapply lookup_lt_Some|].
  destruct (Forall2_lookup_r _ _ _ _ _ Hall Hpl) as (t' & _ & Hpr).
  destruct (Hres i pl h Hpl Hhi) as (_ & _ & Hdone).
  assert (∀ srs, Forall2 (step_shown (hide r)) (plActions pl) srs → Forall (silent sec) srs) as Hsil.
  { intros srs. by eapply shown_silent. }
  destruct Hdone as [(s1 & s2 & Er)|[(reason & -> & _)|(reason & -> & _)]].
  - apply runHost_told in Er as [Hr _ Hsteps]. split; [by apply Hsil|left]. by eapply told_out.
  - split; [apply Hsil, notStarted_shown|right]. eexists pl, _, _.
    split; [by eapply list_elem_of_lookup_2|done].
  - split; [apply Hsil, notStarted_shown|right]. eexists pl, _, _.
    split; [by eapply list_elem_of_lookup_2|done].
Qed.
End program.

(** ** A concrete run: the first host prints its password and fails, the second
    one is not started *)

Definition prog_start : state script :=
  mkState (mkScript 0 None [None] [run_with "/tmp/a" 0; run_with "the password is hunter2" 3]) 0 [].
Definition prog_host (r : Prepared unit) (p : Plan unit) : HostResult :=
  match @runHost default_runtime script unit script_transport (prOptions r) (hide r) run_fuel p prog_start with
  | Ret h _ => h
  | _ => new_host p StatusFailed
  end.
Definition prog_end (r : Prepared unit) : sched :=
  match prPlans r with
  | [p0; p1] =>
      let h0 := prog_host r p0 in
      let h1 := notStarted p1 StatusSkipped (skip_reason 1 1) in
      mkSched 2 Choosing 0 1 false [Released h0; NotRun h1] [h1; h0]
  | ps => start ps
  end.
Definition prog_report (r : Prepared unit) : Report :=
  Run_report (newReport (inpJob (prInput r)) 0) 5 (prog_end r).
Definition prog_world : cli_env (string * nat) unit :=
  {| ceIsDir := load_dir; ceOs := cli_os; ceJobYaml := load_yaml; ceSha256 := load_digest;
     ceInvYaml _ := (Inventory.example_inventory, None);
     ceRead _ := Err "no such file"; ceDecoders := rep_decoders;
     ceKeys := prep_keys; ceEnv := prep_env; ceFile := disk;
     ceRun r := (prog_report r, emitted (prog_end r));
     ceHostJson h := Ok (rep_enc h); ceSummaryJson _ := Ok "s deploy";
     ceEncode _ rep := Ok ("report of " +:+ rpJob rep); ceEncodePreview _ _ := Ok "preview";
     ceTab := Ok |}.
Definition prog_result : option (list (effect unit) * Z * (string * nat)) :=
  @run default_runtime (string * nat) unit prog_world false (Parsed (cli_flags true "r.jsonl") []) ("", 100).
Definition prog_effects : list (effect unit) := match prog_result with Some (effs, _, _) => effs | None => [] end.
Definition prog_prepared : Prepared unit :=
  match prog_effects !! 1 with Some (Contact r) => r | _ => mkPrepared prep_options prep_input [] [] end.

Example prog_output :
  cli_outcome prog_result =
  Some (["open r.jsonl"; "contact db1, web1";
    str_join newline
      ["HOST" +:+ tab +:+ "STATUS" +:+ tab +:+ "FAILED STEP" +:+ tab +:+ "REASON" +:+ tab +:+ "DURATION";
       "db1" +:+ tab +:+ "FAILED" +:+ tab +:+ "first" +:+ tab +:+ "exit code 3, expected 0" +:+ tab +:+ "3s";
       "web1" +:+ tab +:+ "SKIPPED" +:+ tab +:+ "-" +:+ tab +:+
         "not started: 1 hosts failed (--max-failures 1)" +:+ tab +:+ "0s"; "";
       "2 hosts: 0 succeeded, 1 failed, 0 cancelled, 1 skipped in 0s (job deploy, sha256 6e616d653a20)"; ""]],
    ExitHostsFailed,
    "h web1 SKIPPED" +:+ newline +:+ "h db1 FAILED" +:+ newline +:+ "s deploy" +:+ newline) ∧
  map (λ h, map srStdout (hrSteps h)) (rpHosts (prog_report prog_prepared)) =
    [["the password is [REDACTED]"; ""]; [""; ""]].
Proof. split; by vm_compute. Qed.

Lemma prog_contact :
  (∃ w', prog_result = Some (prog_effects, ExitHostsFailed, w')) ∧ Contact prog_prepared ∈ prog_effects.
Proof.
  split; [eexists; by vm_compute|].
  apply list_elem_of_lookup. exists 1. by vm_compute.
Qed.

(** The schedule of the example, for any two plans whose first host fails. *)
Lemma first_fails_reachable (plans : list (Plan unit)) (p0 p1 : Plan unit) out (h : HostResult) :
  plans = [p0; p1] → out 0 h → hrStatus h = StatusFailed →
  reachable plans 10 1 out
    (mkSched 2 Choosing 0 1 false [Released h; NotRun (notStarted p1 StatusSkipped (skip_reason 1 1))]
       [notStarted p1 StatusSkipped (skip_reason 1 1); h]).
Proof.
  intros -> Ho Hf.
  eapply rtc_l; [apply step_acquire; [done|simpl; lia|unfold conc; simpl; lia]|].
  eapply rtc_l; [apply step_start; [done|done|simpl; lia]|].
  eapply rtc_l; [by eapply (step_record _ _ _ _ _ 0 h)|].
  eapply rtc_l; [by eapply (step_count _ _ _ _ _ 0 h)|].
  cbn [start length replicate hosts list_insert next main places failures cancelled insert emitted].
  rewrite decide_True by exact Hf.
  eapply rtc_l; [apply step_acquire; [done|simpl; lia|unfold conc; simpl; lia]|].
  eapply rtc_l; [by apply (step_skip _ _ _ _ _ p1 1)|].
  eapply rtc_l; [by eapply (step_report _ _ _ _ _ 0 h)|].
  eapply rtc_l; [by eapply (step_release _ _ _ _ _ 0 h)|]. apply rtc_refl.
Qed.

Lemma first_fails_ended (r : Prepared unit) (p0 p1 : Plan unit) (s' : state script) :
  prPlans r = [p0; p1] → opMaxFailures (prOptions r) = 1%Z → opConcurrency (prOptions r) = 10%Z →
  @runHost default_runtime script unit script_transport (prOptions r) (hide r) run_fuel p0 prog_start =
    Ret (prog_host r p0) s' →
  hrStatus (prog_host r p0) = StatusFailed →
  @ended default_runtime script unit script_transport r (prog_end r) (prog_report r) (emitted (prog_end r)).
Proof.
  intros Hp Hm Hc E Hf. split; [| |by exists 0%Z, 5%Z|done]; unfold prog_end; rewrite Hp.
  - unfold Run_reachable. rewrite Hm, Hc. apply (first_fails_reachable _ p0); [done| |done].
    exists p0, prog_start, s'. exact (conj eq_refl E).
  - split; [done|split; [done|]]. by repeat constructor.
Qed.

Definition prog_plan (i : nat) : Plan unit := default example_plan (prPlans prog_prepared !! i).
Definition prog_last (r : Prepared unit) (p : Plan unit) : state script :=
  match @runHost default_runtime script unit script_transport (prOptions r) (hide r) run_fuel p prog_start with
  | Ret _ s => s
  | _ => prog_start
  end.

Lemma prog_plans : prPlans prog_prepared = [prog_plan 0; prog_plan 1].
Proof. by vm_compute. Qed.
Lemma prog_limits : opMaxFailures (prOptions prog_prepared) = 1%Z ∧ opConcurrency (prOptions prog_prepared) = 10%Z ∧
  (0 ≤ opMaxRetryDelay (prOptions prog_prepared) < 2 ^ 63)%Z.
Proof. by vm_compute. Qed.
Lemma prog_runs :
  @runHost default_runtime script unit script_transport (prOptions prog_prepared) (hide prog_prepared) run_fuel
    (prog_plan 0) prog_start =
  Ret (prog_host prog_prepared (prog_plan 0)) (prog_last prog_prepared (prog_plan 0)).
Proof. by vm_compute. Qed.
Lemma prog_fails : hrStatus (prog_host prog_prepared (prog_plan 0)) = StatusFailed.
Proof. by vm_compute. Qed.

Lemma prog_ended :
  @ended default_runtime script unit script_transport prog_prepared (prog_end prog_prepared)
    (prog_report prog_prepared) (emitted (prog_end prog_prepared)).
Proof.
  destruct prog_limits as (Hm & Hc & _).
  exact (first_fails_ended _ _ _ _ prog_plans Hm Hc prog_runs prog_fails).
Qed.

Lemma execute_complete_witness :
  map hrHost (rpHosts (prog_report prog_prepared)) = ["db1"; "web1"] ∧
  ∃ h, h ∈ rpHosts (prog_report prog_prepared) ∧ hrStatus h ≠ StatusSuccess.
Proof.
  destruct prog_contact as [[w' E] Hin]. destruct prog_limits as (_ & _ & Hd).
  destruct (@execute_complete default_runtime (string * nat) script unit prog_world script_transport script_laws
    _ _ _ _ _ _ _ (prog_end prog_prepared) E Hin Hd prog_ended)
    as (f & j & ts & _ & _ & _ & _ & _ & _ & _ & Hc).
  split; [by vm_compute|exact (Hc eq_refl)].
Defined.

Lemma prog_secret : ∃ t, t ∈ inpTargets (prInput prog_prepared) ∧
  @secret_of default_runtime unit prep_keys prep_env (prOptions prog_prepared) (prInput prog_prepared) t "hunter2".
Proof.
  exists (plTarget (prog_plan 0)). split.
  - apply list_elem_of_lookup. exists 0. by vm_compute.
  - eexists _, []. split; [by vm_compute|right].
    eexists _, (eCredential (tEndpoint (plTarget (prog_plan 0)))), _. split; [by vm_compute|].
    split; [by vm_compute|]. split; [apply list_elem_of_here|]. split; [by vm_compute|].
    apply list_elem_of_here.
Qed.

Lemma hunter2_plain : Redactor.plain_secret "hunter2" ∧ ¬ occurs "hunter2" SensitiveMask.
Proof. repeat split; apply (bool_decide_unpack _); by vm_compute. Qed.

Lemma execute_silent_witness :
  Forall (λ h, Forall (silent "hunter2") (hrSteps h)) (rpHosts (prog_report prog_prepared)).
Proof.
  destruct prog_contact as [[w' E] Hin]. destruct prog_limits as (_ & _ & Hd).
  destruct prog_secret as (t & Ht & Hs). destruct hunter2_plain as [Hp Hm].
  assert (MinSecretLen ≤ String.length "hunter2") as Hl by (unfold MinSecretLen; simpl; lia).
  apply Forall_forall. intros h Hh.
  exact (proj1 (@execute_silent default_runtime (string * nat) script unit prog_world script_transport script_laws
    _ _ _ _ _ _ _ (prog_end prog_prepared) t "hunter2" E Hin Hd prog_ended Ht Hs Hl Hp Hm h Hh)).
Defined.
